(* ===== verification/_CoqProject ===== *)
-Q . S2P
Prelude.v
IntUtil.v
Varint.v
Archive.v
TxFormat.v
TxExtra.v
Emission.v
Coinbase.v
Difficulty.v
HardFork.v
I18n.v
Base58.v
JS.v
Faucet.v
FaucetPage.v
FaucetStyle.v
FaucetProxy.v
Doubles.v
FaucetAnimation.v
TreeHash.v
Points.v
BlockFormat.v
TxWeight.v
MergeMining.v
Pruning.v
BlockQueue.v
Mnemonics.v
SeedWords.v
SeedEnglish.v
EpeeText.v
Checkpoints.v
RollingMedian.v
Medians.v
Weights.v
Fees.v
Money.v
