(* ===== verification/Prelude.v ===== *)
(** * LODE chain: a verification development

    LODE chain is a CryptoNote coin: a node in C++ (under src/src) that decides which
    blocks are valid and how many coins they create, wallets that talk to it, and a
    web faucet in JavaScript (src/deploy/faucet/app.js) that gives out testnet coins
    through a wallet.  This library models the rules that fix the money supply, the
    proof of work and the fork schedule, the wire format and the ids of transactions and
    blocks, their Merkle trees, checkpoints and pruning, the text form of addresses, keys and JSON strings, the translation
    runtime, and the whole faucet, and proves them correct.  Paths below are relative
    to the repository.

    ** Files

    Prelude (this file): machine integers with their wrap-around, the monad [outcome]
    of calls that return, throw, fail an assertion, are undefined or run out of fuel,
    positional numerals, the tactics [run] and [zcase], and shared lemmas.

    IntUtil: contrib/epee int-util.h and int-util.cpp (mul128, div128_32, div128_64,
    the clamped operations) and the portable mul of difficulty.cpp.  The word-wise
    algorithms compute the exact product, quotient and remainder.

    Emission: get_min_block_weight and get_block_reward of
    cryptonote_basic_impl.cpp: halving, cap and weight penalty.  The reward is the
    halved subsidy with the quadratic penalty, in exact arithmetic.

    Coinbase: construct_miner_tx, decompose_amount_into_digits, the two validations
    of the miner transaction in blockchain.cpp and the update of the generated coins.
    A chain is a sequence of accepted blocks; no chain emits more than the schedule,
    blocks within the median bring every chain to the same final supply,
    a coinbase claims no more than reward and fees, and what a miner builds is
    accepted.  Deriving the keys of its outputs is an argument.

    Difficulty: check_hash and next_difficulty of difficulty.cpp, in 64 and 128 bits,
    and hex.  The carry chains decide hash * difficulty < 2^256; the next difficulty
    is work * target / span rounded up, over the middle 600 of 720 blocks, and no assertion or
    index fails.

    HardFork: the class HardFork of hardfork.cpp with the tables of hardforks.cpp,
    over the two database tables it uses.  Histories of added and popped blocks,
    reorganisations and restarts preserve its invariant; the window holds the newest
    votes; the schedule of the three networks is version 1 for blocks 0 and 1 and
    version 16 from block 2 on.

    I18n: i18n.cpp, from the environment variable to the lookup, with the reader of
    compiled catalogues byte by byte.  It is memory safe and terminates on every
    file, and reads back what a reference writer of the format writes (without zero bytes, which
    end a C string).

    Varint and Base58: varint.h and base58.cpp.  Both codecs are inverse to their
    decoders, encodings are unique, and addresses with tag and checksum round-trip.
    The hash is an argument of which only the length of its results is assumed.

    Archive: src/src/serialization, the binary archives.  The code has one template for
    both directions; here it is a [codec], and the fields, containers and variants of the
    code are functions on codecs.  The laws of a codec ([lawful], [solid], [hungry]) are
    proved once for each of them: what is saved loads back whatever follows, and what
    loads is a value of the type, loaded from the bytes it is saved as, unless the
    archive ended inside a number.

    TxFormat: the types of cryptonote_basic.h and rctTypes.h and their codecs, with
    every RingCT type, and which values they hold.

    TxExtra: tx_extra.h and the functions on the extra field.  Sorting is a stable sort
    of the fields by type; the extra field of a coinbase can be built exactly for extra
    nonces of up to 127 bytes.

    Points: ge_frombytes_vartime of crypto-ops.c, the reading of a point, on which
    scalarmultKey of rctOps.cpp throws.  Limbs and carries are those of the code and
    field elements their values mod p; what is read is on the curve and canonical.

    BlockFormat: the parsers of transactions and blocks and the hashes of both, in
    cryptonote_format_utils.cpp, on top of TxFormat, TreeHash and Points.  Parsing has no
    undefined behaviour on any bytes and throws only on a commitment that is no point, RingCT transactions have
    one encoding, which blobs parse to a block is given
    in full, equal ids of different blocks show two texts with one hash among those
    hashed for them (the exception for block 202612 aside), and the coinbase of a template (Coinbase, TxExtra) goes over the wire unchanged.

    TxWeight: the weights of transactions in cryptonote_format_utils.cpp and the parser of
    what pruning leaves.  A pruned transaction has the weight of the whole.

    JS: the part of ECMAScript that the faucet uses: values, property access,
    truthiness, conversion to strings, trim, and JSON.stringify, whose quoting is
    shown to lose nothing.

    Faucet: the server of app.js.  The handler of POST /faucet is cut at its two
    awaits ([faucet_begin], [faucet_finish], [faucet_catch]); the server is the
    function [step] from a state (the limiter's store, the waiting handlers) and an
    event (a request, the end of a client's window, a settled promise) to a state and
    outputs, and theorems are about runs over any sequence of events.  What
    express-rate-limit promises is the class [RateLimit] with its laws, and
    [memory_store] is an instance of it.  In a window a client gets at most one transfer, of
    exactly 10 LODE, to an address that passes the checks; every request is answered
    exactly once; the checks on the address agree with the prefixes of the networks,
    through Base58.

    FaucetPage: the form that the server sends: the elements of its body and
    requestLODE on them, with user and network as events.  At most one request is in
    flight and the button follows it, and composed with Faucet: what the server
    answers is what the page shows.

    FaucetStyle: the head of that page, its style sheet rule by rule, and the cascade.
    In every state of the form the button looks as it works, and a result is displayed
    exactly when there is one.  The browser's own sheet is the class [UserAgent].

    FaucetProxy: the firewall, nginx and the trusted proxy between the faucet and the
    world.  No header that a host sends gives it a second transfer.  nginx and Express
    are the class [Forwarding] with their documented behaviour.

    Doubles: IEEE doubles (the executable floats of the Standard Library): exact
    integers and products, and the floor of a rounded quotient.

    FaucetAnimation: init, Particle and animate of the page's background.  The
    in-place loops draw the frame that a closed description gives; init makes exactly
    area / 12000 particles; one frame is always due.

    TreeHash: tree-hash.c, over arrays with bounds, for any hash of two hashes.  The
    root is that of the most balanced tree of the hashes in order, branches are
    accepted, and a forged one shows a collision.  The run on trees in the place of hashes
    lists what is hashed for a root.

    MergeMining: merge_mining.cpp and the search of add_aux_pow in
    core_rpc_server.cpp, on top of TreeHash.  The search takes the first nonce without a
    collision of slots; the depth round-trips for up to 256 chains.

    Pruning: pruning.cpp and pruning.h.  The next kept height is the least one, and
    each block before the tip belongs to exactly one seed.

    BlockQueue: block_queue.cpp and block_queue.h, the spans of blocks asked of peers,
    over Pruning; hashes, entries, connections and times are of any type, and each
    operation is one step because it holds the lock.  Every history keeps the queue in
    order; what reserve_span reserves, the peer has; as long as spans share no hash,
    exactly the blocks of the spans count as requested.

    Mnemonics, SeedWords, SeedEnglish: electrum-words.cpp, language_base.h, utf8.h and
    the split of wipeable_string.cpp, for any languages; the English and Chinese word
    lists; and that every key goes through an English seed unchanged.  towlower and the
    CRC are arguments.

    EpeeText: hex.cpp and the JSON strings of parserse_base_utils.cpp.  Both round-trip,
    and the one way to read past a buffer is found.

    Checkpoints: checkpoints.cpp and the parts of blockchain.cpp that enforce it, over
    a chain of block hashes.  Points are never changed, alternative blocks are allowed
    exactly above them, and what enforcing does to a wrong chain is given in full, with the
    exception when only the genesis block is left.

    RollingMedian: rolling_median.h, two heaps of indices around the median over a
    circular queue.  Through any insertions it agrees with sorting the last values
    (the median of Coinbase) and stays inside its arrays, for capacities below 2^27, whose
    count of bytes fits the int of the constructor.

    Medians, Weights, Fees: the median by ranks; the long term weights of blocks, their
    cached median and the weight limit of blockchain.cpp; the fee that check_fee asks for, the fees
    that the node recommends, round_money_up and the wallet's fee.  The cache never shows,
    through any additions and removals of blocks; long term weights grow by at most 1.7
    each 50,000 blocks once the chain is that long; and it is decided when a transaction with the recommended
    fee is accepted.  That a block's hash belongs to one chain is the class [BlockIds].

    Money: print_money, parse_amount and the units of cryptonote_format_utils.cpp and
    set_unit of the wallet; Boost's functions are the class [Boost].  Printed amounts are
    read back for any number of decimals.

    ** Fuel

    Loops that are not structural take fuel and end in [Diverge] without it; every
    theorem about them shows that the fuel given is enough.  write_varint needs 9
    rounds for 64 bits, encode_block 11 digits, hex 32 digits; the loops of the
    catalogue reader get at least one round for each byte of the file, of which every
    round uses some; popping uses the number of blocks; the loops of the trees halve a
    count, and those of the heaps halve or double an index, within the length of the
    array; the fields of an extra field take a byte each.  decompose_loop, for which 21
    rounds are shown to suffice, returns what it has.

    ** Not modelled

    The verification of signatures and proofs, the group law and the limbs inside the
    products of field elements, hash functions (arguments where they are
    used) and key derivation; the peer-to-peer network beyond the block queue, and of that the
    averages of download rates in single precision; the database engine, threads and
    locks; the JSON archives and the cached hashes of transactions; what
    the code hashes of a transaction that cannot be saved; wallets and RPC servers, which are calls into these; the files and DNS records that checkpoints
    come from; the word lists other than the two.  The translations/*.ts files are Qt
    catalogues, XML data without code.  Of the faucet: the layout that a
    browser makes of the styles, the logging, and Express itself, of which the routes and
    the parsed body are taken as they reach the program;
    numbers that are not safe integers are carried with the text that the language
    prints for them, and the transport of an answer from server to page is taken to
    keep its value. *)

From Stdlib Require Import ZArith Lia.
From stdpp Require Export base numbers list list_numbers relations sorting.

#[global] Open Scope Z_scope.

(** ** Machine integers

    A C++ unsigned integer of width [w] is a [Z] in [0, 2^w); arithmetic on it
    is arithmetic on [Z] followed by a wrap-around. *)

Definition u8 (z : Z) : Z := z mod 2 ^ 8.
Definition u16 (z : Z) : Z := z mod 2 ^ 16.
Definition u32 (z : Z) : Z := z mod 2 ^ 32.
Definition u64 (z : Z) : Z := z mod 2 ^ 64.
Definition u128 (z : Z) : Z := z mod 2 ^ 128.

Definition in_u8 (z : Z) : Prop := 0 <= z < 2 ^ 8.
Definition in_u32 (z : Z) : Prop := 0 <= z < 2 ^ 32.
Definition in_u64 (z : Z) : Prop := 0 <= z < 2 ^ 64.
Definition in_u128 (z : Z) : Prop := 0 <= z < 2 ^ 128.

Declare Scope word_scope.
Delimit Scope word_scope with word.
Notation "a ⊞ b" := (u64 (a + b)) (at level 50, left associativity) : word_scope.
Notation "a ⊟ b" := (u64 (a - b)) (at level 50, left associativity) : word_scope.
Notation "a ⊠ b" := (u64 (a * b)) (at level 40, left associativity) : word_scope.

(** Left shift of a 64-bit word. *)
Definition shl64 (a n : Z) : Z := u64 (Z.shiftl a n).

(** ** Outcomes of a call

    A call returns a value, is left by an exception, stops the process in a
    failed [assert] (debug builds only), or has undefined behaviour (an
    out-of-range access).  [Diverge] is a loop that used up the fuel it was
    given; the theorems about a loop with fuel show that it does not occur. *)

Inductive outcome (A : Type) : Type :=
  | Val (a : A)
  | Throw
  | Abort
  | Undef
  | Diverge.
Arguments Val {A} a.
Arguments Throw {A}.
Arguments Abort {A}.
Arguments Undef {A}.
Arguments Diverge {A}.

#[global] Instance outcome_ret : MRet outcome := fun A a => Val a.
#[global] Instance outcome_bind : MBind outcome := fun A B f m =>
  match m with
  | Val a => f a
  | Throw => Throw
  | Abort => Abort
  | Undef => Undef
  | Diverge => Diverge
  end.

(** [assert(b)]: compiled out when [NDEBUG] is defined. *)
Definition c_assert (ndebug b : bool) : outcome unit :=
  if ndebug || b then Val tt else Abort.

(** [CHECK_AND_ASSERT_THROW_MES]. *)
Definition throw_unless (b : bool) : outcome unit := if b then Val tt else Throw.

(** [v[i]] on a [std::vector] or [std::deque]. *)
Definition c_index {A} (l : list A) (i : Z) : outcome A :=
  if decide (0 <= i) then
    match l !! Z.to_nat i with Some a => Val a | None => Undef end
  else Undef.

(** ** Tactics and hints *)

Create HintDb words.

Ltac unfold_words :=
  unfold u8, u16, u32, u64, u128, in_u8, in_u32, in_u64, in_u128 in *.

Lemma bind_val {A B} (a : A) (f : A -> outcome B) : (Val a ≫= f) = f a.
Proof. done. Qed.

(** One step of a computation whose first call is known to return. *)
Ltac run := rewrite bind_val; cbv beta iota.

(** Case analysis on the boolean comparisons of [Z] in the goal. *)
Ltac zcase :=
  match goal with
  | |- context [Z.eqb ?a ?b] => destruct (Z.eqb_spec a b)
  | |- context [Z.leb ?a ?b] => destruct (Z.leb_spec a b)
  | |- context [Z.ltb ?a ?b] => destruct (Z.ltb_spec a b)
  | |- context [Z.geb ?a ?b] => rewrite (Z.geb_leb a b)
  | |- context [Z.gtb ?a ?b] => rewrite (Z.gtb_ltb a b)
  end.

(** ** Lemmas shared by the components *)

Lemma u64_small (z : Z) : in_u64 z -> u64 z = z.
Proof. intros H. apply Z.mod_small, H. Qed.

Lemma u64_range (z : Z) : in_u64 (u64 z).
Proof. apply Z.mod_pos_bound. lia. Qed.

Lemma u64_sub_wrap (a b : Z) :
  in_u64 a -> in_u64 b -> a < b -> u64 (a - b) = a - b + 2 ^ 64.
Proof.
  unfold_words. intros ???. symmetry. apply (Z.mod_unique _ _ (-1)); lia.
Qed.

Lemma u64_add_wrap (a b : Z) :
  in_u64 a -> in_u64 b -> 2 ^ 64 <= a + b -> u64 (a + b) = a + b - 2 ^ 64.
Proof.
  unfold_words. intros ???. symmetry. apply (Z.mod_unique _ _ 1); lia.
Qed.

#[export] Hint Resolve u64_range : words.

Lemma c_assert_true (ndebug b : bool) : b = true -> c_assert ndebug b = Val tt.
Proof. intros ->. unfold c_assert. by rewrite orb_true_r. Qed.

Lemma c_assert_bind {A} (ndebug b : bool) (k : unit -> outcome A) (r : A) :
  (c_assert ndebug b ≫= k) = Val r -> k tt = Val r.
Proof. unfold c_assert. by destruct (ndebug || b). Qed.

Lemma c_index_lookup {A} (l : list A) (i : Z) (a : A) :
  0 <= i -> l !! Z.to_nat i = Some a -> c_index l i = Val a.
Proof. intros Hi Hl. unfold c_index. rewrite decide_True by done. by rewrite Hl. Qed.

Lemma lor_shiftl_add (a b n : Z) :
  0 <= n -> 0 <= b < 2 ^ n -> Z.lor (Z.shiftl a n) b = a * 2 ^ n + b.
Proof.
  intros Hn Hb.
  assert (Z.land (Z.shiftl a n) b = 0) as Hd.
  { apply Z.bits_inj'. intros i Hi. rewrite Z.land_spec, Z.bits_0.
    destruct (decide (i < n)).
    - by rewrite Z.shiftl_spec_low by lia.
    - rewrite <- (Z.mod_small b (2 ^ n)) by lia.
      rewrite Z.mod_pow2_bits_high by lia. apply andb_false_r. }
  rewrite <- Z.lxor_lor, <- Z.add_nocarry_lxor, Z.shiftl_mul_pow2; done.
Qed.

Lemma land_ones_mod (a n : Z) : 0 <= n -> Z.land a (2 ^ n - 1) = a mod 2 ^ n.
Proof. intros. rewrite <- Z.land_ones by lia. f_equal. rewrite Z.ones_equiv. lia. Qed.

Lemma shl64_eq (a n : Z) :
  0 <= n <= 64 -> shl64 a n = (a mod 2 ^ (64 - n)) * 2 ^ n.
Proof.
  intros Hn. unfold shl64, u64. rewrite Z.shiftl_mul_pow2 by lia.
  replace (2 ^ 64) with (2 ^ (64 - n) * 2 ^ n) by (rewrite <- Z.pow_add_r by lia; f_equal; lia).
  apply Z.mul_mod_distr_r; lia.
Qed.

(** ** Sums *)

Definition sumZ (l : list Z) : Z := foldr Z.add 0 l.

#[global] Arguments sumZ : simpl never.

Lemma sumZ_app (l k : list Z) : sumZ (l ++ k) = sumZ l + sumZ k.
Proof. induction l as [|x l IH]; [done|]. unfold sumZ in *. cbn in *. lia. Qed.

Lemma sumZ_snoc (l : list Z) (x : Z) : sumZ (l ++ [x]) = sumZ l + x.
Proof. rewrite sumZ_app. unfold sumZ at 2. cbn. lia. Qed.

Lemma sumZ_cons (x : Z) (l : list Z) : sumZ (x :: l) = x + sumZ l.
Proof. done. Qed.

Lemma sumZ_nonneg (l : list Z) : Forall (Z.le 0) l -> 0 <= sumZ l.
Proof. induction 1; [done|]. rewrite sumZ_cons. lia. Qed.

(** ** Sorting and indexing *)

(** [std::sort] on numbers. *)
Definition sort_Z (l : list Z) : list Z := merge_sort Z.le l.

Lemma sort_Z_Permutation (l : list Z) : sort_Z l ≡ₚ l.
Proof. apply merge_sort_Permutation. Qed.

Lemma sort_Z_strongly (l : list Z) : StronglySorted Z.le (sort_Z l).
Proof. apply (StronglySorted_merge_sort Z.le); apply _. Qed.

Lemma sort_Z_length (l : list Z) : length (sort_Z l) = length l.
Proof. apply Permutation_length, sort_Z_Permutation. Qed.

Lemma sort_Z_Forall (P : Z -> Prop) (l : list Z) : Forall P l -> Forall P (sort_Z l).
Proof. intros H. by rewrite sort_Z_Permutation. Qed.

(** Sorting forgets the order. *)
Lemma sort_Z_unique (l k : list Z) : l ≡ₚ k -> sort_Z l = sort_Z k.
Proof.
  intros H. apply (StronglySorted_unique Z.le).
  - apply (StronglySorted_merge_sort Z.le); apply _.
  - apply (StronglySorted_merge_sort Z.le); apply _.
  - by rewrite !sort_Z_Permutation.
Qed.

Lemma StronglySorted_lookup_rel {A} (R : relation A) (l : list A) (i j : nat) (x y : A) :
  StronglySorted R l -> (i < j)%nat -> l !! i = Some x -> l !! j = Some y -> R x y.
Proof.
  intros Hs. revert i j. induction Hs as [|z l Hs IH Hz]; intros i j Hij Hi Hj; [done|].
  destruct j as [|j]; [lia|]. destruct i as [|i]; cbn in *.
  - injection Hi as ->. eapply Forall_lookup_1 in Hz; eauto.
  - apply (IH i j); (done || lia).
Qed.

Lemma c_index_Forall {A} (P : A -> Prop) (l : list A) (i : Z) (a : A) :
  Forall P l -> c_index l i = Val a -> P a.
Proof.
  unfold c_index. intros Hf. case_decide; [|done]. destruct (l !! _) eqn:E; [|done].
  intros [= <-]. eapply Forall_lookup_1; eauto.
Qed.

Lemma c_index_total `{Inhabited A} (l : list A) (i : Z) :
  0 <= i < Z.of_nat (length l) -> c_index l i = Val (l !!! Z.to_nat i).
Proof. intros Hi. apply c_index_lookup; [lia|]. apply list_lookup_lookup_total_lt. lia. Qed.

(** [v[i] = x] on an array. *)
Definition c_update {A} (l : list A) (i : Z) (x : A) : outcome (list A) :=
  if decide (0 <= i < Z.of_nat (length l)) then Val (<[Z.to_nat i := x]> l) else Undef.

(** Reads and writes at an index that is a natural number. *)
Lemma c_index_nat {A} (l : list A) (n : nat) (a : A) : l !! n = Some a -> c_index l (Z.of_nat n) = Val a.
Proof. intros Hl. apply c_index_lookup; [lia|]. by rewrite Nat2Z.id. Qed.

Lemma c_update_nat {A} (l : list A) (n : nat) (a : A) :
  (n < length l)%nat -> c_update l (Z.of_nat n) a = Val (<[n := a]> l).
Proof. intros Hn. unfold c_update. rewrite decide_True by lia. by rewrite Nat2Z.id. Qed.

Lemma c_update_in {A} (l : list A) (i : Z) (a : A) :
  0 <= i < Z.of_nat (length l) -> c_update l i a = Val (<[Z.to_nat i := a]> l).
Proof. intros Hi. unfold c_update. by rewrite decide_True. Qed.

(** ** Positional numerals, most significant digit first *)

Definition of_digits (base : Z) (l : list Z) : Z := foldl (fun acc d => acc * base + d) 0 l.

Fixpoint to_digits (base : Z) (k : nat) (n : Z) : list Z :=
  match k with
  | O => []
  | S k => to_digits base k (n / base) ++ [n mod base]
  end.

Definition is_digit (base d : Z) : Prop := 0 <= d < base.

Lemma of_digits_snoc (base : Z) (l : list Z) (d : Z) :
  of_digits base (l ++ [d]) = of_digits base l * base + d.
Proof. unfold of_digits. by rewrite foldl_app. Qed.

Lemma of_digits_cons (base d : Z) (l : list Z) :
  of_digits base (d :: l) = d * base ^ Z.of_nat (length l) + of_digits base l.
Proof.
  induction l as [|x l IH] using rev_ind; [cbn; lia|].
  rewrite app_comm_cons, !of_digits_snoc, IH, length_app, Nat2Z.inj_add. cbn [length].
  rewrite Z.pow_add_r by lia. change (base ^ Z.of_nat 1) with (base ^ 1). lia.
Qed.

Lemma of_digits_app (base : Z) (l l' : list Z) :
  of_digits base (l ++ l') = of_digits base l * base ^ Z.of_nat (length l') + of_digits base l'.
Proof.
  induction l' as [|x l' IH] using rev_ind; [rewrite app_nil_r; cbn; lia|].
  rewrite app_assoc, !of_digits_snoc, IH, length_app, Nat2Z.inj_add. cbn [length].
  rewrite Z.pow_add_r by lia. change (base ^ Z.of_nat 1) with (base ^ 1). lia.
Qed.

Lemma to_digits_length (base : Z) (k : nat) (n : Z) : length (to_digits base k n) = k.
Proof. revert n. induction k as [|k IH]; intros n; [done|]. cbn. rewrite length_app, IH. cbn. lia. Qed.

Lemma to_digits_range (base : Z) (k : nat) (n : Z) : 0 < base -> Forall (is_digit base) (to_digits base k n).
Proof.
  intros Hb. revert n. induction k as [|k IH]; intros n; [constructor|]. cbn. apply Forall_app.
  split; [done|]. constructor; [apply Z.mod_pos_bound; lia|constructor].
Qed.

Lemma of_to_digits (base : Z) (k : nat) (n : Z) :
  0 < base -> 0 <= n < base ^ Z.of_nat k -> of_digits base (to_digits base k n) = n.
Proof.
  intros Hb. revert n. induction k as [|k IH]; intros n Hn; [cbn in *; lia|]. cbn [to_digits].
  rewrite of_digits_snoc, IH.
  - pose proof (Z.div_mod n base ltac:(lia)). lia.
  - rewrite Nat2Z.inj_succ, Z.pow_succ_r in Hn by lia.
    split; [apply Z.div_pos; lia | apply Z.div_lt_upper_bound; lia].
Qed.

Lemma to_of_digits (base : Z) (l : list Z) :
  0 < base -> Forall (is_digit base) l -> to_digits base (length l) (of_digits base l) = l.
Proof.
  intros Hb. induction l as [|d l IH] using rev_ind; intros Hl; [done|].
  apply Forall_app in Hl as [Hl Hd]. apply Forall_inv in Hd. unfold is_digit in Hd.
  rewrite length_app, Nat.add_comm. cbn [length Nat.add to_digits]. rewrite of_digits_snoc.
  rewrite Z.div_add_l, (Z.div_small d), Z.add_0_r, IH by (done || lia).
  by rewrite Z.add_comm, Z.mod_add, Z.mod_small by lia.
Qed.

Lemma of_digits_range (base : Z) (l : list Z) :
  0 < base -> Forall (is_digit base) l -> 0 <= of_digits base l < base ^ Z.of_nat (length l).
Proof.
  intros Hb. induction l as [|d l IH] using rev_ind; intros Hl; [cbn; lia|].
  apply Forall_app in Hl as [Hl Hd]. apply Forall_inv in Hd. unfold is_digit in Hd. specialize (IH Hl).
  rewrite of_digits_snoc, length_app, Nat2Z.inj_add, Z.pow_add_r by lia. cbn [length]. nia.
Qed.

(** Four bytes as a number, least significant first, and back. *)
Definition read_le32 (l : list Z) : Z := of_digits 256 (reverse (take 4 l)).
Definition write_le32 (v : Z) : list Z := reverse (to_digits 256 4 v).

Lemma read_write_le32 (v : Z) : in_u32 v -> read_le32 (write_le32 v) = v.
Proof.
  intros Hv. unfold read_le32, write_le32. rewrite take_ge by (by rewrite length_reverse, to_digits_length).
  rewrite reverse_involutive. apply of_to_digits; [lia|]. done.
Qed.

Lemma write_read_le32 (l : list Z) : length l = 4%nat -> Forall in_u8 l -> write_le32 (read_le32 l) = l.
Proof.
  intros Hl Hb. unfold read_le32, write_le32. rewrite take_ge by lia. rewrite <- Hl at 1. rewrite <- length_reverse.
  rewrite to_of_digits; [apply reverse_involutive|lia|]. by apply Forall_reverse.
Qed.

Lemma read_le32_range (l : list Z) : length l = 4%nat -> Forall in_u8 l -> in_u32 (read_le32 l).
Proof.
  intros Hl Hb. unfold read_le32. rewrite take_ge by lia.
  pose proof (of_digits_range 256 (reverse l) ltac:(lia) ltac:(by apply Forall_reverse)) as Hr.
  by rewrite length_reverse, Hl in Hr.
Qed.
