(* ===== verification/IntUtil.v ===== *)
(** * Wide integer arithmetic

    [contrib/epee/include/int-util.h] and [contrib/epee/src/int-util.cpp]: 64-by-64
    multiplication, 128-by-32 and 128-by-64 division and the clamped operations,
    and the portable multiplication of [src/cryptonote_basic/difficulty.cpp]. *)

From S2P Require Import Prelude.
Local Open Scope word_scope.

Definition hi_dword (val : Z) : Z := Z.shiftr val 32.

Definition lo_dword (val : Z) : Z := Z.land val 0xFFFFFFFF.

(** [mul128]: the pair of the returned low word and [*product_hi]. *)
Definition mul128 (ndebug : bool) (multiplier multiplicand : Z) : outcome (Z * Z) :=
  let a := hi_dword multiplier in
  let b := lo_dword multiplier in
  let c := hi_dword multiplicand in
  let d := lo_dword multiplicand in
  let ac := a ⊠ c in
  let ad := a ⊠ d in
  let bc := b ⊠ c in
  let bd := b ⊠ d in
  let adbc := ad ⊞ bc in
  let adbc_carry := if adbc <? ad then 1 else 0 in
  let product_lo := bd ⊞ shl64 adbc 32 in
  let product_lo_carry := if product_lo <? bd then 1 else 0 in
  let product_hi :=
    ac ⊞ Z.shiftr adbc 32 ⊞ shl64 adbc_carry 32 ⊞ product_lo_carry in
  _ ← c_assert ndebug (ac <=? product_hi);
  mret (product_lo, product_hi).

(** [div_with_reminder]: the quotient and the new [*remainder]. *)
Definition div_with_reminder (dividend divisor remainder : Z) : Z * Z :=
  let dividend := Z.lor dividend (shl64 remainder 32) in
  (dividend / divisor, u32 (dividend mod divisor)).

(** [div128_32]: [(quotient_hi, quotient_lo, remainder)]. *)
Definition div128_32 (dividend_hi dividend_lo divisor : Z) : Z * Z * Z :=
  let remainder := 0 in
  let '(q3, remainder) := div_with_reminder (hi_dword dividend_hi) divisor remainder in
  let '(q2, remainder) := div_with_reminder (lo_dword dividend_hi) divisor remainder in
  let '(q1, remainder) := div_with_reminder (hi_dword dividend_lo) divisor remainder in
  let '(q0, remainder) := div_with_reminder (lo_dword dividend_lo) divisor remainder in
  (Z.lor (shl64 q3 32) q2, Z.lor (shl64 q1 32) q0, remainder).

(** [div128_64], through boost's [uint128_t]:
    [(quotient_hi, quotient_lo, remainder_hi, remainder_lo)]. *)
Definition div128_64 (dividend_hi dividend_lo divisor : Z) : Z * Z * Z * Z :=
  let dividend := Z.lor (u128 (Z.shiftl dividend_hi 64)) dividend_lo in
  let q := dividend / divisor in
  let r := dividend mod divisor in
  let m := 0xffffffffffffffff in
  (Z.land (Z.shiftr q 64) m, Z.land q m, Z.land (Z.shiftr r 64) m, Z.land r m).

Definition add64clamp (value add : Z) : Z :=
  let maxval := 2 ^ 64 - 1 in
  if maxval ⊟ add <? value then maxval else value ⊞ add.

Definition sub64clamp (value sub : Z) : Z :=
  if value <? sub then 0 else value ⊟ sub.

(** The portable [mul] of [difficulty.cpp]: [(low, high)]. *)
Definition mul_portable (a b : Z) : Z * Z :=
  let aLow := Z.land a 0xFFFFFFFF in
  let aHigh := Z.shiftr a 32 in
  let bLow := Z.land b 0xFFFFFFFF in
  let bHigh := Z.shiftr b 32 in
  let res := aLow ⊠ bLow in
  let lowRes1 := Z.land res 0xFFFFFFFF in
  let carry := Z.shiftr res 32 in
  let res := aHigh ⊠ bLow ⊞ carry in
  let highResHigh1 := Z.shiftr res 32 in
  let highResLow1 := Z.land res 0xFFFFFFFF in
  let res := aLow ⊠ bHigh in
  let lowRes2 := Z.land res 0xFFFFFFFF in
  let carry := Z.shiftr res 32 in
  let res := aHigh ⊠ bHigh ⊞ carry in
  let highResHigh2 := Z.shiftr res 32 in
  let highResLow2 := Z.land res 0xFFFFFFFF in
  let r := highResLow1 ⊞ lowRes2 in
  let carry := Z.shiftr r 32 in
  let low := Z.lor (shl64 r 32) lowRes1 in
  let r := highResHigh1 ⊞ highResLow2 ⊞ carry in
  let d3 := Z.land r 0xFFFFFFFF in
  let carry := Z.shiftr r 32 in
  let r := highResHigh2 ⊞ carry in
  let high := Z.lor d3 (shl64 r 32) in
  (low, high).

(** ** Correctness *)

(** The clamped operations are sums and differences cut off at the ends. *)
Lemma clamp_spec (value x : Z) :
  in_u64 value -> in_u64 x ->
  add64clamp value x = Z.min (value + x) (2 ^ 64 - 1) /\ sub64clamp value x = Z.max (value - x) 0.
Proof.
  intros Hv Hx. unfold in_u64 in *. unfold add64clamp, sub64clamp.
  rewrite (u64_small (2 ^ 64 - 1 - x)) by (unfold in_u64; lia). split.
  - destruct (Z.ltb_spec (2 ^ 64 - 1 - x) value); [lia|]. rewrite u64_small by (unfold in_u64; lia). lia.
  - destruct (Z.ltb_spec value x); [lia|]. rewrite u64_small by (unfold in_u64; lia). lia.
Qed.

Lemma hi_dword_div (v : Z) : hi_dword v = v / 2 ^ 32.
Proof. apply Z.shiftr_div_pow2. lia. Qed.

Lemma lo_dword_mod (v : Z) : lo_dword v = v mod 2 ^ 32.
Proof. apply (land_ones_mod v 32). lia. Qed.

(** Splitting a word into its halves. *)
Lemma dwords_split (v : Z) :
  in_u64 v ->
  exists h l, hi_dword v = h /\ lo_dword v = l /\ v = h * 2 ^ 32 + l /\
              in_u32 h /\ in_u32 l.
Proof.
  rewrite hi_dword_div, lo_dword_mod. unfold_words. intros Hv.
  eexists _, _. do 2 (split; [reflexivity|]).
  pose proof (Z.div_mod v (2 ^ 32)). pose proof (Z.mod_pos_bound v (2 ^ 32)).
  pose proof (Z.div_pos v (2 ^ 32)).
  pose proof (Z.div_lt_upper_bound v (2 ^ 32) (2 ^ 32)). lia.
Qed.

Lemma mul_u32_small (a b : Z) :
  in_u32 a -> in_u32 b -> 0 <= a * b <= (2 ^ 32 - 1) * (2 ^ 32 - 1).
Proof. unfold_words. nia. Qed.

Lemma u64_mul_u32 (a b : Z) : in_u32 a -> in_u32 b -> u64 (a * b) = a * b.
Proof.
  intros Ha Hb. apply u64_small. pose proof (mul_u32_small a b Ha Hb).
  unfold in_u64. lia.
Qed.

(** The carry of a wrapping addition, as the code computes it. *)
Lemma add_carry (a b : Z) :
  in_u64 a -> in_u64 b ->
  u64 (a + b) + (if u64 (a + b) <? a then 1 else 0) * 2 ^ 64 = a + b.
Proof.
  intros Ha Hb. destruct (decide (a + b < 2 ^ 64)) as [Hs|Hs].
  - rewrite u64_small by (unfold_words; lia). zcase; unfold_words; lia.
  - rewrite u64_add_wrap by (try done; lia). zcase; unfold_words; lia.
Qed.

(** A 128-bit value is determined by its two words. *)
Lemma wide_unique (lo hi v : Z) :
  in_u64 lo -> hi * 2 ^ 64 + lo = v -> lo = v mod 2 ^ 64 /\ hi = v / 2 ^ 64.
Proof.
  intros Hlo <-. rewrite Z.add_comm, Z.mod_add, Z.div_add by lia.
  rewrite Z.mod_small, Z.div_small by apply Hlo. lia.
Qed.

Lemma u64_product_hi (a b : Z) : in_u64 a -> in_u64 b -> in_u64 (a * b / 2 ^ 64).
Proof.
  unfold_words. intros Ha Hb. split; [apply Z.div_pos; nia|].
  apply Z.div_lt_upper_bound; [lia|]. apply Z.mul_lt_mono_nonneg; lia.
Qed.

(** The words [mul128] computes, before the last additions are known not to wrap. *)
Lemma mul128_words (a b c d : Z) :
  in_u32 a -> in_u32 b -> in_u32 c -> in_u32 d ->
  let adbc := u64 (a * d + b * c) in
  let k1 := if adbc <? a * d then 1 else 0 in
  let lo := u64 (b * d + shl64 adbc 32) in
  let k2 := if lo <? b * d then 1 else 0 in
  (a * c + adbc / 2 ^ 32 + k1 * 2 ^ 32 + k2) * 2 ^ 64 + lo
  = (a * 2 ^ 32 + b) * (c * 2 ^ 32 + d).
Proof.
  intros Ha Hb Hc Hd adbc k1 lo k2.
  pose proof (mul_u32_small a d Ha Hd). pose proof (mul_u32_small b c Hb Hc).
  pose proof (mul_u32_small b d Hb Hd).
  pose proof (add_carry (a * d) (b * c)) as E1. fold adbc in E1. fold k1 in E1.
  pose proof (add_carry (b * d) (shl64 adbc 32)) as E2. fold lo in E2. fold k2 in E2.
  assert (in_u64 (shl64 adbc 32)) by apply u64_range.
  rewrite (shl64_eq adbc 32) in * by lia. change (64 - 32) with 32 in *.
  pose proof (Z.div_mod adbc (2 ^ 32)).
  assert (adbc + k1 * 2 ^ 64 = a * d + b * c) by (apply E1; unfold in_u64; lia).
  assert (lo + k2 * 2 ^ 64 = b * d + adbc mod 2 ^ 32 * 2 ^ 32)
    by (apply E2; [unfold in_u64; lia | done]).
  nia.
Qed.

(** [mul128] is the full 128-bit product, and its assertion never fires. *)
Lemma mul128_spec (ndebug : bool) (x y : Z) :
  in_u64 x -> in_u64 y ->
  mul128 ndebug x y = Val ((x * y) mod 2 ^ 64, x * y / 2 ^ 64).
Proof.
  intros Hx Hy. unfold mul128.
  destruct (dwords_split x Hx) as (a & b & -> & -> & Ex & Ha & Hb).
  destruct (dwords_split y Hy) as (c & d & -> & -> & Ey & Hc & Hd).
  cbn zeta. rewrite (u64_mul_u32 a c), (u64_mul_u32 a d),
    (u64_mul_u32 b c), (u64_mul_u32 b d) by done.
  pose proof (mul128_words a b c d Ha Hb Hc Hd) as E. cbn zeta in E.
  rewrite <- Ex, <- Ey in E.
  set (adbc := u64 (a * d + b * c)) in *.
  set (lo := u64 (b * d + shl64 adbc 32)) in *.
  set (k1 := if adbc <? a * d then 1 else 0) in *.
  set (k2 := if lo <? b * d then 1 else 0) in *.
  destruct (wide_unique _ _ _ (u64_range _) E) as [Elo Ehi]. fold lo in Elo.
  pose proof (u64_product_hi x y Hx Hy) as Hhi. rewrite <- Ehi in Hhi.
  assert (0 <= a * c) by (unfold_words; nia).
  assert (0 <= adbc / 2 ^ 32).
  { apply Z.div_pos; [|lia]. pose proof (u64_range (a * d + b * c)). unfold_words. lia. }
  assert (0 <= k1 <= 1) by (unfold k1; case_match; lia).
  assert (0 <= k2 <= 1) by (unfold k2; case_match; lia).
  rewrite Z.shiftr_div_pow2, (shl64_eq k1 32), (Z.mod_small k1) by lia.
  rewrite (u64_small (a * c + adbc / 2 ^ 32)) by (unfold_words; lia).
  rewrite (u64_small (a * c + adbc / 2 ^ 32 + k1 * 2 ^ 32)) by (unfold_words; lia).
  rewrite (u64_small (_ + k2)) by (unfold_words; lia).
  rewrite c_assert_true by (apply Z.leb_le; lia).
  simpl. rewrite <- Elo, <- Ehi. reflexivity.
Qed.

(** Two 32-bit halves put together with a shift and an or. *)
Lemma lor_shl64_add (r b : Z) :
  0 <= b < 2 ^ 32 -> Z.lor (shl64 r 32) b = r mod 2 ^ 32 * 2 ^ 32 + b.
Proof.
  intros Hb. rewrite shl64_eq by lia. change (64 - 32) with 32.
  rewrite <- Z.shiftl_mul_pow2 at 1 by lia. by apply lor_shiftl_add.
Qed.

(** The portable [mul] computes the same words as [mul128]. *)
Lemma mul_portable_spec (x y : Z) :
  in_u64 x -> in_u64 y -> mul_portable x y = ((x * y) mod 2 ^ 64, x * y / 2 ^ 64).
Proof.
  intros Hx Hy. unfold mul_portable.
  fold (lo_dword x) (lo_dword y) (hi_dword x) (hi_dword y).
  destruct (dwords_split x Hx) as (a & b & -> & -> & -> & Ha & Hb).
  destruct (dwords_split y Hy) as (c & d & -> & -> & -> & Hc & Hd).
  cbn zeta. rewrite !(u64_mul_u32) by done.
  pose proof (mul_u32_small a c Ha Hc). pose proof (mul_u32_small a d Ha Hd).
  pose proof (mul_u32_small b c Hb Hc). pose proof (mul_u32_small b d Hb Hd).
  set (p := b * d) in *. set (q := a * d) in *. set (s := b * c) in *. set (t := a * c) in *.
  assert ((a * 2 ^ 32 + b) * (c * 2 ^ 32 + d) = t * 2 ^ 64 + (q + s) * 2 ^ 32 + p) as -> by (unfold p, q, s, t; ring).
  change 0xFFFFFFFF with (2 ^ 32 - 1). rewrite !Z.shiftr_div_pow2, !land_ones_mod by lia.
  pose proof (Z.div_mod p (2 ^ 32)) as Dp. pose proof (Z.mod_pos_bound p (2 ^ 32)).
  rewrite (u64_small (q + p / 2 ^ 32)) by (unfold_words; lia).
  pose proof (Z.div_mod (q + p / 2 ^ 32) (2 ^ 32)) as D1.
  pose proof (Z.mod_pos_bound (q + p / 2 ^ 32) (2 ^ 32)).
  pose proof (Z.div_mod s (2 ^ 32)) as Ds. pose proof (Z.mod_pos_bound s (2 ^ 32)).
  rewrite (u64_small (t + s / 2 ^ 32)) by (unfold_words; lia).
  pose proof (Z.div_mod (t + s / 2 ^ 32) (2 ^ 32)) as D3.
  pose proof (Z.mod_pos_bound (t + s / 2 ^ 32) (2 ^ 32)).
  set (r1 := q + p / 2 ^ 32) in *. set (r3 := t + s / 2 ^ 32) in *.
  set (r := r1 mod 2 ^ 32 + s mod 2 ^ 32).
  rewrite (u64_small r) by (unfold_words; lia).
  pose proof (Z.div_mod r (2 ^ 32)) as Dr. pose proof (Z.mod_pos_bound r (2 ^ 32)).
  rewrite (u64_small (r1 / 2 ^ 32 + r3 mod 2 ^ 32)) by (unfold_words; lia).
  set (w := r1 / 2 ^ 32 + r3 mod 2 ^ 32 + r / 2 ^ 32).
  rewrite (u64_small w) by (unfold_words; lia).
  pose proof (Z.div_mod w (2 ^ 32)) as Dw. pose proof (Z.mod_pos_bound w (2 ^ 32)).
  rewrite (u64_small (r3 / 2 ^ 32 + w / 2 ^ 32)) by (unfold_words; lia).
  rewrite (Z.lor_comm (w mod 2 ^ 32)).
  rewrite !lor_shl64_add by lia.
  rewrite (Z.mod_small (r3 / 2 ^ 32 + w / 2 ^ 32)) by lia.
  assert (r = r1 mod 2 ^ 32 + s mod 2 ^ 32) as Er by done.
  assert (w = r1 / 2 ^ 32 + r3 mod 2 ^ 32 + r / 2 ^ 32) as Ew by done.
  assert (r1 = q + p / 2 ^ 32) as Er1 by done.
  assert (r3 = t + s / 2 ^ 32) as Er3 by done.
  clearbody r w r1 r3.
  destruct (wide_unique (r mod 2 ^ 32 * 2 ^ 32 + p mod 2 ^ 32)
     ((r3 / 2 ^ 32 + w / 2 ^ 32) * 2 ^ 32 + w mod 2 ^ 32)
     (t * 2 ^ 64 + (q + s) * 2 ^ 32 + p)) as [E1 E2].
  - unfold_words; lia.
  - lia.
  - congruence.
Qed.

Lemma div_with_reminder_spec (dividend divisor remainder : Z) :
  in_u32 dividend -> 0 < divisor < 2 ^ 32 -> 0 <= remainder < divisor ->
  exists q r, div_with_reminder dividend divisor remainder = (q, r) /\
    remainder * 2 ^ 32 + dividend = q * divisor + r /\ 0 <= r < divisor /\ in_u32 q.
Proof.
  intros Hd Hv Hr. unfold div_with_reminder.
  rewrite Z.lor_comm, lor_shl64_add, (Z.mod_small remainder) by (unfold_words; lia).
  set (x := remainder * 2 ^ 32 + dividend).
  pose proof (Z.mod_pos_bound x divisor). pose proof (Z.div_mod x divisor).
  eexists _, _. split; [reflexivity|]. unfold u32. rewrite (Z.mod_small (_ mod _)) by lia.
  split; [lia|]. split; [lia|]. unfold_words.
  split; [apply Z.div_pos; lia|]. apply Z.div_lt_upper_bound; unfold x; nia.
Qed.

(** Long division in base [2^32] is division. *)
Lemma div128_32_spec (hi lo divisor : Z) :
  in_u64 hi -> in_u64 lo -> 0 < divisor < 2 ^ 32 ->
  div128_32 hi lo divisor =
    ((hi * 2 ^ 64 + lo) / divisor / 2 ^ 64, (hi * 2 ^ 64 + lo) / divisor mod 2 ^ 64,
     (hi * 2 ^ 64 + lo) mod divisor).
Proof.
  intros Hhi Hlo Hv. unfold div128_32.
  destruct (dwords_split hi Hhi) as (d3 & d2 & -> & -> & Ehi & H3 & H2).
  destruct (dwords_split lo Hlo) as (d1 & d0 & -> & -> & Elo & H1 & H0).
  destruct (div_with_reminder_spec d3 divisor 0) as (q3 & r3 & -> & E3 & R3 & Q3); [done..|lia|].
  destruct (div_with_reminder_spec d2 divisor r3) as (q2 & r2 & -> & E2 & R2 & Q2); [done..|].
  destruct (div_with_reminder_spec d1 divisor r2) as (q1 & r1 & -> & E1 & R1 & Q1); [done..|].
  destruct (div_with_reminder_spec d0 divisor r1) as (q0 & r0 & -> & E0 & R0 & Q0); [done..|].
  rewrite !lor_shl64_add, (Z.mod_small q3), (Z.mod_small q1) by done.
  set (qh := q3 * 2 ^ 32 + q2). set (ql := q1 * 2 ^ 32 + q0).
  assert (hi * 2 ^ 64 + lo = (qh * 2 ^ 64 + ql) * divisor + r0) as E by (unfold qh, ql; nia).
  assert ((hi * 2 ^ 64 + lo) / divisor = qh * 2 ^ 64 + ql) as ->
    by (symmetry; apply (Z.div_unique_pos _ _ _ r0); lia).
  assert ((hi * 2 ^ 64 + lo) mod divisor = r0) as ->
    by (symmetry; apply (Z.mod_unique_pos _ _ (qh * 2 ^ 64 + ql)); lia).
  assert (in_u64 ql) as Hql by (unfold ql; unfold_words; lia).
  destruct (wide_unique ql qh _ Hql eq_refl) as [<- <-]. done.
Qed.

(** [div128_64] is division of the 128-bit dividend. *)
Lemma div128_64_spec (hi lo divisor : Z) :
  in_u64 hi -> in_u64 lo -> in_u64 divisor -> 0 < divisor ->
  let n := hi * 2 ^ 64 + lo in
  div128_64 hi lo divisor = (n / divisor / 2 ^ 64, (n / divisor) mod 2 ^ 64, 0, n mod divisor).
Proof.
  intros Hhi Hlo Hv Hp n. unfold div128_64.
  rewrite Z.shiftl_mul_pow2 by lia. unfold u128. rewrite Z.mod_small by (unfold_words; nia).
  rewrite <- Z.shiftl_mul_pow2, lor_shiftl_add by (unfold_words; lia). fold n.
  change 0xffffffffffffffff with (2 ^ 64 - 1).
  rewrite !Z.shiftr_div_pow2, !land_ones_mod by lia.
  pose proof (Z.mod_pos_bound n divisor Hp).
  assert (0 <= n / divisor) by (apply Z.div_pos; unfold n; unfold_words; lia).
  assert (n / divisor < 2 ^ 128).
  { apply Z.div_lt_upper_bound; [lia|]. unfold n; unfold_words; nia. }
  rewrite (Z.div_small (n mod divisor)), (Z.mod_small (n mod divisor)) by (unfold_words; lia).
  rewrite (Z.mod_small (n / divisor / 2 ^ 64)); [done|].
  split; [apply Z.div_pos; lia|]. apply Z.div_lt_upper_bound; lia.
Qed.

(** ** Properties *)

(** Wide multiplication: the shift-and-carry [mul128] and the portable [mul] both
    compute the two words of the exact 128-bit product, and the assertion in [mul128]
    holds. *)
Theorem wide_mul_correct (ndebug : bool) (x y : Z) (Hx : in_u64 x) (Hy : in_u64 y) :
  mul128 ndebug x y = Val (mul_portable x y) /\
  mul_portable x y = ((x * y) mod 2 ^ 64, x * y / 2 ^ 64).
Proof. rewrite mul128_spec, mul_portable_spec by done. done. Qed.

Lemma wide_mul_correct_witness :
  mul128 false 0xFFFFFFFFFFFFFFFF 0xFFFFFFFFFFFFFFFF
    = Val (mul_portable 0xFFFFFFFFFFFFFFFF 0xFFFFFFFFFFFFFFFF) /\
  mul_portable 0xFFFFFFFFFFFFFFFF 0xFFFFFFFFFFFFFFFF = (1, 0xFFFFFFFFFFFFFFFE).
Proof.
  apply (wide_mul_correct false 0xFFFFFFFFFFFFFFFF 0xFFFFFFFFFFFFFFFF); unfold_words; lia.
Defined.

(** Wide division: long division in base [2^32] and the 128-by-64 division return
    the words of the exact quotient and remainder. *)
Theorem wide_div_correct (hi lo divisor : Z)
    (Hhi : in_u64 hi) (Hlo : in_u64 lo) (Hdivisor : 0 < divisor < 2 ^ 32) :
  let n := hi * 2 ^ 64 + lo in
  div128_32 hi lo divisor = (n / divisor / 2 ^ 64, n / divisor mod 2 ^ 64, n mod divisor) /\
  div128_64 hi lo divisor = (n / divisor / 2 ^ 64, n / divisor mod 2 ^ 64, 0, n mod divisor).
Proof.
  split; [by apply div128_32_spec|]. apply div128_64_spec; (done || unfold_words; lia).
Qed.

Lemma wide_div_correct_witness :
  div128_32 5 0xABCDEF0123456789 1000003 = (0, 104613220267764, 73133) /\
  div128_64 5 0xABCDEF0123456789 1000003 = (0, 104613220267764, 0, 73133).
Proof. apply (wide_div_correct 5 0xABCDEF0123456789 1000003); unfold_words; lia. Defined.
