(* ===== verification/Varint.v ===== *)
(** * Variable-length integers

    src/src/common/varint.h: seven bits per byte, least significant first, the top
    bit set on every byte but the last.  A stream is a list of bytes; the reader
    returns its result code and the value it has written. *)

From S2P Require Import Prelude.

Definition EVARINT_OVERFLOW : Z := -1.
Definition EVARINT_REPRESENT : Z := -2.

(** The [while (i >= 0x80)] loop and the last byte, for an unsigned [i]. *)
Fixpoint write_varint (fuel : nat) (i : Z) : outcome (list Z) :=
  if 0x80 <=? i then
    match fuel with
    | O => Diverge
    | S fuel =>
        rest ← write_varint fuel (Z.shiftr i 7);
        Val (Z.lor (Z.land i 0x7f) 0x80 :: rest)
    end
  else Val [u8 i].

(** For [uint64_t] nine rounds of the loop are enough. *)
Definition get_varint_data (v : Z) : outcome (list Z) := write_varint 9 v.

(** The loop of [read_varint] on a type of [bits] bits, at [shift], with [read]
    bytes read and [write] collected: the result code and the value. *)
Fixpoint read_loop (bits shift read write : Z) (stream : list Z) : Z * Z :=
  match stream with
  | [] => (read, write)
  | byte :: stream =>
      let read := read + 1 in
      if (bits <=? shift + 7) && (Z.shiftl 1 (bits - shift) <=? byte) then (EVARINT_OVERFLOW, write)
      else if (byte =? 0) && negb (shift =? 0) then (EVARINT_REPRESENT, write)
      else
        let write := Z.lor write (Z.shiftl (Z.land byte 0x7f) shift mod 2 ^ bits) in
        if Z.land byte 0x80 =? 0 then (read, write)
        else read_loop bits (shift + 7) read write stream
  end.

Definition read_varint (bits : Z) (stream : list Z) : Z * Z := read_loop bits 0 0 0 stream.

(** ** Seven-bit groups *)

Lemma land_7f (i : Z) : Z.land i 0x7f = i mod 2 ^ 7.
Proof. change 0x7f with (2 ^ 7 - 1). by apply land_ones_mod. Qed.

Lemma cont_byte (i : Z) : Z.lor (Z.land i 0x7f) 0x80 = 0x80 + i mod 2 ^ 7.
Proof.
  rewrite land_7f, Z.lor_comm. change 0x80 with (Z.shiftl 1 7).
  rewrite lor_shiftl_add by (lia || apply Z.mod_pos_bound; lia). done.
Qed.

(** The top bit of a byte. *)
Lemma land_80 (b : Z) : in_u8 b -> (Z.land b 0x80 =? 0) = (b <? 0x80).
Proof.
  unfold_words. intros Hb. destruct (Z.ltb_spec b 0x80).
  - rewrite <- (Z.mod_small b (2 ^ 7)) by lia. rewrite <- land_7f, <- Z.land_assoc. by rewrite Z.land_0_r.
  - apply Z.eqb_neq. intros E. apply (f_equal (fun z => Z.testbit z 7)) in E.
    rewrite Z.land_spec, Z.bits_0 in E. change (Z.testbit 0x80 7) with true in E. rewrite andb_true_r in E.
    apply Z.testbit_false in E; [|lia].
    assert (b / 2 ^ 7 = 1); [|rewrite H0 in E; done]. symmetry. apply (Z.div_unique _ _ _ (b - 2 ^ 7)); lia.
Qed.

Lemma split_group (i shift : Z) :
  0 <= shift -> Z.lor (Z.shiftl (i mod 2 ^ 7) shift) (Z.shiftl (Z.shiftr i 7) (shift + 7)) = Z.shiftl i shift.
Proof.
  intros Hs. rewrite Z.add_comm, <- Z.shiftl_shiftl, <- Z.shiftl_lor by lia. f_equal.
  rewrite Z.lor_comm, lor_shiftl_add, Z.shiftr_div_pow2 by (lia || apply Z.mod_pos_bound; lia).
  pose proof (Z.div_mod i (2 ^ 7) ltac:(lia)). lia.
Qed.

Lemma join_group (g i : Z) : 0 <= g < 2 ^ 7 -> Z.shiftr (g + i * 2 ^ 7) 7 = i /\ (g + i * 2 ^ 7) mod 2 ^ 7 = g.
Proof.
  intros Hg. rewrite Z.shiftr_div_pow2, Z.div_add, Z.mod_add, Z.div_small, Z.mod_small by lia. lia.
Qed.

Section width.
(** The width of the type; [uint8_t] is the narrowest. *)
Context (bits : Z) (Hbits : 8 <= bits).

Lemma group_fits (g shift : Z) :
  0 <= g -> 0 <= shift -> g * 2 ^ shift < 2 ^ bits -> Z.shiftl g shift mod 2 ^ bits = Z.shiftl g shift.
Proof. intros Hg Hs H. rewrite Z.shiftl_mul_pow2 by done. apply Z.mod_small. nia. Qed.

(** The overflow test of the reader. *)
Lemma fits_shift (i shift : Z) : 0 <= shift <= bits -> 0 <= i -> i * 2 ^ shift < 2 ^ bits -> i < 2 ^ (bits - shift).
Proof.
  intros Hs Hi H. replace bits with (bits - shift + shift) in H at 1 by lia.
  rewrite Z.pow_add_r in H by lia. apply Z.mul_lt_mono_pos_r in H; [done|]. apply Z.pow_pos_nonneg; lia.
Qed.

Lemma fits_shift_inv (i shift : Z) : 0 <= shift <= bits -> i < 2 ^ (bits - shift) -> i * 2 ^ shift < 2 ^ bits.
Proof.
  intros Hs H. replace (2 ^ bits) with (2 ^ (bits - shift) * 2 ^ shift) by (rewrite <- Z.pow_add_r by lia; f_equal; lia).
  apply Z.mul_lt_mono_pos_r; [apply Z.pow_pos_nonneg; lia|done].
Qed.

(** A byte without the top bit ends the number. *)
Lemma read_last (i shift read w : Z) (rest : list Z) :
  0 <= i < 0x80 -> 0 <= shift < bits -> i < 2 ^ (bits - shift) -> (shift = 0 \/ 0 < i) ->
  read_loop bits shift read w (i :: rest) = (read + 1, Z.lor w (Z.shiftl i shift)).
Proof.
  intros Hi Hs Hov Hz. cbn [read_loop].
  rewrite (Z.shiftl_1_l (bits - shift)), (proj2 (Z.leb_gt _ _) Hov), andb_false_r.
  replace ((i =? 0) && negb (shift =? 0)) with false by (repeat zcase; (done || lia)).
  rewrite land_7f, (Z.mod_small i (2 ^ 7)), group_fits by (lia || by apply fits_shift_inv; lia).
  rewrite land_80, (proj2 (Z.ltb_lt _ _)) by (unfold_words; lia). done.
Qed.

(** A byte with the top bit is followed by the rest of the number. *)
Lemma read_more (g shift read w : Z) (rest : list Z) :
  0 <= g < 0x80 -> 0 <= shift <= bits - 8 ->
  read_loop bits shift read w (0x80 + g :: rest)
  = read_loop bits (shift + 7) (read + 1) (Z.lor w (Z.shiftl g shift)) rest.
Proof.
  intros Hg Hs. cbn [read_loop]. rewrite (proj2 (Z.leb_gt bits (shift + 7))) by lia. cbn [andb].
  rewrite (proj2 (Z.eqb_neq (0x80 + g) 0)) by lia. cbn [andb]. rewrite land_7f.
  replace ((0x80 + g) mod 2 ^ 7) with g.
  2: { change 0x80 with (1 * 2 ^ 7). rewrite Z.add_comm, Z.mod_add, Z.mod_small by lia. done. }
  rewrite group_fits; [| lia | lia |].
  2: { apply fits_shift_inv; [lia|]. assert (2 ^ 8 <= 2 ^ (bits - shift)) by (apply Z.pow_le_mono_r; lia). lia. }
  rewrite land_80 by (unfold_words; lia). by rewrite (proj2 (Z.ltb_ge _ _)) by lia.
Qed.

(** Reading back what the writer writes, from any position. *)
Lemma read_written (fuel : nat) (i shift read w : Z) (rest : list Z) :
  0 <= i < 2 ^ (7 * (Z.of_nat fuel + 1)) -> 0 <= shift < bits -> i * 2 ^ shift < 2 ^ bits ->
  (shift = 0 \/ 0 < i) ->
  exists l, write_varint fuel i = Val l /\ Forall in_u8 l /\ 1 <= Z.of_nat (length l) <= Z.of_nat fuel + 1 /\
    read_loop bits shift read w (l ++ rest) = (read + Z.of_nat (length l), Z.lor w (Z.shiftl i shift)).
Proof.
  revert i shift read w. induction fuel as [|fuel IH]; intros i shift read w Hi Hs Hf Hz; cbn [write_varint];
    pose proof (fits_shift i shift ltac:(lia) ltac:(lia) Hf) as Hov; (destruct (Z.leb_spec 0x80 i) as [Hc|Hc]).
  - cbn in Hi. lia.
  - exists [i]. assert (u8 i = i) as -> by (apply Z.mod_small; lia). split; [done|].
    split; [constructor; [unfold_words; lia|constructor]|]. split; [cbn; lia|].
    apply (read_last i shift read w rest); (done || lia).
  - assert (shift <= bits - 8) as Hs'.
    { destruct (Z.le_gt_cases shift (bits - 8)); [done|].
      assert (2 ^ (bits - shift) <= 2 ^ 7) by (apply Z.pow_le_mono_r; lia). lia. }
    destruct (IH (Z.shiftr i 7) (shift + 7) (read + 1)
                (Z.lor w (Z.shiftl (i mod 2 ^ 7) shift))) as (l & E & Hl & Hlen & Hr).
    + rewrite Z.shiftr_div_pow2 by lia. split; [apply Z.div_pos; lia|]. apply Z.div_lt_upper_bound; [lia|].
      rewrite <- Z.pow_add_r by lia. eapply Z.lt_le_trans; [apply Hi|]. apply Z.pow_le_mono_r; lia.
    + lia.
    + rewrite Z.shiftr_div_pow2, Z.pow_add_r by lia. pose proof (Z.mul_div_le i (2 ^ 7) ltac:(lia)).
      pose proof (Z.pow_pos_nonneg 2 shift ltac:(lia) ltac:(lia)). nia.
    + right. rewrite Z.shiftr_div_pow2 by lia. apply Z.div_str_pos. lia.
    + rewrite E. run. rewrite cont_byte. pose proof (Z.mod_pos_bound i (2 ^ 7) ltac:(lia)) as Hm.
      exists ((0x80 + i mod 2 ^ 7) :: l). split; [done|].
      split; [constructor; [unfold_words; lia|done]|]. split; [cbn [length]; lia|]. cbn [app].
      rewrite read_more, Hr by lia. cbn [length]. rewrite <- Z.lor_assoc, split_group by lia. f_equal. lia.
  - exists [i]. assert (u8 i = i) as -> by (apply Z.mod_small; lia). split; [done|].
    split; [constructor; [unfold_words; lia|constructor]|]. split; [cbn; lia|].
    apply (read_last i shift read w rest); (done || lia).
Qed.

Lemma write_varint_fuel (fuel fuel' : nat) (i : Z) (l : list Z) :
  (fuel <= fuel')%nat -> write_varint fuel i = Val l -> write_varint fuel' i = Val l.
Proof.
  revert fuel' i l. induction fuel as [|fuel IH]; intros fuel' i l Hf; cbn [write_varint].
  - destruct (0x80 <=? i) eqn:E; [done|]. by destruct fuel'; cbn [write_varint]; rewrite E.
  - destruct fuel' as [|fuel']; [lia|]. cbn [write_varint]. destruct (0x80 <=? i); [|done].
    destruct (write_varint fuel (Z.shiftr i 7)) as [r| | | |] eqn:Er; try done.
    rewrite (IH fuel' _ r) by (done || lia). done.
Qed.

(** What the reader accepts is what the writer writes, or it ran out of input. *)
Lemma read_canonical (stream : list Z) (shift read w n v : Z) :
  Forall in_u8 stream -> 0 <= shift < bits -> 0 <= read -> read_loop bits shift read w stream = (n, v) -> 0 <= n ->
  (exists l rest i, stream = l ++ rest /\ n = read + Z.of_nat (length l) /\ v = Z.lor w (Z.shiftl i shift) /\
     0 <= i /\ i * 2 ^ shift < 2 ^ bits /\ (shift = 0 \/ 0 < i) /\
     write_varint (pred (length l)) i = Val l /\ 7 * Z.of_nat (length l) <= bits + 6 - shift) \/
  (n = read + Z.of_nat (length stream) /\ Forall (fun b => 0x80 <= b) stream /\
   7 * Z.of_nat (length stream) <= bits - 1 - shift /\
   exists i, v = Z.lor w (Z.shiftl i shift) /\ 0 <= i < 2 ^ (7 * Z.of_nat (length stream)) /\
     (i = 0 -> Forall (fun b => b = 0x80) stream)).
Proof.
  intros Hf. revert shift read w. induction Hf as [|b stream Hb Hf IH]; intros shift read w Hs Hr E Hn.
  { injection E as <- <-. right. split; [cbn; lia|]. split; [constructor|]. split; [cbn; lia|].
    exists 0. rewrite Z.shiftl_0_l, Z.lor_0_r. split; [done|]. split; [cbn; lia|constructor]. }
  unfold in_u8 in Hb. destruct (Z.lt_ge_cases b 0x80) as [Hlt|Hge].
  - left. pose proof E as E0. cbn [read_loop] in E0. rewrite Z.shiftl_1_l in E0.
    assert (b < 2 ^ (bits - shift)) as Hov.
    { destruct (Z.lt_ge_cases b (2 ^ (bits - shift))) as [|Hle]; [done|].
      destruct (Z.leb_spec bits (shift + 7)).
      - rewrite (proj2 (Z.leb_le _ _) Hle) in E0. injection E0 as <- _. unfold EVARINT_OVERFLOW in Hn. lia.
      - assert (2 ^ 7 <= 2 ^ (bits - shift)) by (apply Z.pow_le_mono_r; lia). lia. }
    assert (shift = 0 \/ 0 < b) as Hz.
    { rewrite (proj2 (Z.leb_gt _ _) Hov), andb_false_r in E0.
      destruct (Z.eqb_spec b 0), (Z.eqb_spec shift 0); try (left; done); try (right; lia).
      injection E0 as <- _. unfold EVARINT_REPRESENT in Hn. lia. }
    clear E0. rewrite read_last in E by (done || lia). injection E as <- <-.
    exists [b], stream, b. cbn [length app pred write_varint]. rewrite (proj2 (Z.leb_gt _ _)) by lia.
    assert (u8 b = b) as -> by (apply Z.mod_small; lia).
    repeat (split; [done || lia || by apply fits_shift_inv; lia|]). done || lia.
  - assert (shift <= bits - 8) as Hs'.
    { destruct (Z.le_gt_cases shift (bits - 8)); [done|]. cbn [read_loop] in E. rewrite Z.shiftl_1_l in E.
      assert (2 ^ (bits - shift) <= 2 ^ 7) by (apply Z.pow_le_mono_r; lia).
      rewrite (proj2 (Z.leb_le bits _)), (proj2 (Z.leb_le (2 ^ (bits - shift)) _)) in E by lia.
      injection E as <- _. unfold EVARINT_OVERFLOW in Hn. lia. }
    replace b with (0x80 + (b - 0x80)) in E by lia. rewrite read_more in E by lia.
    destruct (IH (shift + 7) (read + 1) _ ltac:(lia) ltac:(lia) E Hn)
      as [(l & rest & i & -> & -> & -> & Hi & Hfit & Hz & Hw & Hl)|(-> & Hall & Hk & i & -> & Hi & Hi0)].
    + left. assert (0 < i) as Hi' by lia. set (g := b - 0x80).
      assert (0 <= g < 2 ^ 7) as Hg by (unfold g; lia). destruct (join_group g i Hg) as [E1 E2].
      exists (b :: l), rest, (g + i * 2 ^ 7). split; [done|]. split; [cbn [length]; lia|].
      split; [rewrite <- (split_group (g + i * 2 ^ 7) shift), E1, E2, Z.lor_assoc by lia; done|].
      split; [lia|]. split.
      { rewrite Z.pow_add_r in Hfit by lia.
        assert (2 ^ bits = 2 ^ (bits - shift - 7) * 2 ^ 7 * 2 ^ shift) as E64
          by (rewrite <- !Z.pow_add_r by lia; f_equal; lia).
        pose proof (fits_shift i (shift + 7) ltac:(lia) ltac:(lia) ltac:(rewrite Z.pow_add_r by lia; lia)).
        replace (bits - (shift + 7)) with (bits - shift - 7) in * by lia.
        pose proof (Z.pow_pos_nonneg 2 shift ltac:(lia) ltac:(lia)). rewrite E64. nia. }
      split; [lia|]. split; [|cbn [length]; lia].
      destruct l as [|x l]; [cbn in Hw; destruct (0x80 <=? i); done|]. cbn [length pred write_varint] in *.
      rewrite (proj2 (Z.leb_le _ _)) by lia. rewrite E1, Hw. run. rewrite cont_byte, E2. do 2 f_equal. unfold g. lia.
    + right. split; [cbn [length]; lia|]. split; [by constructor|]. split; [cbn [length]; lia|].
      set (g := b - 0x80). assert (0 <= g < 2 ^ 7) as Hg by (unfold g; lia). destruct (join_group g i Hg) as [E1 E2].
      exists (g + i * 2 ^ 7). split; [rewrite <- (split_group (g + i * 2 ^ 7) shift), E1, E2, Z.lor_assoc by lia; done|].
      split; [|intros E0; constructor; [unfold g in *; lia|apply Hi0; lia]].
      replace (7 * Z.of_nat (length (b :: stream))) with (7 * Z.of_nat (length stream) + 7) by (cbn [length]; lia).
      rewrite Z.pow_add_r by lia. lia.
Qed.

End width.

(** ** Correctness *)

Lemma write_varint_length (fuel : nat) (v : Z) (l : list Z) :
  write_varint fuel v = Val l -> (length l <= S fuel)%nat.
Proof.
  revert v l. induction fuel as [|fuel IH]; intros v l; cbn [write_varint]; destruct (0x80 <=? v); try done;
    [by intros [= <-]| |intros [= <-]; cbn; lia].
  destruct (write_varint fuel (Z.shiftr v 7)) as [m| | | |] eqn:E; try done. run. intros [= <-]. apply IH in E. cbn. lia.
Qed.

Lemma varint_length (v : Z) (l : list Z) : get_varint_data v = Val l -> (length l <= 10)%nat.
Proof. apply write_varint_length. Qed.

(** What is written of two numbers is told apart by whatever follows. *)
Lemma write_varint_prefix (fuel : nat) (v v' : Z) (l l' r r' : list Z) :
  0 <= v -> 0 <= v' -> write_varint fuel v = Val l -> write_varint fuel v' = Val l' -> l ++ r = l' ++ r' ->
  v = v' /\ r = r'.
Proof.
  revert v v' l l'. induction fuel as [|fuel IH]; intros v v' l l' Hv Hv'; cbn [write_varint];
    destruct (Z.leb_spec 0x80 v), (Z.leb_spec 0x80 v'); try done; rewrite ?cont_byte;
    unfold u8.
  all: try (rewrite !Z.mod_small by lia; by intros [= <-] [= <-] [= -> ->]).
  - destruct (write_varint fuel (Z.shiftr v 7)) as [m| | | |] eqn:E; try done.
    destruct (write_varint fuel (Z.shiftr v' 7)) as [m'| | | |] eqn:E'; try done. run.
    intros [= <-] [= <-] [= Eg Em].
    destruct (IH (Z.shiftr v 7) (Z.shiftr v' 7) m m') as [Es ->]; try done; try by apply Z.shiftr_nonneg.
    rewrite !Z.shiftr_div_pow2 in Es by lia. split; [|done].
    pose proof (Z.div_mod v (2 ^ 7)). pose proof (Z.div_mod v' (2 ^ 7)). lia.
  - destruct (write_varint fuel (Z.shiftr v 7)) as [m| | | |]; try done. run. intros [= <-] [= <-] [= Eg _].
    pose proof (Z.mod_pos_bound v (2 ^ 7)). rewrite (Z.mod_small v') in Eg; lia.
  - destruct (write_varint fuel (Z.shiftr v' 7)) as [m| | | |]; try done. run. intros [= <-] [= <-] [= Eg _].
    pose proof (Z.mod_pos_bound v' (2 ^ 7)). rewrite (Z.mod_small v) in Eg; lia.
Qed.

Lemma get_varint_data_read (v : Z) (rest : list Z) :
  in_u64 v ->
  exists l, get_varint_data v = Val l /\ Forall in_u8 l /\ 1 <= Z.of_nat (length l) <= 10 /\
    read_varint 64 (l ++ rest) = (Z.of_nat (length l), v).
Proof.
  intros Hv. unfold in_u64 in Hv.
  destruct (read_written 64 ltac:(lia) 9 v 0 0 0 rest) as (l & E & Hl & Hlen & Hr); [split; [lia|]|lia|lia|by left|].
  { eapply Z.lt_le_trans; [apply Hv|]. apply Z.pow_le_mono_r; lia. }
  exists l. split; [done|]. split; [done|]. split; [lia|]. unfold read_varint. rewrite Hr.
  by rewrite Z.shiftl_0_r, Z.lor_0_l.
Qed.

(** The reader never accepts two encodings of a number: when it reports [n]
    bytes, either they are exactly what the writer makes of the value, or every
    byte of the input asks for another one and the input simply ended, which the
    reader does not report as an error. *)
Theorem varint_canonical (stream : list Z) (n v : Z) :
  Forall in_u8 stream -> read_varint 64 stream = (n, v) -> 0 <= n ->
  (in_u64 v /\ get_varint_data v = Val (take (Z.to_nat n) stream)) \/
  (n = Z.of_nat (length stream) /\ Forall (fun b => 0x80 <= b) stream).
Proof.
  intros Hf E Hn. unfold read_varint in E.
  destruct (read_canonical 64 ltac:(lia) stream 0 0 0 n v Hf ltac:(lia) ltac:(lia) E Hn)
    as [(l & rest & i & -> & -> & -> & Hi & Hfit & _ & Hw & Hl)|(-> & Hall & _)]; [left|by right].
  rewrite Z.shiftl_0_r, Z.lor_0_l, Z.add_0_l, Nat2Z.id, take_app_length.
  split; [unfold_words; lia|]. apply (write_varint_fuel (pred (length l))); [lia|done].
Qed.

Lemma varint_canonical_witness :
  (in_u64 300 /\ get_varint_data 300 = Val (take (Z.to_nat 2) [0xac; 2; 9])) \/
  (2 = Z.of_nat (length [0xac; 2; 9]) /\ Forall (fun b => 0x80 <= b) [0xac; 2; 9]).
Proof.
  apply (varint_canonical [0xac; 2; 9] 2 300).
  - repeat constructor; unfold in_u8; lia.
  - reflexivity.
  - lia.
Defined.
