(* ===== verification/Archive.v ===== *)
(** * Binary archives

    src/src/serialization: the binary archives of binary_archive.h, the fields of
    serialization.h, the containers of container.h and the variants of variant.h.  The
    code has one template function for each type that saves or loads by the kind of
    its archive; here it is a [codec] with the two directions, and the ways the
    templates are put together are functions on codecs.

    An archive that loads is the list of the bytes that are left.  A failed archive is
    [None]: every field returns false as soon as the archive is not good, so that
    nothing is made of what is read after that. *)

From S2P Require Import Prelude Varint.

Record codec (A : Type) := {
  save : A -> option (list Z);
  load : list Z -> option (A * list Z);
}.
Arguments save {A} _ _.
Arguments load {A} _ _.

Declare Scope codec_scope.
Delimit Scope codec_scope with codec.
Bind Scope codec_scope with codec.

(** ** The operations of an archive *)

(** The [n] bytes of an unsigned integer, least significant first. *)
Definition le_bytes (n : nat) (v : Z) : list Z := reverse (to_digits 256 n v).
Definition of_le (l : list Z) : Z := of_digits 256 (reverse l).

(** [bytes_.remove_prefix(n)]. *)
Definition take_bytes (n : nat) (s : list Z) : option (list Z * list Z) :=
  if (length s <? n)%nat then None else Some (take n s, drop n s).

Definition serialize_uint (n : nat) : codec Z := {|
  save v := Some (le_bytes n v);
  load s := '(b, s) ← take_bytes n s; Some (of_le b, s);
|}.

(** A blob of a type with [n] bytes. *)
Definition serialize_blob (n : nat) : codec (list Z) := {|
  save b := Some b;
  load s := take_bytes n s;
|}.

(** A number of a type with [bits] bits.  The reader takes the end of the archive for
    the end of the number. *)
Definition serialize_varint (bits : Z) : codec Z := {|
  save v := match get_varint_data v with Val l => Some l | _ => None end;
  load s :=
    let '(read, v) := read_varint bits s in
    if 0 <=? read then Some (v, drop (Z.to_nat read) s) else None;
|}.

(** ** Fields *)

(** No field: a value that is not in the archive. *)
Definition no_field {A} (a : A) : codec A := {|
  save _ := Some [];
  load s := Some (a, s);
|}.

(** [return false]. *)
Definition failure {A} : codec A := {|
  save _ := None;
  load _ := None;
|}.

(** One field after another, which may depend on it. *)
Definition fields {A B} (c : codec A) (d : A -> codec B) : codec (A * B) := {|
  save ab := w ← save c ab.1; ws ← save (d ab.1) ab.2; Some (w ++ ws);
  load s := '(a, s) ← load c s; '(b, s) ← load (d a) s; Some ((a, b), s);
|}.

Notation "c ▷ d" := (fields c (fun _ => d)) (at level 65, right associativity) : codec_scope.

(** [if (!p) return false]. *)
Definition checked {A} (p : A -> bool) (c : codec A) : codec A := {|
  save a := if p a then save c a else None;
  load s := '(a, s) ← load c s; if p a then Some (a, s) else None;
|}.

(** The members of a struct. *)
Definition members {A B} (f : A -> B) (g : B -> A) (c : codec A) : codec B := {|
  save b := save c (g b);
  load s := '(a, s) ← load c s; Some (f a, s);
|}.

(** ** Containers *)

Section containers.
Context {A : Type} (c : codec A).

Fixpoint save_all (l : list A) : option (list Z) :=
  match l with
  | [] => Some []
  | a :: l => w ← save c a; ws ← save_all l; Some (w ++ ws)
  end.

Fixpoint load_n (n : nat) (s : list Z) : option (list A * list Z) :=
  match n with
  | O => Some ([], s)
  | S n => '(a, s) ← load c s; '(l, s) ← load_n n s; Some (a :: l, s)
  end.

(** [do_serialize_container]: the number of elements, then each. *)
Definition container : codec (list A) := {|
  save l := w ← save (serialize_varint 64) (Z.of_nat (length l)); ws ← save_all l; Some (w ++ ws);
  load s :=
    '(cnt, s) ← load (serialize_varint 64) s;
    if Z.of_nat (length s) <? cnt then None else load_n (Z.to_nat cnt) s;
|}.

(** [PREPARE_CUSTOM_VECTOR_SERIALIZATION(n, v)] with a check of the size and a loop:
    the elements without their number. *)
Definition custom_vector (n : nat) : codec (list A) := {|
  save l := if (length l =? n)%nat then save_all l else None;
  load s := load_n n s;
|}.
End containers.

(** A [std::string]: its length and its bytes. *)
Definition serialize_string : codec (list Z) := {|
  save b := w ← save (serialize_varint 64) (Z.of_nat (length b)); Some (w ++ b);
  load s :=
    '(size, s) ← load (serialize_varint 64) s;
    if Z.of_nat (length s) <? size then None else take_bytes (Z.to_nat size) s;
|}.

(** ** Variants *)

(** A type of a variant: its tag, and its values among those of the variant. *)
Record alternative (A : Type) := {
  content : Type;
  get_tag : Z;
  inject : content -> A;
  project : A -> option content;
  body : codec content;
}.
Arguments content {A} _.
Arguments get_tag {A} _.
Arguments inject {A} _ _.
Arguments project {A} _ _.
Arguments body {A} _.

Section variants.
Context {A : Type}.

(** [variant_write_visitor]. *)
Fixpoint write_variant (alts : list (alternative A)) (a : A) : option (list Z) :=
  match alts with
  | [] => None
  | alt :: alts =>
      match project alt a with
      | Some b => w ← save (serialize_uint 1) (get_tag alt); ws ← save (body alt) b; Some (w ++ ws)
      | None => write_variant alts a
      end
  end.

(** [variant_reader::read]. *)
Fixpoint read_variant (alts : list (alternative A)) (t : Z) (s : list Z) : option (A * list Z) :=
  match alts with
  | [] => None
  | alt :: alts =>
      if get_tag alt =? t then '(b, s) ← load (body alt) s; Some (inject alt b, s)
      else read_variant alts t s
  end.

Definition variant (alts : list (alternative A)) : codec A := {|
  save a := write_variant alts a;
  load s := '(t, s) ← load (serialize_uint 1) s; read_variant alts t s;
|}.
End variants.

(** ** Whole archives *)

(** [dump_binary] and [parse_binary]: a loaded archive has to be at its end. *)
Definition dump_binary {A} (c : codec A) (a : A) : option (list Z) := save c a.

Definition parse_binary {A} (c : codec A) (blob : list Z) : option A :=
  match load c blob with
  | Some (a, []) => Some a
  | _ => None
  end.

(** ** Laws

    What is promised of a codec for the values [P]: they are saved as bytes that load
    back whatever follows them, and what loads is such a value, loaded from exactly
    the bytes it is saved as, unless the archive ended on the way. *)

Definition exact {A} (c : codec A) (s : list Z) (a : A) (rest : list Z) : Prop :=
  exists w, save c a = Some w /\ s = w ++ rest.

Record lawful {A} (P : A -> Prop) (c : codec A) : Prop := {
  law_save (a : A) : P a ->
    exists w, save c a = Some w /\ Forall in_u8 w /\ forall rest, load c (w ++ rest) = Some (a, rest);
  law_load (s : list Z) (a : A) (rest : list Z) :
    Forall in_u8 s -> load c s = Some (a, rest) -> P a /\ (exact c s a rest \/ rest = []);
}.
Arguments law_save {A P c} _ _ _.
Arguments law_load {A P c} _ _ _ _ _ _.

(** Values with [P] are saved as at least one byte. *)
Definition nonempty {A} (P : A -> Prop) (c : codec A) : Prop := forall a w, P a -> save c a = Some w -> w <> [].

(** Nothing loads from the end of an archive. *)
Definition hungry {A} (c : codec A) : Prop := load c [] = None.

(** A value with [Q] is only loaded from the bytes it is saved as. *)
Definition solid {A} (Q : A -> Prop) (c : codec A) : Prop :=
  forall s a rest, Forall in_u8 s -> load c s = Some (a, rest) -> Q a -> exact c s a rest.

Create HintDb archive.

Section laws.
Context {A : Type} {P : A -> Prop} {c : codec A} (Hc : lawful P c).

(** What is left is part of what there was. *)
Lemma law_rest (s : list Z) (a : A) (rest : list Z) :
  Forall in_u8 s -> load c s = Some (a, rest) -> Forall in_u8 rest.
Proof.
  intros Hs E. destruct (law_load Hc s a rest Hs E) as [_ [(w & _ & ->)| ->]]; [|constructor].
  by apply Forall_app in Hs as [_ ?].
Qed.

Lemma law_empty (a : A) (rest : list Z) : load c [] = Some (a, rest) -> rest = [].
Proof.
  intros E. destruct (law_load Hc [] a rest (List.Forall_nil _) E) as [_ [(w & _ & Ew)|]]; [|done].
  by destruct w, rest.
Qed.

(** What does not load from nothing is not saved as nothing. *)
Lemma hungry_nonempty : hungry c -> nonempty P c.
Proof using Hc.
  intros Hh a w Ha E ->. destruct (law_save Hc a Ha) as (w' & E' & _ & Hl). rewrite E in E'. injection E' as <-.
  specialize (Hl []). cbn in Hl. by rewrite Hh in Hl.
Qed.

Lemma lawful_iff (P' : A -> Prop) : (forall a, P a <-> P' a) -> lawful P' c.
Proof using Hc.
  intros HP. split.
  - intros a Ha. by apply (law_save Hc), HP.
  - intros s a rest Hs E. destruct (law_load Hc s a rest Hs E) as [Ha Hex]. split; [by apply HP|done].
Qed.

Lemma solid_weaken (Q Q' : A -> Prop) : (forall a, Q' a -> Q a) -> solid Q c -> solid Q' c.
Proof. intros HQ Hs s a rest Hb E Ha. by apply Hs; [..|apply HQ]. Qed.

(** Whole archives. *)
Lemma parse_dump (a : A) : P a -> exists w, dump_binary c a = Some w /\ Forall in_u8 w /\ parse_binary c w = Some a.
Proof.
  intros Ha. destruct (law_save Hc a Ha) as (w & E & Hw & Hl). exists w. split; [done|]. split; [done|].
  unfold parse_binary. specialize (Hl []). rewrite app_nil_r in Hl. by rewrite Hl.
Qed.

Lemma parse_solid (Q : A -> Prop) (blob : list Z) (a : A) :
  solid Q c -> Forall in_u8 blob -> parse_binary c blob = Some a -> Q a -> dump_binary c a = Some blob.
Proof.
  intros HQ Hb E Ha. unfold parse_binary in E. destruct (load c blob) as [[a' [|]]|] eqn:El; try done.
  injection E as ->. destruct (HQ blob a [] Hb El Ha) as (w & Ew & ->). by rewrite app_nil_r.
Qed.

Lemma parse_law (blob : list Z) (a : A) : Forall in_u8 blob -> parse_binary c blob = Some a -> P a.
Proof.
  intros Hb E. unfold parse_binary in E. destruct (load c blob) as [[a' [|]]|] eqn:El; try done.
  injection E as ->. by destruct (law_load Hc blob a [] Hb El).
Qed.
End laws.

(** ** The operations *)

#[local] Arguments get_varint_data : simpl never.
#[local] Arguments read_varint : simpl never.

Lemma take_bytes_app (n : nat) (w rest : list Z) : length w = n -> take_bytes n (w ++ rest) = Some (w, rest).
Proof.
  intros <-. unfold take_bytes. rewrite (proj2 (Nat.ltb_ge _ _)) by (rewrite length_app; lia).
  by rewrite take_app_length, drop_app_length.
Qed.

Lemma take_bytes_inv (n : nat) (s b rest : list Z) :
  take_bytes n s = Some (b, rest) -> s = b ++ rest /\ length b = n.
Proof.
  unfold take_bytes. destruct (Nat.ltb_spec (length s) n) as [|Hn]; [done|]. intros [= <- <-].
  split; [by rewrite take_drop|]. rewrite length_take. lia.
Qed.

Lemma le_bytes_spec (n : nat) (v : Z) :
  0 <= v < 256 ^ Z.of_nat n -> length (le_bytes n v) = n /\ Forall in_u8 (le_bytes n v) /\ of_le (le_bytes n v) = v.
Proof.
  intros Hv. unfold le_bytes, of_le. rewrite length_reverse, to_digits_length. split; [done|].
  rewrite reverse_involutive, of_to_digits by lia. split; [|done].
  apply Forall_reverse. exact (to_digits_range 256 n v ltac:(lia)).
Qed.

Lemma of_le_spec (l : list Z) :
  Forall in_u8 l -> 0 <= of_le l < 256 ^ Z.of_nat (length l) /\ le_bytes (length l) (of_le l) = l.
Proof.
  intros Hl. unfold of_le, le_bytes. apply Forall_reverse in Hl.
  pose proof (of_digits_range 256 (reverse l) ltac:(lia) Hl) as Hr. rewrite length_reverse in Hr. split; [done|].
  rewrite <- (length_reverse l), to_of_digits by (done || lia). apply reverse_involutive.
Qed.

Lemma uint_load (n : nat) (s : list Z) (v : Z) (rest : list Z) :
  Forall in_u8 s -> load (serialize_uint n) s = Some (v, rest) ->
  0 <= v < 256 ^ Z.of_nat n /\ exact (serialize_uint n) s v rest.
Proof.
  intros Hs. cbn. destruct (take_bytes n s) as [[b r]|] eqn:E; [|done]. intros [= <- <-].
  apply take_bytes_inv in E as [-> Hn]. apply Forall_app in Hs as [Hb _].
  destruct (of_le_spec b Hb) as [Hr El]. rewrite Hn in *. split; [done|]. exists b. cbn. by rewrite El.
Qed.

Lemma uint_lawful (n : nat) : lawful (fun v => 0 <= v < 256 ^ Z.of_nat n) (serialize_uint n).
Proof.
  split.
  - intros v Hv. destruct (le_bytes_spec n v Hv) as (Hl & Hb & E). exists (le_bytes n v). split; [done|].
    split; [done|]. intros rest. cbn. rewrite take_bytes_app by done. cbn. by rewrite E.
  - intros s v rest Hs E. destruct (uint_load n s v rest Hs E). split; [done|by left].
Qed.

Lemma uint_solid (n : nat) Q : solid Q (serialize_uint n).
Proof. intros s v rest Hs E _. by apply uint_load. Qed.

Lemma uint_hungry (n : nat) : hungry (serialize_uint (S n)).
Proof. done. Qed.

Definition is_blob (n : nat) (b : list Z) : Prop := length b = n /\ Forall in_u8 b.

Lemma blob_lawful (n : nat) : lawful (is_blob n) (serialize_blob n).
Proof.
  split.
  - intros b [Hn Hb]. exists b. split; [done|]. split; [done|]. intros rest. cbn. by rewrite take_bytes_app.
  - intros s b rest Hs E. cbn in E. apply take_bytes_inv in E as [-> Hn]. apply Forall_app in Hs as [Hb _].
    split; [done|]. left. by exists b.
Qed.

Lemma blob_solid (n : nat) Q : solid Q (serialize_blob n).
Proof. intros s b rest _ E _. cbn in E. apply take_bytes_inv in E as [-> _]. by exists b. Qed.

Lemma blob_hungry (n : nat) : hungry (serialize_blob (S n)).
Proof. done. Qed.

Lemma varint_lawful (bits : Z) : 8 <= bits <= 64 -> lawful (fun v => 0 <= v < 2 ^ bits) (serialize_varint bits).
Proof.
  intros Hbits. split.
  - intros v Hv. assert (2 ^ bits <= 2 ^ 64) by (apply Z.pow_le_mono_r; lia).
    destruct (read_written bits ltac:(lia) 9 v 0 0 0 []) as (l & E & Hl & Hlen & _); [lia..|by left|].
    exists l. cbn. unfold get_varint_data. rewrite E. split; [done|]. split; [done|]. intros rest.
    destruct (read_written bits ltac:(lia) 9 v 0 0 0 rest) as (l' & E' & _ & _ & Hr); [lia..|by left|].
    rewrite E in E'. injection E' as <-. unfold read_varint. rewrite Hr. rewrite Z.shiftl_0_r, Z.lor_0_l.
    rewrite (proj2 (Z.leb_le _ _)) by lia. rewrite Z.add_0_l, Nat2Z.id. by rewrite drop_app_length.
  - intros s v rest Hs E. cbn in E. unfold read_varint in E. destruct (read_loop bits 0 0 0 s) as [n v'] eqn:Er.
    destruct (Z.leb_spec 0 n) as [Hn|]; [|done]. injection E as -> <-.
    destruct (read_canonical bits ltac:(lia) s 0 0 0 n v Hs ltac:(lia) ltac:(lia) Er Hn)
      as [(l & r & i & -> & -> & -> & Hi & Hfit & _ & Hw & Hl)|(-> & _ & Hk & i & -> & Hi & _)];
      rewrite Z.shiftl_0_r, Z.lor_0_l, Z.add_0_l, Nat2Z.id.
    + split; [lia|]. left. exists l. rewrite drop_app_length. split; [|done]. cbn. unfold get_varint_data.
      rewrite (write_varint_fuel (pred (length l)) 9 i l); [done|lia|done].
    + split; [|right; by apply drop_ge]. split; [lia|]. eapply Z.lt_le_trans; [apply Hi|].
      apply Z.pow_le_mono_r; lia.
Qed.

Lemma write_varint_nonempty (fuel : nat) (v : Z) (w : list Z) : write_varint fuel v = Val w -> w <> [].
Proof.
  destruct fuel as [|fuel]; cbn [write_varint]; destruct (0x80 <=? v); try done; [by intros [= <-]| |by intros [= <-]].
  destruct (write_varint fuel (Z.shiftr v 7)); try done. run. by intros [= <-].
Qed.

Lemma varint_nonempty (bits : Z) P : nonempty P (serialize_varint bits).
Proof.
  intros v w _. cbn. destruct (get_varint_data v) as [l| | | |] eqn:E; try done. intros [= ->].
  by apply write_varint_nonempty in E.
Qed.

(** A number that the archive cut off is zero only when all its bytes are 0x80. *)
Lemma varint_cut (bits : Z) (s rest : list Z) :
  8 <= bits <= 64 -> Forall in_u8 s -> load (serialize_varint bits) s = Some (0, rest) ->
  (exists r, s = 0 :: r /\ rest = r) \/
  (rest = [] /\ exists k : nat, s = replicate k 0x80 /\ 7 * Z.of_nat k <= bits - 1).
Proof.
  intros Hbits Hs E. cbn in E. unfold read_varint in E. destruct (read_loop bits 0 0 0 s) as [n v'] eqn:Er.
  destruct (Z.leb_spec 0 n) as [Hn|]; [|done]. injection E as -> <-.
  destruct (read_canonical bits ltac:(lia) s 0 0 0 n 0 Hs ltac:(lia) ltac:(lia) Er Hn)
    as [(l & r & i & -> & -> & Hv & Hi & Hfit & _ & Hw & Hl)|(-> & _ & Hk & i & Hv & Hi & H0)];
    rewrite Z.shiftl_0_r, Z.lor_0_l in Hv; subst i; rewrite Z.add_0_l, Nat2Z.id.
  - left. assert (l = [0]) as -> by (destruct (pred (length l)); injection Hw as <-; reflexivity). by exists r.
  - right. split; [by apply drop_ge|]. exists (length s). split; [|lia]. symmetry. apply replicate_as_elem_of. split; [done|].
    by apply Forall_forall, H0.
Qed.

Lemma varint_of_cut (bits : Z) (k : nat) :
  8 <= bits <= 64 -> 7 * Z.of_nat k <= bits - 1 -> load (serialize_varint bits) (replicate k 0x80) = Some (0, []).
Proof.
  intros Hbits Hk. cbn. unfold read_varint.
  assert (forall (j : nat) (shift read : Z), 0 <= shift -> 7 * Z.of_nat j + shift <= bits - 1 ->
    read_loop bits shift read 0 (replicate j 0x80) = (read + Z.of_nat j, 0)) as Hr.
  { induction j as [|j IH]; intros shift read Hs Hj; [cbn; f_equal; lia|]. cbn [replicate].
    change 0x80 with (0x80 + 0). rewrite read_more by lia. rewrite Z.shiftl_0_l, Z.lor_0_r.
    rewrite IH by lia. f_equal. lia. }
  rewrite Hr by lia. rewrite (proj2 (Z.leb_le _ _)) by lia. f_equal. f_equal. apply drop_ge.
  rewrite length_replicate. lia.
Qed.

(** ** Fields *)

Lemma failure_lawful {A} : lawful (fun _ : A => False) failure.
Proof. by split. Qed.

Lemma failure_solid {A} (Q : A -> Prop) : solid Q failure.
Proof. done. Qed.

Lemma no_field_lawful {A} (a : A) : lawful (fun x => x = a) (no_field a).
Proof.
  split.
  - intros x ->. exists []. by repeat split.
  - intros s x rest _ [= <- <-]. split; [done|]. left. by exists [].
Qed.

Lemma if_lawful {A} (P Q : A -> Prop) (b : bool) (c d : codec A) :
  lawful P c -> lawful Q d -> lawful (fun a => if b then P a else Q a) (if b then c else d).
Proof. by destruct b. Qed.

Lemma no_field_solid {A} (a : A) Q : solid Q (no_field a).
Proof. intros s x rest _ [= <- <-] _. by exists []. Qed.

Section two_fields.
Context {A B : Type} {P : A -> Prop} {R : A -> B -> Prop} {c : codec A} {d : A -> codec B}.
Context (Hc : lawful P c) (Hd : forall a, P a -> lawful (R a) (d a)).

Lemma load_fields (s : list Z) (ab : A * B) (rest : list Z) :
  load (fields c d) s = Some (ab, rest) ->
  exists s', load c s = Some (ab.1, s') /\ load (d ab.1) s' = Some (ab.2, rest).
Proof.
  cbn. destruct (load c s) as [[a s']|] eqn:E1; [|done]. cbn. destruct (load (d a) s') as [[b r]|] eqn:E2; [|done].
  intros [= <- <-]. by exists s'.
Qed.

Lemma exact_fields (s s' rest : list Z) (a : A) (b : B) :
  exact c s a s' -> exact (d a) s' b rest -> exact (fields c d) s (a, b) rest.
Proof.
  intros (w & Ew & ->) (ws & Ews & ->). exists (w ++ ws). rewrite <- app_assoc. cbn. rewrite Ew. cbn. by rewrite Ews.
Qed.

Lemma fields_lawful : lawful (fun ab => P ab.1 /\ R ab.1 ab.2) (fields c d).
Proof using Hc Hd.
  split.
  - intros [a b] [Ha Hb]. cbn [fst snd] in *. destruct (law_save Hc a Ha) as (w & Ew & Hw & Hl).
    destruct (law_save (Hd a Ha) b Hb) as (ws & Ews & Hws & Hls). exists (w ++ ws). cbn. rewrite Ew. cbn.
    rewrite Ews. split; [done|]. split; [by apply Forall_app|]. intros rest. rewrite <- app_assoc, Hl. cbn. by rewrite Hls.
  - intros s [a b] rest Hs E. destruct (load_fields s _ rest E) as (s' & E1 & E2). cbn [fst snd] in *.
    destruct (law_load Hc s a s' Hs E1) as [Ha Hex]. pose proof (law_rest Hc s a s' Hs E1) as Hs'.
    destruct (law_load (Hd a Ha) s' b rest Hs' E2) as [Hb Hex']. split; [done|].
    destruct Hex' as [Hex'|]; [|by right]. destruct Hex as [Hex| ->]; [left; by eapply exact_fields|].
    right. by apply (law_empty (Hd a Ha) b).
Qed.

Lemma fields_hungry : hungry c -> hungry (fields c d).
Proof. unfold hungry. intros E. cbn. by rewrite E. Qed.

Lemma fields_hungry_later : (forall a, P a -> hungry (d a)) -> hungry (fields c d).
Proof using Hc.
  unfold hungry. intros Hh. cbn. destruct (load c []) as [[a s]|] eqn:E; [|done]. cbn.
  destruct (law_load Hc [] a s (List.Forall_nil _) E) as [Ha _]. rewrite (law_empty Hc a s E). by rewrite (Hh a Ha).
Qed.

Lemma fields_solid (Q : A * B -> Prop) (Q1 : A -> Prop) :
  (forall a b, Q (a, b) -> Q1 a) ->
  (forall a, P a -> Q1 a -> solid (fun b => Q (a, b)) (d a)) ->
  (forall a, P a -> Q1 a -> hungry (d a) \/ solid (fun x => x = a) c) ->
  solid Q (fields c d).
Proof using Hc.
  intros HQ Hsd Hor s [a b] rest Hs E Hq. destruct (load_fields s _ rest E) as (s' & E1 & E2). cbn [fst snd] in *.
  destruct (law_load Hc s a s' Hs E1) as [Ha Hex]. pose proof (law_rest Hc s a s' Hs E1) as Hs'.
  pose proof (HQ a b Hq) as Hq1. apply (exact_fields s s'); [|by apply (Hsd a Ha Hq1)].
  destruct (Hor a Ha Hq1) as [Hh|Hsc]; [|by apply Hsc]. destruct Hex as [| ->]; [done|]. by rewrite Hh in E2.
Qed.

End two_fields.

Section one_codec.
Context {A : Type} {P : A -> Prop} {c : codec A} (Hc : lawful P c).

Lemma check_lawful (p : A -> bool) : lawful (fun a => P a /\ p a = true) (checked p c).
Proof using Hc.
  split.
  - intros a [Ha Hp]. destruct (law_save Hc a Ha) as (w & Ew & Hw & Hl). exists w. cbn. rewrite Hp.
    split; [done|]. split; [done|]. intros rest. rewrite Hl. cbn. by rewrite Hp.
  - intros s a rest Hs. cbn. destruct (load c s) as [[a' r]|] eqn:E; [|done]. cbn. destruct (p a') eqn:Hp; [|done].
    intros [= <- <-]. destruct (law_load Hc s a' r Hs E) as [Ha Hex]. split; [done|].
    destruct Hex as [(w & Ew & Es)|]; [|by right]. left. exists w. cbn. by rewrite Hp.
Qed.

Lemma check_solid (p : A -> bool) Q : solid Q c -> solid Q (checked p c).
Proof.
  intros Hs s a rest Hb. cbn. destruct (load c s) as [[a' r]|] eqn:E; [|done]. cbn. destruct (p a') eqn:Hp; [|done].
  intros [= <- <-] Ha. destruct (Hs s a' r Hb E Ha) as (w & Ew & Es). exists w. cbn. by rewrite Hp.
Qed.

Lemma check_hungry (p : A -> bool) : hungry c -> hungry (checked p c).
Proof. unfold hungry. intros E. cbn. by rewrite E. Qed.

Context {B : Type} (f : A -> B) (g : B -> A).

(** [g] loses nothing of the values [P]. *)
Lemma members_lawful :
  (forall a, P a -> g (f a) = a) -> lawful (fun b => P (g b) /\ f (g b) = b) (members f g c).
Proof using Hc.
  intros Hg. split.
  - intros b [Hb Ef]. destruct (law_save Hc (g b) Hb) as (w & Ew & Hw & Hl). exists w. split; [done|]. split; [done|].
    intros rest. cbn. rewrite Hl. cbn. by rewrite Ef.
  - intros s b rest Hs. cbn. destruct (load c s) as [[a r]|] eqn:E; [|done]. intros [= <- <-].
    destruct (law_load Hc s a r Hs E) as [Ha Hex]. rewrite (Hg a Ha). split; [done|].
    destruct Hex as [(w & Ew & Es)|]; [|by right]. left. exists w. cbn. by rewrite (Hg a Ha).
Qed.

(** The members are all of the struct. *)
Lemma struct_lawful :
  (forall b, f (g b) = b) -> (forall a, g (f a) = a) -> lawful (fun b => P (g b)) (members f g c).
Proof using Hc.
  intros Hf Hg. destruct (members_lawful (fun a _ => Hg a)) as [Hs Hl]. split.
  - intros b Hb. by apply Hs.
  - intros s b rest Hs' E. destruct (Hl s b rest Hs' E) as [[Hb _] Hex]. by split.
Qed.

Lemma members_solid (Q : B -> Prop) :
  (forall a, P a -> g (f a) = a) -> solid (fun a => Q (f a)) c -> solid Q (members f g c).
Proof using Hc.
  intros Hg Hs s b rest Hb. cbn. destruct (load c s) as [[a r]|] eqn:E; [|done]. intros [= <- <-] Ha.
  destruct (Hs s a r Hb E Ha) as (w & Ew & Es). exists w. cbn. rewrite Hg; [done|]. by destruct (law_load Hc s a r Hb E).
Qed.

Lemma members_hungry : hungry c -> hungry (members f g c).
Proof. unfold hungry. intros E. cbn. by rewrite E. Qed.

End one_codec.

(** ** Containers *)

Section container_laws.
Context {A : Type} {P : A -> Prop} {c : codec A} (Hc : lawful P c).

Lemma save_all_law (l : list A) :
  Forall P l ->
  exists w, save_all c l = Some w /\ Forall in_u8 w /\ forall rest, load_n c (length l) (w ++ rest) = Some (l, rest).
Proof using Hc.
  induction 1 as [|a l Ha _ IH]; [by exists []|]. destruct IH as (ws & Ews & Hws & Hls).
  destruct (law_save Hc a Ha) as (w & Ew & Hw & Hl). exists (w ++ ws). cbn. rewrite Ew. cbn. rewrite Ews.
  split; [done|]. split; [by apply Forall_app|]. intros rest. rewrite <- app_assoc, Hl. cbn. by rewrite Hls.
Qed.

Lemma save_all_app (l l' : list A) (w w' : list Z) :
  save_all c l = Some w -> save_all c l' = Some w' -> save_all c (l ++ l') = Some (w ++ w').
Proof.
  revert w. induction l as [|a l IH]; intros w; cbn; [by intros [= <-]|]. destruct (save c a) as [v|]; [|done].
  cbn. destruct (save_all c l) as [vs|]; [|done]. intros [= <-] E. rewrite (IH vs eq_refl E). cbn. by rewrite app_assoc.
Qed.

Lemma load_n_inv (n : nat) (s : list Z) (l : list A) (rest : list Z) :
  load_n c (S n) s = Some (l, rest) ->
  exists a l' s', l = a :: l' /\ load c s = Some (a, s') /\ load_n c n s' = Some (l', rest).
Proof.
  cbn. destruct (load c s) as [[a s']|]; [|done]. cbn. destruct (load_n c n s') as [[l' r]|] eqn:E; [|done].
  intros [= <- <-]. by exists a, l', s'.
Qed.

Lemma load_n_law (n : nat) (s : list Z) (l : list A) (rest : list Z) :
  Forall in_u8 s -> load_n c n s = Some (l, rest) ->
  length l = n /\ Forall P l /\ ((exists w, save_all c l = Some w /\ s = w ++ rest) \/ rest = []).
Proof using Hc.
  revert s l. induction n as [|n IH]; intros s l Hs E.
  { injection E as <- <-. split; [done|]. split; [constructor|]. left. by exists []. }
  apply load_n_inv in E as (a & l' & s' & -> & E1 & E2). pose proof (law_rest Hc s a s' Hs E1) as Hs'.
  destruct (law_load Hc s a s' Hs E1) as [Ha Hex]. destruct (IH s' l' Hs' E2) as (Hn & Hl & Hex').
  split; [cbn; lia|]. split; [by constructor|]. destruct Hex' as [(ws & Ews & ->)|]; [|by right].
  destruct Hex as [(w & Ew & ->)|E0].
  - left. exists (w ++ ws). cbn. rewrite Ew. cbn. rewrite Ews. by rewrite <- app_assoc.
  - right. by apply app_nil in E0 as [_ ->].
Qed.

Lemma load_n_solid (Q : A -> Prop) (n : nat) (s : list Z) (l : list A) (rest : list Z) :
  solid Q c -> Forall in_u8 s -> load_n c n s = Some (l, rest) -> Forall Q l ->
  exists w, save_all c l = Some w /\ s = w ++ rest.
Proof using Hc.
  intros Hsol. revert s l. induction n as [|n IH]; intros s l Hs E Hq.
  { injection E as <- <-. by exists []. }
  apply load_n_inv in E as (a & l' & s' & -> & E1 & E2). pose proof (law_rest Hc s a s' Hs E1) as Hs'.
  apply Forall_cons in Hq as [Ha Hq]. destruct (Hsol s a s' Hs E1 Ha) as (w & Ew & ->).
  destruct (IH s' l' Hs' E2 Hq) as (ws & Ews & ->). exists (w ++ ws). cbn. rewrite Ew. cbn. rewrite Ews.
  by rewrite <- app_assoc.
Qed.

Lemma save_all_length (l : list A) (w : list Z) :
  nonempty P c -> Forall P l -> save_all c l = Some w -> (length l <= length w)%nat.
Proof.
  intros Hn Hl. revert w. induction Hl as [|a l Ha _ IH]; intros w; cbn; [lia|].
  destruct (save c a) as [wa|] eqn:E; [|done]. cbn. destruct (save_all c l) as [ws|]; [|done]. intros [= <-].
  specialize (IH ws eq_refl). apply (Hn a wa Ha) in E. rewrite length_app. destruct wa; [done|]. cbn. lia.
Qed.

Lemma container_lawful :
  nonempty P c -> lawful (fun l => Forall P l /\ Z.of_nat (length l) < 2 ^ 64) (container c).
Proof using Hc.
  intros Hn. pose proof (varint_lawful 64 ltac:(lia)) as Hv. split.
  - intros l [Hl Hlen]. destruct (law_save Hv (Z.of_nat (length l)) ltac:(cbv beta; lia)) as (w & Ew & Hw & Hlw).
    destruct (save_all_law l Hl) as (ws & Ews & Hws & Hls). exists (w ++ ws). unfold container. cbn [save load].
    rewrite Ew. cbn [mbind option_bind]. rewrite Ews. split; [done|]. split; [by apply Forall_app|]. intros rest.
    rewrite <- app_assoc, Hlw. cbn [mbind option_bind]. rewrite (proj2 (Z.ltb_ge _ _)), Nat2Z.id; [by rewrite Hls|].
    apply (save_all_length l ws Hn Hl) in Ews. rewrite length_app. lia.
  - intros s l rest Hs. unfold container. cbn [save load].
    destruct (load (serialize_varint 64) s) as [[cnt s']|] eqn:E; [|done]. cbn [mbind option_bind].
    destruct (Z.ltb_spec (Z.of_nat (length s')) cnt) as [|Hcnt]; [done|]. intros El.
    destruct (law_load Hv s cnt s' Hs E) as [Hr Hex]. cbv beta in Hr. pose proof (law_rest Hv s cnt s' Hs E) as Hs'.
    destruct (load_n_law _ s' l rest Hs' El) as (Hlen & Hl & Hex'). split; [split; [done|lia]|].
    destruct Hex' as [(ws & Ews & ->)|]; [|by right]. destruct Hex as [(w & Ew & ->)|E0].
    + left. exists (w ++ ws). cbn [save]. rewrite Hlen, Z2Nat.id by lia. rewrite Ew. cbn. rewrite Ews. by rewrite <- app_assoc.
    + right. by apply app_nil in E0 as [_ ->].
Qed.

(** When its elements are never cut off, a container is only when it is empty, and
    only its number. *)
Lemma container_cut (s : list Z) (l : list A) (rest : list Z) :
  solid (fun _ => True) c -> Forall in_u8 s -> load (container c) s = Some (l, rest) ->
  exact (container c) s l rest \/
  (l = [] /\ rest = [] /\ exists k : nat, s = replicate k 0x80 /\ (k <= 9)%nat).
Proof using Hc.
  intros Hsol Hs. pose proof (varint_lawful 64 ltac:(lia)) as Hv. unfold container, exact. cbn [save load].
  destruct (load (serialize_varint 64) s) as [[cnt s']|] eqn:E; [|done]. cbn [mbind option_bind].
  destruct (Z.ltb_spec (Z.of_nat (length s')) cnt) as [|Hcnt]; [done|]. intros El.
  destruct (law_load Hv s cnt s' Hs E) as [Hr Hex]. cbv beta in Hr. pose proof (law_rest Hv s cnt s' Hs E) as Hs'.
  destruct (load_n_law _ s' l rest Hs' El) as (Hlen & _).
  destruct (load_n_solid _ _ s' l rest Hsol Hs' El) as (ws & Ews & ->); [by apply Forall_true|].
  destruct Hex as [(w & Ew & ->)|E0].
  - left. exists (w ++ ws). cbn [save]. rewrite Hlen, Z2Nat.id by lia. rewrite Ew. cbn. rewrite Ews. by rewrite <- app_assoc.
  - apply app_nil in E0 as [-> ->]. cbn in Hcnt. assert (cnt = 0) as -> by lia. cbn in Hlen.
    destruct l; [|done]. destruct (varint_cut 64 s [] ltac:(lia) Hs E) as [(r & -> & <-)|(_ & k & -> & Hk)].
    + left. exists [0]. split; [vm_compute|]; done.
    + right. split; [done|]. split; [done|]. exists k. split; [done|lia].
Qed.

Lemma container_of_cut (k : nat) : (k <= 9)%nat -> load (container c) (replicate k 0x80) = Some ([], []).
Proof.
  intros Hk. unfold container. cbn [load]. rewrite varint_of_cut by lia. done.
Qed.

Lemma custom_vector_lawful (n : nat) : lawful (fun l => Forall P l /\ length l = n) (custom_vector c n).
Proof using Hc.
  split.
  - intros l [Hl Hn]. destruct (save_all_law l Hl) as (w & Ew & Hw & Hlw). exists w. cbn.
    rewrite (proj2 (Nat.eqb_eq _ _) Hn). subst n. done.
  - intros s l rest Hs E. destruct (load_n_law n s l rest Hs E) as (Hn & Hl & Hex). split; [done|].
    destruct Hex as [(w & Ew & ->)|]; [|by right]. left. exists w. cbn. by rewrite (proj2 (Nat.eqb_eq _ _) Hn).
Qed.

Lemma custom_vector_solid (n : nat) Q :
  solid (fun _ => True) c -> solid Q (custom_vector c n).
Proof using Hc.
  intros Hsol s l rest Hs E _. destruct (load_n_law n s l rest Hs E) as (Hn & _).
  destruct (load_n_solid _ n s l rest Hsol Hs E) as (w & Ew & ->); [by apply Forall_true|].
  exists w. cbn. by rewrite (proj2 (Nat.eqb_eq _ _) Hn).
Qed.

Lemma custom_vector_hungry (n : nat) : n <> O -> hungry c -> hungry (custom_vector c n).
Proof. unfold hungry. intros Hn E. destruct n; [done|]. cbn. by rewrite E. Qed.
End container_laws.

Lemma string_lawful : lawful (fun b => Forall in_u8 b /\ Z.of_nat (length b) < 2 ^ 64) serialize_string.
Proof.
  pose proof (varint_lawful 64 ltac:(lia)) as Hv. split.
  - intros b [Hb Hlen]. destruct (law_save Hv (Z.of_nat (length b)) ltac:(cbv beta; lia)) as (w & Ew & Hw & Hlw).
    exists (w ++ b). unfold serialize_string. cbn [save load]. rewrite Ew. split; [done|]. split; [by apply Forall_app|].
    intros rest. rewrite <- app_assoc, Hlw. cbn [mbind option_bind]. rewrite (proj2 (Z.ltb_ge _ _)), Nat2Z.id.
    + by apply take_bytes_app.
    + rewrite length_app. lia.
  - intros s b rest Hs. unfold serialize_string. cbn [save load].
    destruct (load (serialize_varint 64) s) as [[size s']|] eqn:E; [|done]. cbn [mbind option_bind].
    destruct (Z.ltb_spec (Z.of_nat (length s')) size) as [|Hn]; [done|]. intros El.
    destruct (law_load Hv s size s' Hs E) as [Hr Hex]. cbv beta in Hr. pose proof (law_rest Hv s size s' Hs E) as Hs'.
    apply take_bytes_inv in El as [-> Hb]. apply Forall_app in Hs' as [Hs' _]. split; [split; [done|lia]|].
    destruct Hex as [(w & Ew & ->)|E0].
    + left. exists (w ++ b). cbn [save]. rewrite Hb, Z2Nat.id by lia. rewrite Ew. by rewrite <- app_assoc.
    + right. by apply app_nil in E0 as [_ ->].
Qed.

(** ** Variants *)

Section variant_laws.
Context {A : Type} (P : A -> Prop).

Record alt_ok (alt : alternative A) : Prop := {
  tag_byte : 0 <= get_tag alt < 256;
  project_inject (b : content alt) : project alt (inject alt b) = Some b;
  inject_project (a : A) (b : content alt) : project alt a = Some b -> a = inject alt b;
  body_lawful : lawful (fun b => P (inject alt b)) (body alt);
}.

(** The alternatives differ in their tags and in their values. *)
Fixpoint apart (alts : list (alternative A)) : Prop :=
  match alts with
  | [] => True
  | alt :: alts =>
      Forall (fun alt' => get_tag alt' <> get_tag alt /\ forall b, project alt (inject alt' b) = None) alts /\ apart alts
  end.

Lemma write_variant_read (alts : list (alternative A)) (a : A) :
  Forall alt_ok alts -> apart alts -> P a -> Exists (fun alt => is_Some (project alt a)) alts ->
  exists t w, 0 <= t < 256 /\ write_variant alts a = Some (le_bytes 1 t ++ w) /\ Forall in_u8 w /\
    Exists (fun alt => get_tag alt = t) alts /\ forall rest, read_variant alts t (w ++ rest) = Some (a, rest).
Proof.
  induction alts as [|alt alts IH]; intros Hok Hap Ha Hex; [by apply Exists_nil in Hex|].
  apply Forall_cons in Hok as [Halt Hok]. destruct Hap as [Hne Hap]. cbn [write_variant read_variant].
  destruct (project alt a) as [b|] eqn:Ep.
  - rewrite (inject_project alt Halt a b Ep) in Ha. destruct (law_save (body_lawful alt Halt) b Ha) as (w & Ew & Hw & Hl).
    exists (get_tag alt), w. split; [apply Halt|]. cbn. rewrite Ew. split; [done|]. split; [done|].
    split; [by left|]. intros rest. rewrite Z.eqb_refl, Hl. cbn. by rewrite <- (inject_project alt Halt a b Ep).
  - apply Exists_cons in Hex as [Hex|Hex]; [rewrite Ep in Hex; by destruct Hex|].
    destruct (IH Hok Hap Ha Hex) as (t & w & Ht & Ew & Hw & Htag & Hl). exists t, w. split; [done|]. split; [done|].
    split; [done|]. split; [by right|]. intros rest. rewrite (proj2 (Z.eqb_neq _ _)); [by apply Hl|].
    apply Exists_exists in Htag as (alt' & Hin & <-). rewrite Forall_forall in Hne. intros E. by apply (Hne alt' Hin).
Qed.

Lemma read_variant_inv (alts : list (alternative A)) (t : Z) (s : list Z) (a : A) (rest : list Z) :
  Forall alt_ok alts -> apart alts -> read_variant alts t s = Some (a, rest) ->
  exists alt b, alt ∈ alts /\ get_tag alt = t /\ a = inject alt b /\ load (body alt) s = Some (b, rest) /\
    forall w, save (body alt) b = Some w -> write_variant alts a = Some (le_bytes 1 t ++ w).
Proof.
  induction alts as [|alt alts IH]; intros Hok Hap; [done|]. apply Forall_cons in Hok as [Halt Hok].
  destruct Hap as [Hne Hap]. cbn [read_variant write_variant]. destruct (Z.eqb_spec (get_tag alt) t) as [<-|Ht].
  - destruct (load (body alt) s) as [[b r]|] eqn:E; [|done]. intros [= <- <-]. exists alt, b.
    split; [left|]. split; [done|]. split; [done|]. split; [done|]. intros w Ew.
    rewrite (project_inject alt Halt). cbn. by rewrite Ew.
  - intros E. destruct (IH Hok Hap E) as (alt' & b & Hin & Ht' & -> & El & Hw). exists alt', b.
    split; [by right|]. split; [done|]. split; [done|]. split; [done|]. intros w Ew.
    rewrite Forall_forall in Hne. rewrite (proj2 (Hne alt' Hin)). by apply Hw.
Qed.

Context (alts : list (alternative A)) (Hok : Forall alt_ok alts) (Hapart : apart alts).
Context (Hall : forall a, P a -> Exists (fun alt => is_Some (project alt a)) alts).

Lemma load_variant_inv (s : list Z) (a : A) (rest : list Z) :
  load (variant alts) s = Some (a, rest) ->
  exists t s', load (serialize_uint 1) s = Some (t, s') /\ read_variant alts t s' = Some (a, rest).
Proof.
  unfold variant. cbn [load]. destruct (load (serialize_uint 1) s) as [[t s']|]; [|done]. cbn. by exists t, s'.
Qed.

Lemma variant_lawful : lawful P (variant alts).
Proof using Hok Hapart Hall.
  split.
  - intros a Ha. destruct (write_variant_read alts a Hok Hapart Ha (Hall a Ha)) as (t & w & Ht & Ew & Hw & _ & Hl).
    destruct (law_save (uint_lawful 1) t ltac:(cbv beta; lia)) as (wt & [= <-] & Hwt & Hlt).
    exists (le_bytes 1 t ++ w). split; [done|]. split; [by apply Forall_app|]. intros rest.
    unfold variant. cbn [load]. rewrite <- app_assoc, Hlt. cbn. apply Hl.
  - intros s a rest Hs E. apply load_variant_inv in E as (t & s' & Et & Er).
    pose proof (law_rest (uint_lawful 1) s t s' Hs Et) as Hs'.
    destruct (uint_solid 1 (fun _ => True) s t s' Hs Et I) as (wt & [= <-] & ->).
    destruct (read_variant_inv alts t s' a rest Hok Hapart Er) as (alt & b & Hin & _ & -> & El & Hw).
    rewrite Forall_forall in Hok. pose proof (Hok alt Hin) as Halt.
    destruct (law_load (body_lawful alt Halt) s' b rest Hs' El) as [Hb Hex]. split; [done|].
    destruct Hex as [(w & Ew & ->)|]; [left|by right]. exists (le_bytes 1 t ++ w). rewrite <- app_assoc.
    split; [by apply Hw|done].
Qed.

Lemma variant_solid (Q : A -> Prop) :
  Forall (fun alt => solid (fun b => Q (inject alt b)) (body alt)) alts -> solid Q (variant alts).
Proof using Hok Hapart.
  intros Hsol s a rest Hs E Ha. apply load_variant_inv in E as (t & s' & Et & Er).
  pose proof (law_rest (uint_lawful 1) s t s' Hs Et) as Hs'.
  destruct (uint_solid 1 (fun _ => True) s t s' Hs Et I) as (wt & [= <-] & ->).
  destruct (read_variant_inv alts t s' a rest Hok Hapart Er) as (alt & b & Hin & _ & -> & El & Hw).
  rewrite Forall_forall in Hsol. destruct (Hsol alt Hin s' b rest Hs' El Ha) as (w & Ew & ->).
  exists (le_bytes 1 t ++ w). rewrite <- app_assoc. split; [by apply Hw|done].
Qed.

End variant_laws.

Lemma variant_hungry {A} (alts : list (alternative A)) : hungry (variant alts).
Proof. done. Qed.

#[export] Hint Resolve uint_lawful uint_solid uint_hungry blob_lawful blob_solid blob_hungry no_field_lawful
  if_lawful no_field_solid fields_hungry check_lawful check_solid check_hungry members_hungry custom_vector_lawful
  custom_vector_solid variant_hungry hungry_nonempty : archive.
