(* ===== verification/TxFormat.v ===== *)
(** * Transactions and blocks on the wire

    The types of src/src/cryptonote_basic/cryptonote_basic.h and the RingCT signatures
    of src/src/ringct/rctTypes.h with what they serialize, for transactions that are
    not pruned, and the parsers of cryptonote_format_utils.cpp.  Keys, hashes and
    signatures are blobs of bytes.  Members that are not saved (key images, rings,
    the message, the keys of outputs in [outPk]) are not part of the model: they are
    made from the others when a transaction is verified. *)

From S2P Require Import Prelude Varint Archive.

#[local] Open Scope codec_scope.
#[local] Open Scope word_scope.

Definition key : codec (list Z) := serialize_blob 32.

(** ** Inputs and outputs *)

Record txout_to_script := {
  keys : list (list Z);
  script : list Z;
}.

Inductive txin_v :=
  | txin_gen (height : Z)
  | txin_to_script (prev : list Z) (prevout : Z) (sigset : list Z)
  | txin_to_scripthash (prev : list Z) (prevout : Z) (s : txout_to_script) (sigset : list Z)
  | txin_to_key (amount : Z) (key_offsets : list Z) (k_image : list Z).

Inductive txout_target_v :=
  | to_script (s : txout_to_script)
  | to_scripthash (hash : list Z)
  | to_key (k : list Z)
  | to_tagged_key (k : list Z) (view_tag : list Z).

Record tx_out := {
  amount : Z;
  target : txout_target_v;
}.

Record transaction_prefix := {
  version : Z;
  unlock_time : Z;
  vin : list txin_v;
  vout : list tx_out;
  extra : list Z;
}.

(** A vector of [uint8_t] has no varints, one of [uint64_t] has. *)
Definition byte_vector : codec (list Z) := container (serialize_uint 1).

Definition script_codec : codec txout_to_script :=
  members (fun x => {| keys := x.1; script := x.2 |}) (fun t => (keys t, script t))
    (container key ▷ byte_vector).

(** The alternatives of the two variants, in the order of their types. *)
Definition txin_alternatives : list (alternative txin_v) := [
  {| get_tag := 0xff;
     inject := txin_gen;
     project i := match i with txin_gen h => Some h | _ => None end;
     body := serialize_varint 64 |};
  {| get_tag := 0x0;
     inject x := txin_to_script x.1 x.2.1 x.2.2;
     project i := match i with txin_to_script p n s => Some (p, (n, s)) | _ => None end;
     body := key ▷ serialize_varint 64 ▷ byte_vector |};
  {| get_tag := 0x1;
     inject x := txin_to_scripthash x.1 x.2.1 x.2.2.1 x.2.2.2;
     project i := match i with txin_to_scripthash p n t s => Some (p, (n, (t, s))) | _ => None end;
     body := key ▷ serialize_varint 64 ▷ script_codec ▷ byte_vector |};
  {| get_tag := 0x2;
     inject x := txin_to_key x.1 x.2.1 x.2.2;
     project i := match i with txin_to_key a o k => Some (a, (o, k)) | _ => None end;
     body := serialize_varint 64 ▷ container (serialize_varint 64) ▷ key |}].

Definition txin_codec : codec txin_v := variant txin_alternatives.

Definition txout_alternatives : list (alternative txout_target_v) := [
  {| get_tag := 0x0;
     inject := to_script;
     project t := match t with to_script s => Some s | _ => None end;
     body := script_codec |};
  {| get_tag := 0x1;
     inject := to_scripthash;
     project t := match t with to_scripthash h => Some h | _ => None end;
     body := serialize_blob 32 |};
  {| get_tag := 0x2;
     inject := to_key;
     project t := match t with to_key k => Some k | _ => None end;
     body := serialize_blob 32 |};
  {| get_tag := 0x3;
     inject x := to_tagged_key x.1 x.2;
     project t := match t with to_tagged_key k v => Some (k, v) | _ => None end;
     body := key ▷ serialize_blob 1 |}].

Definition tx_out_codec : codec tx_out :=
  members (fun x => {| amount := x.1; target := x.2 |}) (fun o => (amount o, target o))
    (serialize_varint 64 ▷ variant txout_alternatives).

Definition CURRENT_TRANSACTION_VERSION : Z := 2.

Definition known_version (v : Z) : bool := negb ((v =? 0) || (CURRENT_TRANSACTION_VERSION <? v)).

Definition prefix_codec : codec transaction_prefix :=
  members
    (fun x => {| version := x.1; unlock_time := x.2.1; vin := x.2.2.1; vout := x.2.2.2.1; extra := x.2.2.2.2 |})
    (fun t => (version t, (unlock_time t, (vin t, (vout t, extra t)))))
    (checked known_version (serialize_varint 64) ▷ serialize_varint 64 ▷ container txin_codec ▷ container tx_out_codec ▷
     byte_vector).

(** ** RingCT signatures *)

Record ecdhTuple := {
  e_mask : list Z;
  e_amount : list Z;
}.

Record mgSig := {
  ss : list (list (list Z));
  cc : list Z;
}.

Record clsag := {
  c_s : list (list Z);
  c_c1 : list Z;
  c_D : list Z;
}.

(** [asig] and [Ci] are blobs of 129 and 64 keys. *)
Record rangeSig := {
  asig : list Z;
  Ci : list Z;
}.

Record Bulletproof := {
  bp_A : list Z; bp_S : list Z; bp_T1 : list Z; bp_T2 : list Z; bp_taux : list Z; bp_mu : list Z;
  bp_L : list (list Z); bp_R : list (list Z);
  bp_a : list Z; bp_b : list Z; bp_t : list Z;
}.

Record BulletproofPlus := {
  bpp_A : list Z; bpp_A1 : list Z; bpp_B : list Z; bpp_r1 : list Z; bpp_s1 : list Z; bpp_d1 : list Z;
  bpp_L : list (list Z); bpp_R : list (list Z);
}.

Record rctSigPrunable := {
  rangeSigs : list rangeSig;
  bulletproofs : list Bulletproof;
  bulletproofs_plus : list BulletproofPlus;
  MGs : list mgSig;
  CLSAGs : list clsag;
  p_pseudoOuts : list (list Z);
}.

(** [outPk] has the masks. *)
Record rctSigBase := {
  rct_type : Z;
  txnFee : Z;
  pseudoOuts : list (list Z);
  ecdhInfo : list ecdhTuple;
  outPk : list (list Z);
}.

Record rctSig := {
  base : rctSigBase;
  p : rctSigPrunable;
}.

Definition RCTTypeNull : Z := 0.
Definition RCTTypeFull : Z := 1.
Definition RCTTypeSimple : Z := 2.
Definition RCTTypeBulletproof : Z := 3.
Definition RCTTypeBulletproof2 : Z := 4.
Definition RCTTypeCLSAG : Z := 5.
Definition RCTTypeBulletproofPlus : Z := 6.

Definition null_base : rctSigBase := {| rct_type := RCTTypeNull; txnFee := 0; pseudoOuts := []; ecdhInfo := []; outPk := [] |}.
Definition null_prunable : rctSigPrunable :=
  {| rangeSigs := []; bulletproofs := []; bulletproofs_plus := []; MGs := []; CLSAGs := []; p_pseudoOuts := [] |}.
Definition null_rct : rctSig := {| base := null_base; p := null_prunable |}.

Definition known_type (type : Z) : bool :=
  (type =? RCTTypeNull) || (type =? RCTTypeFull) || (type =? RCTTypeSimple) || (type =? RCTTypeBulletproof) ||
  (type =? RCTTypeBulletproof2) || (type =? RCTTypeCLSAG) || (type =? RCTTypeBulletproofPlus).

(** The types whose amounts are cut to eight bytes. *)
Definition short_amounts (type : Z) : bool :=
  (type =? RCTTypeBulletproof2) || (type =? RCTTypeCLSAG) || (type =? RCTTypeBulletproofPlus).

Definition ecdh_codec (type : Z) : codec ecdhTuple :=
  if short_amounts type then
    members (fun b => {| e_mask := replicate 32 0; e_amount := b ++ replicate 24 0 |}) (fun e => take 8 (e_amount e))
      (serialize_blob 8)
  else
    members (fun x => {| e_mask := x.1; e_amount := x.2 |}) (fun e => (e_mask e, e_amount e))
      (key ▷ key).

(** [serialize_rctsig_base]. *)
Definition base_fields (inputs outputs : nat) : codec (Z * (Z * (list (list Z) * (list ecdhTuple * list (list Z))))) :=
  fields (checked known_type (serialize_uint 1)) (fun type =>
    if type =? RCTTypeNull then no_field (0, ([], ([], [])))
    else
      serialize_varint 64 ▷ (if type =? RCTTypeSimple then custom_vector key inputs else no_field []) ▷
      custom_vector (ecdh_codec type) outputs ▷ custom_vector key outputs).

Definition base_codec (inputs outputs : nat) : codec rctSigBase :=
  members
    (fun x => {| rct_type := x.1; txnFee := x.2.1; pseudoOuts := x.2.2.1; ecdhInfo := x.2.2.2.1; outPk := x.2.2.2.2 |})
    (fun b => (rct_type b, (txnFee b, (pseudoOuts b, (ecdhInfo b, outPk b)))))
    (base_fields inputs outputs).

(** The two lists of a proof are as long as each other and not empty. *)
Definition same_sizes (L R : list (list Z)) : bool := negb ((length L =? 0)%nat || negb (length L =? length R)%nat).

Definition bulletproof_codec : codec Bulletproof :=
  checked (fun b => same_sizes (bp_L b) (bp_R b))
    (members
      (fun '(A, (S1, (T1, (T2, (taux, (mu, (L, (R, (a, (b, t)))))))))) =>
        {| bp_A := A; bp_S := S1; bp_T1 := T1; bp_T2 := T2; bp_taux := taux; bp_mu := mu; bp_L := L; bp_R := R;
           bp_a := a; bp_b := b; bp_t := t |})
      (fun x => (bp_A x, (bp_S x, (bp_T1 x, (bp_T2 x, (bp_taux x, (bp_mu x, (bp_L x, (bp_R x,
                 (bp_a x, (bp_b x, bp_t x)))))))))))
      (key ▷ key ▷ key ▷ key ▷ key ▷ key ▷ container key ▷ container key ▷ key ▷ key ▷ key)).

Definition bulletproof_plus_codec : codec BulletproofPlus :=
  checked (fun b => same_sizes (bpp_L b) (bpp_R b))
    (members
      (fun '(A, (A1, (B, (r1, (s1, (d1, (L, R))))))) =>
        {| bpp_A := A; bpp_A1 := A1; bpp_B := B; bpp_r1 := r1; bpp_s1 := s1; bpp_d1 := d1; bpp_L := L; bpp_R := R |})
      (fun x => (bpp_A x, (bpp_A1 x, (bpp_B x, (bpp_r1 x, (bpp_s1 x, (bpp_d1 x, (bpp_L x, bpp_R x))))))))
      (key ▷ key ▷ key ▷ key ▷ key ▷ key ▷ container key ▷ container key)).

Definition range_codec : codec rangeSig :=
  members (fun x => {| asig := x.1; Ci := x.2 |}) (fun r => (asig r, Ci r))
    (serialize_blob (129 * 32) ▷ serialize_blob (64 * 32)).

Definition BULLETPROOF_MAX_OUTPUTS : Z := 16.
Definition BULLETPROOF_PLUS_MAX_OUTPUTS : Z := 16.

(** [n_bulletproof_max_amounts_base]. *)
Definition max_amounts_base (L_size R_size max_outputs : Z) : Z :=
  if negb (6 <=? L_size) then 0
  else if negb (L_size =? R_size) then 0
  else if negb (Z.shiftl 1 4 =? max_outputs) then 0
  else if negb (L_size <=? 6 + 4) then 0
  else Z.shiftl 1 (L_size - 6).

Definition n_bulletproof_max_amounts (b : Bulletproof) : Z :=
  max_amounts_base (Z.of_nat (length (bp_L b))) (Z.of_nat (length (bp_R b))) BULLETPROOF_MAX_OUTPUTS.
Definition n_bulletproof_plus_max_amounts (b : BulletproofPlus) : Z :=
  max_amounts_base (Z.of_nat (length (bpp_L b))) (Z.of_nat (length (bpp_R b))) BULLETPROOF_PLUS_MAX_OUTPUTS.

(** The sum for a vector of proofs; a bad one makes it 0. *)
Fixpoint sum_max_amounts {A} (max : A -> Z) (n : Z) (proofs : list A) : Z :=
  match proofs with
  | [] => n
  | proof :: proofs =>
      let n2 := max proof in
      if negb (n2 <? (2 ^ 32 - 1) ⊟ n) then 0
      else if n2 =? 0 then 0
      else sum_max_amounts max (n ⊞ n2) proofs
  end.

(** Their number as a [uint32_t], at most one for each output, and the proofs, which have to reach
    for the outputs. *)
Definition proofs_codec {A} (nbp : codec Z) (c : codec A) (max : A -> Z) (outputs : nat) : codec (list A) :=
  checked (fun l => negb (sum_max_amounts max 0 l <? Z.of_nat outputs))
    (members snd (fun l => let n := u32 (Z.of_nat (length l)) in (n, take (Z.to_nat n) l))
      (fields (checked (fun n => negb (Z.of_nat outputs <? n)) nbp) (fun n => custom_vector c (Z.to_nat n)))).

(** The range proofs of each type, as the three vectors. *)
Definition range_proofs_codec (type : Z) (outputs : nat) :
  codec (list rangeSig * list Bulletproof * list BulletproofPlus) :=
  if type =? RCTTypeBulletproofPlus then
    members (fun l => ([], [], l)) snd
      (proofs_codec (serialize_varint 32) bulletproof_plus_codec n_bulletproof_plus_max_amounts outputs)
  else if (type =? RCTTypeBulletproof) || (type =? RCTTypeBulletproof2) || (type =? RCTTypeCLSAG) then
    members (fun l => ([], l, [])) (fun x => x.1.2)
      (proofs_codec (if (type =? RCTTypeBulletproof2) || (type =? RCTTypeCLSAG) then serialize_varint 32 else serialize_uint 4)
         bulletproof_codec n_bulletproof_max_amounts outputs)
  else
    members (fun l => (l, [], [])) (fun x => x.1.1) (custom_vector range_codec outputs).

Definition clsag_codec (mixin : Z) : codec clsag :=
  members (fun x => {| c_s := x.1; c_c1 := x.2.1; c_D := x.2.2 |}) (fun c => (c_s c, (c_c1 c, c_D c)))
    (custom_vector key (Z.to_nat (mixin + 1)) ▷ key ▷ key).

Definition mg_codec (mixin : Z) (mg_ss2_elements : nat) : codec mgSig :=
  members (fun x => {| ss := x.1; cc := x.2 |}) (fun m => (ss m, cc m))
    (custom_vector (custom_vector key mg_ss2_elements) (Z.to_nat (mixin + 1)) ▷ key).

(** The types with a signature for each input. *)
Definition simple_type (type : Z) : bool :=
  (type =? RCTTypeSimple) || (type =? RCTTypeBulletproof) || (type =? RCTTypeBulletproof2).

(** The ring signatures of each type, as the two vectors. *)
Definition ring_signatures_codec (type : Z) (inputs : nat) (mixin : Z) : codec (list mgSig * list clsag) :=
  if (type =? RCTTypeCLSAG) || (type =? RCTTypeBulletproofPlus) then
    members (fun l => ([], l)) snd (custom_vector (clsag_codec mixin) inputs)
  else
    let mg_elements := if simple_type type then inputs else 1%nat in
    let mg_ss2_elements := ((if simple_type type then 1 else inputs) + 1)%nat in
    members (fun l => (l, [])) fst (custom_vector (mg_codec mixin mg_ss2_elements) mg_elements).

(** [serialize_rctsig_prunable], for a type that is known and not null. *)
Definition prunable_codec (type : Z) (inputs outputs : nat) (mixin : Z) : codec rctSigPrunable :=
  if (0xffffffff <=? Z.of_nat inputs) || (0xffffffff <=? Z.of_nat outputs) || (0xffffffff <=? mixin) then failure
  else
    members
      (fun '((r, b, bp), ((m, c), o)) =>
        {| rangeSigs := r; bulletproofs := b; bulletproofs_plus := bp; MGs := m; CLSAGs := c; p_pseudoOuts := o |})
      (fun x => ((rangeSigs x, bulletproofs x, bulletproofs_plus x), ((MGs x, CLSAGs x), p_pseudoOuts x)))
      (range_proofs_codec type outputs ▷ ring_signatures_codec type inputs mixin ▷
       (if (type =? RCTTypeBulletproof) || (type =? RCTTypeBulletproof2) || (type =? RCTTypeCLSAG) ||
           (type =? RCTTypeBulletproofPlus)
        then custom_vector key inputs else no_field [])).

Definition rct_codec (inputs outputs : nat) (mixin : Z) : codec rctSig :=
  members (fun x => {| base := x.1; p := x.2 |}) (fun r => (base r, p r))
    (fields (base_codec inputs outputs) (fun b =>
      if rct_type b =? RCTTypeNull then no_field null_prunable
      else prunable_codec (rct_type b) inputs outputs mixin)).

(** ** Transactions *)

Record transaction := {
  prefix : transaction_prefix;
  signatures : list (list (list Z));
  rct_signatures : rctSig;
}.

Definition get_signature_size (i : txin_v) : nat :=
  match i with txin_to_key _ key_offsets _ => length key_offsets | _ => O end.

(** The signatures of version 1: for each input as many as its size says. *)
Fixpoint save_signatures (sizes : list nat) (sigs : list (list (list Z))) : option (list Z) :=
  match sizes, sigs with
  | [], [] => Some []
  | n :: sizes, l :: sigs =>
      if (length l =? n)%nat then
        w ← save_all (serialize_blob 64) l; ws ← save_signatures sizes sigs; Some (w ++ ws)
      else None
  | _, _ => None
  end.

Fixpoint load_signatures (sizes : list nat) (s : list Z) : option (list (list (list Z)) * list Z) :=
  match sizes with
  | [] => Some ([], s)
  | n :: sizes =>
      if (length s <? n * 64)%nat then None
      else '(l, s) ← load_n (serialize_blob 64) n s; '(ls, s) ← load_signatures sizes s; Some (l :: ls, s)
  end.

(** A transaction may leave its signatures out when none of its inputs has any. *)
Definition signatures_codec (sizes : list nat) : codec (list (list (list Z))) := {|
  save sigs :=
    match sigs with
    | [] => if forallb (Nat.eqb 0) sizes then Some [] else None
    | _ => if (length sigs =? length sizes)%nat then save_signatures sizes sigs else None
    end;
  load s := load_signatures sizes s;
|}.

(** The ring size less one that the signatures are for, from the first input. *)
Definition get_mixin (vin : list txin_v) : Z :=
  match vin with
  | txin_to_key _ key_offsets _ :: _ => Z.of_nat (length key_offsets) ⊟ 1
  | _ => 0
  end.

Definition transaction_codec : codec transaction :=
  members (fun x => {| prefix := x.1; signatures := x.2.1; rct_signatures := x.2.2 |})
    (fun t => (prefix t, (signatures t, rct_signatures t)))
    (fields prefix_codec (fun t =>
      if version t =? 1 then signatures_codec (map get_signature_size (vin t)) ▷ no_field null_rct
      else no_field [] ▷
        match vin t with
        | [] => no_field null_rct
        | _ => rct_codec (length (vin t)) (length (vout t)) (get_mixin (vin t))
        end)).

(** ** Blocks *)

Record block_header := {
  major_version : Z;
  minor_version : Z;
  timestamp : Z;
  prev_id : list Z;
  nonce : Z;
}.

Record block := {
  header : block_header;
  miner_tx : transaction;
  tx_hashes : list (list Z);
}.

Definition header_codec : codec block_header :=
  members
    (fun x => {| major_version := x.1; minor_version := x.2.1; timestamp := x.2.2.1; prev_id := x.2.2.2.1;
                 nonce := x.2.2.2.2 |})
    (fun h => (major_version h, (minor_version h, (timestamp h, (prev_id h, nonce h)))))
    (serialize_varint 8 ▷ serialize_varint 8 ▷ serialize_varint 64 ▷ serialize_blob 32 ▷ serialize_uint 4).

Definition CRYPTONOTE_MAX_TX_PER_BLOCK : Z := 0x10000000.

Definition block_codec : codec block :=
  checked (fun b => negb (CRYPTONOTE_MAX_TX_PER_BLOCK <? Z.of_nat (length (tx_hashes b))))
    (members (fun x => {| header := x.1.1; miner_tx := x.1.2; tx_hashes := x.2 |})
      (fun b => ((header b, miner_tx b), tx_hashes b))
      ((header_codec ▷ transaction_codec) ▷ container (serialize_blob 32))).

(** ** Values

    The values of the types: numbers in their widths, blobs of their sizes, vectors
    that a [size_t] counts. *)

Definition vec_ok {A} (P : A -> Prop) (l : list A) : Prop := Forall P l /\ Z.of_nat (length l) < 2 ^ 64.

Definition script_ok (t : txout_to_script) : Prop := vec_ok (is_blob 32) (keys t) /\ vec_ok in_u8 (script t).

Definition txin_ok (i : txin_v) : Prop :=
  match i with
  | txin_gen h => in_u64 h
  | txin_to_script prev n sigset => is_blob 32 prev /\ in_u64 n /\ vec_ok in_u8 sigset
  | txin_to_scripthash prev n t sigset => is_blob 32 prev /\ in_u64 n /\ script_ok t /\ vec_ok in_u8 sigset
  | txin_to_key a offsets k => in_u64 a /\ vec_ok in_u64 offsets /\ is_blob 32 k
  end.

Definition target_ok (t : txout_target_v) : Prop :=
  match t with
  | to_script s => script_ok s
  | to_scripthash h => is_blob 32 h
  | to_key k => is_blob 32 k
  | to_tagged_key k v => is_blob 32 k /\ is_blob 1 v
  end.

Definition tx_out_ok (o : tx_out) : Prop := in_u64 (amount o) /\ target_ok (target o).

Definition prefix_ok (t : transaction_prefix) : Prop :=
  (in_u64 (version t) /\ known_version (version t) = true) /\ in_u64 (unlock_time t) /\ vec_ok txin_ok (vin t) /\
  vec_ok tx_out_ok (vout t) /\ vec_ok in_u8 (extra t).

Definition fixed_ok {A} (P : A -> Prop) (n : nat) (l : list A) : Prop := Forall P l /\ length l = n.

Definition ecdh_ok (type : Z) (e : ecdhTuple) : Prop :=
  if short_amounts type then
    e_mask e = replicate 32 0 /\ exists b, is_blob 8 b /\ e_amount e = b ++ replicate 24 0
  else is_blob 32 (e_mask e) /\ is_blob 32 (e_amount e).

Definition base_ok (inputs outputs : nat) (b : rctSigBase) : Prop :=
  (in_u8 (rct_type b) /\ known_type (rct_type b) = true) /\
  if rct_type b =? RCTTypeNull then (txnFee b, (pseudoOuts b, (ecdhInfo b, outPk b))) = (0, ([], ([], [])))
  else
    in_u64 (txnFee b) /\
    (if rct_type b =? RCTTypeSimple then fixed_ok (is_blob 32) inputs (pseudoOuts b) else pseudoOuts b = []) /\
    fixed_ok (ecdh_ok (rct_type b)) outputs (ecdhInfo b) /\ fixed_ok (is_blob 32) outputs (outPk b).

Definition bulletproof_ok (b : Bulletproof) : Prop :=
  (is_blob 32 (bp_A b) /\ is_blob 32 (bp_S b) /\ is_blob 32 (bp_T1 b) /\ is_blob 32 (bp_T2 b) /\ is_blob 32 (bp_taux b) /\
   is_blob 32 (bp_mu b) /\ vec_ok (is_blob 32) (bp_L b) /\ vec_ok (is_blob 32) (bp_R b) /\ is_blob 32 (bp_a b) /\
   is_blob 32 (bp_b b) /\ is_blob 32 (bp_t b)) /\ same_sizes (bp_L b) (bp_R b) = true.

Definition bulletproof_plus_ok (b : BulletproofPlus) : Prop :=
  (is_blob 32 (bpp_A b) /\ is_blob 32 (bpp_A1 b) /\ is_blob 32 (bpp_B b) /\ is_blob 32 (bpp_r1 b) /\ is_blob 32 (bpp_s1 b) /\
   is_blob 32 (bpp_d1 b) /\ vec_ok (is_blob 32) (bpp_L b) /\ vec_ok (is_blob 32) (bpp_R b)) /\
  same_sizes (bpp_L b) (bpp_R b) = true.

Definition range_ok (r : rangeSig) : Prop := is_blob (129 * 32) (asig r) /\ is_blob (64 * 32) (Ci r).

Definition proofs_ok {A} (P : A -> Prop) (max : A -> Z) (outputs : nat) (l : list A) : Prop :=
  Forall P l /\ Z.of_nat (length l) < 2 ^ 32 /\ (length l <= outputs)%nat /\ Z.of_nat outputs <= sum_max_amounts max 0 l.

Definition range_proofs_ok (type : Z) (outputs : nat) (x : list rangeSig * list Bulletproof * list BulletproofPlus) : Prop :=
  let '(r, b, bp) := x in
  if type =? RCTTypeBulletproofPlus then
    r = [] /\ b = [] /\ proofs_ok bulletproof_plus_ok n_bulletproof_plus_max_amounts outputs bp
  else if (type =? RCTTypeBulletproof) || (type =? RCTTypeBulletproof2) || (type =? RCTTypeCLSAG) then
    r = [] /\ bp = [] /\ proofs_ok bulletproof_ok n_bulletproof_max_amounts outputs b
  else b = [] /\ bp = [] /\ fixed_ok range_ok outputs r.

Definition clsag_ok (mixin : Z) (c : clsag) : Prop :=
  fixed_ok (is_blob 32) (Z.to_nat (mixin + 1)) (c_s c) /\ is_blob 32 (c_c1 c) /\ is_blob 32 (c_D c).

Definition mg_ok (mixin : Z) (n : nat) (m : mgSig) : Prop :=
  fixed_ok (fixed_ok (is_blob 32) n) (Z.to_nat (mixin + 1)) (ss m) /\ is_blob 32 (cc m).

Definition ring_signatures_ok (type : Z) (inputs : nat) (mixin : Z) (x : list mgSig * list clsag) : Prop :=
  if (type =? RCTTypeCLSAG) || (type =? RCTTypeBulletproofPlus) then x.1 = [] /\ fixed_ok (clsag_ok mixin) inputs x.2
  else
    x.2 = [] /\
    fixed_ok (mg_ok mixin ((if simple_type type then 1 else inputs) + 1)) (if simple_type type then inputs else 1%nat) x.1.

Definition prunable_ok (type : Z) (inputs outputs : nat) (mixin : Z) (x : rctSigPrunable) : Prop :=
  Z.of_nat inputs < 0xffffffff /\ Z.of_nat outputs < 0xffffffff /\ mixin < 0xffffffff /\
  range_proofs_ok type outputs (rangeSigs x, bulletproofs x, bulletproofs_plus x) /\
  ring_signatures_ok type inputs mixin (MGs x, CLSAGs x) /\
  if (type =? RCTTypeBulletproof) || (type =? RCTTypeBulletproof2) || (type =? RCTTypeCLSAG) || (type =? RCTTypeBulletproofPlus)
  then fixed_ok (is_blob 32) inputs (p_pseudoOuts x) else p_pseudoOuts x = [].

Definition rct_ok (inputs outputs : nat) (mixin : Z) (r : rctSig) : Prop :=
  base_ok inputs outputs (base r) /\
  if rct_type (base r) =? RCTTypeNull then p r = null_prunable
  else prunable_ok (rct_type (base r)) inputs outputs mixin (p r).

(** ** Laws of the prefix *)

Lemma varint64_lawful : lawful in_u64 (serialize_varint 64).
Proof. exact (varint_lawful 64 ltac:(lia)). Qed.

Lemma byte_lawful : lawful in_u8 (serialize_uint 1).
Proof. exact (uint_lawful 1). Qed.

Lemma key_lawful : lawful (is_blob 32) key.
Proof. exact (blob_lawful 32). Qed.


#[local] Hint Resolve varint64_lawful byte_lawful key_lawful : archive.

Lemma byte_vector_lawful : lawful (vec_ok in_u8) byte_vector.
Proof. apply (container_lawful byte_lawful). by apply (hungry_nonempty byte_lawful). Qed.

Lemma keys_lawful : lawful (vec_ok (is_blob 32)) (container key).
Proof. apply (container_lawful key_lawful). by apply (hungry_nonempty key_lawful). Qed.

Lemma offsets_lawful : lawful (vec_ok in_u64) (container (serialize_varint 64)).
Proof. apply (container_lawful varint64_lawful), varint_nonempty. Qed.
#[local] Hint Resolve byte_vector_lawful keys_lawful offsets_lawful : archive.

Lemma then_lawful {A B} {P : A -> Prop} {R : B -> Prop} {c : codec A} {d : codec B} :
  lawful P c -> lawful R d -> lawful (fun ab => P ab.1 /\ R ab.2) (c ▷ d).
Proof. intros Hc Hd. by apply (fields_lawful (R := fun _ => R) Hc). Qed.
#[local] Hint Resolve then_lawful : archive.

#[local] Ltac unpair := intros; repeat match goal with x : prod _ _ |- _ => destruct x end; done.

(** A struct with its members in order. *)
#[local] Ltac struct_members := eapply struct_lawful; [eauto 20 with archive|by intros []|unpair].
#[local] Ltac struct_law := eapply lawful_iff; [struct_members|done].

Lemma script_lawful : lawful script_ok script_codec.
Proof. struct_law. Qed.
#[local] Hint Resolve script_lawful : archive.

(** The alternatives of a variant, and that they differ. *)
#[local] Ltac alternatives_law :=
  repeat (apply Forall_cons; split;
    [constructor; cbn;
      [lia|unpair|intros [] ?; try discriminate; by intros [= <-]
      |eapply lawful_iff; [eauto 20 with archive|done]]|]);
  by apply Forall_nil.
#[local] Ltac alternatives_apart := repeat constructor; cbn; (lia || done).

Lemma txin_alternatives_ok : Forall (alt_ok txin_ok) txin_alternatives.
Proof. alternatives_law. Qed.

Lemma txin_apart : apart txin_alternatives.
Proof. alternatives_apart. Qed.

Lemma txin_lawful : lawful txin_ok txin_codec.
Proof.
  apply (variant_lawful _ _ txin_alternatives_ok txin_apart). intros [] _; repeat ((left; by eexists) || right).
Qed.

Lemma txout_alternatives_ok : Forall (alt_ok target_ok) txout_alternatives.
Proof. alternatives_law. Qed.

Lemma txout_apart : apart txout_alternatives.
Proof. alternatives_apart. Qed.

Lemma target_lawful : lawful target_ok (variant txout_alternatives).
Proof.
  apply (variant_lawful _ _ txout_alternatives_ok txout_apart). intros [] _; repeat ((left; by eexists) || right).
Qed.
#[local] Hint Resolve txin_lawful target_lawful : archive.

Lemma tx_out_lawful : lawful tx_out_ok tx_out_codec.
Proof. struct_law. Qed.

Lemma tx_out_hungry : hungry tx_out_codec.
Proof. apply members_hungry, (fields_hungry_later varint64_lawful). by intros. Qed.

Lemma vin_lawful : lawful (vec_ok txin_ok) (container txin_codec).
Proof. apply (container_lawful txin_lawful). by apply (hungry_nonempty txin_lawful). Qed.

Lemma vout_lawful : lawful (vec_ok tx_out_ok) (container tx_out_codec).
Proof. apply (container_lawful tx_out_lawful). apply (hungry_nonempty tx_out_lawful), tx_out_hungry. Qed.
#[local] Hint Resolve vin_lawful vout_lawful : archive.

Lemma prefix_lawful : lawful prefix_ok prefix_codec.
Proof. struct_law. Qed.

(** ** Laws of the signatures *)

Lemma fixed_lawful {A} {P : A -> Prop} {c : codec A} (n : nat) : lawful P c -> lawful (fixed_ok P n) (custom_vector c n).
Proof. intros Hc. exact (custom_vector_lawful Hc n). Qed.
#[local] Hint Resolve fixed_lawful : archive.

Lemma ecdh_lawful (type : Z) : lawful (ecdh_ok type) (ecdh_codec type).
Proof.
  unfold ecdh_codec, ecdh_ok. destruct (short_amounts type); [|struct_law].
  eapply lawful_iff; [apply (members_lawful (blob_lawful 8)); intros b [Hb _]; cbn [e_amount]; by rewrite take_app_length'|].
  intros [m a]. cbn [e_mask e_amount]. split.
  - intros [Hb E]. injection E as <- Ea. split; [done|]. exists (take 8 a). split; [done|]. symmetry. exact Ea.
  - intros (-> & b & [Hl Hb] & ->). rewrite (take_app_length' b) by done. done.
Qed.
#[local] Hint Resolve ecdh_lawful : archive.

Lemma base_fields_lawful (inputs outputs : nat) :
  lawful (fun x => (in_u8 x.1 /\ known_type x.1 = true) /\
    if x.1 =? RCTTypeNull then x.2 = (0, ([], ([], [])))
    else in_u64 x.2.1 /\ (if x.1 =? RCTTypeSimple then fixed_ok (is_blob 32) inputs x.2.2.1 else x.2.2.1 = []) /\
      fixed_ok (ecdh_ok x.1) outputs x.2.2.2.1 /\ fixed_ok (is_blob 32) outputs x.2.2.2.2) (base_fields inputs outputs).
Proof.
  apply (fields_lawful (R := fun type x =>
    if type =? RCTTypeNull then x = (0, ([], ([], [])))
    else in_u64 x.1 /\ (if type =? RCTTypeSimple then fixed_ok (is_blob 32) inputs x.2.1 else x.2.1 = []) /\
      fixed_ok (ecdh_ok type) outputs x.2.2.1 /\ fixed_ok (is_blob 32) outputs x.2.2.2)
    (check_lawful byte_lawful known_type)).
  intros type _. apply if_lawful; [auto with archive|]. eapply lawful_iff; [eauto 20 with archive|done].
Qed.

Lemma base_lawful (inputs outputs : nat) : lawful (base_ok inputs outputs) (base_codec inputs outputs).
Proof. eapply lawful_iff; [eapply struct_lawful; [apply base_fields_lawful|by intros []|unpair]|done]. Qed.

Lemma bulletproof_lawful : lawful bulletproof_ok bulletproof_codec.
Proof. eapply lawful_iff; [eapply check_lawful; struct_members|done]. Qed.

Lemma bulletproof_plus_lawful : lawful bulletproof_plus_ok bulletproof_plus_codec.
Proof. eapply lawful_iff; [eapply check_lawful; struct_members|done]. Qed.

Lemma range_lawful : lawful range_ok range_codec.
Proof. struct_law. Qed.

Lemma proofs_lawful {A} (P : A -> Prop) (nbp : codec Z) (c : codec A) (max : A -> Z) (outputs : nat) :
  lawful in_u32 nbp -> lawful P c -> lawful (proofs_ok P max outputs) (proofs_codec nbp c max outputs).
Proof.
  intros Hn Hc. assert (forall l : list A, Z.of_nat (length l) < 2 ^ 32 -> u32 (Z.of_nat (length l)) = Z.of_nat (length l)) as Hu.
  { intros l Hl. apply Z.mod_small. lia. }
  eapply lawful_iff; [eapply check_lawful; eapply members_lawful;
    [apply (fields_lawful (R := fun n => fixed_ok P (Z.to_nat n)) (check_lawful Hn _)); auto with archive|]|].
  - intros [n l] [[Hr _] [_ Hl]]. cbn [fst snd] in *. unfold in_u32 in Hr. rewrite Hl, Z2Nat.id by lia.
    assert (u32 n = n) as -> by (apply Z.mod_small; lia). by rewrite <- Hl, firstn_all.
  - intros l. cbn [fst snd]. unfold proofs_ok, fixed_ok, in_u32. split.
    + intros [[[[Hr Ho] [Hl Hlen]] E] Hs]. rewrite E in *. rewrite negb_true_iff, Z.ltb_ge in Ho, Hs.
      split; [done|]. lia.
    + intros (Hl & Hr & Ho & Hs). rewrite (Hu l Hr), Nat2Z.id, firstn_all, !negb_true_iff, !Z.ltb_ge.
      split_and!; (done || lia).
Qed.

Lemma varint32_lawful : lawful in_u32 (serialize_varint 32).
Proof. exact (varint_lawful 32 ltac:(lia)). Qed.

Lemma uint32_lawful : lawful in_u32 (serialize_uint 4).
Proof. exact (uint_lawful 4). Qed.
#[local] Hint Resolve bulletproof_lawful bulletproof_plus_lawful range_lawful proofs_lawful varint32_lawful
  uint32_lawful : archive.

(** One of several vectors, the others being empty. *)
#[local] Ltac one_vector :=
  eapply lawful_iff; [eapply members_lawful; [eauto 20 with archive|done]|intros; unfold range_proofs_ok, ring_signatures_ok].

Lemma range_proofs_lawful (type : Z) (outputs : nat) :
  lawful (range_proofs_ok type outputs) (range_proofs_codec type outputs).
Proof.
  unfold range_proofs_codec. destruct (type =? RCTTypeBulletproofPlus) eqn:E1.
  { one_vector. destruct a as [[r b] bp]. rewrite E1. cbn. intuition congruence. }
  destruct ((type =? RCTTypeBulletproof) || _ || _) eqn:E2.
  - assert (lawful (proofs_ok bulletproof_ok n_bulletproof_max_amounts outputs)
      (proofs_codec (if (type =? RCTTypeBulletproof2) || (type =? RCTTypeCLSAG) then serialize_varint 32 else serialize_uint 4)
         bulletproof_codec n_bulletproof_max_amounts outputs)).
    { destruct ((type =? RCTTypeBulletproof2) || (type =? RCTTypeCLSAG)); auto with archive. }
    one_vector. destruct a as [[r b] bp]. rewrite E1, E2. cbn. intuition congruence.
  - one_vector. destruct a as [[r b] bp]. rewrite E1, E2. cbn. intuition congruence.
Qed.

Lemma clsag_lawful (mixin : Z) : lawful (clsag_ok mixin) (clsag_codec mixin).
Proof. struct_law. Qed.

Lemma mg_lawful (mixin : Z) (n : nat) : lawful (mg_ok mixin n) (mg_codec mixin n).
Proof. struct_law. Qed.
#[local] Hint Resolve range_proofs_lawful clsag_lawful mg_lawful : archive.

Lemma ring_signatures_lawful (type : Z) (inputs : nat) (mixin : Z) :
  lawful (ring_signatures_ok type inputs mixin) (ring_signatures_codec type inputs mixin).
Proof.
  unfold ring_signatures_codec. destruct (_ || _) eqn:E; one_vector; destruct a as [m c]; rewrite E; cbn;
    intuition congruence.
Qed.
#[local] Hint Resolve ring_signatures_lawful : archive.

Lemma prunable_lawful (type : Z) (inputs outputs : nat) (mixin : Z) :
  lawful (prunable_ok type inputs outputs mixin) (prunable_codec type inputs outputs mixin).
Proof.
  unfold prunable_codec. destruct (_ || _) eqn:E.
  - eapply lawful_iff; [apply failure_lawful|]. intros x. split; [done|]. intros (H1 & H2 & H3 & _).
    repeat (apply orb_true_iff in E as [E|E]); apply Z.leb_le in E; lia.
  - eapply lawful_iff; [struct_members|]. intros x. cbn [fst snd]. unfold prunable_ok.
    repeat (apply orb_false_iff in E as [E ?]). rewrite !Z.leb_gt in *. intuition.
Qed.
#[local] Hint Resolve prunable_lawful base_lawful : archive.

Lemma rct_fields_lawful (inputs outputs : nat) (mixin : Z) :
  lawful (fun x => base_ok inputs outputs x.1 /\
      if rct_type x.1 =? RCTTypeNull then x.2 = null_prunable else prunable_ok (rct_type x.1) inputs outputs mixin x.2)
    (fields (base_codec inputs outputs) (fun b =>
      if rct_type b =? RCTTypeNull then no_field null_prunable else prunable_codec (rct_type b) inputs outputs mixin)).
Proof.
  apply (fields_lawful (R := fun b x =>
    if rct_type b =? RCTTypeNull then x = null_prunable else prunable_ok (rct_type b) inputs outputs mixin x)
    (base_lawful inputs outputs)). auto with archive.
Qed.

Lemma rct_lawful (inputs outputs : nat) (mixin : Z) : lawful (rct_ok inputs outputs mixin) (rct_codec inputs outputs mixin).
Proof. eapply lawful_iff; [eapply struct_lawful; [apply rct_fields_lawful|by intros []|unpair]|done]. Qed.

(** ** What cannot be cut off *)

Lemma then_solid {A B} {P : A -> Prop} {c : codec A} {d : codec B} :
  lawful P c -> solid (fun _ => True) d -> hungry d \/ solid (fun _ => True) c -> solid (fun _ => True) (c ▷ d).
Proof.
  intros Hc Hd Hor. apply (fields_solid Hc _ (fun _ => True)); [done|by intros|].
  intros a _ _. destruct Hor as [|Hs]; [by left|]. right. by apply (solid_weaken (fun _ => True)).
Qed.

Lemma struct_solid {A B} {P : A -> Prop} {c : codec A} (f : A -> B) (g : B -> A) :
  lawful P c -> (forall a, g (f a) = a) -> solid (fun _ => True) c -> solid (fun _ => True) (members f g c).
Proof. intros Hc Hg Hs. apply (members_solid Hc f g (fun _ => True)); [by intros|done]. Qed.

Lemma then_hungry {A B} {P : A -> Prop} {c : codec A} {d : codec B} : lawful P c -> hungry d -> hungry (c ▷ d).
Proof. intros Hc Hd. apply (fields_hungry_later Hc). by intros. Qed.

#[local] Hint Resolve then_solid then_hungry : archive.

Lemma key_solid : solid (fun _ => True) key.
Proof. apply blob_solid. Qed.
Lemma key_hungry : hungry key.
Proof. done. Qed.
#[local] Hint Resolve key_solid key_hungry or_introl or_intror : archive.

Lemma clsag_solid (mixin : Z) : solid (fun _ => True) (clsag_codec mixin).
Proof. eapply struct_solid; [eauto 20 with archive|unpair|eauto 20 with archive]. Qed.

Lemma mg_solid (mixin : Z) (n : nat) : solid (fun _ => True) (mg_codec mixin n).
Proof. eapply struct_solid; [eauto 20 with archive|unpair|eauto 20 with archive]. Qed.

Lemma clsag_hungry (mixin : Z) : hungry (clsag_codec mixin).
Proof. apply members_hungry. eauto 20 with archive. Qed.

Lemma mg_hungry (mixin : Z) (n : nat) : hungry (mg_codec mixin n).
Proof. apply members_hungry. eauto 20 with archive. Qed.
#[local] Hint Resolve clsag_solid mg_solid clsag_hungry mg_hungry : archive.

Lemma ring_signatures_solid (type : Z) (inputs : nat) (mixin : Z) : solid (fun _ => True) (ring_signatures_codec type inputs mixin).
Proof.
  unfold ring_signatures_codec. destruct (_ || _); (eapply struct_solid; [eauto 20 with archive|done|]);
    (eapply custom_vector_solid; eauto with archive).
Qed.

Lemma ring_signatures_hungry (type : Z) (inputs : nat) (mixin : Z) :
  inputs <> O -> hungry (ring_signatures_codec type inputs mixin).
Proof.
  intros Hi. unfold ring_signatures_codec. destruct (_ || _); apply members_hungry, custom_vector_hungry;
    auto with archive. by destruct (simple_type type).
Qed.
#[local] Hint Resolve ring_signatures_solid ring_signatures_hungry : archive.

Lemma prunable_solid (type : Z) (inputs outputs : nat) (mixin : Z) :
  inputs <> O ->
  solid (fun _ => True) (prunable_codec type inputs outputs mixin) /\ hungry (prunable_codec type inputs outputs mixin).
Proof.
  intros Hi. unfold prunable_codec. destruct (_ || _ || _); [by split; [apply failure_solid|]|].
  assert (forall b : bool, solid (fun _ => True) (if b then custom_vector key inputs else no_field [])) as Hp.
  { intros []; [|apply no_field_solid]. eapply custom_vector_solid; eauto with archive. }
  split; [eapply struct_solid; [eauto 20 with archive|unpair|]|apply members_hungry];
    eauto 10 using fields_hungry with archive.
Qed.

(** A null signature is one byte. *)
Lemma null_base_solid (inputs outputs : nat) :
  solid (fun b => rct_type b = RCTTypeNull) (base_codec inputs outputs).
Proof.
  apply (members_solid (base_fields_lawful inputs outputs)); [unpair|].
  apply (fields_solid (check_lawful byte_lawful known_type) _ (fun type => type = RCTTypeNull)); [done|..].
  - intros type _ ->. apply no_field_solid.
  - intros type _ _. right. apply check_solid, uint_solid.
Qed.

Lemma rct_solid (inputs outputs : nat) (mixin : Z) :
  inputs <> O -> solid (fun _ => True) (rct_codec inputs outputs mixin) /\ hungry (rct_codec inputs outputs mixin).
Proof.
  intros Hi. split; [|by apply members_hungry, fields_hungry, members_hungry, fields_hungry].
  apply (struct_solid _ _ (rct_fields_lawful inputs outputs mixin)); [unpair|].
  apply (fields_solid (base_lawful inputs outputs) _ (fun _ => True)); [done|..]; intros b _ _;
    destruct (Z.eqb_spec (rct_type b) RCTTypeNull) as [E|_].
  - apply no_field_solid.
  - by apply prunable_solid.
  - right. apply (solid_weaken (fun b => rct_type b = RCTTypeNull)); [by intros ? ->|apply null_base_solid].
  - left. by apply prunable_solid.
Qed.

(** ** Laws of transactions *)

Definition signatures_ok (sizes : list nat) (sigs : list (list (list Z))) : Prop := Forall2 (fixed_ok (is_blob 64)) sizes sigs.

Definition transaction_ok (t : transaction) : Prop :=
  prefix_ok (prefix t) /\
  if version (prefix t) =? 1 then
    signatures_ok (map get_signature_size (vin (prefix t))) (signatures t) /\ rct_signatures t = null_rct
  else
    signatures t = [] /\
    match vin (prefix t) with
    | [] => rct_signatures t = null_rct
    | _ => rct_ok (length (vin (prefix t))) (length (vout (prefix t))) (get_mixin (vin (prefix t))) (rct_signatures t)
    end.

Lemma save_signatures_law (sizes : list nat) (sigs : list (list (list Z))) :
  signatures_ok sizes sigs ->
  exists w, save_signatures sizes sigs = Some w /\ Forall in_u8 w /\
    forall rest, load_signatures sizes (w ++ rest) = Some (sigs, rest).
Proof.
  induction 1 as [|n l sizes sigs [Hl Hn] _ IH]; [by exists []|]. destruct IH as (ws & Ews & Hws & Hls).
  destruct (save_all_law (blob_lawful 64) l Hl) as (w & Ew & Hw & Hlw). exists (w ++ ws). cbn [save_signatures].
  rewrite (proj2 (Nat.eqb_eq _ _) Hn), Ew. cbn [mbind option_bind]. rewrite Ews. split; [done|].
  split; [by apply Forall_app|]. intros rest. cbn [load_signatures]. rewrite <- app_assoc.
  assert (length w = (n * 64)%nat) as Hlen.
  { subst n. clear -Hl Ew. revert w Ew. induction Hl as [|b l [Hb _] _ IH]; intros w; cbn; [by intros [= <-]|].
    destruct (save_all _ l) as [ws|]; [|done]. intros [= <-]. rewrite length_app, Hb, (IH ws eq_refl). lia. }
  rewrite (proj2 (Nat.ltb_ge _ _)) by (rewrite length_app; lia). rewrite <- Hn, Hlw. cbn. by rewrite Hls.
Qed.

Lemma load_signatures_law (sizes : list nat) (s : list Z) (sigs : list (list (list Z))) (rest : list Z) :
  Forall in_u8 s -> load_signatures sizes s = Some (sigs, rest) ->
  signatures_ok sizes sigs /\ exists w, save_signatures sizes sigs = Some w /\ s = w ++ rest.
Proof.
  revert s sigs. induction sizes as [|n sizes IH]; intros s sigs Hs; cbn [load_signatures].
  { intros [= <- <-]. split; [constructor|by exists []]. }
  destruct (_ <? _)%nat; [done|]. destruct (load_n (serialize_blob 64) n s) as [[l s']|] eqn:El; [|done]. cbn [mbind option_bind].
  destruct (load_signatures sizes s') as [[ls r]|] eqn:Els; [|done]. intros [= <- <-].
  destruct (load_n_law (blob_lawful 64) n s l s' Hs El) as (Hn & Hl & _).
  destruct (load_n_solid (blob_lawful 64) (fun _ => True) n s l s') as (w & Ew & ->);
    [apply blob_solid|done|done|by apply Forall_true|].
  apply Forall_app in Hs as [_ Hs']. destruct (IH s' ls Hs' Els) as (Hok & ws & Ews & ->).
  split; [by constructor|]. exists (w ++ ws). cbn [save_signatures]. rewrite (proj2 (Nat.eqb_eq _ _) Hn), Ew.
  cbn [mbind option_bind]. rewrite Ews. by rewrite <- app_assoc.
Qed.

Lemma save_signatures_ok (sizes : list nat) (sigs : list (list (list Z))) :
  signatures_ok sizes sigs -> save (signatures_codec sizes) sigs = save_signatures sizes sigs.
Proof.
  intros Hok. cbn [save signatures_codec]. pose proof (Forall2_length _ _ _ Hok) as Hlen.
  destruct sigs as [|l sigs]; [by apply Forall2_nil_inv_r in Hok as ->|].
  by rewrite (proj2 (Nat.eqb_eq _ _) (eq_sym Hlen)).
Qed.

Lemma signatures_lawful (sizes : list nat) : lawful (signatures_ok sizes) (signatures_codec sizes).
Proof.
  split.
  - intros sigs Hok. rewrite (save_signatures_ok sizes sigs Hok). by apply save_signatures_law.
  - intros s sigs rest Hs E. destruct (load_signatures_law sizes s sigs rest Hs E) as (Hok & w & Ew & ->).
    split; [done|]. left. exists w. by rewrite (save_signatures_ok sizes sigs Hok).
Qed.
#[local] Hint Resolve signatures_lawful rct_lawful : archive.

(** What follows the prefix. *)
Lemma tail_lawful (t : transaction_prefix) :
  lawful (fun x =>
      if version t =? 1 then signatures_ok (map get_signature_size (vin t)) x.1 /\ x.2 = null_rct
      else x.1 = [] /\
        match vin t with
        | [] => x.2 = null_rct
        | _ => rct_ok (length (vin t)) (length (vout t)) (get_mixin (vin t)) x.2
        end)
    (if version t =? 1 then signatures_codec (map get_signature_size (vin t)) ▷ no_field null_rct
     else no_field [] ▷
       match vin t with
       | [] => no_field null_rct
       | _ => rct_codec (length (vin t)) (length (vout t)) (get_mixin (vin t))
       end).
Proof.
  apply if_lawful; [exact (then_lawful (signatures_lawful _) (no_field_lawful null_rct))|].
  destruct (vin t); [exact (then_lawful (no_field_lawful []) (no_field_lawful null_rct))|].
  exact (then_lawful (no_field_lawful []) (rct_lawful _ _ _)).
Qed.

Lemma transaction_fields_lawful :
  lawful (fun x => prefix_ok x.1 /\ transaction_ok {| prefix := x.1; signatures := x.2.1; rct_signatures := x.2.2 |})
    (fields prefix_codec (fun t =>
      if version t =? 1 then signatures_codec (map get_signature_size (vin t)) ▷ no_field null_rct
      else no_field [] ▷
        match vin t with
        | [] => no_field null_rct
        | _ => rct_codec (length (vin t)) (length (vout t)) (get_mixin (vin t))
        end)).
Proof.
  eapply lawful_iff; [apply (fields_lawful prefix_lawful (fun t _ => tail_lawful t))|].
  intros [t [s r]]. cbn [fst snd]. unfold transaction_ok. cbn [prefix signatures rct_signatures]. tauto.
Qed.

Lemma transaction_lawful : lawful transaction_ok transaction_codec.
Proof.
  eapply lawful_iff; [eapply struct_lawful; [apply transaction_fields_lawful|by intros []|unpair]|].
  intros [t s r]. cbn [fst snd prefix signatures rct_signatures]. unfold transaction_ok. cbn [prefix]. tauto.
Qed.

(** A transaction with RingCT that has an input is not cut off. *)
Definition has_rct (t : transaction) : Prop := version (prefix t) <> 1 /\ vin (prefix t) <> [].

Lemma transaction_solid : solid has_rct transaction_codec.
Proof.
  apply (members_solid transaction_fields_lawful); [unpair|].
  apply (fields_solid prefix_lawful _ (fun t => version t <> 1 /\ vin t <> [])); [done|..]; intros t _ [Hv Hi];
    rewrite (proj2 (Z.eqb_neq _ _) Hv);
    (destruct (vin t) as [|i l] eqn:E; [done|]; rewrite <- E);
    (destruct (rct_solid (length (vin t)) (length (vout t)) (get_mixin (vin t))) as [Hs Hh]; [by rewrite E|]).
  - apply (solid_weaken (fun _ => True)); [done|]. eapply then_solid; eauto with archive.
  - left. eapply then_hungry; eauto with archive.
Qed.
