(* ===== verification/TxExtra.v ===== *)
(** * The extra field of a transaction

    src/src/cryptonote_basic/tx_extra.h and the functions on it of
    cryptonote_format_utils.cpp: the fields and their archives, parsing, sorting,
    adding and removing fields, and the payment ids in a nonce. *)

From S2P Require Import Prelude Varint Archive TxFormat.

#[local] Open Scope codec_scope.

(** ** Fields *)

Definition TX_EXTRA_PADDING_MAX_COUNT : Z := 255.
Definition TX_EXTRA_NONCE_MAX_COUNT : Z := 255.

Definition TX_EXTRA_TAG_PADDING : Z := 0x00.
Definition TX_EXTRA_TAG_PUBKEY : Z := 0x01.
Definition TX_EXTRA_NONCE : Z := 0x02.
Definition TX_EXTRA_MERGE_MINING_TAG : Z := 0x03.
Definition TX_EXTRA_TAG_ADDITIONAL_PUBKEYS : Z := 0x04.
Definition TX_EXTRA_MYSTERIOUS_MINERGATE_TAG : Z := 0xde.

Definition TX_EXTRA_NONCE_PAYMENT_ID : Z := 0x00.
Definition TX_EXTRA_NONCE_ENCRYPTED_PAYMENT_ID : Z := 0x01.

Inductive tx_extra_field :=
  | tx_extra_padding (size : Z)
  | tx_extra_pub_key (pub_key : list Z)
  | tx_extra_nonce (nonce : list Z)
  | tx_extra_merge_mining_tag (depth : Z) (merkle_root : list Z)
  | tx_extra_additional_pub_keys (keys : list (list Z))
  | tx_extra_mysterious_minergate (data : list Z).

(** The rest of the extra field has to be zeros, which are counted together with the
    tag. *)
Definition padding_codec : codec Z := {|
  save size := if TX_EXTRA_PADDING_MAX_COUNT <? size then None else Some (replicate (Z.to_nat (size - 1)) 0);
  load s :=
    let size := Z.of_nat (length s) + 1 in
    if forallb (Z.eqb 0) s && (size <=? TX_EXTRA_PADDING_MAX_COUNT) then Some (size, []) else None;
|}.

Definition nonce_codec : codec (list Z) :=
  checked (fun nonce => negb (TX_EXTRA_NONCE_MAX_COUNT <? Z.of_nat (length nonce))) serialize_string.

(** The members of [serialize_helper], in an archive of their own within a string. *)
Definition mm_members : codec (Z * list Z) := serialize_varint 64 ▷ serialize_blob 32.

Definition merge_mining_codec : codec (Z * list Z) := {|
  save x := field ← save mm_members x; save serialize_string field;
  load s := '(field, s) ← load serialize_string s; x ← parse_binary mm_members field; Some (x, s);
|}.

(** The fields other than the padding. *)
Definition plain_alternatives : list (alternative tx_extra_field) := [
  {| get_tag := TX_EXTRA_TAG_PUBKEY;
     inject := tx_extra_pub_key;
     project f := match f with tx_extra_pub_key k => Some k | _ => None end;
     body := key |};
  {| get_tag := TX_EXTRA_NONCE;
     inject := tx_extra_nonce;
     project f := match f with tx_extra_nonce n => Some n | _ => None end;
     body := nonce_codec |};
  {| get_tag := TX_EXTRA_MERGE_MINING_TAG;
     inject x := tx_extra_merge_mining_tag x.1 x.2;
     project f := match f with tx_extra_merge_mining_tag d r => Some (d, r) | _ => None end;
     body := merge_mining_codec |};
  {| get_tag := TX_EXTRA_TAG_ADDITIONAL_PUBKEYS;
     inject := tx_extra_additional_pub_keys;
     project f := match f with tx_extra_additional_pub_keys l => Some l | _ => None end;
     body := container key |};
  {| get_tag := TX_EXTRA_MYSTERIOUS_MINERGATE_TAG;
     inject := tx_extra_mysterious_minergate;
     project f := match f with tx_extra_mysterious_minergate d => Some d | _ => None end;
     body := serialize_string |}].

Definition extra_alternatives : list (alternative tx_extra_field) :=
  {| get_tag := TX_EXTRA_TAG_PADDING;
     inject := tx_extra_padding;
     project f := match f with tx_extra_padding n => Some n | _ => None end;
     body := padding_codec |} :: plain_alternatives.

Definition field_codec : codec tx_extra_field := variant extra_alternatives.

(** [f.type()]. *)
Inductive extra_type := Padding | Pub_key | Nonce | Merge_mining_tag | Additional_pub_keys | Mysterious_minergate.

#[export] Instance extra_type_eq_dec : EqDecision extra_type.
Proof. solve_decision. Defined.

Definition type_of (f : tx_extra_field) : extra_type :=
  match f with
  | tx_extra_padding _ => Padding
  | tx_extra_pub_key _ => Pub_key
  | tx_extra_nonce _ => Nonce
  | tx_extra_merge_mining_tag _ _ => Merge_mining_tag
  | tx_extra_additional_pub_keys _ => Additional_pub_keys
  | tx_extra_mysterious_minergate _ => Mysterious_minergate
  end.

(** ** Parsing *)

(** The loop that reads fields up to the end: the fields, the bytes after the last one
    and whether all were read.  Every field takes a byte, so that the length is enough
    rounds. *)
Fixpoint load_fields_loop (rounds : nat) (s : list Z) : list tx_extra_field * list Z * bool :=
  match rounds with
  | O => ([], s, false)
  | S rounds =>
      match load field_codec s with
      | None => ([], s, false)
      | Some (field, []) => ([field], [], true)
      | Some (field, s) => let '(fields, rest, r) := load_fields_loop rounds s in (field :: fields, rest, r)
      end
  end.

(** Whether it succeeds, and the fields, which on failure are those before it. *)
Definition parse_tx_extra (tx_extra : list Z) : bool * list tx_extra_field :=
  match tx_extra with
  | [] => (true, [])
  | _ => let '(fields, _, r) := load_fields_loop (length tx_extra) tx_extra in (r, fields)
  end.

(** [find_tx_extra_field_by_type]: the field of the type at the index among them. *)
Definition find_field (fields : list tx_extra_field) (type : extra_type) (index : nat) : option tx_extra_field :=
  filter (fun f => type_of f = type) fields !! index.

Definition null_pkey : list Z := replicate 32 0.

Definition get_tx_pub_key_from_extra (tx_extra : list Z) (pk_index : nat) : list Z :=
  match find_field (parse_tx_extra tx_extra).2 Pub_key pk_index with
  | Some (tx_extra_pub_key k) => k
  | _ => null_pkey
  end.

Definition get_additional_tx_pub_keys_from_extra (tx_extra : list Z) : list (list Z) :=
  match find_field (parse_tx_extra tx_extra).2 Additional_pub_keys 0 with
  | Some (tx_extra_additional_pub_keys l) => l
  | _ => []
  end.

(** ** Sorting *)

(** All fields of a type are written, in their order, and taken out. *)
Fixpoint pick (type : extra_type) (fields : list tx_extra_field) : option (list Z * list tx_extra_field) :=
  match fields with
  | [] => Some ([], [])
  | f :: fields =>
      if decide (type_of f = type) then
        w ← save field_codec f; '(ws, others) ← pick type fields; Some (w ++ ws, others)
      else '(ws, others) ← pick type fields; Some (ws, f :: others)
  end.

Fixpoint pick_all (types : list extra_type) (fields : list tx_extra_field) : option (list Z * list tx_extra_field) :=
  match types with
  | [] => Some ([], fields)
  | type :: types =>
      '(w, others) ← pick type fields; '(ws, others) ← pick_all types others; Some (w ++ ws, others)
  end.

Definition sort_order : list extra_type :=
  [Pub_key; Additional_pub_keys; Nonce; Merge_mining_tag; Mysterious_minergate; Padding].

Definition sort_tx_extra (allow_partial : bool) (tx_extra : list Z) : option (list Z) :=
  match tx_extra with
  | [] => Some []
  | _ =>
      let '(fields, rest, r) := load_fields_loop (length tx_extra) tx_extra in
      if negb r && negb allow_partial then None
      else
        '(w, others) ← pick_all sort_order fields;
        match others with
        | [] => Some (w ++ (if allow_partial then rest else []))
        | _ => None
        end
  end.

(** ** Adding and removing *)

Definition add_tx_pub_key_to_extra (tx_extra tx_pub_key : list Z) : list Z :=
  tx_extra ++ TX_EXTRA_TAG_PUBKEY :: tx_pub_key.

Definition add_additional_tx_pub_keys_to_extra (tx_extra : list Z) (additional_pub_keys : list (list Z)) :
  option (list Z) :=
  w ← save field_codec (tx_extra_additional_pub_keys additional_pub_keys); Some (tx_extra ++ w).

(** The length is written as a byte. *)
Definition add_extra_nonce_to_tx_extra (tx_extra extra_nonce : list Z) : option (list Z) :=
  if negb (Z.of_nat (length extra_nonce) <=? TX_EXTRA_NONCE_MAX_COUNT) then None
  else Some (tx_extra ++ TX_EXTRA_NONCE :: u8 (Z.of_nat (length extra_nonce)) :: extra_nonce).

Definition add_mm_merkle_root_to_tx_extra (tx_extra mm_merkle_root : list Z) (mm_merkle_tree_depth : Z) :
  option (list Z) :=
  if negb (mm_merkle_tree_depth <? 32) then None
  else Some (tx_extra ++ TX_EXTRA_MERGE_MINING_TAG :: 33 :: mm_merkle_tree_depth :: mm_merkle_root).

(** [None] when the fields cannot be read, and nothing is changed then. *)
Definition remove_field_from_tx_extra (tx_extra : list Z) (type : extra_type) : option (list Z) :=
  match tx_extra with
  | [] => Some []
  | _ =>
      match load_fields_loop (length tx_extra) tx_extra with
      | (fields, _, true) => save_all field_codec (filter (fun f => type_of f <> type) fields)
      | _ => None
      end
  end.

(** ** Payment ids *)

Definition set_payment_id_to_tx_extra_nonce (payment_id : list Z) : list Z := TX_EXTRA_NONCE_PAYMENT_ID :: payment_id.

Definition set_encrypted_payment_id_to_tx_extra_nonce (payment_id : list Z) : list Z :=
  TX_EXTRA_NONCE_ENCRYPTED_PAYMENT_ID :: payment_id.

(** An id of [n] bytes behind the mark of its kind. *)
Definition get_marked_id (n : nat) (mark : Z) (extra_nonce : list Z) : option (list Z) :=
  match extra_nonce with
  | b :: payment_id => if (length extra_nonce =? n + 1)%nat && (b =? mark) then Some payment_id else None
  | [] => None
  end.

Definition get_payment_id_from_tx_extra_nonce : list Z -> option (list Z) :=
  get_marked_id 32 TX_EXTRA_NONCE_PAYMENT_ID.

Definition get_encrypted_payment_id_from_tx_extra_nonce : list Z -> option (list Z) :=
  get_marked_id 8 TX_EXTRA_NONCE_ENCRYPTED_PAYMENT_ID.

(** ** Values *)

Definition field_ok (f : tx_extra_field) : Prop :=
  match f with
  | tx_extra_padding size => 1 <= size <= 255
  | tx_extra_pub_key k => is_blob 32 k
  | tx_extra_nonce n => Forall in_u8 n /\ Z.of_nat (length n) <= 255
  | tx_extra_merge_mining_tag depth root => in_u64 depth /\ is_blob 32 root
  | tx_extra_additional_pub_keys l => vec_ok (is_blob 32) l
  | tx_extra_mysterious_minergate d => vec_ok in_u8 d
  end.

(** ** Laws of the fields *)

Lemma mm_members_lawful : lawful (fun x => in_u64 x.1 /\ is_blob 32 x.2) mm_members.
Proof. exact (then_lawful varint64_lawful (blob_lawful 32)). Qed.

Lemma mm_members_solid : solid (fun _ => True) mm_members.
Proof. apply (then_solid varint64_lawful); [apply blob_solid|by left]. Qed.

Lemma mm_members_length (x : Z * list Z) (w : list Z) :
  is_blob 32 x.2 -> save mm_members x = Some w -> (length w <= 42)%nat.
Proof.
  intros [Hl _]. unfold mm_members, fields, serialize_varint, serialize_blob. cbn [save].
  destruct (get_varint_data x.1) as [a| | | |] eqn:E; try done. apply varint_length in E. cbn [mbind option_bind].
  intros [= <-]. rewrite length_app. lia.
Qed.

Lemma merge_mining_lawful : lawful (fun x => in_u64 x.1 /\ is_blob 32 x.2) merge_mining_codec.
Proof.
  split.
  - intros x Hx. destruct (parse_dump mm_members_lawful x Hx) as (f & Ef & Hf & Hp).
    pose proof (mm_members_length x f (proj2 Hx) Ef) as Hlen.
    destruct (law_save string_lawful f) as (w & Ew & Hw & Hl); [split; [done|lia]|]. exists w.
    unfold merge_mining_codec, dump_binary in *. cbn [save load]. rewrite Ef. split; [done|]. split; [done|].
    intros rest. rewrite Hl. cbn [mbind option_bind]. by rewrite Hp.
  - intros s x rest Hs. unfold merge_mining_codec at 1. cbn [load].
    destruct (load serialize_string s) as [[f r]|] eqn:E; [|done]. cbn [mbind option_bind].
    destruct (parse_binary mm_members f) as [y|] eqn:Ep; [|done]. intros [= <- <-].
    destruct (law_load string_lawful s f r Hs E) as [[Hf _] Hex]. split; [by apply (parse_law mm_members_lawful f)|].
    destruct Hex as [(w & Ew & ->)|]; [left|by right]. exists w. split; [|done].
    unfold merge_mining_codec. cbn [save].
    pose proof (parse_solid (fun _ => True) f y mm_members_solid Hf Ep I) as Ed. unfold dump_binary in Ed. by rewrite Ed.
Qed.

Lemma nonce_lawful : lawful (fun n => Forall in_u8 n /\ Z.of_nat (length n) <= 255) nonce_codec.
Proof.
  eapply lawful_iff; [apply (check_lawful string_lawful)|]. intros n. cbv beta. unfold TX_EXTRA_NONCE_MAX_COUNT.
  rewrite negb_true_iff, Z.ltb_ge. intuition lia.
Qed.

Definition plain_ok (f : tx_extra_field) : Prop := field_ok f /\ type_of f <> Padding.

Lemma plain_alternatives_ok : Forall (alt_ok plain_ok) plain_alternatives.
Proof.
  repeat (apply Forall_cons; split; [constructor; cbn; [by split; vm_compute|by intros []|by intros [] ? [= <-]|]|]); [..|by apply Forall_nil].
  - apply (lawful_iff key_lawful). by split; [|intros []].
  - apply (lawful_iff nonce_lawful). by split; [|intros []].
  - apply (lawful_iff merge_mining_lawful). by split; [|intros []].
  - apply (lawful_iff keys_lawful). by split; [|intros []].
  - apply (lawful_iff string_lawful). by split; [|intros []].
Qed.

Lemma plain_apart : apart plain_alternatives.
Proof. repeat constructor; cbn; done. Qed.

Lemma plain_lawful : lawful plain_ok (variant plain_alternatives).
Proof.
  apply (variant_lawful _ _ plain_alternatives_ok plain_apart).
  intros [] [_ Hp]; [done|..]; repeat ((left; by eexists) || right).
Qed.

Lemma save_plain (f : tx_extra_field) :
  type_of f <> Padding -> save field_codec f = save (variant plain_alternatives) f.
Proof. by destruct f. Qed.

Lemma load_tag (t : Z) (r : list Z) : load (serialize_uint 1) (t :: r) = Some (t, r).
Proof. cbn. unfold take_bytes, of_le. cbn. by rewrite drop_0. Qed.

Lemma load_plain (t : Z) (r : list Z) :
  t <> 0 -> load field_codec (t :: r) = load (variant plain_alternatives) (t :: r).
Proof.
  intros Ht. unfold field_codec, variant. cbn [load]. rewrite load_tag. cbn [mbind option_bind].
  unfold extra_alternatives. cbn [read_variant get_tag]. by rewrite (proj2 (Z.eqb_neq _ _)) by done.
Qed.

Lemma load_padding (r : list Z) :
  load field_codec (0 :: r) = '(n, s) ← load padding_codec r; Some (tx_extra_padding n, s).
Proof. done. Qed.

Lemma no_plain_zero (r : list Z) : load (variant plain_alternatives) (0 :: r) = None.
Proof. done. Qed.

Lemma plain_save (f : tx_extra_field) :
  plain_ok f ->
  exists w, save field_codec f = Some w /\ Forall in_u8 w /\ w <> [] /\
    forall rest, load field_codec (w ++ rest) = Some (f, rest).
Proof.
  intros Hf. destruct (law_save plain_lawful f Hf) as (w & Ew & Hw & Hl). exists w.
  rewrite save_plain by apply Hf. split; [done|]. split; [done|].
  destruct w as [|t w]; [by specialize (Hl [])|]. split; [done|]. intros rest. cbn [app].
  rewrite load_plain; [apply Hl|]. intros ->. specialize (Hl []). cbn [app] in Hl. by rewrite no_plain_zero in Hl.
Qed.

Lemma padding_save (n : Z) :
  1 <= n <= 255 ->
  exists w, save field_codec (tx_extra_padding n) = Some w /\ Forall in_u8 w /\ w <> [] /\
    load field_codec w = Some (tx_extra_padding n, []).
Proof.
  intros Hn. exists (0 :: replicate (Z.to_nat (n - 1)) 0). split; [|split; [|split; [done|]]].
  - unfold field_codec, variant, extra_alternatives, padding_codec, TX_EXTRA_PADDING_MAX_COUNT.
    cbn [save write_variant project body get_tag]. by rewrite (proj2 (Z.ltb_ge _ _)) by lia.
  - constructor; [by split|]. apply Forall_replicate. by split.
  - rewrite load_padding. unfold padding_codec, TX_EXTRA_PADDING_MAX_COUNT. cbn [load]. rewrite length_replicate.
    rewrite (proj2 (forallb_forall _ _)) by (by intros x ->%list_elem_of_In%elem_of_replicate_inv).
    rewrite (proj2 (Z.leb_le _ _)) by lia. cbn. do 3 f_equal. lia.
Qed.

(** A field is made of at least a byte, and nothing follows a padding. *)
Lemma field_load (s : list Z) (f : tx_extra_field) (rest : list Z) :
  Forall in_u8 s -> load field_codec s = Some (f, rest) ->
  field_ok f /\ (type_of f = Padding -> rest = []) /\ (length rest < length s)%nat /\ Forall in_u8 rest.
Proof.
  intros Hs. destruct s as [|t r]; [done|]. destruct (decide (t = 0)) as [->|Ht].
  - rewrite load_padding. unfold padding_codec, TX_EXTRA_PADDING_MAX_COUNT. cbn [load].
    destruct (forallb _ _ && _) eqn:E; [|done]. cbn. intros [= <- <-]. apply andb_true_iff in E as [_ E%Z.leb_le].
    cbn [field_ok type_of length]. split; [lia|]. split; [done|]. split; [lia|done].
  - rewrite load_plain by done. intros E. destruct (law_load plain_lawful _ f rest Hs E) as [[Hf Hp] Hex].
    split; [done|]. split; [done|]. pose proof (law_rest plain_lawful _ f rest Hs E) as Hr. split; [|done].
    destruct Hex as [(w & Ew & Es)| ->]; [|cbn; lia]. rewrite Es, length_app.
    destruct w; [|cbn; lia]. rewrite <- save_plain in Ew by done.
    destruct (plain_save f (conj Hf Hp)) as (w' & Ew' & _ & Hne & _). congruence.
Qed.

(** ** The loop *)

(** A padding is only at the end. *)
Fixpoint well_placed (fs : list tx_extra_field) : Prop :=
  match fs with
  | [] => True
  | [_] => True
  | f :: fs => type_of f <> Padding /\ well_placed fs
  end.

(** More rounds than bytes change nothing. *)
Lemma loop_rounds (rounds : nat) (s : list Z) :
  Forall in_u8 s -> (length s <= rounds)%nat -> load_fields_loop rounds s = load_fields_loop (length s) s.
Proof.
  enough (forall r r' s, Forall in_u8 s -> (length s <= r)%nat -> (length s <= r')%nat ->
    load_fields_loop r s = load_fields_loop r' s) as He by (intros; by apply He).
  induction r as [|r IH]; intros [|r'] s' Hs Hr Hr'; [done|by destruct s'; [|cbn in *; lia]..|]. cbn [load_fields_loop].
  destruct (load field_codec s') as [[f t]|] eqn:E; [|done].
  destruct (field_load s' f t Hs E) as (_ & _ & Hlt & Ht). destruct t as [|b t]; [done|].
  by rewrite (IH r' (b :: t)) by (done || lia).
Qed.

Lemma loop_fields (rounds : nat) (s : list Z) (fs : list tx_extra_field) (rest : list Z) (r : bool) :
  Forall in_u8 s -> load_fields_loop rounds s = (fs, rest, r) -> Forall field_ok fs /\ well_placed fs.
Proof.
  revert s fs. induction rounds as [|rounds IH]; intros s fs Hs; cbn [load_fields_loop]; [by intros [= <- <- <-]|].
  destruct (load field_codec s) as [[f s']|] eqn:E; [|by intros [= <- <- <-]].
  destruct (field_load s f s' Hs E) as (Hf & Hp & _ & Hs'). destruct s' as [|t s'].
  { intros [= <- <- <-]. split; [by constructor|done]. }
  destruct (load_fields_loop rounds (t :: s')) as [[fs' rest'] r'] eqn:El. intros [= <- <- <-].
  destruct (IH (t :: s') fs' Hs' El) as [Hfs Hw]. split; [by constructor|]. destruct fs'; [done|]. split; [|done].
  by intros ?%Hp.
Qed.

Lemma save_fields (fs : list tx_extra_field) :
  Forall field_ok fs -> exists w, save_all field_codec fs = Some w /\ Forall in_u8 w /\ (w = [] -> fs = []).
Proof.
  induction 1 as [|f fs Hf _ IH]; [by exists []|]. destruct IH as (ws & Ews & Hws & _).
  assert (exists w, save field_codec f = Some w /\ Forall in_u8 w /\ w <> []) as (w & Ew & Hw & Hne).
  { destruct (decide (type_of f = Padding)) as [Hp|Hp].
    - destruct f; try done. destruct (padding_save _ Hf) as (w & ? & ? & ? & _). by exists w.
    - destruct (plain_save f (conj Hf Hp)) as (w & ? & ? & ? & _). by exists w. }
  exists (w ++ ws). cbn [save_all]. rewrite Ew. cbn [mbind option_bind]. rewrite Ews. split; [done|].
  split; [by apply Forall_app|]. by destruct w.
Qed.

(** What is saved one after another is read back. *)
Lemma loop_saved (fs : list tx_extra_field) (w : list Z) (rounds : nat) :
  Forall field_ok fs -> well_placed fs -> fs <> [] -> save_all field_codec fs = Some w -> (length w <= rounds)%nat ->
  load_fields_loop rounds w = (fs, [], true).
Proof.
  intros Hfs. revert w rounds. induction Hfs as [|f fs Hf Hfs IH]; intros w rounds Hw Hne E Hr; [done|].
  destruct (save_fields fs Hfs) as (ws & Ews & _ & Hnil). cbn [save_all] in E.
  destruct (decide (type_of f = Padding)) as [Hp|Hp].
  - destruct fs; [|by destruct Hw]. destruct f; try done. destruct (padding_save _ Hf) as (v & Ev & _ & Hv & Hl).
    rewrite Ev in E. cbn [save_all mbind option_bind] in E. injection E as <-. rewrite app_nil_r in *. destruct rounds; [destruct v; cbn in *; [done|lia]|].
    cbn [load_fields_loop]. by rewrite Hl.
  - destruct (plain_save f (conj Hf Hp)) as (v & Ev & _ & Hv & Hl). rewrite Ev in E. cbn [mbind option_bind] in E. rewrite Ews in E.
    injection E as <-. rewrite length_app in Hr. destruct rounds as [|rounds]; [destruct v; cbn in *; [done|lia]|].
    cbn [load_fields_loop]. rewrite Hl. destruct ws as [|t ws]; [by rewrite (Hnil eq_refl)|].
    assert (fs <> []) as Hne' by (by intros ->).
    rewrite (IH (t :: ws) rounds); [done| |done|done|destruct v; cbn in *; [done|lia]].
    destruct fs; [done|]. by destruct Hw.
Qed.

Lemma parse_saved (fs : list tx_extra_field) (w : list Z) :
  Forall field_ok fs -> well_placed fs -> save_all field_codec fs = Some w -> parse_tx_extra w = (true, fs).
Proof.
  intros Hfs Hw E. destruct (save_fields fs Hfs) as (w' & E' & _ & Hnil). rewrite E in E'. injection E' as <-.
  unfold parse_tx_extra. destruct w as [|t w]; [by rewrite (Hnil eq_refl)|].
  rewrite (loop_saved fs (t :: w)); [done|done|done|by intros ->|done|done].
Qed.

(** ** Sorting *)

Lemma filter_every {A} (P : A -> Prop) `{!forall x, Decision (P x)} (l : list A) : (forall x, P x) -> filter P l = l.
Proof. intros HP. induction l as [|x l IH]; [done|]. rewrite filter_cons, decide_True by done. by rewrite IH. Qed.

Lemma filter_no {A} (P : A -> Prop) `{!forall x, Decision (P x)} (l : list A) : (forall x, ~ P x) -> filter P l = [].
Proof. intros HP. induction l as [|x l IH]; [done|]. rewrite filter_cons, decide_False by done. done. Qed.

Lemma Forall_filter_list {A} (P Q : A -> Prop) `{!forall x, Decision (Q x)} (l : list A) :
  Forall P l -> Forall P (filter Q l).
Proof. rewrite !Forall_forall. intros Hl x [_ Hx]%list_elem_of_filter. by apply Hl. Qed.

Lemma pick_spec (type : extra_type) (fs : list tx_extra_field) (w : list Z) :
  save_all field_codec (filter (fun f => type_of f = type) fs) = Some w ->
  pick type fs = Some (w, filter (fun f => type_of f <> type) fs).
Proof.
  revert w. induction fs as [|f fs IH]; intros w; [by intros [= <-]|]. cbn [pick]. rewrite !filter_cons.
  destruct (decide (type_of f = type)) as [Ht|Ht].
  - rewrite (decide_False (P := type_of f <> type)) by (by intros Hn). cbn [save_all].
    destruct (save field_codec f) as [v|]; [|done]. cbn [mbind option_bind].
    destruct (save_all field_codec _) as [vs|]; [|done]. intros [= <-]. by rewrite (IH vs).
  - rewrite (decide_True (P := type_of f <> type)) by done. intros E. by rewrite (IH w E).
Qed.

(** The fields of each of the types, type by type. *)
Definition grouped (types : list extra_type) (fs : list tx_extra_field) : list tx_extra_field :=
  types ≫= (fun type => filter (fun f => type_of f = type) fs).

Lemma grouped_without (type : extra_type) (types : list extra_type) (fs : list tx_extra_field) :
  type ∉ types -> grouped types (filter (fun f => type_of f <> type) fs) = grouped types fs.
Proof.
  induction types as [|t types IH]; [done|]. intros [Ht Hn]%not_elem_of_cons. unfold grouped in *. cbn. rewrite IH by done.
  f_equal. rewrite list_filter_filter. apply list_filter_iff. intros f. split; [by intros []|intros ->; by split].
Qed.

Lemma pick_all_spec (types : list extra_type) (fs : list tx_extra_field) :
  NoDup types -> Forall field_ok fs ->
  exists w, save_all field_codec (grouped types fs) = Some w /\ Forall in_u8 w /\
    pick_all types fs = Some (w, filter (fun f => type_of f ∉ types) fs).
Proof.
  intros Hd. revert fs. induction Hd as [|t types Ht _ IH]; intros fs Hfs.
  { exists []. split; [done|]. split; [done|]. cbn. do 2 f_equal. symmetry. apply filter_every.
    intros f. apply not_elem_of_nil. }
  destruct (save_fields (filter (fun f => type_of f = t) fs)) as (w & Ew & Hw & _); [by apply Forall_filter_list|].
  destruct (IH (filter (fun f => type_of f <> t) fs)) as (ws & Ews & Hws & Ep); [by apply Forall_filter_list|].
  rewrite grouped_without in Ews by done. exists (w ++ ws). split; [|split; [by apply Forall_app|]].
  - unfold grouped in *. cbn [mbind list_bind]. by rewrite (save_all_app _ _ w ws).
  - cbn [pick_all]. rewrite (pick_spec t fs w Ew). cbn [mbind option_bind]. rewrite Ep. cbn [mbind option_bind].
    do 2 f_equal. rewrite list_filter_filter. apply list_filter_iff. intros f. rewrite not_elem_of_cons. tauto.
Qed.

Definition type_rank (type : extra_type) : nat :=
  match type with
  | Pub_key => 0
  | Additional_pub_keys => 1
  | Nonce => 2
  | Merge_mining_tag => 3
  | Mysterious_minergate => 4
  | Padding => 5
  end.

Definition rank (f : tx_extra_field) : nat := type_rank (type_of f).

Definition sorted_fields (fs : list tx_extra_field) : list tx_extra_field := grouped sort_order fs.

Lemma type_of_group (type type' : extra_type) (fs : list tx_extra_field) :
  filter (fun f => type_of f = type) (filter (fun f => type_of f = type') fs)
  = if decide (type = type') then filter (fun f => type_of f = type) fs else [].
Proof.
  rewrite list_filter_filter. destruct (decide (type = type')) as [->|Hne].
  - apply list_filter_iff. intros f. tauto.
  - apply filter_no. intros f [-> ?]. congruence.
Qed.

Lemma sorted_same_types (type : extra_type) (fs : list tx_extra_field) :
  filter (fun f => type_of f = type) (sorted_fields fs) = filter (fun f => type_of f = type) fs.
Proof.
  unfold sorted_fields, grouped, sort_order. cbn [mbind list_bind]. rewrite !filter_app, !type_of_group.
  by destruct type; cbn; rewrite ?app_nil_r.
Qed.

Lemma sorted_twice (fs : list tx_extra_field) : sorted_fields (sorted_fields fs) = sorted_fields fs.
Proof.
  unfold sorted_fields at 1 3, grouped, sort_order. cbn [mbind list_bind]. by rewrite !sorted_same_types.
Qed.

Lemma group_sorted (l l' : list tx_extra_field) (k : nat) :
  Forall (fun f => rank f = k) l -> Forall (fun f => (k <= rank f)%nat) l' ->
  StronglySorted (fun f g => (rank f <= rank g)%nat) l' -> StronglySorted (fun f g => (rank f <= rank g)%nat) (l ++ l').
Proof.
  intros Hl Hl' Hs. induction Hl as [|f l Hf Hl IH]; [done|]. cbn. constructor; [done|]. apply Forall_app. split.
  - eapply Forall_impl; [exact Hl|]. cbn. lia.
  - eapply Forall_impl; [exact Hl'|]. cbn. lia.
Qed.

Lemma group_rank (type : extra_type) (fs : list tx_extra_field) :
  Forall (fun f => rank f = type_rank type) (filter (fun f => type_of f = type) fs).
Proof. apply Forall_forall. intros f [Hf _]%list_elem_of_filter. unfold rank. by rewrite Hf. Qed.

Lemma sorted_fields_sorted (fs : list tx_extra_field) :
  StronglySorted (fun f g => (rank f <= rank g)%nat) (sorted_fields fs).
Proof.
  assert (forall type j, (j <= type_rank type)%nat ->
    Forall (fun f => (j <= rank f)%nat) (filter (fun f => type_of f = type) fs)) as Hlow.
  { intros type j Hj. eapply Forall_impl; [apply group_rank|]. cbn. lia. }
  unfold sorted_fields, grouped, sort_order. cbn [mbind list_bind].
  repeat (eapply group_sorted; [apply group_rank| |]); [..|by constructor].
  all: repeat (apply Forall_app; split); ((by apply Forall_nil) || (apply Hlow; cbn; lia)).
Qed.

Lemma sorted_fields_ok (fs : list tx_extra_field) : Forall field_ok fs -> Forall field_ok (sorted_fields fs).
Proof.
  intros Hfs. unfold sorted_fields, grouped, sort_order. cbn [mbind list_bind].
  repeat (apply Forall_app; split); try (by apply Forall_filter_list). by apply Forall_nil.
Qed.

Lemma one_padding (fs : list tx_extra_field) :
  well_placed fs -> (length (filter (fun f => type_of f = Padding) fs) <= 1)%nat.
Proof.
  induction fs as [|f fs IH]; intros Hw; [cbn; lia|]. rewrite filter_cons. destruct fs as [|g fs].
  - destruct (decide _); cbn; lia.
  - destruct Hw as [Hp Hw]. rewrite decide_False by done. by apply IH.
Qed.

Lemma well_placed_app (l l' : list tx_extra_field) :
  Forall (fun f => type_of f <> Padding) l -> (length l' <= 1)%nat -> well_placed (l ++ l').
Proof.
  intros Hl Hl'. induction Hl as [|f l Hf Hl IH]; [by destruct l' as [|? []]; [done|done|cbn in Hl'; lia]|].
  cbn [app]. destruct (l ++ l') eqn:E; [done|]. split; [done|]. exact IH.
Qed.

Lemma sorted_well_placed (fs : list tx_extra_field) : well_placed fs -> well_placed (sorted_fields fs).
Proof.
  intros Hw. apply one_padding in Hw. unfold sorted_fields, grouped, sort_order. cbn [mbind list_bind].
  rewrite app_nil_r, !app_assoc. apply well_placed_app; [|done].
  repeat (apply Forall_app; split); apply Forall_forall; intros f [Hf _]%list_elem_of_filter; by rewrite Hf.
Qed.

Lemma sort_all_types (fs : list tx_extra_field) : filter (fun f => type_of f ∉ sort_order) fs = [].
Proof. apply filter_no. intros f Hf. apply Hf. unfold sort_order. destruct f; cbn; set_solver. Qed.

(** Sorting a parsed extra field saves the sorted fields. *)
Lemma sort_parsed (s : list Z) (fs : list tx_extra_field) :
  Forall in_u8 s -> parse_tx_extra s = (true, fs) ->
  Forall field_ok fs /\ well_placed fs /\
  exists w, save_all field_codec (sorted_fields fs) = Some w /\ Forall in_u8 w /\ sort_tx_extra false s = Some w.
Proof.
  intros Hs. unfold parse_tx_extra, sort_tx_extra. destruct s as [|t s].
  { intros [= <-]. split; [done|]. split; [done|]. by exists []. }
  destruct (load_fields_loop _ (t :: s)) as [[fs' rest] r] eqn:E. intros [= -> <-].
  destruct (loop_fields _ _ _ _ _ Hs E) as [Hfs Hw]. split; [done|]. split; [done|].
  destruct (pick_all_spec sort_order fs') as (w & Ew & Hwb & Ep); [exact (@bool_decide_unpack _ (NoDup_dec sort_order) I)|done|].
  exists w. split; [done|]. split; [done|]. cbn [negb andb]. rewrite Ep. cbn [mbind option_bind].
  by rewrite sort_all_types, app_nil_r.
Qed.

(** C29. Sorting succeeds exactly on the extra fields that parse.  The result parses to
    the same fields ordered by type, keys first and padding last, with the fields of each
    type in their old order, and sorting it again changes nothing. *)
Theorem sort_extra_correct (s : list Z) :
  Forall in_u8 s ->
  match parse_tx_extra s with
  | (true, fields) =>
      exists s' fields', sort_tx_extra false s = Some s' /\ parse_tx_extra s' = (true, fields') /\
        (forall type, filter (fun f => type_of f = type) fields' = filter (fun f => type_of f = type) fields) /\
        StronglySorted (fun f g => (rank f <= rank g)%nat) fields' /\ sort_tx_extra false s' = Some s'
  | (false, _) => sort_tx_extra false s = None
  end.
Proof.
  intros Hs. destruct (parse_tx_extra s) as [[] fs] eqn:E.
  - destruct (sort_parsed s fs Hs E) as (Hfs & Hw & w & Ew & Hwb & Es). exists w, (sorted_fields fs).
    assert (parse_tx_extra w = (true, sorted_fields fs)) as Ep
      by (apply parse_saved; [by apply sorted_fields_ok|by apply sorted_well_placed|done]).
    split; [done|]. split; [done|]. split; [intros type; apply sorted_same_types|]. split; [apply sorted_fields_sorted|].
    destruct (sort_parsed w _ Hwb Ep) as (_ & _ & w' & Ew' & _ & ->). rewrite sorted_twice in Ew'. congruence.
  - unfold parse_tx_extra in E. unfold sort_tx_extra. destruct s as [|t s]; [done|].
    destruct (load_fields_loop _ (t :: s)) as [[fs' rest] r]. by injection E as -> _.
Qed.

(** Removing a type leaves the other fields. *)
Lemma filter_well_placed (P : tx_extra_field -> Prop) `{!forall f, Decision (P f)} (fs : list tx_extra_field) :
  well_placed fs -> well_placed (filter P fs).
Proof.
  induction fs as [|f fs IH]; [done|]. intros Hw. rewrite filter_cons.
  assert (well_placed fs) as Hfs by (destruct fs; [done|by destruct Hw]).
  destruct (decide (P f)); [|by apply IH]. destruct (filter P fs) eqn:E; [done|]. split; [|by apply IH].
  destruct fs; [done|]. by destruct Hw.
Qed.

Lemma remove_field_correct (s : list Z) (type : extra_type) (fs : list tx_extra_field) :
  Forall in_u8 s -> parse_tx_extra s = (true, fs) ->
  exists s', remove_field_from_tx_extra s type = Some s' /\ parse_tx_extra s' = (true, filter (fun f => type_of f <> type) fs).
Proof.
  intros Hs E. destruct (sort_parsed s fs Hs E) as (Hfs & Hw & _).
  destruct (save_fields (filter (fun f => type_of f <> type) fs)) as (w & Ew & _); [by apply Forall_filter_list|].
  exists w. split; [|by apply parse_saved; [apply Forall_filter_list|apply filter_well_placed|]].
  unfold parse_tx_extra in E. unfold remove_field_from_tx_extra. destruct s as [|t s].
  { injection E as <-. by injection Ew as <-. }
  destruct (load_fields_loop _ (t :: s)) as [[fs' rest] r]. by injection E as -> ->.
Qed.

(** ** The extra field of a coinbase *)

(** The beginning of [construct_miner_tx]: the key of the transaction, the extra nonce
    if there is one, and sorting. *)
Definition miner_extra (tx_pub_key extra_nonce : list Z) : option (list Z) :=
  let tx_extra := add_tx_pub_key_to_extra [] tx_pub_key in
  tx_extra ←
    match extra_nonce with
    | [] => Some tx_extra
    | _ => add_extra_nonce_to_tx_extra tx_extra extra_nonce
    end;
  sort_tx_extra false tx_extra.

Lemma save_pub_key (k : list Z) : save field_codec (tx_extra_pub_key k) = Some (TX_EXTRA_TAG_PUBKEY :: k).
Proof. done. Qed.

(** A length below 128 is its own varint. *)
Lemma save_nonce (n : list Z) :
  Z.of_nat (length n) <= 127 ->
  save field_codec (tx_extra_nonce n) = Some (TX_EXTRA_NONCE :: u8 (Z.of_nat (length n)) :: n).
Proof.
  intros Hn. rewrite save_plain by done. unfold variant, plain_alternatives. cbn [save write_variant project body].
  unfold nonce_codec, checked, serialize_string, serialize_varint, TX_EXTRA_NONCE_MAX_COUNT. cbn [save].
  rewrite (proj2 (Z.ltb_ge _ _)) by lia. unfold get_varint_data. cbn [write_varint negb].
  by rewrite (proj2 (Z.leb_gt _ _)) by lia.
Qed.

(** From 128 on the byte is read as the beginning of a longer varint, of a number that
    is too large for what follows. *)
Lemma long_string_refused (n : list Z) :
  Forall in_u8 n -> 128 <= Z.of_nat (length n) <= 255 -> load serialize_string (Z.of_nat (length n) :: n) = None.
Proof.
  intros Hn Hlen. assert (Forall in_u8 (Z.of_nat (length n) :: n)) as Hs by (constructor; [unfold in_u8; lia|done]).
  unfold serialize_string, serialize_varint. cbn [load]. unfold read_varint.
  destruct (read_loop 64 0 0 0 (Z.of_nat (length n) :: n)) as [read v] eqn:E.
  destruct (Z.leb_spec 0 read) as [Hr|]; [|done]. cbn [mbind option_bind].
  destruct (read_canonical 64 ltac:(lia) _ 0 0 0 read v Hs ltac:(lia) ltac:(lia) E Hr)
    as [(l & rest & i & Es & -> & -> & Hi & _ & _ & Ew & _)|Hcut].
  - rewrite Z.lor_0_l, Z.shiftl_0_r in *. rewrite Z.add_0_l, Nat2Z.id, Es, drop_app_length.
    destruct l as [|b l]; [by destruct (write_varint_nonempty _ _ _ Ew)|]. injection Es as <- En.
    assert (length n = length l + length rest)%nat as Hnl by (by rewrite En, length_app).
    cbn [length pred] in Ew. rewrite (proj2 (Z.ltb_lt _ _)); [done|].
    destruct (length l) as [|k] eqn:El; cbn [write_varint] in Ew.
    + destruct (Z.leb_spec 0x80 i); [done|]. injection Ew as Ei _. unfold u8 in Ei. rewrite Z.mod_small in Ei; lia.
    + destruct (Z.leb_spec 0x80 i) as [Hi80|]; [|injection Ew as Ei _; unfold u8 in Ei; rewrite Z.mod_small in Ei; lia].
      destruct (write_varint k _) as [m| | | |]; try done. cbn in Ew. injection Ew as Ei _. rewrite cont_byte in Ei.
      pose proof (Z.div_mod i (2 ^ 7)). lia.
  - exfalso. destruct Hcut as (_ & _ & Hcut & _). cbn [length] in Hcut. lia.
Qed.

(** A field that is added to saved ones is parsed after them. *)
Lemma parse_added (fs : list tx_extra_field) (f : tx_extra_field) (w wf : list Z) :
  Forall plain_ok fs -> field_ok f -> save_all field_codec fs = Some w -> save field_codec f = Some wf ->
  parse_tx_extra (w ++ wf) = (true, fs ++ [f]).
Proof.
  intros Hfs Hf E Ef. apply parse_saved.
  - apply Forall_app. split; [|by constructor]. eapply Forall_impl; [exact Hfs|]. by intros ? [].
  - apply well_placed_app; [|done]. eapply Forall_impl; [exact Hfs|]. by intros ? [].
  - apply save_all_app; [done|]. cbn [save_all]. rewrite Ef. cbn [mbind option_bind]. by rewrite app_nil_r.
Qed.

Lemma save_mm_tag (depth : Z) (root : list Z) :
  0 <= depth < 128 -> is_blob 32 root ->
  save field_codec (tx_extra_merge_mining_tag depth root) = Some (TX_EXTRA_MERGE_MINING_TAG :: 33 :: depth :: root).
Proof.
  intros Hd [Hr _]. rewrite save_plain by done. unfold variant, plain_alternatives. cbn [save write_variant project body].
  unfold merge_mining_codec, mm_members, fields, serialize_varint, serialize_blob. cbn [save fst snd].
  assert (get_varint_data depth = Val [depth]) as ->.
  { unfold get_varint_data. cbn [write_varint]. rewrite (proj2 (Z.leb_gt _ _)) by lia.
    unfold u8. by rewrite Z.mod_small by lia. }
  cbn [mbind option_bind app]. unfold serialize_string. cbn [save length]. by rewrite Hr.
Qed.

(** Every function that adds a field to saved fields adds that field. *)
Lemma fields_added (fs : list tx_extra_field) (w : list Z) :
  Forall plain_ok fs -> save_all field_codec fs = Some w ->
  (forall k, is_blob 32 k -> parse_tx_extra (add_tx_pub_key_to_extra w k) = (true, fs ++ [tx_extra_pub_key k])) /\
  (forall l, vec_ok (is_blob 32) l -> exists w', add_additional_tx_pub_keys_to_extra w l = Some w' /\
     parse_tx_extra w' = (true, fs ++ [tx_extra_additional_pub_keys l])) /\
  (forall n, Forall in_u8 n -> Z.of_nat (length n) <= 127 -> exists w', add_extra_nonce_to_tx_extra w n = Some w' /\
     parse_tx_extra w' = (true, fs ++ [tx_extra_nonce n])) /\
  (forall root depth, is_blob 32 root -> 0 <= depth < 32 -> exists w', add_mm_merkle_root_to_tx_extra w root depth = Some w' /\
     parse_tx_extra w' = (true, fs ++ [tx_extra_merge_mining_tag depth root])).
Proof.
  intros Hfs E. split_and!.
  - intros k Hk. by apply parse_added.
  - intros l Hl. destruct (save_fields [tx_extra_additional_pub_keys l]) as (wf & Ef & _); [by constructor|].
    unfold add_additional_tx_pub_keys_to_extra. cbn [save_all] in Ef.
    destruct (save field_codec _) as [v|] eqn:Ev; [|done]. eexists. split; [done|]. by apply parse_added.
  - intros n Hn Hl. unfold add_extra_nonce_to_tx_extra, TX_EXTRA_NONCE_MAX_COUNT.
    rewrite (proj2 (Z.leb_le _ _)) by lia. eexists. split; [done|]. apply parse_added; [done|split; [done|lia]|done|].
    by apply save_nonce.
  - intros root depth Hr Hd. unfold add_mm_merkle_root_to_tx_extra. rewrite (proj2 (Z.ltb_lt _ _)) by lia.
    eexists. split; [done|]. apply parse_added; [done|split; [unfold in_u64; lia|done]|done|]. apply save_mm_tag; [lia|done].
Qed.

Definition nonce_fields (nonce : list Z) : list tx_extra_field := match nonce with [] => [] | _ => [tx_extra_nonce nonce] end.

Lemma miner_extra_short (k nonce : list Z) :
  is_blob 32 k -> Forall in_u8 nonce -> Z.of_nat (length nonce) <= 127 ->
  exists ex, miner_extra k nonce = Some ex /\ Forall in_u8 ex /\ (length ex <= 162)%nat /\
    parse_tx_extra ex = (true, tx_extra_pub_key k :: nonce_fields nonce).
Proof.
  intros Hk Hn Hl. set (fs := tx_extra_pub_key k :: nonce_fields nonce).
  assert (Forall field_ok fs /\ well_placed fs /\ sorted_fields fs = fs) as (Hfs & Hw & Es).
  { unfold fs, nonce_fields. destruct nonce as [|b nonce]; (split; [|done]).
    - by apply List.Forall_cons.
    - apply List.Forall_cons; [done|]. apply List.Forall_cons; [split; [done|lia]|constructor]. }
  set (ex := TX_EXTRA_TAG_PUBKEY :: k ++ match nonce with [] => [] | _ => TX_EXTRA_NONCE :: u8 (Z.of_nat (length nonce)) :: nonce end).
  assert (save_all field_codec fs = Some ex) as E.
  { unfold fs, ex, nonce_fields. destruct nonce as [|b nonce]; cbn [save_all]; rewrite save_pub_key; [done|].
    rewrite save_nonce by done. cbn [mbind option_bind]. by rewrite app_nil_r. }
  destruct (save_fields fs Hfs) as (w & Ew & Hwb & _). rewrite E in Ew. injection Ew as <-.
  pose proof (parse_saved fs ex Hfs Hw E) as Ep. destruct (sort_parsed ex fs Hwb Ep) as (_ & _ & w & Ew & _ & Esort).
  rewrite Es, E in Ew. injection Ew as <-. exists ex. split_and!; try done.
  - unfold miner_extra, add_extra_nonce_to_tx_extra, add_tx_pub_key_to_extra, TX_EXTRA_NONCE_MAX_COUNT.
    rewrite (proj2 (Z.leb_le _ _)) by lia. unfold ex in *. by destruct nonce; cbn [app]; rewrite ?app_nil_r in *.
  - unfold ex. destruct Hk as [Hk _]. destruct nonce; cbn [length] in *; rewrite length_app; cbn [length] in *; lia.
Qed.

Lemma miner_extra_long (k nonce : list Z) :
  is_blob 32 k -> Forall in_u8 nonce -> 127 < Z.of_nat (length nonce) -> miner_extra k nonce = None.
Proof.
  intros Hk Hn Hl. unfold miner_extra. destruct nonce as [|b nonce]; [done|]. set (n := b :: nonce) in *.
  unfold add_extra_nonce_to_tx_extra, TX_EXTRA_NONCE_MAX_COUNT.
  destruct (Z.leb_spec (Z.of_nat (length n)) 255) as [Hle|]; [|done]. cbn [negb mbind option_bind].
  unfold u8. rewrite Z.mod_small by lia. unfold add_tx_pub_key_to_extra, sort_tx_extra. cbn [app].
  destruct (plain_save (tx_extra_pub_key k)) as (w & Ew & _ & _ & Hload); [by split|]. rewrite save_pub_key in Ew.
  injection Ew as <-. cbn [app] in Hload. cbn [length load_fields_loop]. rewrite Hload, length_app. cbn [length].
  rewrite Nat.add_succ_r. cbn [load_fields_loop]. rewrite load_plain by done. unfold variant. cbn [load].
  rewrite load_tag. cbn [mbind option_bind]. unfold plain_alternatives. cbn [read_variant get_tag body].
  unfold nonce_codec, checked. cbn [load]. rewrite long_string_refused; [done|done|lia].
Qed.

(** C28. The extra field of a coinbase is made exactly for extra nonces of up to 127 bytes,
    and it then holds the key and the nonce.  With a longer nonce the construction of the
    coinbase fails, although up to 255 bytes are let through by the check of the nonce. *)
Theorem miner_extra_iff (k nonce : list Z) :
  is_blob 32 k -> Forall in_u8 nonce ->
  if Z.of_nat (length nonce) <=? 127 then
    exists ex, miner_extra k nonce = Some ex /\ parse_tx_extra ex = (true, tx_extra_pub_key k :: nonce_fields nonce) /\
      get_tx_pub_key_from_extra ex 0 = k
  else miner_extra k nonce = None.
Proof.
  intros Hk Hn. destruct (Z.leb_spec (Z.of_nat (length nonce)) 127); [|by apply miner_extra_long].
  destruct (miner_extra_short k nonce) as (ex & E & _ & _ & Ep); [done..|]. exists ex. split; [done|]. split; [done|].
  unfold get_tx_pub_key_from_extra. rewrite Ep. done.
Qed.

(** ** Payment ids *)

(** An id that is put into a nonce is found in the extra field again, as its kind only. *)
Lemma payment_id_roundtrip (id8 id32 : list Z) :
  is_blob 8 id8 -> is_blob 32 id32 ->
  get_payment_id_from_tx_extra_nonce (set_payment_id_to_tx_extra_nonce id32) = Some id32 /\
  get_encrypted_payment_id_from_tx_extra_nonce (set_payment_id_to_tx_extra_nonce id32) = None /\
  get_encrypted_payment_id_from_tx_extra_nonce (set_encrypted_payment_id_to_tx_extra_nonce id8) = Some id8 /\
  get_payment_id_from_tx_extra_nonce (set_encrypted_payment_id_to_tx_extra_nonce id8) = None.
Proof.
  intros [H8 _] [H32 _].
  unfold get_payment_id_from_tx_extra_nonce, get_encrypted_payment_id_from_tx_extra_nonce, get_marked_id,
    set_payment_id_to_tx_extra_nonce, set_encrypted_payment_id_to_tx_extra_nonce. cbn [length].
  by rewrite H8, H32.
Qed.

(** ** Examples *)

Lemma sort_extra_correct_witness :
  exists s' fields', sort_tx_extra false (2 :: 1 :: 7 :: 1 :: replicate 32 9) = Some s' /\
    parse_tx_extra s' = (true, fields') /\
    (forall type, filter (fun f => type_of f = type) fields'
      = filter (fun f => type_of f = type) [tx_extra_nonce [7]; tx_extra_pub_key (replicate 32 9)]) /\
    StronglySorted (fun f g => (rank f <= rank g)%nat) fields' /\ sort_tx_extra false s' = Some s'.
Proof.
  apply (sort_extra_correct (2 :: 1 :: 7 :: 1 :: replicate 32 9)). repeat constructor; done.
Defined.

Lemma miner_extra_iff_witness :
  (exists ex, miner_extra (replicate 32 9) (replicate 127 0) = Some ex /\
    parse_tx_extra ex = (true, tx_extra_pub_key (replicate 32 9) :: nonce_fields (replicate 127 0)) /\
    get_tx_pub_key_from_extra ex 0 = replicate 32 9) /\
  miner_extra (replicate 32 9) (replicate 128 0) = None.
Proof.
  assert (is_blob 32 (replicate 32 9)) as Hk by (split; [done|]; apply Forall_replicate; done).
  split.
  - apply (miner_extra_iff (replicate 32 9) (replicate 127 0) Hk). by apply Forall_replicate.
  - apply (miner_extra_iff (replicate 32 9) (replicate 128 0) Hk). by apply Forall_replicate.
Defined.
