(* ===== verification/Emission.v ===== *)
(** * Emission

    The block subsidy of [src/cryptonote_basic/cryptonote_basic_impl.cpp]: the
    granted-reward zone, the halving schedule, the supply cap and the weight
    penalty of [get_block_reward]. *)

From S2P Require Import Prelude IntUtil.
Local Open Scope word_scope.

(** ** Definitions *)

Definition MONEY_SUPPLY : Z := 10000000000000000.
Definition COIN : Z := 100000000.
Definition CRYPTONOTE_BLOCK_GRANTED_FULL_REWARD_ZONE_V2 : Z := 60000.
Definition CRYPTONOTE_BLOCK_GRANTED_FULL_REWARD_ZONE_V1 : Z := 20000.
Definition CRYPTONOTE_BLOCK_GRANTED_FULL_REWARD_ZONE_V5 : Z := 300000.
Definition HALVING_INTERVAL : Z := 500000.
Definition INITIAL_REWARD : Z := 10000000000.

Definition get_min_block_weight (version : Z) : Z :=
  if version <? 2 then CRYPTONOTE_BLOCK_GRANTED_FULL_REWARD_ZONE_V1
  else if version <? 5 then CRYPTONOTE_BLOCK_GRANTED_FULL_REWARD_ZONE_V2
  else CRYPTONOTE_BLOCK_GRANTED_FULL_REWARD_ZONE_V5.

(** The first part of [get_block_reward]: the subsidy before the penalty. *)
Definition base_block_reward (already_generated_coins height : Z) : Z :=
  if height =? 0 then 0
  else if MONEY_SUPPLY <=? already_generated_coins then 0
  else
    let halvings := height / HALVING_INTERVAL in
    let base_reward := if 63 <=? halvings then 0 else Z.shiftr INITIAL_REWARD halvings in
    if MONEY_SUPPLY <? already_generated_coins ⊞ base_reward
    then MONEY_SUPPLY ⊟ already_generated_coins
    else base_reward.

(** [get_block_reward]: [Some reward] when it returns true, [None] when the block
    is too big. *)
Definition get_block_reward (ndebug : bool)
    (median_weight current_block_weight already_generated_coins version height : Z)
    : outcome (option Z) :=
  let base_reward := base_block_reward already_generated_coins height in
  let full_reward_zone := get_min_block_weight version in
  let median_weight :=
    if median_weight <? full_reward_zone then full_reward_zone else median_weight in
  if current_block_weight <=? median_weight then mret (Some base_reward)
  else if 2 ⊠ median_weight <? current_block_weight then mret None
  else
    let multiplicand := 2 ⊠ median_weight ⊟ current_block_weight in
    let multiplicand := multiplicand ⊠ current_block_weight in
    '(product_lo, product_hi) ← mul128 ndebug base_reward multiplicand;
    let '(reward_hi, reward_lo, _, _) := div128_64 product_hi product_lo median_weight in
    let '(reward_hi, reward_lo, _, _) := div128_64 reward_hi reward_lo median_weight in
    _ ← c_assert ndebug (0 =? reward_hi);
    _ ← c_assert ndebug (reward_lo <? base_reward);
    mret (Some reward_lo).

(** ** The halving schedule *)

(** The subsidy of era [k] with no cap. *)
Definition era_reward (k : Z) : Z := INITIAL_REWARD / 2 ^ k.

(** The first [n] eras' subsidies, one block each. *)
Fixpoint eras_total (n : nat) : Z :=
  match n with
  | O => 0
  | S n => eras_total n + era_reward (Z.of_nat n)
  end.

(** The coins of blocks [0 .. height - 1], all with the full subsidy: the genesis
    block has none. *)
Definition scheduled_coins (height : Z) : Z :=
  if height =? 0 then 0
  else HALVING_INTERVAL * eras_total (Z.to_nat (height / HALVING_INTERVAL))
       + height mod HALVING_INTERVAL * era_reward (height / HALVING_INTERVAL)
       - INITIAL_REWARD.

Lemma era_reward_range (k : Z) : 0 <= k -> 0 <= era_reward k <= INITIAL_REWARD.
Proof.
  intros Hk. unfold era_reward. assert (0 < 2 ^ k) by lia.
  split; [apply Z.div_pos; unfold INITIAL_REWARD; lia|].
  apply Z.div_le_upper_bound; unfold INITIAL_REWARD; nia.
Qed.

Lemma era_reward_succ (k : Z) : 0 <= k -> era_reward (k + 1) = era_reward k / 2.
Proof.
  intros Hk. unfold era_reward. rewrite Z.pow_add_r, Z.div_div by lia. done.
Qed.

Lemma era_reward_zero (k : Z) : 34 <= k -> era_reward k = 0.
Proof.
  intros Hk. apply Z.div_small. split; [done|].
  apply Z.lt_le_trans with (2 ^ 34); [done|]. apply Z.pow_le_mono_r; lia.
Qed.

Lemma eras_total_S (n : nat) :
  eras_total (S n) = eras_total n + era_reward (Z.of_nat n).
Proof. done. Qed.

Lemma eras_total_bound (n : nat) :
  0 <= eras_total n /\ eras_total n + 2 * era_reward (Z.of_nat n) <= 2 * INITIAL_REWARD.
Proof.
  induction n as [|n [IH0 IH]]; [done|].
  cbn [eras_total]. rewrite Nat2Z.inj_succ. unfold Z.succ.
  rewrite era_reward_succ by lia.
  pose proof (era_reward_range (Z.of_nat n)).
  pose proof (Z.mul_div_le (era_reward (Z.of_nat n)) 2). lia.
Qed.

Lemma eras_total_after (n : nat) : eras_total (34 + n) = eras_total 34.
Proof.
  induction n as [|n IH]; [done|].
  rewrite Nat.add_succ_r.
  rewrite eras_total_S, IH, era_reward_zero by lia. apply Z.add_0_r.
Qed.

(** One more block adds its era's subsidy. *)
Lemma scheduled_coins_succ (h : Z) :
  1 <= h -> scheduled_coins (h + 1) = scheduled_coins h + era_reward (h / HALVING_INTERVAL).
Proof.
  intros Hh. unfold scheduled_coins. rewrite !(proj2 (Z.eqb_neq _ _)) by lia.
  unfold HALVING_INTERVAL. set (I := 500000).
  pose proof (Z.div_mod h I). pose proof (Z.mod_pos_bound h I).
  assert (0 <= h / I) by (apply Z.div_pos; lia).
  destruct (decide (h mod I = I - 1)) as [E|E].
  - assert ((h + 1) / I = h / I + 1) as ->
      by (symmetry; apply (Z.div_unique_pos _ _ _ 0); lia).
    assert ((h + 1) mod I = 0) as ->
      by (symmetry; apply (Z.mod_unique_pos _ _ (h / I + 1)); lia).
    rewrite Z2Nat.inj_add by lia. rewrite Nat.add_1_r. cbn [eras_total].
    rewrite Z2Nat.id by lia. lia.
  - assert ((h + 1) / I = h / I) as ->
      by (symmetry; apply (Z.div_unique_pos _ _ _ (h mod I + 1)); lia).
    assert ((h + 1) mod I = h mod I + 1) as ->
      by (symmetry; apply (Z.mod_unique_pos _ _ (h / I)); lia).
    lia.
Qed.

Lemma scheduled_coins_bound (h : Z) :
  0 <= h -> 0 <= scheduled_coins h /\
  scheduled_coins h + era_reward (h / HALVING_INTERVAL) <= MONEY_SUPPLY - INITIAL_REWARD.
Proof.
  intros Hh. destruct (decide (h = 0)) as [->|Hn]; [done|].
  assert (0 <= h / HALVING_INTERVAL) by (apply Z.div_pos; unfold HALVING_INTERVAL; lia).
  pose proof (era_reward_range (h / HALVING_INTERVAL)).
  split.
  - pattern h. apply Zlt_lower_bound_ind with 1; [|lia].
    intros x IH Hx. destruct (decide (x = 1)) as [->|]; [done|].
    replace x with ((x - 1) + 1) by lia. rewrite scheduled_coins_succ by lia.
    assert (0 <= (x - 1) / HALVING_INTERVAL) by (apply Z.div_pos; unfold HALVING_INTERVAL; lia).
    pose proof (era_reward_range ((x - 1) / HALVING_INTERVAL)).
    specialize (IH (x - 1)). lia.
  - unfold scheduled_coins. rewrite (proj2 (Z.eqb_neq _ _)) by lia.
    pose proof (eras_total_bound (Z.to_nat (h / HALVING_INTERVAL))) as Hb.
    rewrite Z2Nat.id in Hb by lia.
    pose proof (Z.mod_pos_bound h HALVING_INTERVAL).
    unfold HALVING_INTERVAL, INITIAL_REWARD, MONEY_SUPPLY in *. nia.
Qed.

(** ** The subsidy before the penalty *)

Lemma base_block_reward_spec (agc height : Z) :
  0 <= agc <= MONEY_SUPPLY -> 0 <= height ->
  base_block_reward agc height =
    if height =? 0 then 0
    else Z.min (era_reward (height / HALVING_INTERVAL)) (MONEY_SUPPLY - agc).
Proof.
  intros Ha Hh. unfold base_block_reward.
  assert (0 <= height / HALVING_INTERVAL) as Hk
    by (apply Z.div_pos; unfold HALVING_INTERVAL; lia).
  pose proof (era_reward_range _ Hk) as He.
  zcase; [done|]. zcase; [lia|].
  assert ((if 63 <=? height / HALVING_INTERVAL then 0
           else Z.shiftr INITIAL_REWARD (height / HALVING_INTERVAL))
          = era_reward (height / HALVING_INTERVAL)) as ->.
  { zcase; [by rewrite era_reward_zero by lia|]. apply Z.shiftr_div_pow2. lia. }
  unfold MONEY_SUPPLY, INITIAL_REWARD in *.
  rewrite !u64_small by (unfold_words; lia). zcase; lia.
Qed.

Lemma base_block_reward_range (agc height : Z) :
  0 <= agc <= MONEY_SUPPLY -> 0 <= height ->
  0 <= base_block_reward agc height <= Z.min INITIAL_REWARD (MONEY_SUPPLY - agc).
Proof.
  intros Ha Hh. rewrite base_block_reward_spec by done.
  assert (0 <= height / HALVING_INTERVAL) as Hk
    by (apply Z.div_pos; unfold HALVING_INTERVAL; lia).
  pose proof (era_reward_range _ Hk). zcase; unfold INITIAL_REWARD in *; lia.
Qed.

(** ** The penalty *)

Lemma get_min_block_weight_range (version : Z) : 20000 <= get_min_block_weight version <= 300000.
Proof.
  unfold get_min_block_weight. repeat zcase;
    unfold CRYPTONOTE_BLOCK_GRANTED_FULL_REWARD_ZONE_V1,
      CRYPTONOTE_BLOCK_GRANTED_FULL_REWARD_ZONE_V2,
      CRYPTONOTE_BLOCK_GRANTED_FULL_REWARD_ZONE_V5; lia.
Qed.

(** The reward the protocol means: [base * (1 - ((w - m) / m)^2)], rounded down,
    for a block of weight [w] over the effective median [m]. *)
Definition penalized_reward (base m w : Z) : Z := base * (m * m - (w - m) * (w - m)) / (m * m).

Definition reward_spec (base m w : Z) : option Z :=
  if w <=? m then Some base
  else if 2 * m <? w then None
  else Some (penalized_reward base m w).

Lemma penalized_reward_lt (base m w : Z) :
  0 < base -> 0 < m -> m < w <= 2 * m -> 0 <= penalized_reward base m w < base.
Proof.
  intros Hb Hm Hw. unfold penalized_reward.
  assert (0 < (w - m) * (w - m) <= m * m) by nia. split.
  - apply Z.div_pos; nia.
  - apply Z.div_lt_upper_bound; nia.
Qed.

Lemma penalized_reward_zero (m w : Z) : penalized_reward 0 m w = 0.
Proof. unfold penalized_reward. by rewrite Z.mul_0_l, Zdiv_0_l. Qed.

(** Dividing the 128-bit product twice by the median is one division by its square. *)
Lemma double_division (p m : Z) :
  0 <= p < 2 ^ 128 -> 0 < m -> in_u64 m ->
  let '(q1h, q1l, _, _) := div128_64 (p / 2 ^ 64) (p mod 2 ^ 64) m in
  let '(q2h, q2l, _, _) := div128_64 q1h q1l m in
  q2h * 2 ^ 64 + q2l = p / (m * m) /\ q2l = (p / (m * m)) mod 2 ^ 64.
Proof.
  intros Hp Hm Hm64.
  assert (in_u64 (p / 2 ^ 64)) as H1.
  { split; [apply Z.div_pos; lia|]. apply Z.div_lt_upper_bound; lia. }
  rewrite div128_64_spec by (try apply u64_range; done).
  assert (p / 2 ^ 64 * 2 ^ 64 + p mod 2 ^ 64 = p) as -> by (pose proof (Z.div_mod p (2 ^ 64)); lia).
  assert (0 <= p / m < 2 ^ 128) as Hq.
  { split; [apply Z.div_pos; lia|]. apply Z.le_lt_trans with p; [|lia].
    apply Z.div_le_upper_bound; [lia|]. nia. }
  assert (in_u64 (p / m / 2 ^ 64)) as H2.
  { split; [apply Z.div_pos; lia|]. apply Z.div_lt_upper_bound; lia. }
  rewrite div128_64_spec by (try apply u64_range; done).
  assert (p / m / 2 ^ 64 * 2 ^ 64 + (p / m) mod 2 ^ 64 = p / m) as ->
    by (pose proof (Z.div_mod (p / m) (2 ^ 64)); lia).
  rewrite (Z.div_div p m m) by lia.
  pose proof (Z.div_mod (p / (m * m)) (2 ^ 64)). lia.
Qed.

(** What [get_block_reward] computes: the specified reward in every build, except
    that a debug build stops when a block over the median has no subsidy left. *)
Lemma get_block_reward_spec (ndebug : bool) (median w agc version height : Z) :
  0 <= median < 2 ^ 32 -> in_u64 w -> 0 <= agc <= MONEY_SUPPLY -> 0 <= height ->
  let base := base_block_reward agc height in
  let m := Z.max median (get_min_block_weight version) in
  get_block_reward ndebug median w agc version height =
    if negb ndebug && (base =? 0) && (m <? w) && (w <=? 2 * m) then Abort
    else Val (reward_spec base m w).
Proof.
  intros Hmed Hw Hagc Hh base m. unfold get_block_reward, reward_spec. fold base.
  pose proof (get_min_block_weight_range version) as Hz.
  assert ((if median <? get_min_block_weight version
           then get_min_block_weight version else median) = m) as -> by (zcase; lia).
  assert (300000 < 2 ^ 32) by lia.
  pose proof (base_block_reward_range agc height Hagc Hh) as Hb. fold base in Hb.
  unfold INITIAL_REWARD, MONEY_SUPPLY in Hb.
  rewrite (u64_small (2 * m)) by (unfold_words; lia).
  destruct (Z.leb_spec w m).
  { rewrite (proj2 (Z.ltb_ge m w)) by lia. by rewrite andb_false_r. }
  rewrite (proj2 (Z.ltb_lt m w)), andb_true_r by lia.
  destruct (Z.ltb_spec (2 * m) w).
  { rewrite (proj2 (Z.leb_gt w (2 * m))) by lia. by rewrite andb_false_r. }
  rewrite (proj2 (Z.leb_le w (2 * m))), andb_true_r by lia.
  rewrite (u64_small (2 * m - w)) by (unfold_words; lia).
  assert (0 <= (2 * m - w) * w < m * m) by nia.
  assert (m * m < 2 ^ 64) by nia.
  rewrite (u64_small ((2 * m - w) * w)) by (unfold_words; lia).
  rewrite mul128_spec by (unfold_words; lia). run.
  replace ((2 * m - w) * w) with (m * m - (w - m) * (w - m)) by ring.
  set (p := base * (m * m - (w - m) * (w - m))).
  assert (0 <= p < 2 ^ 128) by (unfold p; nia).
  pose proof (double_division p m) as D.
  destruct (div128_64 (p / 2 ^ 64) (p mod 2 ^ 64) m) as [[[q1h q1l] ?] ?].
  destruct (div128_64 q1h q1l m) as [[[q2h q2l] ?] ?].
  destruct D as [D1 D2]; [lia | lia | unfold_words; lia |].
  change (p / (m * m)) with (penalized_reward base m w) in D1, D2.
  assert (0 <= penalized_reward base m w <= base) as Hpr.
  { destruct (decide (base = 0)) as [->|]; [by rewrite penalized_reward_zero|].
    pose proof (penalized_reward_lt base m w). lia. }
  rewrite Z.mod_small in D2 by (unfold_words; lia).
  rewrite (c_assert_true _ (0 =? q2h)) by (apply Z.eqb_eq; lia). run. rewrite D2.
  destruct (Z.eqb_spec base 0) as [E|E].
  - rewrite E, penalized_reward_zero. by destruct ndebug.
  - rewrite andb_false_r, c_assert_true; [done|]. apply Z.ltb_lt.
    apply penalized_reward_lt; lia.
Qed.

(** Whatever the median and the weight, overflow included, the reward is never
    more than the subsidy. *)
Lemma get_block_reward_le (ndebug : bool) (median w agc version height r : Z) :
  in_u64 median -> in_u64 w -> 0 <= agc <= MONEY_SUPPLY -> 0 <= height ->
  get_block_reward ndebug median w agc version height = Val (Some r) ->
  0 <= r <= base_block_reward agc height.
Proof.
  intros Hmed Hw Hagc Hh. unfold get_block_reward.
  pose proof (get_min_block_weight_range version) as Hz.
  set (m := if median <? get_min_block_weight version
            then get_min_block_weight version else median).
  assert (20000 <= m /\ in_u64 m) as [Hm Hm64]
    by (unfold m; zcase; unfold_words; lia).
  pose proof (base_block_reward_range agc height Hagc Hh) as Hb.
  set (base := base_block_reward agc height) in *.
  unfold INITIAL_REWARD, MONEY_SUPPLY in Hb.
  destruct (Z.leb_spec w m); [intros [= <-]; lia|].
  destruct (Z.ltb_spec (u64 (2 * m)) w); [done|].
  set (k := u64 (u64 (u64 (2 * m) - w) * w)).
  assert (in_u64 k /\ k <= m * m) as [Hk Hkm].
  { split; [apply u64_range|]. destruct (decide (m < 2 ^ 32)) as [Hs|Hs].
    - unfold k. rewrite (u64_small (2 * m)) in * by (unfold_words; lia).
      rewrite (u64_small (2 * m - w)) by (unfold_words; lia).
      rewrite u64_small by (unfold_words; nia). nia.
    - pose proof (u64_range (u64 (u64 (2 * m) - w) * w)) as Hr. fold k in Hr.
      unfold_words. nia. }
  rewrite mul128_spec by (unfold_words; lia). run.
  set (p := base * k).
  assert (0 <= p < 2 ^ 128) as Hp by (unfold p; unfold_words; nia).
  pose proof (double_division p m) as D.
  destruct (div128_64 (p / 2 ^ 64) (p mod 2 ^ 64) m) as [[[q1h q1l] ?] ?].
  destruct (div128_64 q1h q1l m) as [[[q2h q2l] ?] ?].
  destruct D as [D1 D2]; [lia | lia | done |].
  assert (0 <= p / (m * m) <= base).
  { split; [apply Z.div_pos; nia|]. apply Z.div_le_upper_bound; unfold p; nia. }
  rewrite Z.mod_small in D2 by lia. rewrite D2.
  intros E. apply c_assert_bind, c_assert_bind in E. injection E as <-. lia.
Qed.

Lemma eras_total_mono (n m : nat) : (n <= m)%nat -> eras_total n <= eras_total m.
Proof.
  induction 1 as [|m _ IH]; [done|]. rewrite eras_total_S.
  pose proof (era_reward_range (Z.of_nat m)). lia.
Qed.

(** The coins of all eras together. *)
Definition FINAL_SUPPLY : Z := 9999989994500000.

Lemma eras_total_final : HALVING_INTERVAL * eras_total 34 - INITIAL_REWARD = FINAL_SUPPLY.
Proof. reflexivity. Qed.

Lemma scheduled_coins_le_final (h : Z) : 0 <= h -> scheduled_coins h <= FINAL_SUPPLY.
Proof.
  intros Hh. destruct (decide (h = 0)) as [->|Hn]; [done|].
  unfold scheduled_coins. rewrite (proj2 (Z.eqb_neq _ _)) by lia.
  rewrite <- eras_total_final.
  assert (0 <= h / HALVING_INTERVAL) as Hk by (apply Z.div_pos; unfold HALVING_INTERVAL; lia).
  set (n := Z.to_nat (h / HALVING_INTERVAL)).
  assert (Z.of_nat n = h / HALVING_INTERVAL) as <- by (unfold n; lia).
  assert (eras_total (S n) <= eras_total 34).
  { destruct (decide (S n <= 34)%nat); [by apply eras_total_mono|].
    replace (S n) with (34 + (S n - 34))%nat by lia. by rewrite eras_total_after. }
  rewrite (eras_total_S n) in *. pose proof (era_reward_range (Z.of_nat n)).
  assert (h mod HALVING_INTERVAL * era_reward (Z.of_nat n)
          <= HALVING_INTERVAL * era_reward (Z.of_nat n)).
  { apply Z.mul_le_mono_nonneg_r; [lia|]. pose proof (Z.mod_pos_bound h HALVING_INTERVAL).
    unfold HALVING_INTERVAL in *. lia. }
  unfold HALVING_INTERVAL in *. lia.
Qed.

(** From era 34 on nothing is emitted any more. *)
Lemma scheduled_coins_final (h : Z) : 17000000 <= h -> scheduled_coins h = FINAL_SUPPLY.
Proof.
  intros Hh. unfold scheduled_coins. rewrite (proj2 (Z.eqb_neq _ _)) by lia.
  assert (34 <= h / HALVING_INTERVAL) as Hk
    by (apply Z.div_le_lower_bound; unfold HALVING_INTERVAL; lia).
  rewrite era_reward_zero by done.
  replace (Z.to_nat (h / HALVING_INTERVAL)) with (34 + (Z.to_nat (h / HALVING_INTERVAL) - 34))%nat
    by lia.
  rewrite eras_total_after, <- eras_total_final. lia.
Qed.

(** ** Properties *)

(** C2. Functional correctness of the block reward, in builds with and without
    assertions: with a median below [2^32], the 128-bit computation returns the subsidy
    (halved every 500,000 blocks, cut at the supply cap, nothing for the genesis block),
    in full up to the effective median, reduced by the square of the relative excess above
    it, and no reward at all over twice the median; a build with assertions stops in one of
    them exactly when the subsidy is zero and the block between the median and its double.
    (The unit tests in src/tests/unit_tests/block_reward.cpp still expect the emission of
    Monero, another reward than the code returns.) *)
Theorem block_reward_correct (ndebug : bool) (median w agc version height : Z)
    (Hmedian : 0 <= median < 2 ^ 32) (Hw : in_u64 w)
    (Hagc : 0 <= agc <= MONEY_SUPPLY) (Hheight : 0 <= height) :
  get_block_reward ndebug median w agc version height =
    let base := if height =? 0 then 0
                else Z.min (INITIAL_REWARD / 2 ^ (height / HALVING_INTERVAL)) (MONEY_SUPPLY - agc) in
    let m := Z.max median (get_min_block_weight version) in
    if w <=? m then Val (Some base)
    else if 2 * m <? w then Val None
    else if negb ndebug && (base =? 0) then Abort
    else Val (Some (base * (m * m - (w - m) * (w - m)) / (m * m))).
Proof.
  rewrite get_block_reward_spec by done. cbv zeta. rewrite base_block_reward_spec by done. unfold reward_spec, penalized_reward, era_reward.
  set (base := if height =? 0 then 0 else _). set (m := Z.max median _).
  destruct (Z.leb_spec w m); [by rewrite (proj2 (Z.ltb_ge m w)), andb_false_r by lia|].
  destruct (Z.ltb_spec (2 * m) w); [by rewrite (proj2 (Z.leb_gt w (2 * m))), andb_false_r by lia|].
  rewrite (proj2 (Z.ltb_lt m w)), (proj2 (Z.leb_le w (2 * m))), !andb_true_r by lia. done.
Qed.

Lemma block_reward_correct_witness :
  get_block_reward true 300000 450000 0 16 1000001 = Val (Some 1875000000).
Proof.
  etransitivity.
  - apply (block_reward_correct true 300000 450000 0 16 1000001); unfold MONEY_SUPPLY; unfold_words; lia.
  - vm_compute. reflexivity.
Defined.

(** The first calls of block_reward.cpp, which expects 17592186044415 and 17592169267200. *)
Example first_unit_tests :
  get_block_reward true 0 10000 0 1 0 = Val (Some 0) /\ get_block_reward true 0 10000 17592186044415 1 0 = Val (Some 0).
Proof. split; reflexivity. Qed.

(** Once the subsidy is exhausted (era 34 on), a block whose weight is over the
    median and within twice the median makes [get_block_reward] stop in its assertion
    [reward_lo < base_reward] in a build with assertions, although the release build
    accepts it with a reward of zero. *)
Theorem exhausted_subsidy_assertion (median w agc version height : Z)
    (Hmedian : 0 <= median < 2 ^ 32) (Hagc : 0 <= agc <= MONEY_SUPPLY)
    (Hheight : 17000000 <= height)
    (Hw : Z.max median (get_min_block_weight version) < w
          <= 2 * Z.max median (get_min_block_weight version)) :
  get_block_reward false median w agc version height = Abort /\
  get_block_reward true median w agc version height = Val (Some 0).
Proof.
  pose proof (get_min_block_weight_range version).
  assert (base_block_reward agc height = 0) as Eb.
  { rewrite base_block_reward_spec by lia. rewrite (proj2 (Z.eqb_neq _ _)) by lia.
    rewrite era_reward_zero; [lia|].
    apply Z.div_le_lower_bound; unfold HALVING_INTERVAL; lia. }
  rewrite !get_block_reward_spec by (unfold_words; lia). rewrite Eb. unfold reward_spec.
  rewrite (proj2 (Z.ltb_lt _ w)), (proj2 (Z.leb_le w (2 * _))) by lia.
  rewrite (proj2 (Z.leb_gt w _)), (proj2 (Z.ltb_ge _ w)), penalized_reward_zero by lia. done.
Qed.

Lemma exhausted_subsidy_assertion_witness :
  get_block_reward false 0 400000 9999989994500000 16 17000000 = Abort /\
  get_block_reward true 0 400000 9999989994500000 16 17000000 = Val (Some 0).
Proof.
  apply (exhausted_subsidy_assertion 0 400000 9999989994500000 16 17000000).
  - lia.
  - unfold MONEY_SUPPLY. lia.
  - lia.
  - change (get_min_block_weight 16) with 300000. lia.
Defined.
