(* ===== verification/Coinbase.v ===== *)
(** * The coinbase transaction

    Construction and validation of the miner transaction:
    [construct_miner_tx] ([src/cryptonote_core/cryptonote_tx_utils.cpp]),
    [decompose_amount_into_digits], [check_outs_overflow], [check_output_types]
    ([src/cryptonote_basic/cryptonote_format_utils]),
    [prevalidate_miner_transaction], [validate_miner_transaction] and the update of
    the generated coins in [handle_block_to_main_chain]
    ([src/cryptonote_core/blockchain.cpp]), and the median of
    [contrib/epee/include/misc_language.h]. *)

From S2P Require Import Prelude IntUtil TxFormat TxExtra Emission.
Local Open Scope word_scope.

(** ** Constants

    Transactions are those of the wire format. *)

Definition rct_type_of (tx : transaction) : Z := rct_type (base (rct_signatures tx)).

(** [transaction::set_null]. *)
Definition null_transaction : transaction := {|
  prefix := {| version := 1; unlock_time := 0; vin := []; vout := []; extra := [] |};
  signatures := []; rct_signatures := null_rct |}.

Definition CRYPTONOTE_MINED_MONEY_UNLOCK_WINDOW : Z := 60.
Definition HF_VERSION_MIN_V2_COINBASE_TX : Z := 12.
Definition HF_VERSION_REJECT_SIGS_IN_COINBASE : Z := 12.
Definition HF_VERSION_EFFECTIVE_SHORT_TERM_MEDIAN_IN_PENALTY : Z := 12.
Definition HF_VERSION_EXACT_COINBASE : Z := 13.
Definition HF_VERSION_VIEW_TAGS : Z := 15.
Definition BASE_REWARD_CLAMP_THRESHOLD : Z := 100000000.
Definition DEFAULT_DUST_THRESHOLD : Z := 2000000000.

(** ** The median *)

Definition get_mid (a b : Z) : Z :=
  a / 2 ⊞ b / 2 ⊞ ((a ⊟ 2 ⊠ (a / 2)) ⊞ (b ⊟ 2 ⊠ (b / 2))) / 2.

Definition median (v : list Z) : outcome Z :=
  match v with
  | [] => mret 0
  | [x] => mret x
  | _ =>
    let n := Z.of_nat (length v) / 2 in
    let v := sort_Z v in
    if Z.of_nat (length v) mod 2 =? 0 then
      a ← c_index v (n - 1);
      b ← c_index v n;
      mret (get_mid a b)
    else c_index v n
  end.

(** ** Amounts *)

(** The loop of [decompose_amount_into_digits], with both handlers appending to
    [out]; [fuel] bounds the number of digits left. *)
Fixpoint decompose_loop (fuel : nat) (amount dust_threshold : Z)
    (is_dust_handled : bool) (dust order : Z) (out : list Z) : list Z :=
  match fuel with
  | O => out
  | S fuel =>
    if amount =? 0 then
      if negb is_dust_handled && negb (dust =? 0) then out ++ [dust] else out
    else
      let chunk := (amount mod 10) ⊠ order in
      let amount := amount / 10 in
      let order := order ⊠ 10 in
      if dust ⊞ chunk <=? dust_threshold
      then decompose_loop fuel amount dust_threshold is_dust_handled (dust ⊞ chunk) order out
      else
        let handle := negb is_dust_handled && negb (dust =? 0) in
        let out := if handle then out ++ [dust] else out in
        let is_dust_handled := handle || is_dust_handled in
        let out := if negb (chunk =? 0) then out ++ [chunk] else out in
        decompose_loop fuel amount dust_threshold is_dust_handled dust order out
  end.

(** A 64-bit amount has at most 20 digits. *)
Definition decompose_amount_into_digits (amount dust_threshold : Z) : list Z :=
  if amount =? 0 then [] else decompose_loop 21 amount dust_threshold false 0 1 [].

(** Digits 1 to 9 times each power of ten, up to [10^19]. *)
Definition valid_decomposed_outputs : list Z :=
  concat (map (fun k => map (fun d => d * 10 ^ k) [1; 2; 3; 4; 5; 6; 7; 8; 9]) (seqZ 0 19))
  ++ [10000000000000000000].

(** [std::binary_search] over the sorted table. *)
Definition is_valid_decomposed_amount (amount : Z) : bool :=
  bool_decide (amount ∈ valid_decomposed_outputs).

Fixpoint check_outs_overflow_from (money : Z) (outs : list tx_out) : bool :=
  match outs with
  | [] => true
  | o :: outs =>
    if amount o ⊞ money <? money then false
    else check_outs_overflow_from (money ⊞ amount o) outs
  end.

Definition check_outs_overflow (tx : transaction) : bool :=
  check_outs_overflow_from 0 (vout (prefix tx)).

Definition is_to_key (t : txout_target_v) : bool :=
  match t with to_key _ => true | _ => false end.

Definition is_to_tagged_key (t : txout_target_v) : bool :=
  match t with to_tagged_key _ _ => true | _ => false end.

(** [o.target.type() == o'.target.type()] *)
Definition same_target_type (t t' : txout_target_v) : bool :=
  match t, t' with
  | to_script _, to_script _ | to_scripthash _, to_scripthash _
  | to_key _, to_key _ | to_tagged_key _ _, to_tagged_key _ _ => true
  | _, _ => false
  end.

Definition check_output_types (tx : transaction) (hf_version : Z) : bool :=
  forallb (fun o =>
    if HF_VERSION_VIEW_TAGS <? hf_version then is_to_tagged_key (target o)
    else if hf_version <? HF_VERSION_VIEW_TAGS then is_to_key (target o)
    else (is_to_key (target o) || is_to_tagged_key (target o))
         && match vout (prefix tx) with
            | o0 :: _ => same_target_type (target o) (target o0)
            | [] => true
            end) (vout (prefix tx)).

Definition set_tx_out (amt : Z) (output_public_key : list Z) (use_view_tags : bool) (view_tag : list Z) : tx_out :=
  {| amount := amt;
     target := if use_view_tags then to_tagged_key output_public_key view_tag
               else to_key output_public_key |}.

(** ** Construction *)

(** The amounts after the merging loop of [construct_miner_tx]: while there are
    more than [max_outs], the first is added to the second and removed. *)
Fixpoint merge_outs (max_outs a0 : Z) (t : list Z) : outcome (list Z) :=
  if max_outs <? Z.of_nat (length (a0 :: t)) then
    match t with
    | a1 :: t => merge_outs max_outs (a1 ⊞ a0) t
    | [] => Undef
    end
  else mret (a0 :: t).

Section construct.
(** The keys of output [no] (the derived one-time key and its view tag), or [None]
    when the derivation fails, and the public key of the transaction's key pair. *)
Context (derive_out : Z -> option (list Z * list Z)) (tx_pub_key : list Z).

(** The output loop: the outputs and the sum of their amounts. *)
Fixpoint make_outs (use_view_tags : bool) (no summary_amounts : Z) (outs : list tx_out)
    (out_amounts : list Z) : option (list tx_out * Z) :=
  match out_amounts with
  | [] => Some (outs, summary_amounts)
  | amt :: out_amounts =>
    match derive_out no with
    | None => None
    | Some (key, view_tag) =>
      make_outs use_view_tags (no + 1) (summary_amounts ⊞ amt)
        (outs ++ [set_tx_out amt key use_view_tags view_tag]) out_amounts
    end
  end.

(** [construct_miner_tx]: [None] when it returns false. *)
Definition construct_miner_tx (ndebug : bool)
    (height median_weight already_generated_coins current_block_weight fee : Z)
    (tx : transaction) (extra_nonce : list Z) (max_outs hard_fork_version : Z) : outcome (option transaction) :=
  match miner_extra tx_pub_key extra_nonce with
  | None => mret None
  | Some ex =>
    r ← get_block_reward ndebug median_weight current_block_weight
          already_generated_coins hard_fork_version height;
    match r with
    | None => mret None
    | Some block_reward =>
      let block_reward := block_reward ⊞ fee in
      let block_reward :=
        if (2 <=? hard_fork_version) && (hard_fork_version <? 4)
        then block_reward ⊟ block_reward mod BASE_REWARD_CLAMP_THRESHOLD
        else block_reward in
      let out_amounts := decompose_amount_into_digits block_reward
        (if 2 <=? hard_fork_version then 0 else DEFAULT_DUST_THRESHOLD) in
      if max_outs <? 1 then mret None
      else
        merged ←
          (if (height =? 0) || (4 <=? hard_fork_version) then
             match out_amounts with
             | a0 :: t => l ← merge_outs max_outs a0 t; mret (Some l)
             | [] => mret (Some [])
             end
           else if Z.of_nat (length out_amounts) <=? max_outs
           then mret (Some out_amounts) else mret None);
        match merged with
        | None => mret None
        | Some out_amounts =>
          match make_outs (HF_VERSION_VIEW_TAGS <=? hard_fork_version) 0 0 [] out_amounts with
          | None => mret None
          | Some (outs, summary_amounts) =>
            if summary_amounts =? block_reward then
              mret (Some
                {| prefix :=
                     {| version := if 4 <=? hard_fork_version then 2 else 1;
                        unlock_time := height ⊞ CRYPTONOTE_MINED_MONEY_UNLOCK_WINDOW;
                        vin := [txin_gen height];
                        vout := outs;
                        extra := ex |};
                   signatures := signatures tx;
                   rct_signatures := rct_signatures tx |})
            else mret None
          end
        end
    end
  end.
End construct.

(** ** Validation *)

(** [prevalidate_miner_transaction] on the block's miner transaction. *)
Definition prevalidate_miner_transaction (tx : transaction) (height hf_version : Z) : bool :=
  match vin (prefix tx) with
  | [txin_gen gen_height] =>
    ((1 <? version (prefix tx)) || (hf_version <? HF_VERSION_MIN_V2_COINBASE_TX))
    && (if (HF_VERSION_REJECT_SIGS_IN_COINBASE <=? hf_version) && (2 <=? version (prefix tx))
        then rct_type_of tx =? RCTTypeNull else true)
    && (gen_height =? height)
    && (unlock_time (prefix tx) =? height ⊞ CRYPTONOTE_MINED_MONEY_UNLOCK_WINDOW)
    && check_outs_overflow tx
    && check_output_types tx hf_version
  | _ => false
  end.

Definition money_in_use (tx : transaction) : Z :=
  fold_left (fun money o => money ⊞ amount o) (vout (prefix tx)) 0.

Definition get_block_height (tx : transaction) : Z :=
  match vin (prefix tx) with
  | [txin_gen height] => height
  | _ => 0
  end.

(** [validate_miner_transaction]: the final [base_reward] and
    [partial_block_reward] when it returns true. [cumul_weight_median] is
    [m_current_block_cumul_weight_median], [last_blocks_weights] the weights of the
    last [CRYPTONOTE_REWARD_BLOCKS_WINDOW] blocks. *)
Definition validate_miner_transaction (ndebug : bool) (tx : transaction)
    (cumulative_block_weight fee already_generated_coins version
     cumul_weight_median : Z) (last_blocks_weights : list Z)
    : outcome (option (Z * bool)) :=
  let money := money_in_use tx in
  if (version =? 3) && negb (forallb (fun o => is_valid_decomposed_amount (amount o)) (vout (prefix tx)))
  then mret None
  else
    median_weight ←
      (if HF_VERSION_EFFECTIVE_SHORT_TERM_MEDIAN_IN_PENALTY <=? version
       then mret cumul_weight_median else median last_blocks_weights);
    r ← get_block_reward ndebug median_weight cumulative_block_weight
          already_generated_coins version (get_block_height tx);
    match r with
    | None => mret None
    | Some base_reward =>
      if base_reward ⊞ fee <? money then mret None
      else if (version <? 2) || (HF_VERSION_EXACT_COINBASE <=? version) then
        if negb (base_reward ⊞ fee =? money) then mret None
        else mret (Some (base_reward, false))
      else if negb (money ⊟ fee <=? base_reward) then mret None
      else mret (Some (money ⊟ fee, negb (base_reward ⊞ fee =? money)))
    end.

(** The coins generated after a block, as [handle_block_to_main_chain] stores them. *)
Definition next_generated_coins (already_generated_coins base_reward : Z) : Z :=
  if base_reward <? MONEY_SUPPLY ⊟ already_generated_coins
  then already_generated_coins ⊞ base_reward else MONEY_SUPPLY.

(** ** The median is the middle of the sorted values *)

Lemma get_mid_spec (a b : Z) : in_u64 a -> in_u64 b -> get_mid a b = (a + b) / 2.
Proof.
  intros Ha Hb. unfold get_mid.
  pose proof (Z.div_mod a 2). pose proof (Z.mod_pos_bound a 2).
  pose proof (Z.div_mod b 2). pose proof (Z.mod_pos_bound b 2).
  unfold in_u64 in *.
  rewrite (u64_small (2 * (a / 2))), (u64_small (2 * (b / 2))) by (unfold_words; lia).
  rewrite (u64_small (a - _)), (u64_small (b - _)) by (unfold_words; lia).
  rewrite (u64_small (a - _ + _)) by (unfold_words; lia).
  rewrite (u64_small (a / 2 + b / 2)) by (unfold_words; lia).
  set (c := (a - 2 * (a / 2) + (b - 2 * (b / 2))) / 2).
  assert (c = (a mod 2 + b mod 2) / 2) as Ec by (unfold c; f_equal; lia).
  pose proof (Z.div_mod (a mod 2 + b mod 2) 2).
  pose proof (Z.mod_pos_bound (a mod 2 + b mod 2) 2).
  rewrite u64_small by (unfold_words; lia).
  apply (Z.div_unique_pos _ _ _ ((a mod 2 + b mod 2) mod 2)); lia.
Qed.

(** ** Decomposition *)

(** What is left when the amount is exhausted. *)
Lemma decompose_loop_end (fuel : nat) (T : Z) (handled : bool) (dust order : Z) (out : list Z) :
  sumZ (decompose_loop (S fuel) 0 T handled dust order out)
  = sumZ out + (if handled then 0 else dust).
Proof.
  cbn. destruct handled; cbn; [lia|]. destruct (Z.eqb_spec dust 0); cbn; [lia|].
  apply sumZ_snoc.
Qed.

(** The digit taken off in one turn of the loop. *)
Lemma digit_bounds (amt order total : Z) :
  0 < amt -> 0 < order -> amt * order <= total ->
  0 <= amt mod 10 * order <= 9 * order /\
  amt mod 10 * order + amt / 10 * (order * 10) = amt * order /\
  0 <= amt / 10 * (order * 10) /\
  (amt mod 10 * order <> 0 -> order <= amt mod 10 * order).
Proof.
  intros Ha Ho Ht. pose proof (Z.div_mod amt 10). pose proof (Z.mod_pos_bound amt 10).
  pose proof (Z.div_pos amt 10).
  set (d := amt mod 10) in *. set (q := amt / 10) in *. clearbody d q.
  assert (amt = 10 * q + d) as -> by lia.
  split; [nia|]. split; [ring|]. split; [nia|]. intros Hd.
  assert (d <> 0) by (intros ->; lia). nia.
Qed.

(** The amounts handed out add up to the amount: digits below the threshold
    gather in the dust, every other digit is a chunk. *)
Lemma decompose_loop_sum (fuel : nat) :
  forall amount T handled dust order out total,
  0 <= amount < 10 ^ Z.of_nat fuel -> total < 2 ^ 64 -> 0 < order -> 0 <= dust <= T ->
  dust + amount * order <= total ->
  (out = [] /\ handled = false) \/ T < dust + order ->
  sumZ out + (if handled then 0 else dust) + amount * order = total ->
  sumZ (decompose_loop (S fuel) amount T handled dust order out) = total.
Proof.
  induction fuel as [|fuel IH]; intros amt T handled dust order out total Ha Ht Ho Hd Hb Hi Hs.
  { assert (amt = 0) as -> by lia. rewrite decompose_loop_end. lia. }
  destruct (decide (amt = 0)) as [->|Hne]; [rewrite decompose_loop_end; lia|].
  destruct (digit_bounds amt order total) as (Hc & Hsplit & Hrest & Hone); [lia..|].
  assert (0 <= amt / 10 < 10 ^ Z.of_nat fuel) as Hq.
  { rewrite Nat2Z.inj_succ, Z.pow_succ_r in Ha by lia.
    split; [apply Z.div_pos; lia | apply Z.div_lt_upper_bound; lia]. }
  assert (forall handled' dust' out',
    0 <= dust' <= T -> dust' + amt / 10 * (order * 10) <= total ->
    (out' = [] /\ handled' = false) \/ T < dust' + order * 10 ->
    sumZ out' + (if handled' then 0 else dust') + amt / 10 * (order * 10) = total ->
    sumZ (decompose_loop (S fuel) (amt / 10) T handled' dust' (u64 (order * 10)) out') = total)
    as K.
  { intros handled' dust' out' K1 K2 K3 K4.
    destruct (decide (amt / 10 = 0)) as [E|E].
    - rewrite E in *. rewrite decompose_loop_end. lia.
    - rewrite u64_small by (unfold_words; nia). apply IH; (assumption || lia). }
  remember (S fuel) as n. cbn [decompose_loop]. rewrite (proj2 (Z.eqb_neq amt 0)) by done.
  rewrite (u64_small (amt mod 10 * order)) by (unfold_words; lia).
  set (chunk := amt mod 10 * order) in *.
  rewrite (u64_small (dust + chunk)) by (unfold_words; lia).
  destruct (Z.leb_spec (dust + chunk) T).
  - apply K; [lia | lia | | destruct handled; lia].
    destruct Hi as [Hi|Hi]; [by left|]. right. lia.
  - rewrite (proj2 (Z.eqb_neq chunk 0)) by lia. cbn [negb].
    apply K; [lia | lia | right; lia |]. rewrite sumZ_snoc.
    destruct handled; cbn; [lia|]. destruct (Z.eqb_spec dust 0); cbn; [lia|].
    rewrite sumZ_snoc. lia.
Qed.

Lemma decompose_sum (amount T : Z) :
  in_u64 amount -> 0 <= T -> sumZ (decompose_amount_into_digits amount T) = amount.
Proof.
  intros Ha HT. unfold decompose_amount_into_digits. zcase; [done|].
  apply decompose_loop_sum; try (unfold_words; lia); [by left | change (sumZ []) with 0; lia].
Qed.

(** One digit times a power of ten, within 64 bits. *)
Definition digit_amount (x : Z) : Prop :=
  exists d k, 1 <= d <= 9 /\ 0 <= k <= 19 /\ x = d * 10 ^ k /\ x < 2 ^ 64.

Lemma pow10_small (k : Z) : 0 <= k -> 10 ^ k < 2 ^ 64 -> k <= 19.
Proof.
  intros Hk Hp. destruct (decide (k <= 19)); [done|].
  assert (10 ^ 20 <= 10 ^ k) by (apply Z.pow_le_mono_r; lia). lia.
Qed.

(** With no dust threshold every output is a digit amount. *)
Lemma decompose_loop_digits (fuel : nat) :
  forall amt k handled out,
  0 <= amt -> 0 <= k -> amt * 10 ^ k < 2 ^ 64 -> Forall digit_amount out ->
  Forall digit_amount (decompose_loop fuel amt 0 handled 0 (u64 (10 ^ k)) out).
Proof.
  induction fuel as [|fuel IH]; intros amt k handled out Ha Hk Hb Ho; [done|].
  cbn [decompose_loop]. destruct (Z.eqb_spec amt 0); [by rewrite andb_false_r|].
  assert (0 < 10 ^ k) by lia.
  rewrite (u64_small (10 ^ k)) by (unfold_words; nia).
  destruct (digit_bounds amt (10 ^ k) (amt * 10 ^ k)) as (Hc & Hsplit & Hrest & _); [lia..|].
  rewrite (u64_small (amt mod 10 * 10 ^ k)) by (unfold_words; lia).
  replace (10 ^ k * 10) with (10 ^ (k + 1)) in * by (rewrite Z.pow_add_r by lia; done).
  rewrite Z.add_0_l, (u64_small (amt mod 10 * 10 ^ k)) by (unfold_words; lia).
  pose proof (Z.div_pos amt 10). rewrite andb_false_r. cbn [orb].
  destruct (Z.leb_spec (amt mod 10 * 10 ^ k) 0).
  - replace (amt mod 10 * 10 ^ k) with 0 by lia. apply IH; (done || lia).
  - rewrite (proj2 (Z.eqb_neq _ 0)) by lia. cbn [negb].
    apply IH; [lia..|]. apply Forall_app. split; [done|]. constructor; [|done].
    pose proof (Z.mod_pos_bound amt 10).
    assert (amt mod 10 <> 0) by (intros E; rewrite E in *; lia).
    exists (amt mod 10), k. repeat split; try lia. apply pow10_small; nia.
Qed.

Lemma decompose_digits (amount : Z) :
  in_u64 amount -> Forall digit_amount (decompose_amount_into_digits amount 0).
Proof.
  intros Ha. unfold decompose_amount_into_digits. zcase; [done|].
  apply (decompose_loop_digits 21 amount 0); [unfold_words; lia.. | done].
Qed.

Lemma digit_amount_valid (x : Z) : digit_amount x -> is_valid_decomposed_amount x = true.
Proof.
  intros (d & k & Hd & Hk & -> & Hx). apply bool_decide_eq_true, elem_of_app.
  destruct (decide (k <= 18)).
  - left. apply list_elem_of_In, in_concat.
    exists (map (fun d => d * 10 ^ k) [1; 2; 3; 4; 5; 6; 7; 8; 9]). split.
    + apply in_map_iff. exists k. split; [done|]. apply list_elem_of_In, elem_of_seqZ. lia.
    + apply in_map_iff. exists d. split; [done|]. cbn. lia.
  - right. assert (k = 19) as -> by lia. assert (d = 1) as -> by lia. apply list_elem_of_here.
Qed.

(** ** Outputs *)

(** Merging keeps the sum and leaves at most [max_outs] amounts. *)
Lemma merge_outs_spec (max_outs a0 : Z) (t : list Z) :
  1 <= max_outs -> Forall (Z.le 0) (a0 :: t) -> sumZ (a0 :: t) < 2 ^ 64 ->
  exists l, merge_outs max_outs a0 t = Val l /\ sumZ l = sumZ (a0 :: t) /\
            Z.of_nat (length l) <= Z.max max_outs 1 /\ Forall (Z.le 0) l.
Proof.
  intros Hm. revert a0. induction t as [|a1 t IH]; intros a0 Hf Hs; cbn [merge_outs].
  - rewrite (proj2 (Z.ltb_ge _ _)) by (cbn; lia).
    exists [a0]. cbn [length]. split; [done|]. split; [done|]. split; [lia|done].
  - destruct (Z.ltb_spec max_outs (Z.of_nat (length (a0 :: a1 :: t)))) as [Hl|Hl].
    + apply Forall_cons in Hf as [Hp0 Hf]. apply Forall_cons in Hf as [Hp1 Hf].
      assert (0 <= sumZ t) by (apply sumZ_nonneg; done).
      rewrite !sumZ_cons in Hs.
      rewrite u64_small by (unfold_words; lia).
      destruct (IH (a1 + a0)) as (l & -> & El & Hll & Hl0).
      { constructor; [lia|done]. }
      { rewrite sumZ_cons. lia. }
      exists l. rewrite El, !sumZ_cons. split; [done|]. split; [lia|done].
    + eexists. split; [reflexivity|]. split; [done|]. split; [lia|done].
Qed.

(** The outputs carry the amounts in order, with the target the view-tag rule asks for. *)
Lemma make_outs_spec (derive_out : Z -> option (list Z * list Z)) (vt : bool) (l : list Z) :
  forall no s outs outs' s',
  make_outs derive_out vt no s outs l = Some (outs', s') ->
  exists new, outs' = outs ++ new /\ map amount new = l /\
    s' = fold_left (fun m a => u64 (m + a)) l s /\
    Forall (fun o => exists no key tag, derive_out no = Some (key, tag) /\
              target o = if vt then to_tagged_key key tag else to_key key) new.
Proof.
  induction l as [|a l IH]; intros no s outs outs' s' E; cbn [make_outs] in E.
  - injection E as <- <-. exists []. by rewrite app_nil_r.
  - destruct (derive_out no) as [[key tag]|] eqn:Ed; [|done].
    apply IH in E as (new & -> & Em & -> & Hf).
    exists (set_tx_out a key vt tag :: new). rewrite <- app_assoc. cbn. rewrite Em.
    split; [done|]. split; [done|]. split; [done|]. constructor; [by exists no, key, tag|done].
Qed.

(** Adding amounts with wrap-around is exact when the sum fits. *)
Lemma fold_add_exact (l : list Z) (m : Z) :
  0 <= m -> Forall (Z.le 0) l -> m + sumZ l < 2 ^ 64 ->
  fold_left (fun m a => u64 (m + a)) l m = m + sumZ l.
Proof.
  revert m. induction l as [|a l IH]; intros m Hm Hf Hs; cbn.
  - change (sumZ []) with 0. lia.
  - inversion Hf; subst. rewrite sumZ_cons in *.
    assert (0 <= sumZ l) by (apply sumZ_nonneg; done).
    rewrite u64_small by (unfold_words; lia). rewrite IH; (done || lia).
Qed.

Lemma money_in_use_fold (tx : transaction) :
  money_in_use tx = fold_left (fun m a => u64 (m + a)) (map amount (vout (prefix tx))) 0.
Proof.
  unfold money_in_use. generalize 0. induction (vout (prefix tx)) as [|o l IH]; intros m; [done|].
  cbn. apply IH.
Qed.

Lemma money_in_use_u64 (tx : transaction) : in_u64 (money_in_use tx).
Proof.
  rewrite money_in_use_fold. assert (in_u64 0) as H by (unfold_words; lia). revert H.
  generalize 0. induction (map amount (vout (prefix tx))) as [|a l IH]; intros m Hm; [done|].
  cbn. apply IH, u64_range.
Qed.

(** [check_outs_overflow] accepts exactly the outputs whose amounts sum within 64 bits. *)
Lemma check_outs_overflow_from_spec (outs : list tx_out) (money : Z) :
  in_u64 money -> Forall (fun o => in_u64 (amount o)) outs ->
  check_outs_overflow_from money outs = true <-> money + sumZ (map amount outs) < 2 ^ 64.
Proof.
  revert money. induction outs as [|o outs IH]; intros money Hm Hf; cbn.
  - change (sumZ []) with 0. unfold_words. split; [lia|done].
  - inversion Hf as [|?? Ho Hf']; subst. rewrite sumZ_cons.
    assert (0 <= sumZ (map amount outs)).
    { apply sumZ_nonneg. apply Forall_map. eapply Forall_impl; [done|]. unfold in_u64; cbn; lia. }
    destruct (decide (amount o + money < 2 ^ 64)) as [Hs|Hs].
    + rewrite (u64_small (amount o + money)) by (unfold_words; lia).
      rewrite (proj2 (Z.ltb_ge _ _)) by (unfold_words; lia).
      rewrite (u64_small (money + amount o)) by (unfold_words; lia).
      rewrite IH by (done || (unfold_words; lia)). lia.
    + rewrite u64_add_wrap by (done || lia).
      rewrite (proj2 (Z.ltb_lt _ _)) by (unfold_words; lia).
      split; [done|]. unfold_words. lia.
Qed.

Lemma decompose_loop_u64 (fuel : nat) :
  forall amt T handled dust order out,
  in_u64 dust -> Forall in_u64 out ->
  Forall in_u64 (decompose_loop fuel amt T handled dust order out).
Proof.
  induction fuel as [|fuel IH]; intros amt T handled dust order out Hd Ho; [done|].
  assert (Forall in_u64 (out ++ [dust])) as Hod by (apply Forall_app; auto).
  cbn [decompose_loop]. destruct (amt =? 0); [by case_match|].
  case_match; apply IH; auto with words.
  repeat case_match; try done; apply Forall_app; auto with words.
Qed.

Lemma decompose_u64 (amt T : Z) : Forall in_u64 (decompose_amount_into_digits amt T).
Proof.
  unfold decompose_amount_into_digits. case_match; [done|].
  apply decompose_loop_u64; [unfold_words; lia | done].
Qed.

Lemma Forall_u64_nonneg (l : list Z) : Forall in_u64 l -> Forall (Z.le 0) l.
Proof. intros H. eapply Forall_impl; [done|]. unfold in_u64. cbn. lia. Qed.

#[export] Hint Resolve decompose_u64 Forall_u64_nonneg : words.

Lemma make_outs_total (derive_out : Z -> option (list Z * list Z)) (vt : bool) (l : list Z) :
  (forall no, is_Some (derive_out no)) ->
  forall no s outs, is_Some (make_outs derive_out vt no s outs l).
Proof.
  intros Hd. induction l as [|a l IH]; intros no s outs; cbn; [eauto|].
  destruct (Hd no) as [[k t] ->]. apply IH.
Qed.

(** The merged amounts of the template. *)
Lemma template_amounts (height hf max_outs reward T : Z) :
  in_u64 reward -> 0 <= T -> 1 <= max_outs ->
  4 <= hf \/ Z.of_nat (length (decompose_amount_into_digits reward T)) <= max_outs ->
  exists l,
    (if (height =? 0) || (4 <=? hf) then
       match decompose_amount_into_digits reward T with
       | a0 :: t => l ← merge_outs max_outs a0 t; mret (Some l)
       | [] => mret (Some [])
       end
     else if Z.of_nat (length (decompose_amount_into_digits reward T)) <=? max_outs
     then mret (Some (decompose_amount_into_digits reward T)) else mret None)
    = Val (Some l) /\ sumZ l = reward /\ Forall (Z.le 0) l /\ Z.of_nat (length l) <= max_outs.
Proof.
  intros Hr HT Hm Hlen.
  pose proof (decompose_sum reward T Hr HT) as Hs.
  pose proof (Forall_u64_nonneg _ (decompose_u64 reward T)) as Hf.
  destruct (_ || _) eqn:Eb.
  - destruct (decompose_amount_into_digits reward T) as [|a0 t]; [exists []; split_and!; (done || cbn; lia)|].
    destruct (merge_outs_spec max_outs a0 t) as (l & -> & El & Hll & Hl);
      [done | done | unfold_words; lia |].
    exists l. rewrite El. split_and!; (done || lia).
  - apply orb_false_iff in Eb as [_ Eb]. apply Z.leb_gt in Eb.
    rewrite (proj2 (Z.leb_le _ _)) by lia. eexists. split; [done|]. split_and!; (done || lia).
Qed.

(** What the miner builds, when the reward is known. *)
Lemma construct_miner_tx_spec (derive_out : Z -> option (list Z * list Z)) (k nonce ex : list Z) (ndebug : bool)
    (height median_w agc w fee max_outs hf base : Z) (tx0 : transaction) :
  (forall no, is_Some (derive_out no)) -> miner_extra k nonce = Some ex ->
  get_block_reward ndebug median_w w agc hf height = Val (Some base) ->
  in_u64 base -> 0 <= fee -> base + fee < 2 ^ 64 -> 1 <= max_outs ->
  4 <= hf \/ hf = 1 /\ Z.of_nat (length
     (decompose_amount_into_digits (base + fee) DEFAULT_DUST_THRESHOLD)) <= max_outs ->
  exists outs,
    construct_miner_tx derive_out k ndebug height median_w agc w fee tx0 nonce max_outs hf =
      Val (Some {| prefix :=
                     {| version := if 4 <=? hf then 2 else 1;
                        unlock_time := u64 (height + CRYPTONOTE_MINED_MONEY_UNLOCK_WINDOW);
                        vin := [txin_gen height]; vout := outs; extra := ex |};
                   signatures := signatures tx0; rct_signatures := rct_signatures tx0 |}) /\
    sumZ (map amount outs) = base + fee /\ Forall (Z.le 0) (map amount outs) /\
    Z.of_nat (length outs) <= max_outs /\
    Forall (fun o => exists no key tag, derive_out no = Some (key, tag) /\
      target o = if HF_VERSION_VIEW_TAGS <=? hf then to_tagged_key key tag else to_key key) outs.
Proof.
  intros Hd Hex Hr Hb Hfee Hsum Hm Hhf. unfold construct_miner_tx. rewrite Hex, Hr. run.
  rewrite (u64_small (base + fee)) by (unfold_words; lia).
  rewrite (proj2 (andb_false_iff (2 <=? hf) (hf <? 4)))
    by (destruct Hhf as [?|[-> _]]; [right; apply Z.ltb_ge; lia | by left]).
  rewrite (proj2 (Z.ltb_ge max_outs 1)) by lia.
  set (T := if 2 <=? hf then 0 else DEFAULT_DUST_THRESHOLD).
  assert (4 <= hf \/
    Z.of_nat (length (decompose_amount_into_digits (base + fee) T)) <= max_outs) as Hlen.
  { destruct Hhf as [?|[-> ?]]; [by left | by right]. }
  destruct (template_amounts height hf max_outs (base + fee) T) as (l & -> & El & Hl & Hll);
    [unfold_words; lia | unfold T, DEFAULT_DUST_THRESHOLD; case_match; lia | done | done |].
  run. destruct (make_outs_total derive_out (HF_VERSION_VIEW_TAGS <=? hf) l Hd 0 0 [])
    as [[outs s] Eo].
  rewrite Eo. apply make_outs_spec in Eo as (new & -> & Em & -> & Hnew).
  rewrite fold_add_exact by (done || lia).
  rewrite (proj2 (Z.eqb_eq _ _)) by lia.
  exists new. rewrite <- (length_map amount new), Em, El. done.
Qed.

Lemma derived_targets (derive_out : Z -> option (list Z * list Z)) (vt : bool) (outs : list tx_out) :
  Forall (fun o => exists no key tag, derive_out no = Some (key, tag) /\
    target o = if vt then to_tagged_key key tag else to_key key) outs ->
  Forall (fun o => (if vt then is_to_tagged_key (target o) else is_to_key (target o)) = true) outs.
Proof. intros Ho. eapply Forall_impl; [exact Ho|]. intros o (no & key & tag & _ & ->). by destruct vt. Qed.

Lemma check_output_types_uniform (tx : transaction) (hf : Z) :
  Forall (fun o => (if HF_VERSION_VIEW_TAGS <=? hf then is_to_tagged_key (target o)
                    else is_to_key (target o)) = true) (vout (prefix tx)) ->
  check_output_types tx hf = true.
Proof.
  intros Hf. unfold check_output_types. apply forallb_forall. intros o Ho.
  rewrite Forall_forall in Hf. specialize (Hf o (proj2 (list_elem_of_In _ _) Ho)) as H1.
  destruct (Z.leb_spec HF_VERSION_VIEW_TAGS hf).
  - destruct (Z.ltb_spec HF_VERSION_VIEW_TAGS hf); [done|].
    rewrite (proj2 (Z.ltb_ge _ _)) by lia. rewrite H1, orb_true_r. cbn.
    destruct (vout (prefix tx)) as [|o0 outs]; [done|]. specialize (Hf o0 (list_elem_of_here _ _)).
    by destruct (target o), (target o0).
  - rewrite (proj2 (Z.ltb_ge _ _)), (proj2 (Z.ltb_lt _ _)) by lia. done.
Qed.

Lemma Forall_u64_of_sum (l : list Z) :
  Forall (Z.le 0) l -> sumZ l < 2 ^ 64 -> Forall in_u64 l.
Proof.
  induction 1 as [|x l Hx Hl IH]; intros Hs; [done|]. rewrite sumZ_cons in Hs.
  pose proof (sumZ_nonneg l Hl). constructor; [unfold_words; lia|]. apply IH. lia.
Qed.

Lemma check_outs_overflow_sum (tx : transaction) :
  Forall (Z.le 0) (map amount (vout (prefix tx))) -> sumZ (map amount (vout (prefix tx))) < 2 ^ 64 ->
  check_outs_overflow tx = true.
Proof.
  intros Hf Hs. apply check_outs_overflow_from_spec; [unfold_words; lia | | lia].
  apply (Forall_map amount in_u64). by apply Forall_u64_of_sum.
Qed.

(** The block template's coinbase passes both checks of the block it is mined into:
    same height, weight, fee and median give the base reward back, in full. *)
Lemma template_validates (derive_out : Z -> option (list Z * list Z)) (k nonce ex : list Z) (ndebug : bool)
    (height median_w agc w fee max_outs hf base cumul : Z) (last : list Z) (tx0 : transaction) :
  (forall no, is_Some (derive_out no)) -> miner_extra k nonce = Some ex ->
  get_block_reward ndebug median_w w agc hf height = Val (Some base) ->
  in_u64 base -> 0 <= fee -> base + fee < 2 ^ 64 -> 1 <= max_outs ->
  4 <= hf \/ hf = 1 /\ Z.of_nat (length
     (decompose_amount_into_digits (base + fee) DEFAULT_DUST_THRESHOLD)) <= max_outs ->
  rct_type_of tx0 = RCTTypeNull ->
  (if HF_VERSION_EFFECTIVE_SHORT_TERM_MEDIAN_IN_PENALTY <=? hf
   then mret cumul else median last) = Val median_w ->
  exists tx,
    construct_miner_tx derive_out k ndebug height median_w agc w fee tx0 nonce max_outs hf
      = Val (Some tx) /\
    prevalidate_miner_transaction tx height hf = true /\
    validate_miner_transaction ndebug tx w fee agc hf cumul last = Val (Some (base, false)).
Proof.
  intros Hd Hex Hr Hb Hfee Hsum Hm Hhf Hrct Hmed.
  destruct (construct_miner_tx_spec derive_out k nonce ex ndebug height median_w agc w fee max_outs
              hf base tx0) as (outs & -> & Es & Hn & _ & Ht%derived_targets); [done..|].
  eexists. split; [reflexivity|]. set (tx := Build_transaction _ _ _).
  assert (money_in_use tx = base + fee) as Emoney.
  { rewrite money_in_use_fold. cbn [vout prefix tx]. rewrite fold_add_exact by (done || lia). lia. }
  split.
  - unfold prevalidate_miner_transaction. cbn -[check_outs_overflow check_output_types u64].
    change (rct_type_of tx) with (rct_type_of tx0). rewrite !Z.eqb_refl, Hrct, !andb_true_r.
    rewrite (check_output_types_uniform tx hf Ht), andb_true_r.
    rewrite (check_outs_overflow_sum tx); cbn [vout prefix tx]; [|done|lia]. rewrite andb_true_r.
    rewrite Tauto.if_same, andb_true_r.
    destruct Hhf as [?|[-> _]]; [by rewrite (proj2 (Z.leb_le 4 hf)) by lia | done].
  - unfold validate_miner_transaction. rewrite Emoney.
    rewrite (proj2 (Z.eqb_neq hf 3)) by (destruct Hhf as [?|[-> _]]; lia). cbn [andb].
    rewrite Hmed. run. cbn [get_block_height vin prefix tx]. rewrite Hr. run.
    rewrite !(u64_small (base + fee)) by (unfold_words; lia).
    rewrite Z.ltb_irrefl, Z.eqb_refl. cbn [negb]. destruct (_ || _); [done|].
    rewrite (u64_small (base + fee - fee)) by (unfold_words; lia).
    replace (base + fee - fee) with base by lia. by rewrite Z.leb_refl.
Qed.

(** ** The supply *)

(** The chain as the subsidy sees it: the height of the next block and the coins
    generated by the blocks below it. *)
Record chain_state := { cs_height : Z; cs_coins : Z }.

Definition genesis_state : chain_state := {| cs_height := 0; cs_coins := 0 |}.

(** A block enters the main chain when its coinbase passes both checks, whatever
    its version, weight, fees and outputs; the generated coins are then updated. *)
Inductive chain_step (ndebug : bool) : chain_state -> chain_state -> Prop :=
  | add_block s tx w fee version cumul last base partial :
      in_u64 w -> in_u64 fee -> in_u64 cumul -> Forall in_u64 last ->
      prevalidate_miner_transaction tx (cs_height s) version = true ->
      validate_miner_transaction ndebug tx w fee (cs_coins s) version cumul last
        = Val (Some (base, partial)) ->
      chain_step ndebug s
        {| cs_height := cs_height s + 1;
           cs_coins := next_generated_coins (cs_coins s) base |}.

Definition reachable (ndebug : bool) : chain_state -> Prop :=
  rtc (chain_step ndebug) genesis_state.

Lemma prevalidate_height (tx : transaction) (height hf : Z) :
  prevalidate_miner_transaction tx height hf = true -> get_block_height tx = height.
Proof.
  unfold prevalidate_miner_transaction, get_block_height.
  destruct (vin (prefix tx)) as [|[] []]; try done.
  rewrite !andb_true_iff, Z.eqb_eq. tauto.
Qed.

Lemma median_u64 (l : list Z) (m : Z) : Forall in_u64 l -> median l = Val m -> in_u64 m.
Proof.
  intros Hf. destruct l as [|x [|y l]].
  - intros [= <-]. unfold_words. lia.
  - intros [= <-]. by apply Forall_cons in Hf as [? _].
  - unfold median. case_match.
    + destruct (c_index _ (_ - 1)) eqn:E1; try done. destruct (c_index _ (_ / 2)) eqn:E2; try done.
      run. run. intros [= <-]. apply u64_range.
    + apply c_index_Forall. by apply sort_Z_Forall.
Qed.

(** An accepted coinbase adds at most the subsidy of its height. *)
Lemma validate_base_le (ndebug : bool) (tx : transaction) (w fee agc version cumul base : Z)
    (last : list Z) (partial : bool) :
  in_u64 w -> in_u64 fee -> in_u64 cumul -> Forall in_u64 last ->
  0 <= agc <= MONEY_SUPPLY -> 0 <= get_block_height tx ->
  validate_miner_transaction ndebug tx w fee agc version cumul last = Val (Some (base, partial)) ->
  0 <= base <= base_block_reward agc (get_block_height tx).
Proof.
  intros Hw Hfee Hcumul Hlast Hagc Hh. unfold validate_miner_transaction.
  destruct (_ && _); [done|].
  set (med := if _ <=? version then _ else _).
  destruct med as [m| | | |] eqn:Em; try done. run.
  assert (in_u64 m) as Hm.
  { unfold med in Em. case_match; [by injection Em as <-|]. by apply (median_u64 last). }
  destruct (get_block_reward _ _ _ _ _ _) as [[r|]| | | |] eqn:Er; try done. run.
  apply get_block_reward_le in Er as Hr; try done.
  destruct (_ <? money_in_use tx); [done|]. destruct (_ || _).
  - destruct (negb _); [done|]. intros [= <- _]. lia.
  - destruct (Z.leb_spec (u64 (money_in_use tx - fee)) r); [|done].
    intros [= <- _]. pose proof (u64_range (money_in_use tx - fee)). unfold_words. lia.
Qed.

(** The supply never passes the halving schedule. *)
Lemma reachable_supply (ndebug : bool) (s : chain_state) :
  reachable ndebug s -> 0 <= cs_height s /\ 0 <= cs_coins s <= scheduled_coins (cs_height s).
Proof.
  revert s. apply rtc_ind_r; [cbn; lia|]. intros s s' _ Hstep IH.
  destruct Hstep as [s tx w fee version cumul last base partial Hw Hfee Hc Hl Hp Hv].
  destruct IH as [Hh Hcoins]. apply prevalidate_height in Hp.
  pose proof (scheduled_coins_bound _ Hh) as [_ Hs].
  pose proof (era_reward_range (cs_height s / HALVING_INTERVAL)
    (Z.div_pos _ HALVING_INTERVAL Hh eq_refl)) as He.
  apply validate_base_le in Hv as Hbase; try done;
    [| unfold MONEY_SUPPLY, INITIAL_REWARD in *; lia | lia].
  rewrite Hp, base_block_reward_spec in Hbase by (unfold MONEY_SUPPLY, INITIAL_REWARD in *; lia).
  cbn. split; [lia|]. unfold next_generated_coins.
  unfold MONEY_SUPPLY, INITIAL_REWARD in *.
  rewrite !u64_small by (destruct (_ =? 0); unfold_words; lia).
  destruct (Z.eqb_spec (cs_height s) 0) as [E|E].
  - rewrite E in *. change (scheduled_coins 0) with 0 in *.
    change (scheduled_coins (0 + 1)) with 0. zcase; lia.
  - rewrite scheduled_coins_succ by lia. zcase; lia.
Qed.

(** A block that is not over the effective median and has a version in which the coinbase
    takes exactly the reward, as the versions 1 and 16 of the three networks. *)
Inductive full_step (ndebug : bool) : chain_state -> chain_state -> Prop :=
  | add_full_block s tx w fee version cumul last base partial median_w :
      in_u64 w -> in_u64 fee -> in_u64 cumul -> Forall in_u64 last ->
      version < 2 \/ HF_VERSION_EXACT_COINBASE <= version ->
      (if HF_VERSION_EFFECTIVE_SHORT_TERM_MEDIAN_IN_PENALTY <=? version
       then mret cumul else median last) = Val median_w ->
      w <= Z.max median_w (get_min_block_weight version) ->
      prevalidate_miner_transaction tx (cs_height s) version = true ->
      validate_miner_transaction ndebug tx w fee (cs_coins s) version cumul last
        = Val (Some (base, partial)) ->
      full_step ndebug s
        {| cs_height := cs_height s + 1;
           cs_coins := next_generated_coins (cs_coins s) base |}.

Lemma full_step_chain (ndebug : bool) (s s' : chain_state) : full_step ndebug s s' -> chain_step ndebug s s'.
Proof. intros [s1 tx w fee version cumul last base partial median_w]. by apply (add_block ndebug s1 tx w fee version cumul last base partial). Qed.

(** Such a block books the whole subsidy. *)
Lemma validate_full (ndebug : bool) (tx : transaction) (w fee agc version cumul base median_w : Z)
    (last : list Z) (partial : bool) :
  version < 2 \/ HF_VERSION_EXACT_COINBASE <= version ->
  (if HF_VERSION_EFFECTIVE_SHORT_TERM_MEDIAN_IN_PENALTY <=? version
   then mret cumul else median last) = Val median_w ->
  w <= Z.max median_w (get_min_block_weight version) ->
  validate_miner_transaction ndebug tx w fee agc version cumul last = Val (Some (base, partial)) ->
  base = base_block_reward agc (get_block_height tx).
Proof.
  intros Hv Hm Hw. unfold validate_miner_transaction. rewrite Hm. run. destruct (_ && _); [done|].
  unfold get_block_reward. rewrite (proj2 (Z.leb_le w _)) by (zcase; lia). run.
  destruct (_ <? money_in_use tx); [done|]. replace (_ || _) with true.
  - destruct (negb _); [done|]. by intros [= <- _].
  - symmetry. apply orb_true_iff. rewrite Z.ltb_lt, Z.leb_le. done.
Qed.

Lemma scheduled_next (s : chain_state) :
  0 <= cs_height s -> cs_coins s = scheduled_coins (cs_height s) ->
  let base := base_block_reward (cs_coins s) (cs_height s) in
  0 <= base <= INITIAL_REWARD /\ next_generated_coins (cs_coins s) base = scheduled_coins (cs_height s + 1).
Proof.
  intros Hh Hc base.
  pose proof (scheduled_coins_bound _ Hh) as [Hs0 Hs].
  pose proof (era_reward_range (cs_height s / HALVING_INTERVAL)
    (Z.div_pos _ HALVING_INTERVAL Hh eq_refl)) as He.
  assert (scheduled_coins (cs_height s + 1) = cs_coins s + base /\ 0 <= base <= INITIAL_REWARD)
    as [Enext Hb].
  { unfold base. rewrite base_block_reward_spec
      by (unfold MONEY_SUPPLY, INITIAL_REWARD in *; lia).
    destruct (Z.eqb_spec (cs_height s) 0) as [E|E].
    - rewrite Hc, E. done.
    - rewrite scheduled_coins_succ by lia. unfold MONEY_SUPPLY, INITIAL_REWARD in *. lia. }
  split; [done|]. rewrite Enext. unfold next_generated_coins, MONEY_SUPPLY, INITIAL_REWARD in *.
  rewrite !u64_small by (unfold_words; lia). zcase; lia.
Qed.

Lemma full_chain_coins (ndebug : bool) (s : chain_state) :
  rtc (full_step ndebug) genesis_state s -> 0 <= cs_height s /\ cs_coins s = scheduled_coins (cs_height s).
Proof.
  revert s. apply rtc_ind_r; [done|]. intros s s' _ Hstep [Hh Hc].
  destruct Hstep as [s tx w fee version cumul last base partial median_w _ _ _ _ Hv Hm Hw Hp Hval].
  apply prevalidate_height in Hp. apply (validate_full ndebug tx w fee _ version cumul base median_w) in Hval as ->; try done.
  rewrite Hp. cbn. split; [lia|]. by apply scheduled_next.
Qed.

(** The version of the three networks at a height. *)
Definition network_version (height : Z) : Z := if height <? 2 then 1 else 16.

(** A block of 100 bytes with the coinbase of a template is such a block. *)
Lemma full_block_step (s : chain_state) :
  0 <= cs_height s -> cs_coins s = scheduled_coins (cs_height s) ->
  full_step true s {| cs_height := cs_height s + 1;
                      cs_coins := scheduled_coins (cs_height s + 1) |}.
Proof.
  intros Hh Hc. destruct (scheduled_next s Hh Hc) as [Hb <-].
  set (base := base_block_reward (cs_coins s) (cs_height s)) in *. set (v := network_version (cs_height s)).
  assert (v = 1 /\ 0 <= cs_height s <= 1 \/ v = 16) as Hv by (unfold v, network_version; zcase; lia).
  assert (get_block_reward true 0 100 (cs_coins s) v (cs_height s) = Val (Some base)) as Er.
  { unfold get_block_reward. pose proof (get_min_block_weight_range v). by rewrite (proj2 (Z.leb_le 100 _)) by (zcase; lia). }
  assert (4 <= v \/ v = 1 /\ Z.of_nat (length (decompose_amount_into_digits (base + 0) DEFAULT_DUST_THRESHOLD)) <= 999) as Hd.
  { destruct Hv as [[Hv H1]|Hv]; [right|lia]. split; [done|].
    assert (cs_height s = 0 \/ cs_height s = 1) as [E|E] by lia; unfold base; rewrite Hc, E; vm_compute; discriminate. }
  destruct (template_validates (fun _ => Some (replicate 32 7, [7])) (replicate 32 0) [] (1 :: replicate 32 0) true (cs_height s) 0
    (cs_coins s) 100 0 999 v base 0 [] null_transaction) as (tx & _ & Hp & Hval);
    try (done || (unfold INITIAL_REWARD in *; unfold_words; lia)).
  { by destruct Hv as [[-> _]| ->]. }
  apply (add_full_block true s tx 100 0 v 0 [] base false 0); try (done || (unfold_words; lia)).
  - destruct Hv as [[-> _]| ->]; [left; lia|by right].
  - by destruct Hv as [[-> _]| ->].
  - pose proof (get_min_block_weight_range v). lia.
Qed.

(** The full schedule is reached at every height. *)
Lemma full_chain (n : nat) :
  rtc (full_step true) genesis_state {| cs_height := Z.of_nat n; cs_coins := scheduled_coins (Z.of_nat n) |}.
Proof.
  induction n as [|n IH]; [by apply rtc_refl|].
  eapply rtc_r; [exact IH|]. rewrite Nat2Z.inj_succ.
  apply (full_block_step {| cs_height := Z.of_nat n; cs_coins := scheduled_coins (Z.of_nat n) |});
    cbn; lia.
Qed.

Lemma full_chain_reachable (n : nat) :
  reachable true {| cs_height := Z.of_nat n; cs_coins := scheduled_coins (Z.of_nat n) |}.
Proof. eapply (rtc_subrel (full_step true)); [intros ? ?; apply full_step_chain|apply full_chain]. Qed.

(** Outputs that pass [check_outs_overflow] are summed exactly. *)
Lemma prevalidate_money (tx : transaction) (height hf : Z) :
  Forall (fun o => in_u64 (amount o)) (vout (prefix tx)) ->
  prevalidate_miner_transaction tx height hf = true ->
  money_in_use tx = sumZ (map amount (vout (prefix tx))).
Proof.
  intros Hf Hp. rewrite money_in_use_fold.
  apply fold_add_exact; [lia | by apply Forall_u64_nonneg, Forall_map |].
  apply check_outs_overflow_from_spec; [unfold_words; lia | done |].
  revert Hp. unfold prevalidate_miner_transaction.
  destruct (vin (prefix tx)) as [|[] []]; try done. rewrite !andb_true_iff. tauto.
Qed.

(** The money in use is the booked base reward plus the fees. *)
Lemma validate_money (ndebug : bool) (tx : transaction) (w fee agc version cumul base : Z)
    (last : list Z) (partial : bool) :
  in_u64 w -> 0 <= fee -> in_u64 cumul -> Forall in_u64 last ->
  0 <= agc <= MONEY_SUPPLY -> 0 <= get_block_height tx -> INITIAL_REWARD + fee < 2 ^ 64 ->
  validate_miner_transaction ndebug tx w fee agc version cumul last = Val (Some (base, partial)) ->
  money_in_use tx = base + fee.
Proof.
  intros Hw Hfee Hcumul Hlast Hagc Hh Hroom. unfold validate_miner_transaction.
  assert (in_u64 (money_in_use tx)) as Hmoney by apply money_in_use_u64.
  pose proof (base_block_reward_range _ _ Hagc Hh) as Hbb. unfold INITIAL_REWARD in *.
  destruct (_ && _); [done|].
  set (med := if _ <=? version then _ else _).
  destruct med as [m| | | |] eqn:Em; try done. run.
  assert (in_u64 m) as Hm.
  { unfold med in Em. case_match; [by injection Em as <-|]. by apply (median_u64 last). }
  destruct (get_block_reward _ _ _ _ _ _) as [[r|]| | | |] eqn:Er; try done. run.
  apply get_block_reward_le in Er as Hr; try done.
  rewrite (u64_small (r + fee)) by (unfold_words; lia).
  destruct (Z.ltb_spec (r + fee) (money_in_use tx)); [done|]. destruct (_ || _).
  - destruct (Z.eqb_spec (r + fee) (money_in_use tx)); [|done]. intros [= <- _]. lia.
  - destruct (Z.leb_spec (u64 (money_in_use tx - fee)) r) as [Hle|]; [|done].
    intros [= <- _]. destruct (decide (money_in_use tx < fee)) as [Hlt|Hge].
    + rewrite u64_sub_wrap in Hle by (done || unfold_words; lia). unfold_words. lia.
    + rewrite u64_small by (unfold_words; lia). lia.
Qed.

(** ** Properties *)

(** C1. Supply cap: on every chain of accepted blocks, whatever their versions,
    weights, fees and outputs, the generated coins never exceed what the halving
    schedule has released at that height, and never exceed 99,999,899.945 LODE. *)
Theorem supply_cap (ndebug : bool) (s : chain_state) (Hr : reachable ndebug s) :
  0 <= cs_coins s <= scheduled_coins (cs_height s) /\
  cs_coins s <= FINAL_SUPPLY < MONEY_SUPPLY.
Proof.
  destruct (reachable_supply ndebug s Hr) as [Hh Hc].
  pose proof (scheduled_coins_le_final _ Hh).
  split; [lia|]. split; [lia|done].
Qed.

Lemma supply_cap_witness :
  reachable true {| cs_height := 3; cs_coins := scheduled_coins 3 |} /\
  scheduled_coins 3 <= FINAL_SUPPLY.
Proof.
  split; [exact (full_chain_reachable 3)|].
  exact (proj1 (proj2 (supply_cap true _ (full_chain_reachable 3)))).
Defined.

(** C37. Final supply: a chain of accepted blocks that never went over the median, with
    versions below 2 or from 13 on, as the networks have them, has generated exactly what
    the halving schedule gives for its height, and from height 17,000,000 on that is
    99,999,899.945 LODE for good: the 100,000,000 LODE of [MONEY_SUPPLY], and of
    docs/tokenomics.md, are never emitted. *)
Theorem final_supply (ndebug : bool) (s : chain_state) :
  rtc (full_step ndebug) genesis_state s ->
  cs_coins s = scheduled_coins (cs_height s) /\
  (17000000 <= cs_height s -> cs_coins s = 9999989994500000).
Proof.
  intros Hs. apply full_chain_coins in Hs as [_ Hc]. split; [done|]. rewrite Hc. apply scheduled_coins_final.
Qed.

Lemma final_supply_witness :
  rtc (full_step true) genesis_state {| cs_height := 17000000; cs_coins := scheduled_coins 17000000 |} /\
  scheduled_coins 17000000 = 9999989994500000.
Proof.
  pose proof (full_chain (Z.to_nat 17000000)) as H. rewrite Z2Nat.id in H by lia. split; [exact H|].
  apply (proj2 (final_supply true _ H)). cbn. lia.
Defined.

(** C3. No inflation by the coinbase: when a block's coinbase passes both checks, the
    true sum of its outputs, without wrap-around, is the base reward the chain books
    plus the fees, and that base reward is at most the subsidy of the height. *)
Theorem coinbase_claims_no_more (ndebug : bool) (tx : transaction)
    (height w fee agc version cumul base : Z) (last : list Z) (partial : bool)
    (Hw : in_u64 w) (Hfee : 0 <= fee) (Hcumul : in_u64 cumul) (Hlast : Forall in_u64 last)
    (Hagc : 0 <= agc <= MONEY_SUPPLY) (Hheight : 0 <= height)
    (Houts : Forall (fun o => in_u64 (amount o)) (vout (prefix tx)))
    (Hroom : INITIAL_REWARD + fee < 2 ^ 64)
    (Hpre : prevalidate_miner_transaction tx height version = true)
    (Hval : validate_miner_transaction ndebug tx w fee agc version cumul last
            = Val (Some (base, partial))) :
  sumZ (map amount (vout (prefix tx))) = base + fee /\ 0 <= base <= base_block_reward agc height.
Proof.
  pose proof (prevalidate_height _ _ _ Hpre) as Eh. subst height.
  assert (in_u64 fee) as Hf64 by (unfold INITIAL_REWARD in *; unfold_words; lia).
  pose proof (validate_base_le _ _ _ _ _ _ _ _ _ _ Hw Hf64 Hcumul Hlast Hagc Hheight Hval) as Hb.
  split; [|done].
  pose proof (base_block_reward_range _ _ Hagc Hheight).
  rewrite <- (prevalidate_money _ _ _ Houts Hpre).
  apply (validate_money ndebug tx w fee agc version cumul base last partial);
    try done; unfold INITIAL_REWARD in *; lia.
Qed.

Lemma coinbase_claims_no_more_witness :
  let tx := {| prefix := {| version := 2; unlock_time := 67; vin := [txin_gen 7];
                            vout := [{| amount := 10000000005; target := to_tagged_key (replicate 32 1) [2] |}];
                            extra := [] |};
               signatures := []; rct_signatures := null_rct |} in
  sumZ (map amount (vout (prefix tx))) = 10000000000 + 5 /\
  0 <= 10000000000 <= base_block_reward 60000000000 7.
Proof.
  intros tx.
  assert (Forall in_u64 []) as Hl by constructor.
  assert (Forall (fun o => in_u64 (amount o)) (vout (prefix tx))) as Ho.
  { constructor; [split; vm_compute; discriminate || reflexivity | constructor]. }
  refine (coinbase_claims_no_more true tx 7 1000 5 60000000000 16 300000 10000000000 [] false
    _ _ _ Hl _ _ Ho _ _ _); [unfold MONEY_SUPPLY, INITIAL_REWARD; unfold_words; lia.. | | ].
  all: vm_compute; reflexivity.
Defined.

(** Splitting an amount into digits loses nothing: the handed-out parts add up to
    the amount for every dust threshold, and without a threshold each part is one
    digit times a power of ten, which [is_valid_decomposed_amount] accepts. *)
Theorem decomposition_complete (amount dust_threshold : Z)
    (Hamount : in_u64 amount) (Hdust : 0 <= dust_threshold) :
  sumZ (decompose_amount_into_digits amount dust_threshold) = amount /\
  forallb is_valid_decomposed_amount (decompose_amount_into_digits amount 0) = true.
Proof.
  split; [by apply decompose_sum|]. apply forallb_forall. intros x Hx.
  apply digit_amount_valid. pose proof (decompose_digits amount Hamount) as Hd.
  rewrite Forall_forall in Hd. by apply Hd, list_elem_of_In.
Qed.

Lemma decomposition_complete_witness :
  decompose_amount_into_digits 17000450 100 = [50; 400; 7000000; 10000000] /\
  sumZ (decompose_amount_into_digits 17000450 100) = 17000450.
Proof.
  split; [vm_compute; reflexivity|].
  apply (decomposition_complete 17000450 100); unfold_words; lia.
Defined.
