(* ===== verification/Difficulty.v ===== *)
(** * Proof of work and difficulty adjustment

    [src/cryptonote_basic/difficulty.cpp]: the check of a proof-of-work hash against
    a difficulty and the computation of the next difficulty from the timestamps and
    cumulative difficulties of the window, in their 64-bit and 128-bit versions. *)

From S2P Require Import Prelude IntUtil.
Local Open Scope word_scope.

(** ** Definitions *)

Definition DIFFICULTY_WINDOW : Z := 720.
Definition DIFFICULTY_CUT : Z := 60.

Definition cadd (a b : Z) : bool := a ⊞ b <? a.

Definition cadc (a b : Z) (c : bool) : bool :=
  (a ⊞ b <? a) || (c && (a ⊞ b =? 2 ^ 64 - 1)).

(** The number a little-endian byte string encodes. *)
Fixpoint le_bytes (bytes : list Z) : Z :=
  match bytes with
  | [] => 0
  | b :: bytes => b + 2 ^ 8 * le_bytes bytes
  end.

(** [swap64le(((const uint64_t * ) &hash)[i])]: the [i]th little-endian word of a
    32-byte hash. *)
Definition hash_word (hash : list Z) (i : nat) : Z := le_bytes (take 8 (drop (8 * i) hash)).

Section check_hash.
(** The build: with or without assertions, and with [mul128] (x86_64) or the portable
    multiplication. *)
Context (ndebug x86_64 : bool).

Definition mul (a b : Z) : outcome (Z * Z) :=
  if x86_64 then mul128 ndebug a b else mret (mul_portable a b).

Definition check_hash_64 (hash : list Z) (difficulty : Z) : outcome bool :=
  '(top, high) ← mul (hash_word hash 3) difficulty;
  if negb (high =? 0) then mret false
  else
    '(low, cur) ← mul (hash_word hash 0) difficulty;
    '(low, high) ← mul (hash_word hash 1) difficulty;
    let carry := cadd cur low in
    let cur := high in
    '(low, high) ← mul (hash_word hash 2) difficulty;
    let carry := cadc cur low carry in
    let carry := cadc high top carry in
    mret (negb carry).

(** The loop of [check_hash_128] over the words, from the highest. *)
Fixpoint hash_val (words : list Z) (hashVal : Z) : Z :=
  match words with
  | [] => hashVal
  | w :: words => hash_val words (Z.lor (Z.shiftl hashVal 64 mod 2 ^ 512) w)
  end.

Definition check_hash_128 (hash : list Z) (difficulty : Z) : bool :=
  let hashVal := hash_val
    [hash_word hash 3; hash_word hash 2; hash_word hash 1; hash_word hash 0] 0 in
  (hashVal * difficulty) mod 2 ^ 512 <=? 2 ^ 256 - 1.

Definition check_hash (hash : list Z) (difficulty : Z) : outcome bool :=
  if difficulty <=? 2 ^ 64 - 1 then check_hash_64 hash difficulty
  else mret (check_hash_128 hash difficulty).

(** The bounds of the window after the cut. *)
Definition cut_bounds (length : Z) : Z * Z :=
  if length <=? DIFFICULTY_WINDOW - 2 * DIFFICULTY_CUT then (0, length)
  else
    let cut_begin := (length - (DIFFICULTY_WINDOW - 2 * DIFFICULTY_CUT) + 1) / 2 in
    (cut_begin, cut_begin + (DIFFICULTY_WINDOW - 2 * DIFFICULTY_CUT)).

Definition next_difficulty_64 (timestamps cumulative_difficulties : list Z)
    (target_seconds : Z) : outcome Z :=
  let '(timestamps, cumulative_difficulties) :=
    if DIFFICULTY_WINDOW <? Z.of_nat (length timestamps)
    then (resize (Z.to_nat DIFFICULTY_WINDOW) 0 timestamps,
          resize (Z.to_nat DIFFICULTY_WINDOW) 0 cumulative_difficulties)
    else (timestamps, cumulative_difficulties) in
  let len := Z.of_nat (length timestamps) in
  _ ← c_assert ndebug (len =? Z.of_nat (length cumulative_difficulties));
  if len <=? 1 then mret 1
  else
    _ ← c_assert ndebug (len <=? DIFFICULTY_WINDOW);
    let timestamps := sort_Z timestamps in
    let '(cut_begin, cut_end) := cut_bounds len in
    _ ← c_assert ndebug ((cut_begin + 2 <=? cut_end) && (cut_end <=? len));
    t1 ← c_index timestamps (cut_end - 1);
    t0 ← c_index timestamps cut_begin;
    let time_span := t1 ⊟ t0 in
    let time_span := if time_span =? 0 then 1 else time_span in
    d1 ← c_index cumulative_difficulties (cut_end - 1);
    d0 ← c_index cumulative_difficulties cut_begin;
    let total_work := d1 ⊟ d0 in
    _ ← c_assert ndebug (0 <? total_work);
    '(low, high) ← mul total_work target_seconds;
    if negb (high =? 0) || (low ⊞ time_span ⊟ 1 <? low) then mret 0
    else mret ((low ⊞ time_span ⊟ 1) / time_span).

Definition next_difficulty (timestamps cumulative_difficulties : list Z)
    (target_seconds : Z) : outcome Z :=
  let '(timestamps, cumulative_difficulties) :=
    if DIFFICULTY_WINDOW <? Z.of_nat (length timestamps)
    then (resize (Z.to_nat DIFFICULTY_WINDOW) 0 timestamps,
          resize (Z.to_nat DIFFICULTY_WINDOW) 0 cumulative_difficulties)
    else (timestamps, cumulative_difficulties) in
  let len := Z.of_nat (length timestamps) in
  _ ← c_assert ndebug (len =? Z.of_nat (length cumulative_difficulties));
  if len <=? 1 then mret 1
  else
    _ ← c_assert ndebug (len <=? DIFFICULTY_WINDOW);
    let timestamps := sort_Z timestamps in
    let '(cut_begin, cut_end) := cut_bounds len in
    _ ← c_assert ndebug ((cut_begin + 2 <=? cut_end) && (cut_end <=? len));
    t1 ← c_index timestamps (cut_end - 1);
    t0 ← c_index timestamps cut_begin;
    let time_span := t1 ⊟ t0 in
    let time_span := if time_span =? 0 then 1 else time_span in
    d1 ← c_index cumulative_difficulties (cut_end - 1);
    d0 ← c_index cumulative_difficulties cut_begin;
    let total_work := u128 (d1 - d0) in
    _ ← c_assert ndebug (0 <? total_work);
    let res := (total_work * target_seconds + time_span - 1) mod 2 ^ 256 / time_span in
    if 2 ^ 128 - 1 <? res then mret 0 else mret res.
End check_hash.

(** [hex]: the digits of [v] in base 16 after ["0x"], most significant first, as
    character codes; [fuel] bounds the number of digits. *)
Definition hex_char (d : Z) : Z := if d <? 10 then 48 + d else 87 + d.

Fixpoint hex_loop (fuel : nat) (v : Z) (s : list Z) : outcome (list Z) :=
  if 0 <? v then
    match fuel with
    | O => Diverge
    | S fuel => hex_loop fuel (Z.shiftr v 4) (hex_char (Z.land v 0xf) :: s)
    end
  else Val s.

Definition hex (v : Z) : outcome (list Z) :=
  s ← hex_loop 32 v [];
  Val ([48; 120] ++ match s with [] => [48] | _ => s end).

Lemma hex_loop_spec (fuel : nat) (v : Z) (ds : list Z) :
  0 <= v < 16 ^ Z.of_nat fuel ->
  exists ds', hex_loop fuel v (map hex_char ds) = Val (map hex_char (ds' ++ ds)) /\
    Forall (is_digit 16) ds' /\ of_digits 16 ds' = v.
Proof.
  revert v ds. induction fuel as [|fuel IH]; intros v ds Hv; cbn [hex_loop].
  { exists []. rewrite (proj2 (Z.ltb_ge _ _)) by (cbn in Hv; lia). cbn in *. split_and!; [done|constructor|lia]. }
  destruct (Z.ltb_spec 0 v) as [Hpos|]; [|exists []; split_and!; [done|constructor|cbn; lia]].
  rewrite Nat2Z.inj_succ, Z.pow_succ_r in Hv by lia. change 0xf with (2 ^ 4 - 1).
  rewrite land_ones_mod, Z.shiftr_div_pow2 by lia. change (2 ^ 4) with 16.
  destruct (IH (v / 16) (v mod 16 :: ds)) as (ds' & E & Hds & Hof).
  { split; [apply Z.div_pos; lia | apply Z.div_lt_upper_bound; lia]. }
  exists (ds' ++ [v mod 16]). rewrite <- app_assoc. split_and!; [exact E| |].
  - apply Forall_app. split; [done|]. constructor; [apply Z.mod_pos_bound; lia|constructor].
  - rewrite of_digits_snoc, Hof. pose proof (Z.div_mod v 16 ltac:(lia)). lia.
Qed.

(** [hex] returns the value's digits for every difficulty, and "0x0" for zero. *)
Lemma hex_spec (v : Z) :
  in_u128 v -> exists ds, hex v = Val ([48; 120] ++ map hex_char ds) /\
    Forall (is_digit 16) ds /\ ds <> [] /\ of_digits 16 ds = v.
Proof.
  intros Hv. destruct (hex_loop_spec 32 v []) as (ds & E & Hds & Hof); [exact Hv|].
  unfold hex. cbn [map] in E. rewrite E, app_nil_r, bind_val. destruct ds as [|d ds]; [|by exists (d :: ds)].
  exists [0]. split_and!; [done| |done|done]. constructor; [unfold is_digit; lia|constructor].
Qed.

(** ** The proof-of-work check *)

Lemma mul_spec (ndebug x86_64 : bool) (a b : Z) :
  in_u64 a -> in_u64 b ->
  mul ndebug x86_64 a b = Val ((a * b) mod 2 ^ 64, a * b / 2 ^ 64).
Proof.
  intros Ha Hb. unfold mul. destruct x86_64; [by apply mul128_spec|].
  by rewrite mul_portable_spec.
Qed.

Lemma le_bytes_app (l k : list Z) :
  le_bytes (l ++ k) = le_bytes l + 2 ^ (8 * Z.of_nat (length l)) * le_bytes k.
Proof.
  induction l as [|b l IH]; cbn [le_bytes app length].
  - change (2 ^ (8 * Z.of_nat 0)) with 1. lia.
  - rewrite IH, Nat2Z.inj_succ, Z.mul_succ_r, Z.pow_add_r by lia. lia.
Qed.

Lemma le_bytes_range (l : list Z) :
  Forall in_u8 l -> 0 <= le_bytes l < 2 ^ (8 * Z.of_nat (length l)).
Proof.
  induction 1 as [|b l Hb Hl IH]; [done|]. cbn [le_bytes length].
  rewrite Nat2Z.inj_succ, Z.mul_succ_r, Z.pow_add_r by lia. unfold_words. lia.
Qed.

Lemma hash_word_range (hash : list Z) (i : nat) : Forall in_u8 hash -> in_u64 (hash_word hash i).
Proof.
  intros Hf. unfold hash_word.
  pose proof (le_bytes_range (take 8 (drop (8 * i) hash))) as H.
  destruct H as [H1 H2]; [by apply Forall_take, Forall_drop|].
  split; [done|]. eapply Z.lt_le_trans; [exact H2|].
  apply Z.pow_le_mono_r; [lia|]. rewrite length_take. lia.
Qed.

(** A 32-byte hash is the number its four words make. *)
Lemma le_bytes_words (hash : list Z) :
  length hash = 32%nat ->
  le_bytes hash = hash_word hash 0 + 2 ^ 64 * hash_word hash 1
                  + 2 ^ 128 * hash_word hash 2 + 2 ^ 192 * hash_word hash 3.
Proof.
  intros Hl. unfold hash_word.
  rewrite <- (take_drop 8 hash) at 1.
  rewrite <- (take_drop 8 (drop 8 hash)) at 1.
  rewrite <- (take_drop 8 (drop 8 (drop 8 hash))) at 1.
  rewrite !drop_drop, !le_bytes_app, !length_take, !length_drop, Hl.
  rewrite (take_ge (drop (8 * 3) hash)) by (rewrite length_drop; lia).
  change (8 + (8 + 8))%nat with (8 * 3)%nat. change (8 + 8)%nat with (8 * 2)%nat.
  change (8 * 1)%nat with 8%nat. rewrite drop_0.
  change (2 ^ (8 * Z.of_nat (8 `min` 32))) with (2 ^ 64).
  change (2 ^ (8 * Z.of_nat (8 `min` (32 - 8)))) with (2 ^ 64).
  change (2 ^ (8 * Z.of_nat (8 `min` (32 - 8 * 2)))) with (2 ^ 64).
  change (8 * 2 + 8)%nat with (8 * 3)%nat. lia.
Qed.

Lemma cadd_spec (a b : Z) : in_u64 a -> in_u64 b -> cadd a b = (2 ^ 64 <=? a + b).
Proof.
  intros Ha Hb. unfold cadd. destruct (decide (a + b < 2 ^ 64)).
  - rewrite u64_small by (unfold_words; lia). zcase; zcase; unfold_words; lia.
  - rewrite u64_add_wrap by (done || lia). zcase; zcase; unfold_words; lia.
Qed.

Lemma cadc_spec (a b : Z) (c : bool) :
  in_u64 a -> in_u64 b -> cadc a b c = (2 ^ 64 <=? a + b + Z.b2z c).
Proof.
  intros Ha Hb. unfold cadc. fold (cadd a b). rewrite cadd_spec by done.
  destruct (decide (a + b < 2 ^ 64)).
  - rewrite u64_small by (unfold_words; lia).
    rewrite (proj2 (Z.leb_gt (2 ^ 64) (a + b))) by lia. destruct c; cbn [Z.b2z orb andb].
    + zcase; zcase; lia.
    + zcase; lia.
  - rewrite (proj2 (Z.leb_le (2 ^ 64) (a + b))) by lia. cbn [orb]. symmetry. apply Z.leb_le.
    destruct c; cbn; lia.
Qed.

Lemma b2z_leb (a b : Z) :
  (a <= b /\ Z.b2z (a <=? b) = 1) \/ (b < a /\ Z.b2z (a <=? b) = 0).
Proof. destruct (Z.leb_spec a b); cbn; auto. Qed.

(** The carry chain of [check_hash_64]: the low and high halves of the four partial
    products add up without a carry out of the top exactly when the whole product
    fits in four words. *)
Lemma carry_chain (l0 l1 l2 l3 h0 h1 h2 h3 : Z) :
  in_u64 l0 -> in_u64 l1 -> in_u64 l2 -> in_u64 l3 ->
  in_u64 h0 -> in_u64 h1 -> in_u64 h2 -> in_u64 h3 ->
  let p := l0 + 2 ^ 64 * (h0 + l1) + 2 ^ 128 * (h1 + l2) + 2 ^ 192 * (h2 + l3) + 2 ^ 256 * h3 in
  (if negb (h3 =? 0) then false
   else negb (cadc h2 l3 (cadc h1 l2 (cadd h0 l1)))) = (p <? 2 ^ 256).
Proof.
  intros. destruct (Z.eqb_spec h3 0) as [->|Hn]; cbn [negb].
  - rewrite cadd_spec, !cadc_spec by done.
    destruct (b2z_leb (2 ^ 64) (h0 + l1)) as [[? E1]|[? E1]]; rewrite E1;
    destruct (b2z_leb (2 ^ 64) (h1 + l2 + 1)) as [[? E2]|[? E2]];
    destruct (b2z_leb (2 ^ 64) (h1 + l2 + 0)) as [[? E3]|[? E3]];
    rewrite ?E2, ?E3; rewrite <- Z.ltb_antisym; unfold p; unfold_words; zcase; zcase; lia.
  - symmetry. apply Z.ltb_ge. unfold p. unfold_words. lia.
Qed.

Lemma check_hash_64_spec (ndebug x86_64 : bool) (hash : list Z) (d : Z) :
  length hash = 32%nat -> Forall in_u8 hash -> in_u64 d ->
  check_hash_64 ndebug x86_64 hash d = Val (le_bytes hash * d <? 2 ^ 256).
Proof.
  intros Hl Hf Hd. unfold check_hash_64.
  pose proof (fun i => hash_word_range hash i Hf) as Hw.
  pose proof (fun i => Z.div_mod (hash_word hash i * d) (2 ^ 64)) as Hdm.
  pose proof (fun i => u64_product_hi _ _ (Hw i) Hd) as Hhi.
  pose proof (fun i => u64_range (hash_word hash i * d)) as Hlo. unfold u64 in Hlo.
  rewrite !mul_spec by done.
  pose proof (carry_chain _ _ _ _ _ _ _ _ (Hlo 0%nat) (Hlo 1%nat) (Hlo 2%nat) (Hlo 3%nat)
    (Hhi 0%nat) (Hhi 1%nat) (Hhi 2%nat) (Hhi 3%nat)) as E. cbn zeta in E.
  rewrite (le_bytes_words hash Hl).
  replace ((_ + _ + _ + _) * d) with
    ((hash_word hash 0 * d) mod 2 ^ 64
     + 2 ^ 64 * (hash_word hash 0 * d / 2 ^ 64 + (hash_word hash 1 * d) mod 2 ^ 64)
     + 2 ^ 128 * (hash_word hash 1 * d / 2 ^ 64 + (hash_word hash 2 * d) mod 2 ^ 64)
     + 2 ^ 192 * (hash_word hash 2 * d / 2 ^ 64 + (hash_word hash 3 * d) mod 2 ^ 64)
     + 2 ^ 256 * (hash_word hash 3 * d / 2 ^ 64)).
  - rewrite <- E. run. destruct (negb _); [done|]. run. run. run. done.
  - pose proof (Hdm 0%nat). pose proof (Hdm 1%nat). pose proof (Hdm 2%nat).
    pose proof (Hdm 3%nat). lia.
Qed.

Lemma check_hash_128_spec (hash : list Z) (d : Z) :
  length hash = 32%nat -> Forall in_u8 hash -> in_u128 d ->
  check_hash_128 hash d = (le_bytes hash * d <? 2 ^ 256).
Proof.
  intros Hl Hf Hd. unfold check_hash_128. cbn [hash_val].
  pose proof (hash_word_range hash 0 Hf) as H0. pose proof (hash_word_range hash 1 Hf) as H1.
  pose proof (hash_word_range hash 2 Hf) as H2. pose proof (hash_word_range hash 3 Hf) as H3.
  unfold in_u64 in *.
  rewrite !Z.shiftl_0_l, Z.mod_0_l, Z.lor_0_l by lia.
  assert (forall v w n, 0 <= v < 2 ^ n -> 0 <= w < 2 ^ 64 -> 0 <= n <= 448 ->
    Z.lor (Z.shiftl v 64 mod 2 ^ 512) w = v * 2 ^ 64 + w) as K.
  { intros v w n Hv Hw Hn. assert (2 ^ n <= 2 ^ 448) by (apply Z.pow_le_mono_r; lia).
    rewrite Z.mod_small by (rewrite Z.shiftl_mul_pow2 by lia; lia).
    by apply lor_shiftl_add. }
  rewrite (K (hash_word hash 3) _ 64), (K _ (hash_word hash 1) 128), (K _ _ 192) by lia.
  rewrite (le_bytes_words hash Hl).
  replace (hash_word hash 0 + _ + _ + _) with
    (((hash_word hash 3 * 2 ^ 64 + hash_word hash 2) * 2 ^ 64 + hash_word hash 1) * 2 ^ 64
     + hash_word hash 0) by lia.
  set (v := _ + hash_word hash 0). assert (0 <= v < 2 ^ 256) as Hv by (unfold v; lia).
  assert (0 <= v * d < 2 ^ 512).
  { split; [unfold_words; nia|]. change (2 ^ 512) with (2 ^ 256 * 2 ^ 256).
    apply Z.mul_lt_mono_nonneg; unfold_words; lia. }
  rewrite Z.mod_small by done. zcase; zcase; lia.
Qed.

(** ** The next difficulty *)

(** The window: the oldest 720 entries. *)
Definition window (l : list Z) : list Z := take 720 l.

(** The 600 entries in the middle of a window that has more; when their number is uneven the front loses one more. *)
Definition middle (w : list Z) : list Z :=
  if (length w <=? 600)%nat then w else take 600 (drop ((length w - 600 + 1) / 2) w).

(** From the first entry to the last one. *)
Definition spread (w : list Z) : Z := w !!! (length w - 1)%nat - w !!! 0%nat.

(** The seconds between the outermost timestamps that are left, at least one. *)
Definition window_span (timestamps : list Z) : Z := Z.max 1 (spread (middle (sort_Z (window timestamps)))).

(** The work done between the same positions. *)
Definition window_work (cumulative_difficulties : list Z) : Z := spread (middle (window cumulative_difficulties)).

(** What the chain passes to the adjustment: one cumulative difficulty per
    timestamp, strictly increasing since every block has work. *)
Record good_window (timestamps cumulative_difficulties : list Z) : Prop := {
  gw_length : length timestamps = length cumulative_difficulties;
  gw_two : (2 <= length timestamps)%nat;
  gw_timestamps : Forall in_u64 timestamps;
  gw_difficulties : Forall in_u128 cumulative_difficulties;
  gw_increasing : StronglySorted Z.lt cumulative_difficulties
}.

Lemma cut_bounds_ok (len b e : Z) :
  2 <= len <= DIFFICULTY_WINDOW -> cut_bounds len = (b, e) -> 0 <= b /\ b + 2 <= e /\ e <= len.
Proof.
  unfold cut_bounds, DIFFICULTY_WINDOW, DIFFICULTY_CUT. intros Hl.
  destruct (Z.leb_spec len (720 - 2 * 60)); intros [= <- <-]; [lia|].
  pose proof (Z.div_mod (len - (720 - 2 * 60) + 1) 2).
  pose proof (Z.mod_pos_bound (len - (720 - 2 * 60) + 1) 2). lia.
Qed.

(** The bounds of the code leave the middle. *)
Lemma spread_middle (w : list Z) (b e : Z) :
  2 <= Z.of_nat (length w) -> cut_bounds (Z.of_nat (length w)) = (b, e) ->
  spread (middle w) = w !!! Z.to_nat (e - 1) - w !!! Z.to_nat b.
Proof.
  unfold cut_bounds, DIFFICULTY_WINDOW, DIFFICULTY_CUT, spread, middle. intros Hl.
  destruct (Nat.leb_spec (length w) 600), (Z.leb_spec (Z.of_nat (length w)) (720 - 2 * 60)); try lia; intros [= <- <-].
  - f_equal; f_equal; lia.
  - set (k := ((length w - 600 + 1) / 2)%nat).
    assert ((Z.of_nat (length w) - (720 - 2 * 60) + 1) / 2 = Z.of_nat k) as ->.
    { unfold k. rewrite Nat2Z.inj_div. f_equal. lia. }
    assert (k + 600 <= length w)%nat by (unfold k; pose proof (Nat.div_mod (length w - 600 + 1) 2); lia).
    assert (length (take 600 (drop k w)) = 600)%nat as -> by (rewrite length_take, length_drop; lia).
    rewrite !lookup_total_take_lt, !lookup_total_drop by lia. f_equal; f_equal; lia.
Qed.

Lemma window_length (l : list Z) :
  Z.of_nat (length (window l)) = Z.min DIFFICULTY_WINDOW (Z.of_nat (length l)).
Proof. unfold window, DIFFICULTY_WINDOW. rewrite length_take. lia. Qed.

Lemma resize_window (ts cd : list Z) :
  length ts = length cd ->
  (if DIFFICULTY_WINDOW <? Z.of_nat (length ts)
   then (resize (Z.to_nat DIFFICULTY_WINDOW) 0 ts, resize (Z.to_nat DIFFICULTY_WINDOW) 0 cd)
   else (ts, cd)) = (window ts, window cd).
Proof.
  intros Hl. unfold window, DIFFICULTY_WINDOW. zcase.
  - by rewrite !resize_le by lia.
  - by rewrite !take_ge by lia.
Qed.

Lemma StronglySorted_take {A} (R : relation A) (n : nat) (l : list A) :
  StronglySorted R l -> StronglySorted R (take n l).
Proof.
  intros Hs. revert n. induction Hs as [|x l Hs IH Hx]; intros [|n]; cbn; constructor; auto.
  by apply Forall_take.
Qed.

(** The values the window provides and their ranges. *)
Lemma window_values (ts cd : list Z) (b e : Z) :
  good_window ts cd -> cut_bounds (Z.of_nat (length (window ts))) = (b, e) ->
  let tw := sort_Z (window ts) in let dw := window cd in
  exists t0 t1 d0 d1,
    b + 2 <= e /\ e <= Z.of_nat (length (window ts)) /\
    c_index tw b = Val t0 /\ c_index tw (e - 1) = Val t1 /\
    c_index dw b = Val d0 /\ c_index dw (e - 1) = Val d1 /\
    0 <= t0 <= t1 /\ t1 < 2 ^ 64 /\ 0 <= d0 < d1 /\ d1 < 2 ^ 128 /\
    window_span ts = Z.max 1 (t1 - t0) /\ window_work cd = d1 - d0.
Proof.
  intros G E tw dw. pose proof (gw_length _ _ G). pose proof (gw_two _ _ G).
  pose proof (window_length ts) as Hwt. pose proof (window_length cd) as Hwd.
  assert (length tw = length (window ts)) as Htw by apply sort_Z_length.
  assert (length dw = length (window ts)) as Hdw by (unfold dw; lia).
  destruct (cut_bounds_ok (Z.of_nat (length (window ts))) b e) as (Hb & Hbe & He);
    [unfold DIFFICULTY_WINDOW in *; lia | done |].
  exists (tw !!! Z.to_nat b), (tw !!! Z.to_nat (e - 1)), (dw !!! Z.to_nat b), (dw !!! Z.to_nat (e - 1)).
  split; [done|]. split; [done|].
  rewrite !c_index_total by lia. do 4 (split; [done|]).
  assert (Forall in_u64 tw) as Ft by (apply sort_Z_Forall, Forall_take, G).
  assert (Forall in_u128 dw) as Fd by (apply Forall_take, G).
  assert (forall i, 0 <= i < Z.of_nat (length tw) -> tw !! Z.to_nat i = Some (tw !!! Z.to_nat i)) as Lt
    by (intros; apply list_lookup_lookup_total_lt; lia).
  assert (forall i, 0 <= i < Z.of_nat (length dw) -> dw !! Z.to_nat i = Some (dw !!! Z.to_nat i)) as Ld
    by (intros; apply list_lookup_lookup_total_lt; lia).
  pose proof (StronglySorted_lookup_rel Z.le tw (Z.to_nat b) (Z.to_nat (e - 1)) _ _
    (StronglySorted_merge_sort Z.le _) ltac:(lia) (Lt b ltac:(lia)) (Lt (e - 1) ltac:(lia))).
  pose proof (StronglySorted_lookup_rel Z.lt dw (Z.to_nat b) (Z.to_nat (e - 1)) _ _
    (StronglySorted_take Z.lt _ _ (gw_increasing _ _ G)) ltac:(lia)
    (Ld b ltac:(lia)) (Ld (e - 1) ltac:(lia))).
  pose proof (Forall_lookup_1 _ _ _ _ Ft (Lt b ltac:(lia))).
  pose proof (Forall_lookup_1 _ _ _ _ Ft (Lt (e - 1) ltac:(lia))).
  pose proof (Forall_lookup_1 _ _ _ _ Fd (Ld b ltac:(lia))).
  pose proof (Forall_lookup_1 _ _ _ _ Fd (Ld (e - 1) ltac:(lia))).
  unfold_words. do 4 (split; [lia|]).
  unfold window_span, window_work. fold tw dw. rewrite (spread_middle tw b e), (spread_middle dw b e); rewrite ?Htw, ?Hdw; done || lia.
Qed.

(** Every check on the way to the division holds, in both versions. *)
Ltac open_window G b e :=
  pose proof (gw_length _ _ G) as Hlen; pose proof (gw_two _ _ G) as Htwo;
  rewrite (resize_window _ _ Hlen); cbv beta iota;
  pose proof (window_length) as Hwl;
  pose proof (sort_Z_length) as Hsl;
  rewrite (c_assert_true _ (_ =? Z.of_nat _)) by (apply Z.eqb_eq; rewrite !Hwl; lia); run;
  rewrite (proj2 (Z.leb_gt _ 1)) by (rewrite Hwl; unfold DIFFICULTY_WINDOW; lia);
  rewrite (c_assert_true _ (_ <=? DIFFICULTY_WINDOW)) by (apply Z.leb_le; rewrite Hwl; lia); run;
  destruct (cut_bounds (Z.of_nat (length (window _)))) as [b e] eqn:Ecut;
  destruct (window_values _ _ _ _ G Ecut) as
    (t0 & t1 & d0 & d1 & Hbe & He & Et0 & Et1 & Ed0 & Ed1 & Ht & Ht1 & Hd & Hd1 & -> & ->);
  rewrite (c_assert_true _ (_ && _)) by (apply andb_true_iff; rewrite !Z.leb_le; lia); run;
  rewrite Et0, Et1, Ed0, Ed1;
  run; run;
  rewrite (u64_small (t1 - t0)) by (unfold_words; lia);
  replace (if t1 - t0 =? 0 then 1 else t1 - t0) with (Z.max 1 (t1 - t0)) by (zcase; lia);
  run; run.

Lemma next_difficulty_spec (ndebug : bool) (ts cd : list Z) (T : Z) :
  good_window ts cd -> in_u64 T ->
  next_difficulty ndebug ts cd T =
    let q := (window_work cd * T + window_span ts - 1) / window_span ts in
    Val (if 2 ^ 128 - 1 <? q then 0 else q).
Proof.
  intros G HT. unfold next_difficulty. open_window G b e.
  unfold u128. rewrite (Z.mod_small (d1 - d0)) by lia.
  rewrite (c_assert_true _ (0 <? d1 - d0)) by (apply Z.ltb_lt; lia). run.
  rewrite (Z.mod_small (_ + _ - 1)) by (unfold_words; nia). by case_match.
Qed.

Lemma next_difficulty_64_spec (ndebug x86_64 : bool) (ts cd : list Z) (T : Z) :
  good_window ts cd -> Forall in_u64 cd -> in_u64 T ->
  next_difficulty_64 ndebug x86_64 ts cd T =
    let n := window_work cd * T + window_span ts - 1 in
    Val (if 2 ^ 64 <=? n then 0 else n / window_span ts).
Proof.
  intros G H64 HT. unfold next_difficulty_64. open_window G b e.
  assert (in_u64 d1) as Hd64 by (eapply c_index_Forall; [|exact Ed1]; by apply Forall_take).
  set (span := Z.max 1 (t1 - t0)). set (work := d1 - d0).
  assert (in_u64 work) as Hw by (unfold work; unfold_words; lia).
  rewrite (u64_small work) by done.
  rewrite (c_assert_true _ (0 <? work)) by (apply Z.ltb_lt; unfold work; lia). run.
  rewrite mul_spec by done. run. set (p := work * T).
  assert (0 <= p) by (unfold p; unfold_words; nia).
  destruct (decide (p < 2 ^ 64)) as [Hp|Hp].
  - rewrite Z.div_small, Z.mod_small by lia. cbn [Z.eqb negb orb].
    assert (u64 (u64 (p + span) - 1) = u64 (p + span - 1)) as ->
      by (unfold u64; by rewrite Zminus_mod_idemp_l).
    destruct (decide (p + span - 1 < 2 ^ 64)) as [Hs|Hs].
    + rewrite u64_small by (unfold_words; lia).
      rewrite (proj2 (Z.ltb_ge _ _)), (proj2 (Z.leb_gt _ _)) by lia. done.
    + rewrite <- Z.add_sub_assoc, u64_add_wrap by (unfold_words; lia).
      rewrite (proj2 (Z.ltb_lt _ _)), (proj2 (Z.leb_le _ _)) by lia. done.
  - assert (1 <= p / 2 ^ 64) by (apply Z.div_le_lower_bound; lia).
    rewrite (proj2 (Z.eqb_neq (p / 2 ^ 64) 0)), (proj2 (Z.leb_le (2 ^ 64) _)) by lia. done.
Qed.

Lemma window_work_span_pos (ts cd : list Z) :
  good_window ts cd -> 0 < window_work cd /\ 0 < window_span ts.
Proof.
  intros G. destruct (cut_bounds (Z.of_nat (length (window ts)))) as [b e] eqn:E.
  destruct (window_values ts cd b e G E)
    as (t0 & t1 & d0 & d1 & _ & _ & _ & _ & _ & _ & _ & _ & Hd & _ & -> & ->). lia.
Qed.

(** ** A steady chain *)

Lemma arith_seq_sorted (a k : Z) (n : nat) (m : Z) :
  0 < k -> StronglySorted Z.lt ((fun i => a + k * i) <$> seqZ m (Z.of_nat n)).
Proof.
  intros Hk. revert m. induction n as [|n IH]; intros m; [constructor|].
  rewrite Nat2Z.inj_succ, seqZ_cons, Z.pred_succ by lia. cbn. constructor; [apply IH|].
  apply Forall_fmap, Forall_forall. intros i [Hi _]%elem_of_seqZ. cbn. nia.
Qed.

Lemma arith_seq_range (a k : Z) (n : nat) (bound : Z) :
  0 <= a -> 0 <= k -> a + k * Z.of_nat n < bound ->
  Forall (fun z => 0 <= z < bound) ((fun i => a + k * i) <$> seqZ 0 (Z.of_nat n)).
Proof.
  intros Ha Hk Hb. apply Forall_fmap, Forall_forall. intros i Hi%elem_of_seqZ. cbn. nia.
Qed.

Lemma StronglySorted_impl {A} (R R' : relation A) (l : list A) :
  (forall x y, R x y -> R' x y) -> StronglySorted R l -> StronglySorted R' l.
Proof.
  intros HR. induction 1; constructor; [done|]. eapply Forall_impl; [done|]. auto.
Qed.

Lemma sort_Z_sorted (l : list Z) : StronglySorted Z.lt l -> sort_Z l = l.
Proof.
  intros Hs. apply (StronglySorted_unique Z.le).
  - apply (StronglySorted_merge_sort Z.le); apply _.
  - eapply StronglySorted_impl; [|done]. lia.
  - apply sort_Z_Permutation.
Qed.

Lemma steady_good (n : nat) (t0 c0 target d : Z) :
  (2 <= n <= 720)%nat -> 0 < target -> 0 < d -> 0 <= t0 -> 0 <= c0 ->
  t0 + target * Z.of_nat n < 2 ^ 64 -> c0 + d * Z.of_nat n < 2 ^ 128 ->
  good_window ((fun i => t0 + target * i) <$> seqZ 0 (Z.of_nat n))
              ((fun i => c0 + d * i) <$> seqZ 0 (Z.of_nat n)).
Proof.
  intros Hn Ht Hd H0 H1 Hb1 Hb2. constructor.
  - by rewrite !length_fmap.
  - rewrite length_fmap, length_seqZ. lia.
  - apply arith_seq_range; lia.
  - apply arith_seq_range; lia.
  - by apply arith_seq_sorted.
Qed.

Lemma arith_seq_lookup (a k : Z) (n : nat) (i : Z) :
  0 <= i < Z.of_nat n -> ((fun i => a + k * i) <$> seqZ 0 (Z.of_nat n)) !!! Z.to_nat i = a + k * i.
Proof.
  intros Hi. apply list_lookup_total_correct. rewrite list_lookup_fmap.
  rewrite lookup_seqZ_lt by lia. cbn. by rewrite Z.add_0_l, Z2Nat.id by lia.
Qed.

(** The cut window of a steady chain spans [k] blocks, for some [k]. *)
Lemma steady_values (n : nat) (t0 c0 target d : Z) :
  (2 <= n <= 720)%nat -> 0 < target -> 0 < d ->
  exists k, 1 <= k < Z.of_nat n /\
    window_work ((fun i => c0 + d * i) <$> seqZ 0 (Z.of_nat n)) = k * d /\
    window_span ((fun i => t0 + target * i) <$> seqZ 0 (Z.of_nat n)) = k * target.
Proof.
  intros Hn Ht Hd. unfold window_work, window_span.
  assert (forall a k, window ((fun i => a + k * i) <$> seqZ 0 (Z.of_nat n))
                      = (fun i => a + k * i) <$> seqZ 0 (Z.of_nat n)) as Ew.
  { intros. apply take_ge. rewrite length_fmap, length_seqZ. unfold DIFFICULTY_WINDOW. lia. }
  rewrite !Ew, sort_Z_sorted by (by apply arith_seq_sorted).
  destruct (cut_bounds (Z.of_nat n)) as [b e] eqn:E.
  rewrite !(spread_middle _ b e) by (rewrite !length_fmap, !length_seqZ, Nat2Z.id; done || lia).
  apply cut_bounds_ok in E as (Hb & Hbe & He); [|unfold DIFFICULTY_WINDOW; lia].
  rewrite !arith_seq_lookup by lia.
  exists (e - 1 - b). split; [lia|]. split; [ring|].
  rewrite Z.max_r; [ring|]. nia.
Qed.

(** ** Properties *)

(** C13. The proof-of-work check: in every build and for every 128-bit difficulty, a
    32-byte hash passes exactly when the little-endian number it encodes, times the
    difficulty, is below [2^256]; the 64-bit carry chain and the wide version agree. *)
Theorem check_hash_correct (ndebug x86_64 : bool) (hash : list Z) (difficulty : Z)
    (Hlength : length hash = 32%nat) (Hbytes : Forall in_u8 hash)
    (Hdifficulty : in_u128 difficulty) :
  check_hash ndebug x86_64 hash difficulty = Val (le_bytes hash * difficulty <? 2 ^ 256) /\
  check_hash_128 hash difficulty = (le_bytes hash * difficulty <? 2 ^ 256).
Proof.
  split; [|by apply check_hash_128_spec]. unfold check_hash.
  destruct (Z.leb_spec difficulty (2 ^ 64 - 1)).
  - apply check_hash_64_spec; (done || unfold_words; lia).
  - by rewrite check_hash_128_spec.
Qed.

Lemma check_hash_correct_witness :
  let hash := replicate 31 255 ++ [0] in
  check_hash false true hash 256 = Val true /\ check_hash false true hash 257 = Val false /\
  check_hash false false hash (2 ^ 64 + 1) = Val false.
Proof.
  intros hash.
  assert (length hash = 32%nat) as Hl by reflexivity.
  assert (Forall in_u8 hash) as Hf.
  { apply Forall_app. split; [apply Forall_replicate; unfold_words; lia|].
    constructor; [unfold_words; lia | constructor]. }
  split; [|split].
  - exact (proj1 (check_hash_correct false true hash 256 Hl Hf ltac:(unfold_words; lia))).
  - exact (proj1 (check_hash_correct false true hash 257 Hl Hf ltac:(unfold_words; lia))).
  - exact (proj1 (check_hash_correct false false hash (2 ^ 64 + 1) Hl Hf ltac:(unfold_words; lia))).
Defined.

(** C14. The next difficulty: for at least two blocks with increasing cumulative
    difficulties and a positive target, every assertion and index is in range.  Of the
    oldest 720 blocks the sorted timestamps and the cumulative difficulties are cut to the 600 in the
    middle; the result is the work between the outermost ones that are left times the
    target over the seconds between them, rounded up, hence at least one, or zero exactly
    when that does not fit in 128 bits. *)
Theorem next_difficulty_correct (ndebug : bool) (ts cd : list Z) (target : Z)
    (Hwindow : good_window ts cd) (Htarget : in_u64 target) (Hpos : 0 < target) :
  exists d, next_difficulty ndebug ts cd target = Val d /\
    if (2 ^ 128 - 1) * window_span ts <? window_work cd * target then d = 0
    else 1 <= d <= 2 ^ 128 - 1 /\
         (d - 1) * window_span ts < window_work cd * target <= d * window_span ts.
Proof.
  rewrite next_difficulty_spec by done. eexists. split; [reflexivity|].
  destruct (window_work_span_pos ts cd Hwindow) as [Hw Hs].
  set (s := window_span ts) in *. set (p := window_work cd * target).
  assert (0 < p) by (unfold p; nia).
  pose proof (Z.div_mod (p + s - 1) s). pose proof (Z.mod_pos_bound (p + s - 1) s).
  set (q := (p + s - 1) / s) in *.
  destruct (Z.ltb_spec ((2 ^ 128 - 1) * s) p).
  - rewrite (proj2 (Z.ltb_lt _ q)); [done|]. nia.
  - rewrite (proj2 (Z.ltb_ge _ q)) by nia. nia.
Qed.

Lemma next_difficulty_correct_witness :
  good_window [100; 340; 220] [10; 30; 61] /\
  exists d, next_difficulty false [100; 340; 220] [10; 30; 61] 120 = Val d /\
    if (2 ^ 128 - 1) * window_span [100; 340; 220] <? window_work [10; 30; 61] * 120 then d = 0
    else 1 <= d <= 2 ^ 128 - 1 /\
         (d - 1) * window_span [100; 340; 220] < window_work [10; 30; 61] * 120
           <= d * window_span [100; 340; 220].
Proof.
  assert (good_window [100; 340; 220] [10; 30; 61]) as G.
  { constructor; [reflexivity | cbn; lia | | |].
    - repeat constructor; unfold_words; lia.
    - repeat constructor; unfold_words; lia.
    - repeat constructor; lia. }
  split; [exact G|].
  apply (next_difficulty_correct false [100; 340; 220] [10; 30; 61] 120 G); unfold_words; lia.
Defined.

(** Steady state: when every block takes exactly the target and adds the same
    difficulty, the next difficulty is that difficulty again, for every window length
    and starting point. *)
Theorem next_difficulty_steady (ndebug : bool) (n : nat) (t0 c0 target d : Z)
    (Hn : (2 <= n <= 720)%nat) (Htarget : 0 < target) (Hd : 0 < d) (Ht0 : 0 <= t0) (Hc0 : 0 <= c0)
    (Ht : t0 + target * Z.of_nat n < 2 ^ 64) (Hc : c0 + d * Z.of_nat n < 2 ^ 128) :
  next_difficulty ndebug ((fun i => t0 + target * i) <$> seqZ 0 (Z.of_nat n))
    ((fun i => c0 + d * i) <$> seqZ 0 (Z.of_nat n)) target = Val d.
Proof.
  rewrite next_difficulty_spec; [| by apply steady_good | unfold_words; nia].
  destruct (steady_values n t0 c0 target d) as (k & Hk & -> & ->); [done..|].
  replace (k * d * target + k * target - 1) with ((k * target - 1) + d * (k * target)) by ring.
  rewrite Z.div_add, Z.div_small by nia. cbn zeta.
  rewrite (proj2 (Z.ltb_ge _ _)); [f_equal; lia | nia].
Qed.

Lemma next_difficulty_steady_witness :
  next_difficulty false ((fun i => 1000 + 120 * i) <$> seqZ 0 700)
    ((fun i => 5 + 9001 * i) <$> seqZ 0 700) 120 = Val 9001.
Proof. apply (next_difficulty_steady false 700 1000 5 120 9001); lia. Defined.

(** The older 64-bit computation agrees with the 128-bit one wherever its
    intermediate product fits in 64 bits, and reports zero otherwise, in both builds of
    the multiplication. *)
Theorem next_difficulty_64_agrees (ndebug x86_64 : bool) (ts cd : list Z) (target : Z)
    (Hwindow : good_window ts cd) (H64 : Forall in_u64 cd) (Htarget : in_u64 target) :
  next_difficulty_64 ndebug x86_64 ts cd target =
    if 2 ^ 64 <=? window_work cd * target + window_span ts - 1 then Val 0
    else next_difficulty ndebug ts cd target.
Proof.
  rewrite next_difficulty_64_spec, next_difficulty_spec by done.
  destruct (window_work_span_pos ts cd Hwindow) as [Hw Hs].
  cbn zeta. set (n := window_work cd * target + window_span ts - 1).
  destruct (Z.leb_spec (2 ^ 64) n); [done|].
  rewrite (proj2 (Z.ltb_ge _ _)); [done|].
  assert (0 <= n) by (unfold n; unfold_words; nia).
  apply Z.le_trans with n; [|lia]. apply Z.div_le_upper_bound; nia.
Qed.

Lemma next_difficulty_64_agrees_witness :
  next_difficulty_64 false true [100; 340; 220] [10; 30; 61] 120 = Val 26 /\
  next_difficulty false [100; 340; 220] [10; 30; 61] 120 = Val 26.
Proof.
  assert (good_window [100; 340; 220] [10; 30; 61]) as G.
  { constructor; [reflexivity | cbn; lia | | |].
    - repeat constructor; unfold_words; lia.
    - repeat constructor; unfold_words; lia.
    - repeat constructor; lia. }
  assert (Forall in_u64 [10; 30; 61]) as H64 by (repeat constructor; unfold_words; lia).
  split; [|vm_compute; reflexivity].
  etransitivity; [apply (next_difficulty_64_agrees false true _ _ 120 G H64); unfold_words; lia|].
  vm_compute. reflexivity.
Defined.
