(* ===== verification/HardFork.v ===== *)
(** * Hard fork schedule and voting

    The [HardFork] class of src/src/cryptonote_basic/hardfork.cpp and .h, the
    fork tables of src/src/hardforks/hardforks.cpp, and the part of
    [BlockchainDB] the class uses: the blocks by height and the table of the hard
    fork version of every height.  The object and the database are threaded
    through the operations that change them. *)

From stdpp Require Import gmap.
From S2P Require Import Prelude.

(** ** Data *)

Record hardfork_t : Type := mk_hardfork_t {
  version : Z;
  height : Z;
  threshold : Z;
  time : Z;
}.

#[global] Instance hardfork_t_inhabited : Inhabited hardfork_t :=
  populate (mk_hardfork_t 0 0 0 0).

(** The two fields of a block header that [HardFork] reads. *)
Record block : Type := mk_block {
  major_version : Z;
  minor_version : Z;
}.

(** [BlockchainDB], as far as [HardFork] sees it. *)
Record BlockchainDB : Type := mk_db {
  db_blocks : list block;
  db_hf_versions : gmap Z Z;
}.

Definition db_height (db : BlockchainDB) : Z := Z.of_nat (length (db_blocks db)).

(** [get_block_from_height] throws [BLOCK_DNE] past the top. *)
Definition get_block_from_height (db : BlockchainDB) (h : Z) : outcome block :=
  if decide (0 <= h) then
    match db_blocks db !! Z.to_nat h with Some b => Val b | None => Throw end
  else Throw.

(** [get_hard_fork_version] throws [DB_ERROR] when the height has no entry. *)
Definition get_hard_fork_version (db : BlockchainDB) (h : Z) : outcome Z :=
  match db_hf_versions db !! h with Some v => Val v | None => Throw end.

Definition set_hard_fork_version (db : BlockchainDB) (h v : Z) : BlockchainDB :=
  mk_db (db_blocks db) (<[h := v]> (db_hf_versions db)).

Record HardFork : Type := mk_HardFork {
  forked_time : Z;
  update_time : Z;
  window_size : Z;
  default_threshold_percent : Z;
  original_version : Z;
  original_version_till_height : Z;
  heights : list hardfork_t;
  versions : list Z;
  last_versions : list Z;
  current_fork_index : Z;
}.

Definition set_heights (hf : HardFork) (l : list hardfork_t) : HardFork :=
  mk_HardFork (forked_time hf) (update_time hf) (window_size hf)
    (default_threshold_percent hf) (original_version hf) (original_version_till_height hf)
    l (versions hf) (last_versions hf) (current_fork_index hf).

Definition set_window (hf : HardFork) (vs lv : list Z) : HardFork :=
  mk_HardFork (forked_time hf) (update_time hf) (window_size hf)
    (default_threshold_percent hf) (original_version hf) (original_version_till_height hf)
    (heights hf) vs lv (current_fork_index hf).

Definition set_index (hf : HardFork) (i : Z) : HardFork :=
  mk_HardFork (forked_time hf) (update_time hf) (window_size hf)
    (default_threshold_percent hf) (original_version hf) (original_version_till_height hf)
    (heights hf) (versions hf) (last_versions hf) i.

Definition DEFAULT_FORKED_TIME : Z := 31557600.
Definition DEFAULT_UPDATE_TIME : Z := 31557600 / 2.
Definition DEFAULT_WINDOW_SIZE : Z := 10080.
Definition DEFAULT_THRESHOLD_PERCENT : Z := 80.

(** ** Operations *)

(** The constructor; [mem] is what the uninitialised [last_versions] holds until
    [init]. *)
Definition new_HardFork (original_version original_version_till_height forked_time update_time
    window_size default_threshold_percent : Z) (mem : list Z) : outcome HardFork :=
  if window_size =? 0 then Throw
  else if 100 <? default_threshold_percent then Throw
  else Val (mk_HardFork forked_time update_time window_size default_threshold_percent
              original_version original_version_till_height [] [] mem 0).

Definition get_block_vote (b : block) : Z :=
  if minor_version b =? 0 then 1 else minor_version b.

Definition get_block_version (b : block) : Z := major_version b.

Definition add_fork (hf : HardFork) (v h thr t : Z) : HardFork * bool :=
  if v =? 0 then (hf, false)
  else if match last (heights hf) with
          | Some f => (v <=? version f) || (h <=? height f) || (t <=? time f)
          | None => false
          end then (hf, false)
  else if 100 <? thr then (hf, false)
  else (set_heights hf (heights hf ++ [mk_hardfork_t v h thr t]), true).

(** The overload without a threshold. *)
Definition add_fork_default (hf : HardFork) (v h t : Z) : HardFork * bool :=
  add_fork hf v h (default_threshold_percent hf) t.

(** The guard of the assignment is the literal [false] in the source. *)
Definition get_effective_version (hf : HardFork) (voting_version : Z) : Z :=
  match last (heights hf) with
  | Some f => let max_version := version f in
              if false then max_version else voting_version
  | None => voting_version
  end.

Definition do_check (hf : HardFork) (block_version voting_version : Z) : outcome bool :=
  f ← c_index (heights hf) (current_fork_index hf);
  Val ((block_version =? version f) && (version f <=? voting_version)).

Definition check (hf : HardFork) (b : block) : outcome bool :=
  do_check hf (get_block_version b) (get_block_vote b).

(** The loop of [get_voted_fork_index], from fork [n - 1] down to fork 0. *)
Fixpoint voted_loop (hf : HardFork) (h : Z) (n : nat) (accumulated_votes : Z) : outcome Z :=
  match n with
  | O => Val (current_fork_index hf)
  | S n =>
      f ← c_index (heights hf) (Z.of_nat n);
      count ← c_index (last_versions hf) (version f);
      let accumulated_votes := u32 (accumulated_votes + count) in
      let thr := u32 (u64 (u64 (window_size hf * threshold f) + 99) / 100) in
      if (height f <=? h) && (thr <=? accumulated_votes) then Val (Z.of_nat n)
      else voted_loop hf h n accumulated_votes
  end.

Definition get_voted_fork_index (hf : HardFork) (h : Z) : outcome Z :=
  voted_loop hf h (length (heights hf)) 0.

Definition do_check_for_height (hf : HardFork) (block_version voting_version h : Z) : outcome bool :=
  fork_index ← get_voted_fork_index hf h;
  f ← c_index (heights hf) fork_index;
  Val ((block_version =? version f) && (version f <=? voting_version)).

Definition check_for_height (hf : HardFork) (b : block) (h : Z) : outcome bool :=
  do_check_for_height hf (get_block_version b) (get_block_vote b) h.

(** [last_versions[v]++] and [last_versions[v]--] on [unsigned int]. *)
Definition count_up (lv : list Z) (v : Z) : list Z :=
  alter (fun c => u32 (c + 1)) (Z.to_nat v) lv.
Definition count_down (lv : list Z) (v : Z) : list Z :=
  alter (fun c => u32 (c - 1)) (Z.to_nat v) lv.

(** The [while (versions.size() >= window_size)] loop of [add]; [front()] on an
    empty deque is undefined. *)
Fixpoint trim_window (ndebug : bool) (window : Z) (vs lv : list Z) : outcome (list Z * list Z) :=
  if window <=? Z.of_nat (length vs) then
    match vs with
    | [] => Undef
    | old_version :: vs =>
        count ← c_index lv old_version;
        _ ← c_assert ndebug (1 <=? count);
        trim_window ndebug window vs (count_down lv old_version)
    end
  else Val (vs, lv).

(** [last_versions[v]++; versions.push_back(v)]. *)
Definition push_vote (hf : HardFork) (v : Z) : HardFork :=
  set_window hf (versions hf ++ [v]) (count_up (last_versions hf) v).

(** [uint8_t voted = get_voted_fork_index(h); if (voted > current_fork_index) ...]. *)
Definition raise_index (hf : HardFork) (h : Z) : outcome HardFork :=
  voted ← get_voted_fork_index hf h;
  Val (if current_fork_index hf <? u8 voted then set_index hf (u8 voted) else hf).

Definition add_versions (ndebug : bool) (hf : HardFork) (db : BlockchainDB)
    (block_version voting_version h : Z) : outcome (HardFork * BlockchainDB * bool) :=
  ok ← do_check hf block_version voting_version;
  if negb ok then Val (hf, db, false)
  else
    f ← c_index (heights hf) (current_fork_index hf);
    let db := set_hard_fork_version db h (version f) in
    let voting_version := get_effective_version hf voting_version in
    '(vs, lv) ← trim_window ndebug (window_size hf) (versions hf) (last_versions hf);
    let hf := push_vote (set_window hf vs lv) voting_version in
    hf ← raise_index hf (u64 (h + 1));
    Val (hf, db, true).

Definition add (ndebug : bool) (hf : HardFork) (db : BlockchainDB) (b : block) (h : Z) :
    outcome (HardFork * BlockchainDB * bool) :=
  add_versions ndebug hf db (get_block_version b) (get_block_vote b) h.

(** [versions.clear()] and the loop that zeroes [last_versions]. *)
Definition clear_window (hf : HardFork) : HardFork := set_window hf [] (replicate 256 0).

(** The loop body shared by the two scans over the database. *)
Fixpoint scan_votes (hf : HardFork) (db : BlockchainDB) (hs : list Z) : outcome HardFork :=
  match hs with
  | [] => Val hf
  | h :: hs =>
      b ← get_block_from_height db h;
      scan_votes (push_vote hf (get_effective_version hf (get_block_vote b))) db hs
  end.

(** A loop that lowers index [i] until it is 0 or [stop] holds of the fork there. *)
Fixpoint search_down (stop : hardfork_t -> bool) (l : list hardfork_t) (i : nat) : outcome Z :=
  match i with
  | O => Val 0
  | S j =>
      f ← c_index l (Z.of_nat i);
      if stop f then Val (Z.of_nat i) else search_down stop l j
  end.

(** [while (current_fork_index > 0 && heights[current_fork_index].version > start_version)]. *)
Definition lower_index (l : list hardfork_t) (start_version : Z) (i : nat) : outcome Z :=
  search_down (fun f => negb (start_version <? version f)) l i.

(** The second loop of [reorganize_from_block_height]; the results of [add] are
    ignored. *)
Fixpoint add_blocks (ndebug : bool) (hf : HardFork) (db : BlockchainDB) (hs : list Z) :
    outcome (HardFork * BlockchainDB) :=
  match hs with
  | [] => Val (hf, db)
  | h :: hs =>
      b ← get_block_from_height db h;
      '(hf, db, _) ← add ndebug hf db b h;
      add_blocks ndebug hf db hs
  end.

Definition reorganize_from_block_height (ndebug : bool) (hf : HardFork) (db : BlockchainDB) (h : Z) :
    outcome (HardFork * BlockchainDB * bool) :=
  if db_height db <=? h then Val (hf, db, false)
  else
    let hf := clear_window hf in
    let w1 := u64 (window_size hf - 1) in
    let rescan_height := if w1 <=? h then h - w1 else 0 in
    start_version ← (if h =? 0 then Val (original_version hf) else get_hard_fork_version db h);
    i ← lower_index (heights hf) start_version (Z.to_nat (current_fork_index hf));
    hf ← scan_votes (set_index hf i) db (seqZ rescan_height (h + 1 - rescan_height));
    hf ← raise_index hf (u64 (h + 1));
    '(hf, db) ← add_blocks ndebug hf db (seqZ (h + 1) (db_height db - (h + 1)));
    Val (hf, db, true).

Definition reorganize_from_chain_height (ndebug : bool) (hf : HardFork) (db : BlockchainDB) (h : Z) :
    outcome (HardFork * BlockchainDB * bool) :=
  if h =? 0 then Val (hf, db, false) else reorganize_from_block_height ndebug hf db (h - 1).

(** [while (current_fork_index + 1 < heights.size() && heights[current_fork_index].version != lastv)],
    from index [i] with the forks from that index on. *)
Fixpoint find_version (l : list hardfork_t) (lastv : Z) (i : Z) : Z :=
  match l with
  | [] => i
  | f :: l =>
      match l with
      | [] => i
      | _ :: _ => if version f =? lastv then i else find_version l lastv (i + 1)
      end
  end.

Definition rescan_from_block_height (hf : HardFork) (db : BlockchainDB) (h : Z) :
    outcome (HardFork * bool) :=
  if db_height db <=? h then Val (hf, false)
  else
    hf ← scan_votes (clear_window hf) db (seqZ h (db_height db - h));
    lastv ← get_hard_fork_version db (db_height db - 1);
    hf ← raise_index (set_index hf (find_version (heights hf) lastv 0)) (db_height db);
    Val (hf, true).

Definition rescan_from_chain_height (hf : HardFork) (db : BlockchainDB) (h : Z) :
    outcome (HardFork * bool) :=
  if h =? 0 then Val (hf, false) else rescan_from_block_height hf db (h - 1).

Definition init (hf : HardFork) (db : BlockchainDB) : outcome HardFork :=
  let hf := match heights hf with
            | [] => set_heights hf [mk_hardfork_t (original_version hf) 0 0 0]
            | _ => hf
            end in
  let hf := set_index (clear_window hf) 0 in
  let h := db_height db in
  let h := if window_size hf <? h then h - (window_size hf - 1) else 1 in
  '(hf, _) ← rescan_from_chain_height hf db h;
  Val hf.

(** The private overload of [get_block_version] by height. *)
Definition get_block_version_at (hf : HardFork) (db : BlockchainDB) (h : Z) : outcome Z :=
  if h <=? original_version_till_height hf then Val (original_version hf)
  else b ← get_block_from_height db h; Val (get_block_version b).

(** The first loop of [on_block_popped], on [uint64_t height]. *)
Fixpoint pop_loop (fuel : nat) (db : BlockchainDB) (new_chain_height h : Z) (vs lv : list Z) :
    outcome (list Z * list Z) :=
  if new_chain_height <=? h then
    match fuel with
    | O => Diverge
    | S fuel =>
        match last vs with
        | None => Undef
        | Some v =>
            let lv := count_down lv v in
            let vs := removelast vs in
            v ← get_hard_fork_version db h;
            pop_loop fuel db new_chain_height (u64 (h - 1)) (v :: vs) (count_up lv v)
        end
    end
  else Val (vs, lv).

(** [for (i = heights.size() - 1; i > 0; --i) if (new_chain_height >= heights[i].height) break;]. *)
Definition height_index (l : list hardfork_t) (h : Z) (i : nat) : outcome Z :=
  search_down (fun f => height f <=? h) l i.

Definition on_block_popped (hf : HardFork) (db : BlockchainDB) (nblocks : Z) : outcome HardFork :=
  if nblocks =? 0 then Throw
  else
    let new_chain_height := db_height db in
    let old_chain_height := u64 (new_chain_height + nblocks) in
    '(vs, lv) ← pop_loop (Z.to_nat nblocks) db new_chain_height (u64 (old_chain_height - 1))
                  (versions hf) (last_versions hf);
    i ← height_index (heights hf) new_chain_height (pred (length (heights hf)));
    Val (set_index (set_window hf vs lv) i).

Inductive State : Type := LikelyForked | UpdateNeeded | Ready.

#[global] Instance State_eq_dec : EqDecision State.
Proof. solve_decision. Defined.

(** [time_t] addition: signed 64-bit overflow is undefined. *)
Definition time_add (a b : Z) : outcome Z :=
  if decide (- 2 ^ 63 <= a + b < 2 ^ 63) then Val (a + b) else Undef.

Definition get_state (hf : HardFork) (t : Z) : outcome State :=
  match last (heights hf) with
  | Some f =>
      if Z.of_nat (length (heights hf)) <=? 1 then Val Ready
      else
        t_forked ← time_add (time f) (forked_time hf);
        if t_forked <=? t then Val LikelyForked
        else
          t_update ← time_add (time f) (update_time hf);
          Val (if t_update <=? t then UpdateNeeded else Ready)
  | None => Val Ready
  end.

Definition get_current_version (hf : HardFork) : outcome Z :=
  f ← c_index (heights hf) (current_fork_index hf); Val (version f).

Definition get (ndebug : bool) (hf : HardFork) (db : BlockchainDB) (h : Z) : outcome Z :=
  if db_height db <? h then (_ ← c_assert ndebug false; Val 255)
  else if h =? db_height db then get_current_version hf
  else get_hard_fork_version db h.

(** [get_ideal_version()]: [heights.back()] on an empty vector is undefined. *)
Definition get_newest_version (hf : HardFork) : outcome Z :=
  match last (heights hf) with Some f => Val (version f) | None => Undef end.

(** The loop of [get_ideal_version(height)]; [n] is unsigned. *)
Fixpoint ideal_loop (hf : HardFork) (h : Z) (n : nat) : outcome Z :=
  match n with
  | O => Val (original_version hf)
  | S m =>
      f ← c_index (heights hf) (Z.of_nat n);
      if height f <=? h then Val (version f) else ideal_loop hf h m
  end.

(** On an empty table the unsigned loop variable starts at [UINT_MAX]. *)
Definition get_ideal_version (hf : HardFork) (h : Z) : outcome Z :=
  match heights hf with
  | [] => Undef
  | _ => ideal_loop hf h (pred (length (heights hf)))
  end.

(** The reverse iteration of [get_earliest_ideal_height_for_version]. *)
Fixpoint earliest_loop (l : list hardfork_t) (v acc : Z) : Z :=
  match l with
  | [] => acc
  | f :: l => if v <=? version f then earliest_loop l v (height f) else acc
  end.

Definition get_earliest_ideal_height_for_version (hf : HardFork) (v : Z) : Z :=
  earliest_loop (reverse (heights hf)) v (2 ^ 64 - 1).

(** The reverse iteration of [get_next_version]; [next] is the fork visited
    before, none at [rbegin()]. *)
Fixpoint next_loop (l : list hardfork_t) (next : option hardfork_t) (h default : Z) : Z :=
  match l with
  | [] => default
  | f :: l =>
      if height f <=? h then version (match next with Some g => g | None => f end)
      else next_loop l (Some f) h default
  end.

Definition get_next_version (hf : HardFork) (db : BlockchainDB) : Z :=
  next_loop (reverse (heights hf)) None (db_height db) (original_version hf).

Record voting_info : Type := mk_voting_info {
  vi_enabled : bool;
  vi_window : Z;
  vi_votes : Z;
  vi_threshold : Z;
  vi_earliest_height : Z;
  vi_voting : Z;
}.

Definition get_voting_info (hf : HardFork) (v : Z) : outcome voting_info :=
  f ← c_index (heights hf) (current_fork_index hf);
  voting ← get_newest_version hf;
  let window := u32 (Z.of_nat (length (versions hf))) in
  Val (mk_voting_info (v <=? version f) window
         (foldl (fun votes c => u32 (votes + c)) 0 (drop (Z.to_nat v) (last_versions hf)))
         (u32 (u32 (window * threshold f) + 99) / 100)
         (get_earliest_ideal_height_for_version hf v) voting).

(** ** The fork tables of the three networks *)

Definition mainnet_hard_forks : list hardfork_t :=
  [mk_hardfork_t 1 1 0 1341378000; mk_hardfork_t 16 2 0 1341378001].
Definition testnet_hard_forks : list hardfork_t :=
  [mk_hardfork_t 1 1 0 1341378000; mk_hardfork_t 16 2 0 1341378001].
Definition stagenet_hard_forks : list hardfork_t :=
  [mk_hardfork_t 1 1 0 1341378000; mk_hardfork_t 16 2 0 1341378001].
Definition mainnet_hard_fork_version_1_till : Z := 1.
Definition testnet_hard_fork_version_1_till : Z := 1.

Inductive network_type : Type := MAINNET | TESTNET | STAGENET.

(** The loop of [Blockchain::init] over a fork table. *)
Fixpoint enter_forks (hf : HardFork) (l : list hardfork_t) : HardFork :=
  match l with
  | [] => hf
  | f :: l => enter_forks (add_fork hf (version f) (height f) (threshold f) (time f)).1 l
  end.

(** [Blockchain::init] builds the object, enters the table and calls [init]. *)
Definition make_hardfork (nettype : network_type) (mem : list Z) (db : BlockchainDB) :
    outcome HardFork :=
  let '(till, forks) := match nettype with
    | MAINNET => (mainnet_hard_fork_version_1_till, mainnet_hard_forks)
    | TESTNET => (testnet_hard_fork_version_1_till, testnet_hard_forks)
    | STAGENET => (0, stagenet_hard_forks)
    end in
  hf ← new_HardFork 1 till DEFAULT_FORKED_TIME DEFAULT_UPDATE_TIME DEFAULT_WINDOW_SIZE
         DEFAULT_THRESHOLD_PERCENT mem;
  init (enter_forks hf forks) db.

(** ** Vote counting *)

Definition votes_for (v : Z) (vs : list Z) : Z := Z.of_nat (length (filter (eq v) vs)).

Lemma votes_for_cons (v x : Z) (vs : list Z) :
  votes_for v (x :: vs) = (if decide (v = x) then 1 else 0) + votes_for v vs.
Proof. unfold votes_for. rewrite filter_cons. case_decide; cbn [length]; lia. Qed.

Lemma votes_for_perm (v : Z) (vs ws : list Z) : vs ≡ₚ ws -> votes_for v vs = votes_for v ws.
Proof. intros H. unfold votes_for. by rewrite H. Qed.

Lemma votes_for_bounds (v : Z) (vs : list Z) : 0 <= votes_for v vs <= Z.of_nat (length vs).
Proof. unfold votes_for. pose proof (length_filter (eq v) vs). lia. Qed.

(** The votes for pairwise distinct versions are at most all the votes. *)
Lemma votes_for_distinct (l vs : list Z) :
  NoDup l -> sumZ (map (fun v => votes_for v vs) l) <= Z.of_nat (length vs).
Proof.
  intros Hl. induction vs as [|x vs IH].
  { clear Hl. induction l as [|v l IH]; [done|].
    cbn [map length] in *. rewrite sumZ_cons. change (votes_for v []) with 0. lia. }
  assert (sumZ (map (fun v => votes_for v (x :: vs)) l)
          = votes_for x l + sumZ (map (fun v => votes_for v vs) l)) as ->.
  { clear. induction l as [|v l IH]; [done|].
    cbn [map]. rewrite !sumZ_cons, IH, !votes_for_cons.
    repeat case_decide; subst; done || lia. }
  enough (votes_for x l <= 1) by (cbn [length]; lia).
  clear IH. induction Hl as [|v l Hv Hl IH]; [done|].
  rewrite votes_for_cons. case_decide as E; [subst v | lia].
  enough (votes_for x l = 0) by lia. unfold votes_for.
  enough (filter (eq x) l = []) as -> by done.
  clear -Hv. induction l as [|y l IH]; [done|]. apply not_elem_of_cons in Hv as [? ?].
  rewrite filter_cons_False by done. by apply IH.
Qed.

(** [last_versions] counts the votes of the window. *)
Definition counts (lv vs : list Z) : Prop :=
  length lv = 256%nat /\
  forall v, in_u8 v -> lv !! Z.to_nat v = Some (votes_for v vs).

Lemma counts_perm (lv vs ws : list Z) : vs ≡ₚ ws -> counts lv vs -> counts lv ws.
Proof.
  intros Hp [Hl H]. split; [done|]. intros v Hv. by rewrite H, (votes_for_perm v vs ws).
Qed.

Lemma counts_empty : counts (replicate 256 0) [].
Proof.
  split; [done|]. intros v Hv. apply lookup_replicate. split; [done|].
  unfold_words. lia.
Qed.

Lemma counts_up_cons (lv vs : list Z) (v : Z) :
  in_u8 v -> Z.of_nat (length vs) + 1 < 2 ^ 32 -> counts lv vs -> counts (count_up lv v) (v :: vs).
Proof.
  intros Hv Hlen [Hl H]. unfold count_up. split; [by rewrite length_alter|].
  intros x Hx. rewrite votes_for_cons. destruct (decide (x = v)) as [->|Hn].
  - rewrite list_lookup_alter_eq, H by done.
    change (Some (u32 (votes_for v vs + 1)) = Some (1 + votes_for v vs)). f_equal.
    pose proof (votes_for_bounds v vs). unfold u32. rewrite Z.mod_small by lia. lia.
  - rewrite list_lookup_alter_ne; [by rewrite H|]. unfold_words. lia.
Qed.

Lemma counts_up (lv vs : list Z) (v : Z) :
  in_u8 v -> Z.of_nat (length vs) + 1 < 2 ^ 32 -> counts lv vs -> counts (count_up lv v) (vs ++ [v]).
Proof.
  intros ???. apply (counts_perm _ (v :: vs)); [|by apply counts_up_cons].
  apply Permutation_cons_append.
Qed.

Lemma counts_down (lv vs : list Z) (v : Z) :
  in_u8 v -> Z.of_nat (length vs) + 1 < 2 ^ 32 -> counts lv (v :: vs) -> counts (count_down lv v) vs.
Proof.
  intros Hv Hlen [Hl H]. unfold count_down. split; [by rewrite length_alter|].
  intros x Hx. specialize (H x Hx). rewrite votes_for_cons in H.
  destruct (decide (x = v)) as [->|Hn].
  - rewrite list_lookup_alter_eq, H.
    change (Some (u32 (1 + votes_for v vs - 1)) = Some (votes_for v vs)). f_equal.
    pose proof (votes_for_bounds v vs). unfold u32. rewrite Z.mod_small by lia. lia.
  - rewrite list_lookup_alter_ne; [done|]. unfold_words. lia.
Qed.

Lemma counts_index (lv vs : list Z) (v : Z) :
  in_u8 v -> counts lv vs -> c_index lv v = Val (votes_for v vs).
Proof. intros Hv [_ H]. apply c_index_lookup; [apply Hv|]. by apply H. Qed.

(** A window of at most [w] votes with its counts. *)
Definition window_ok (w : Z) (vs lv : list Z) : Prop :=
  counts lv vs /\ Forall in_u8 vs /\ Z.of_nat (length vs) <= w.

(** The trimming loop keeps the newest [w - 1] votes and never trips its assertion. *)
Lemma trim_window_spec (ndebug : bool) (w : Z) (vs lv : list Z) :
  0 < w -> Z.of_nat (length vs) < 2 ^ 32 -> counts lv vs -> Forall in_u8 vs ->
  exists lv', let vs' := drop (length vs + 1 - Z.to_nat w) vs in
    trim_window ndebug w vs lv = Val (vs', lv') /\ counts lv' vs' /\
    Z.of_nat (length vs') < w.
Proof.
  intros Hw. revert lv. induction vs as [|v vs IH]; intros lv Hlen Hc Hf; cbn [trim_window].
  - rewrite (proj2 (Z.leb_gt _ _)) by (cbn; lia). exists lv. rewrite drop_nil. done.
  - cbn [length] in *. destruct (Z.leb_spec w (Z.of_nat (S (length vs)))) as [Hle|Hgt].
    + inversion_clear Hf as [|?? Hv Hf'].
      rewrite (counts_index _ (v :: vs)) by done. run.
      rewrite c_assert_true; [run|].
      2: { apply Z.leb_le. rewrite votes_for_cons, decide_True by done.
           pose proof (votes_for_bounds v vs). lia. }
      destruct (IH (count_down lv v)) as (lv' & E & Hc' & Hl'); [lia| |done|].
      { apply counts_down; [done|lia|done]. }
      exists lv'. cbn zeta.
      replace (S (length vs) + 1 - Z.to_nat w)%nat with (S (length vs + 1 - Z.to_nat w)) by lia.
      cbn [drop]. done.
    + exists lv. cbn zeta. replace (S (length vs) + 1 - Z.to_nat w)%nat with 0%nat by lia.
      cbn [drop length]. split; [done|]. split; [done|lia].
Qed.

(** ** The fork table *)

Definition fork_lt (f g : hardfork_t) : Prop :=
  version f < version g /\ height f < height g /\ time f < time g.

Definition fork_ok (f : hardfork_t) : Prop :=
  0 < version f < 2 ^ 8 /\ in_u64 (height f) /\ 0 <= threshold f <= 100.

(** Versions, heights and times strictly increase. *)
Definition table_ok (l : list hardfork_t) : Prop :=
  StronglySorted fork_lt l /\ Forall fork_ok l.

Lemma table_lookup_ok (l : list hardfork_t) (n : nat) (f : hardfork_t) :
  table_ok l -> l !! n = Some f -> fork_ok f.
Proof. intros [_ H] Hl. eapply Forall_lookup_1; eauto. Qed.

Lemma table_lookup_lt (l : list hardfork_t) (i j : nat) (f g : hardfork_t) :
  table_ok l -> (i < j)%nat -> l !! i = Some f -> l !! j = Some g -> fork_lt f g.
Proof. intros [H _]. by apply StronglySorted_lookup_rel. Qed.

Lemma table_version_lower (l : list hardfork_t) (n : nat) (f : hardfork_t) :
  table_ok l -> l !! n = Some f -> Z.of_nat n < version f.
Proof.
  intros Ht. revert f. induction n as [|n IH]; intros f Hf.
  - apply (table_lookup_ok _ _ _ Ht) in Hf as [? _]. lia.
  - destruct (lookup_lt_is_Some_2 l n) as [g Hg].
    { apply lookup_lt_Some in Hf. lia. }
    specialize (IH g Hg). destruct (table_lookup_lt l n (S n) g f) as [? _]; (done || lia).
Qed.

(** A table has fewer forks than there are versions, so indices fit in a byte. *)
Lemma table_length (l : list hardfork_t) : table_ok l -> Z.of_nat (length l) <= 255.
Proof.
  intros Ht. destruct (length l) as [|n] eqn:E; [lia|].
  destruct (lookup_lt_is_Some_2 l n) as [f Hf]; [lia|].
  pose proof (table_version_lower l n f Ht Hf).
  apply (table_lookup_ok _ _ _ Ht) in Hf as [? _]. lia.
Qed.

Lemma table_versions_NoDup (l : list hardfork_t) : table_ok l -> NoDup (map version l).
Proof.
  intros [Hs _]. induction Hs as [|f l Hs IH Hf]; cbn; [constructor|].
  constructor; [|done]. intros (g & E & Hg)%list_elem_of_fmap.
  eapply Forall_forall in Hf; [|done]. destruct Hf. lia.
Qed.

(** ** The voted fork *)

(** Votes for fork [n] or a later one of the table. *)
Definition support (hf : HardFork) (n : nat) : Z :=
  sumZ (map (fun f => votes_for (version f) (versions hf)) (drop n (heights hf))).

(** The threshold of a fork, a percentage of the window rounded up. *)
Definition quota (hf : HardFork) (f : hardfork_t) : Z :=
  (window_size hf * threshold f + 99) / 100.

Definition activated (hf : HardFork) (h : Z) (n : nat) : Prop :=
  exists f, heights hf !! n = Some f /\ height f <= h /\ quota hf f <= support hf n.

(** The newest activated fork, the current one when there is none. *)
Definition voted_index (hf : HardFork) (h i : Z) : Prop :=
  (exists n, i = Z.of_nat n /\ activated hf h n /\ forall m, (n < m)%nat -> ~ activated hf h m) \/
  (i = current_fork_index hf /\ forall m, ~ activated hf h m).

Record wf_hf (hf : HardFork) : Prop := {
  wf_table : table_ok (heights hf);
  wf_window_size : 0 < window_size hf < 2 ^ 32;
  wf_window : window_ok (window_size hf) (versions hf) (last_versions hf);
  wf_index : 0 <= current_fork_index hf < Z.of_nat (length (heights hf));
}.

Lemma support_bounds (hf : HardFork) (n : nat) :
  table_ok (heights hf) -> 0 <= support hf n <= Z.of_nat (length (versions hf)).
Proof.
  intros Ht. unfold support. split.
  - apply sumZ_nonneg, Forall_fmap, Forall_true. intros f. cbn. apply votes_for_bounds.
  - replace (map _ _) with (map (fun v => votes_for v (versions hf)) (map version (drop n (heights hf))))
      by apply map_map.
    apply votes_for_distinct. apply table_versions_NoDup in Ht.
    rewrite <- (take_drop n (heights hf)), map_app in Ht. by apply NoDup_app in Ht as (_ & _ & ?).
Qed.

Lemma support_S (hf : HardFork) (n : nat) (f : hardfork_t) :
  heights hf !! n = Some f ->
  support hf n = votes_for (version f) (versions hf) + support hf (S n).
Proof. intros H. unfold support. by rewrite (drop_S _ _ _ H). Qed.

(** The machine threshold is the exact one. *)
Lemma quota_machine (hf : HardFork) (f : hardfork_t) :
  0 < window_size hf < 2 ^ 32 -> fork_ok f ->
  u32 (u64 (u64 (window_size hf * threshold f) + 99) / 100) = quota hf f.
Proof.
  intros Hw (_ & _ & Ht). unfold quota. unfold_words.
  assert (0 <= window_size hf * threshold f <= (2 ^ 32 - 1) * 100) as Hp by nia.
  rewrite (Z.mod_small (window_size hf * threshold f)) by lia.
  rewrite (Z.mod_small (_ + 99)) by lia.
  apply Z.mod_small. split; [apply Z.div_pos; lia|].
  apply Z.div_lt_upper_bound; lia.
Qed.

Lemma voted_loop_spec (hf : HardFork) (h : Z) (n : nat) :
  table_ok (heights hf) -> 0 < window_size hf < 2 ^ 32 ->
  window_ok (window_size hf) (versions hf) (last_versions hf) ->
  (n <= length (heights hf))%nat ->
  (forall m, (n <= m)%nat -> ~ activated hf h m) ->
  exists i, voted_loop hf h n (support hf n) = Val i /\ voted_index hf h i.
Proof.
  intros Ht Hw (Hc & Hv & Hl). induction n as [|n IH]; intros Hn Hno; cbn [voted_loop].
  { exists (current_fork_index hf). split; [done|]. right. split; [done|]. intros m. apply Hno. lia. }
  destruct (lookup_lt_is_Some_2 (heights hf) n) as [f Hf]; [lia|].
  pose proof (table_lookup_ok _ _ _ Ht Hf) as Hok.
  rewrite (c_index_lookup _ _ f); [run | lia | by rewrite Nat2Z.id].
  rewrite (counts_index _ (versions hf)); [run | by destruct Hok; unfold_words; lia | done].
  rewrite quota_machine by done.
  pose proof (support_bounds hf n Ht) as Hb. rewrite (support_S hf n f Hf) in Hb.
  replace (u32 _) with (support hf n).
  2: { rewrite (support_S hf n f Hf). unfold u32. rewrite Z.mod_small; lia. }
  destruct (_ && _) eqn:E.
  - apply andb_true_iff in E as [E1%Z.leb_le E2%Z.leb_le].
    exists (Z.of_nat n). split; [done|]. left. exists n. split; [done|].
    split; [by exists f|]. intros m Hm. apply Hno. lia.
  - apply IH; [lia|]. intros m Hm. destruct (decide (m = n)) as [->|]; [|apply Hno; lia].
    intros (g & Hg & Hh & Hq). assert (g = f) as -> by congruence.
    apply andb_false_iff in E as [E%Z.leb_gt|E%Z.leb_gt]; lia.
Qed.

Lemma get_voted_fork_index_spec (hf : HardFork) (h : Z) :
  table_ok (heights hf) -> 0 < window_size hf < 2 ^ 32 ->
  window_ok (window_size hf) (versions hf) (last_versions hf) ->
  exists i, get_voted_fork_index hf h = Val i /\ voted_index hf h i.
Proof.
  intros Ht Hw Hwin. unfold get_voted_fork_index.
  assert (support hf (length (heights hf)) = 0) as E.
  { unfold support. by rewrite drop_all. }
  rewrite <- E. apply voted_loop_spec; try done.
  intros m Hm (f & Hf & _). apply lookup_lt_Some in Hf. lia.
Qed.

Lemma voted_index_range (hf : HardFork) (h i : Z) :
  wf_hf hf -> voted_index hf h i -> 0 <= i < Z.of_nat (length (heights hf)).
Proof.
  intros Hwf [(n & -> & (f & Hf & _) & _)|[-> _]]; [|apply Hwf].
  apply lookup_lt_Some in Hf. lia.
Qed.

Lemma raise_index_spec (hf : HardFork) (h : Z) :
  wf_hf hf ->
  exists i, voted_index hf h i /\
    raise_index hf h = Val (set_index hf (Z.max (current_fork_index hf) i)).
Proof.
  intros Hwf. destruct (get_voted_fork_index_spec hf h) as (i & E & Hi); try apply Hwf.
  exists i. split; [done|]. unfold raise_index. rewrite E. run. f_equal.
  pose proof (voted_index_range hf h i Hwf Hi) as Hr.
  pose proof (table_length _ (wf_table hf Hwf)).
  unfold u8. rewrite Z.mod_small by lia. zcase.
  - by rewrite Z.max_r by lia.
  - rewrite Z.max_l by lia. by destruct hf.
Qed.

(** ** The operations on a well-formed object *)

Lemma wf_set_window (hf : HardFork) (vs lv : list Z) :
  wf_hf hf -> window_ok (window_size hf) vs lv -> wf_hf (set_window hf vs lv).
Proof. intros [] ?. by constructor. Qed.

Lemma wf_set_index (hf : HardFork) (i : Z) :
  wf_hf hf -> 0 <= i < Z.of_nat (length (heights hf)) -> wf_hf (set_index hf i).
Proof. intros [] ?. by constructor. Qed.

Lemma window_ok_push (w : Z) (vs lv : list Z) (v : Z) :
  in_u8 v -> w < 2 ^ 32 -> Z.of_nat (length vs) < w -> window_ok w vs lv ->
  window_ok w (vs ++ [v]) (count_up lv v).
Proof.
  intros Hv Hw Hl (Hc & Hf & _). split; [apply counts_up; (done || lia)|].
  split; [by apply Forall_app; split; [|constructor]|]. rewrite length_app. cbn. lia.
Qed.

Lemma window_ok_empty (w : Z) : 0 < w -> window_ok w [] (replicate 256 0).
Proof. intros Hw. split; [apply counts_empty|]. split; [constructor|]. cbn. lia. Qed.

Lemma get_effective_version_id (hf : HardFork) (v : Z) : get_effective_version hf v = v.
Proof. unfold get_effective_version. by destruct (last _). Qed.

Lemma raise_index_wf (hf : HardFork) (h : Z) :
  wf_hf hf ->
  exists i, raise_index hf h = Val (set_index hf i) /\ wf_hf (set_index hf i) /\
    current_fork_index hf <= i /\
    exists j, voted_index hf h j /\ i = Z.max (current_fork_index hf) j.
Proof.
  intros Hwf. destruct (raise_index_spec hf h Hwf) as (j & Hj & E).
  exists (Z.max (current_fork_index hf) j). split; [done|].
  pose proof (voted_index_range hf h j Hwf Hj). pose proof (wf_index hf Hwf).
  split; [apply wf_set_index; [done|lia]|]. split; [lia|]. by exists j.
Qed.

Lemma wf_current (hf : HardFork) :
  wf_hf hf -> exists f, heights hf !! Z.to_nat (current_fork_index hf) = Some f /\ fork_ok f /\
    c_index (heights hf) (current_fork_index hf) = Val f.
Proof.
  intros Hwf. pose proof (wf_index hf Hwf) as Hi.
  destruct (lookup_lt_is_Some_2 (heights hf) (Z.to_nat (current_fork_index hf))) as [f Hf]; [lia|].
  exists f. split; [done|]. split; [eapply table_lookup_ok; [apply Hwf|done]|].
  apply c_index_lookup; [lia|done].
Qed.

(** The window after one more vote. *)
Definition slide (w : Z) (vs : list Z) (v : Z) : list Z :=
  drop (length vs + 1 - Z.to_nat w) vs ++ [v].

(** [add_versions] returns; it takes the vote exactly when the version is the
    current one and the vote does not fall behind it. *)
Lemma add_versions_spec (ndebug : bool) (hf : HardFork) (db : BlockchainDB) (bv vv h : Z) :
  wf_hf hf -> in_u8 vv ->
  exists f, heights hf !! Z.to_nat (current_fork_index hf) = Some f /\
  if (bv =? version f) && (version f <=? vv) then
    exists lv i j,
      let hf' := set_window hf (slide (window_size hf) (versions hf) vv) lv in
      add_versions ndebug hf db bv vv h
        = Val (set_index hf' i, set_hard_fork_version db h (version f), true) /\
      wf_hf (set_index hf' i) /\
      voted_index hf' (u64 (h + 1)) j /\ i = Z.max (current_fork_index hf) j
  else add_versions ndebug hf db bv vv h = Val (hf, db, false).
Proof.
  intros Hwf Hv. destruct (wf_current hf Hwf) as (f & Hf & Hok & E).
  exists f. split; [done|]. unfold add_versions, do_check. rewrite E. run. run.
  destruct (_ && _); [|done]. cbn [negb]. rewrite get_effective_version_id.
  destruct (wf_window hf Hwf) as (Hc & Hfv & Hl). pose proof (wf_window_size hf Hwf) as Hw.
  destruct (trim_window_spec ndebug (window_size hf) (versions hf) (last_versions hf))
    as (lv & Et & Hc' & Hl'); try (done || lia).
  rewrite Et. run. cbv zeta. set (vs := drop _ _) in *.
  assert (wf_hf (push_vote (set_window hf vs lv) vv)) as Hwf'.
  { apply (wf_set_window (set_window hf vs lv)).
    - apply wf_set_window; [done|]. split; [done|]. split; [by apply Forall_drop|]. cbn. lia.
    - apply window_ok_push; [done|cbn; lia|done|]. cbn. split; [done|].
      split; [by apply Forall_drop|]. lia. }
  destruct (raise_index_wf _ (u64 (h + 1)) Hwf') as (i & Er & Hwi & _ & j & Hj & Hij).
  cbn [negb]. run. rewrite Er. run. exists (count_up lv vv), i, j. done.
Qed.

(** ** The database *)

#[global] Instance block_inhabited : Inhabited block := populate (mk_block 0 0).

Definition block_ok (b : block) : Prop := in_u8 (major_version b) /\ in_u8 (minor_version b).

(** Every block of the chain has an entry in the version table. *)
Record db_ok (db : BlockchainDB) : Prop := {
  db_ok_blocks : Forall block_ok (db_blocks db);
  db_ok_versions : forall h, 0 <= h < db_height db ->
    exists v, db_hf_versions db !! h = Some v /\ in_u8 v;
}.

Definition block_at (db : BlockchainDB) (h : Z) : block := db_blocks db !!! Z.to_nat h.

Lemma get_block_from_height_at (db : BlockchainDB) (h : Z) :
  0 <= h < db_height db -> get_block_from_height db h = Val (block_at db h).
Proof.
  unfold get_block_from_height, db_height, block_at. intros Hh. rewrite decide_True by lia.
  by rewrite (list_lookup_lookup_total_lt (db_blocks db)) by lia.
Qed.

Lemma block_at_ok (db : BlockchainDB) (h : Z) :
  Forall block_ok (db_blocks db) -> 0 <= h < db_height db -> block_ok (block_at db h).
Proof.
  unfold db_height, block_at. intros Hf Hh. apply (Forall_lookup_total_1 _ _ _ Hf). lia.
Qed.

Lemma get_block_vote_ok (b : block) : block_ok b -> in_u8 (get_block_vote b) /\ 0 < get_block_vote b.
Proof. intros [_ H]. unfold get_block_vote. unfold_words. zcase; lia. Qed.

Lemma set_hard_fork_version_ok (db : BlockchainDB) (h v : Z) :
  db_ok db -> in_u8 v -> db_ok (set_hard_fork_version db h v).
Proof.
  intros [Hb Hv] ?. split; [done|]. intros x Hx. cbn. destruct (decide (x = h)) as [->|].
  - exists v. by rewrite lookup_insert_eq.
  - rewrite lookup_insert_ne by done. by apply Hv.
Qed.

(** The chain with one more block, and without its newest [n]. *)
Definition push_block (db : BlockchainDB) (b : block) : BlockchainDB :=
  mk_db (db_blocks db ++ [b]) (db_hf_versions db).
Definition pop_blocks (db : BlockchainDB) (n : Z) : BlockchainDB :=
  mk_db (take (Z.to_nat (db_height db - n)) (db_blocks db)) (db_hf_versions db).

Lemma push_block_height (db : BlockchainDB) (b : block) :
  db_height (push_block db b) = db_height db + 1.
Proof. unfold db_height. cbn. rewrite length_app. cbn. lia. Qed.

Lemma pop_blocks_height (db : BlockchainDB) (n : Z) :
  0 <= n <= db_height db -> db_height (pop_blocks db n) = db_height db - n.
Proof. unfold db_height, pop_blocks. cbn. intros. rewrite length_take. unfold db_height. lia. Qed.

Lemma pop_blocks_ok (db : BlockchainDB) (n : Z) :
  0 <= n <= db_height db -> db_ok db -> db_ok (pop_blocks db n).
Proof.
  intros Hn [Hb Hv]. split; [by apply Forall_take|].
  intros h Hh. rewrite pop_blocks_height in Hh by done. apply Hv. lia.
Qed.

(** The state of both components. *)
Definition wf (s : HardFork * BlockchainDB) : Prop := wf_hf s.1 /\ db_ok s.2.

(** Both are kept by [add], which touches neither the blocks nor the setup. *)
Definition same_setup (hf hf' : HardFork) : Prop :=
  exists vs lv i, hf' = set_index (set_window hf vs lv) i.

Lemma same_setup_trans (a b c : HardFork) : same_setup a b -> same_setup b c -> same_setup a c.
Proof. intros (? & ? & ? & ->) (vs & lv & i & ->). by exists vs, lv, i. Qed.

Lemma same_setup_refl (hf : HardFork) : same_setup hf hf.
Proof. exists (versions hf), (last_versions hf), (current_fork_index hf). by destruct hf. Qed.

Lemma add_wf (ndebug : bool) (hf : HardFork) (db : BlockchainDB) (b : block) (h : Z) :
  wf_hf hf -> block_ok b ->
  exists hf' db' r, add ndebug hf db b h = Val (hf', db', r) /\ wf_hf hf' /\
    same_setup hf hf' /\ db_blocks db' = db_blocks db /\ (db_ok db -> db_ok db').
Proof.
  intros Hwf Hb. unfold add.
  destruct (add_versions_spec ndebug hf db (get_block_version b) (get_block_vote b) h Hwf)
    as (f & Hf & H); [by apply get_block_vote_ok|].
  destruct (_ && _).
  - destruct H as (lv & i & j & E & Hwf' & _). eexists _, _, _. split; [exact E|].
    split; [done|]. split; [by eexists _, _, _|]. split; [done|].
    intros Hdb. apply set_hard_fork_version_ok; [done|].
    apply (table_lookup_ok _ _ _ (wf_table hf Hwf)) in Hf as [? _]. unfold_words. lia.
  - exists hf, db, false. split; [exact H|]. split; [done|]. by split; [apply same_setup_refl|].
Qed.

Lemma add_blocks_wf (ndebug : bool) (hs : list Z) (hf : HardFork) (db : BlockchainDB) :
  wf_hf hf -> db_ok db -> Forall (fun h => 0 <= h < db_height db) hs ->
  exists hf' db', add_blocks ndebug hf db hs = Val (hf', db') /\ wf_hf hf' /\ db_ok db' /\
    same_setup hf hf' /\ db_blocks db' = db_blocks db.
Proof.
  intros Hwf Hdb Hf. revert hf db Hwf Hdb Hf. induction hs as [|h hs IH]; intros hf db Hwf Hdb Hf.
  { exists hf, db. repeat (done || split || apply same_setup_refl). }
  inversion_clear Hf as [|?? Hh Hf']. cbn [add_blocks].
  rewrite get_block_from_height_at by done. run.
  destruct (add_wf ndebug hf db (block_at db h) h) as (hf1 & db1 & r & E & Hwf1 & Hs1 & Hb1 & Hdb1);
    [done | by apply block_at_ok; [apply Hdb|] |].
  rewrite E. run. destruct (IH hf1 db1) as (hf' & db' & E' & Hwf' & Hdb' & Hs' & Hb'); auto.
  { unfold db_height. by rewrite Hb1. }
  exists hf', db'. rewrite Hb1 in Hb'. repeat (split; [done|]).
  split; [by eapply same_setup_trans | done].
Qed.

Definition votes_at (db : BlockchainDB) (hs : list Z) : list Z :=
  map (fun h => get_block_vote (block_at db h)) hs.

(** A scan appends the votes of the blocks it reads. *)
Lemma scan_votes_spec (db : BlockchainDB) (hs : list Z) (hf : HardFork) :
  window_size hf < 2 ^ 32 -> window_ok (window_size hf) (versions hf) (last_versions hf) ->
  Forall block_ok (db_blocks db) -> Forall (fun h => 0 <= h < db_height db) hs ->
  Z.of_nat (length (versions hf) + length hs) <= window_size hf ->
  exists lv, scan_votes hf db hs = Val (set_window hf (versions hf ++ votes_at db hs) lv) /\
    window_ok (window_size hf) (versions hf ++ votes_at db hs) lv.
Proof.
  intros Hw Hwin Hb Hf. revert hf Hw Hwin. induction Hf as [|h hs Hh Hf IH]; intros hf Hw Hwin Hl.
  { exists (last_versions hf). cbn. rewrite app_nil_r. split; [by destruct hf|done]. }
  cbn [scan_votes length] in *. rewrite get_block_from_height_at by done. run.
  rewrite get_effective_version_id.
  destruct (get_block_vote_ok (block_at db h)) as [Hv _]; [by apply block_at_ok|].
  set (v := get_block_vote (block_at db h)) in *.
  destruct (IH (push_vote hf v)) as (lv & E & Hok).
  - done.
  - cbn. apply window_ok_push; (done || lia).
  - cbn. rewrite length_app. cbn. lia.
  - exists lv. cbn [votes_at map]. fold v. rewrite (cons_middle v).
    rewrite app_assoc. split; [exact E | exact Hok].
Qed.

(** ** The searches in the table *)

Lemma search_down_spec (stop : hardfork_t -> bool) (l : list hardfork_t) (i : nat) :
  (i < length l)%nat ->
  exists j, search_down stop l i = Val (Z.of_nat j) /\ (j <= i)%nat /\
    (j = 0%nat \/ exists f, l !! j = Some f /\ stop f = true) /\
    forall k f, (j < k <= i)%nat -> l !! k = Some f -> stop f = false.
Proof.
  induction i as [|i IH]; intros Hi; cbn [search_down].
  { exists 0%nat. split; [done|]. split; [done|]. split; [by left|]. lia. }
  destruct (lookup_lt_is_Some_2 l (S i) Hi) as [f Hf].
  rewrite (c_index_lookup _ _ f); [run | lia | by rewrite Nat2Z.id].
  destruct (stop f) eqn:E.
  - exists (S i). split; [done|]. split; [done|]. split; [right; by exists f|]. lia.
  - destruct IH as (j & Ej & Hj & Hstop & Hno); [lia|]. exists j. split; [done|]. split; [lia|].
    split; [done|]. intros k g Hk Hg. destruct (decide (k = S i)) as [->|]; [congruence|].
    apply (Hno k g); [lia|done].
Qed.

Lemma find_version_spec (l : list hardfork_t) (lastv i : Z) :
  l <> [] ->
  exists k, find_version l lastv i = i + Z.of_nat k /\ (k < length l)%nat /\
    (S k = length l \/ exists f, l !! k = Some f /\ version f = lastv) /\
    forall j f, (j < k)%nat -> l !! j = Some f -> version f <> lastv.
Proof.
  revert i. induction l as [|f l IH]; intros i Hl; [done|]. cbn [find_version].
  destruct l as [|g l].
  { exists 0%nat. split; [lia|]. split; [cbn; lia|]. split; [by left|]. lia. }
  destruct (Z.eqb_spec (version f) lastv) as [E|E].
  - exists 0%nat. split; [lia|]. split; [cbn; lia|]. split; [right; by exists f|]. lia.
  - destruct (IH (i + 1)) as (k & Ek & Hk & Hstop & Hno); [done|].
    exists (S k). split; [rewrite Ek; lia|]. split; [cbn in *; lia|].
    split; [destruct Hstop as [?|?]; [left; cbn in *; lia|by right]|].
    intros [|j] h Hj Hh; [cbn in Hh; congruence|]. apply (Hno j h); [lia|done].
Qed.

(** ** The compound operations return and keep well-formedness *)

(** The heights read by [reorganize_from_block_height]. *)
Definition window_start (w h : Z) : Z := if w - 1 <=? h then h - (w - 1) else 0.

Lemma seqZ_range (m n t : Z) :
  0 <= m -> m + n <= t -> Forall (fun h => 0 <= h < t) (seqZ m n).
Proof. intros. apply Forall_forall. intros h Hh%elem_of_seqZ. lia. Qed.

Lemma wf_clear (hf : HardFork) : wf_hf hf -> wf_hf (clear_window hf).
Proof. intros Hwf. apply wf_set_window; [done|]. apply window_ok_empty, Hwf. Qed.

(** The part of [reorganize_from_block_height] before the blocks are added again. *)
Lemma reorganize_prefix (hf : HardFork) (db : BlockchainDB) (h sv : Z) :
  wf_hf hf -> db_ok db -> 0 <= h < db_height db ->
  exists lv (i : nat) hf', let r := window_start (window_size hf) h in
    lower_index (heights hf) sv (Z.to_nat (current_fork_index hf)) = Val (Z.of_nat i) /\
    scan_votes (set_index (clear_window hf) (Z.of_nat i)) db (seqZ r (h + 1 - r)) = Val hf' /\
    hf' = set_index (set_window hf (votes_at db (seqZ r (h + 1 - r))) lv) (Z.of_nat i) /\
    wf_hf hf'.
Proof.
  intros Hwf Hdb Hh. pose proof (wf_index hf Hwf) as Hi. pose proof (wf_window_size hf Hwf) as Hw.
  destruct (search_down_spec (fun f => negb (sv <? version f)) (heights hf)
              (Z.to_nat (current_fork_index hf))) as (i & Ei & Hle & _); [lia|].
  set (r := window_start (window_size hf) h).
  assert (0 <= r <= h /\ h + 1 - r <= window_size hf) as Hr.
  { unfold r, window_start. zcase; lia. }
  destruct (scan_votes_spec db (seqZ r (h + 1 - r)) (set_index (clear_window hf) (Z.of_nat i)))
    as (lv & E & Hok).
  - cbn. lia.
  - cbn. apply window_ok_empty. lia.
  - apply Hdb.
  - apply seqZ_range; lia.
  - cbn. rewrite length_seqZ. lia.
  - eexists lv, i, _. split; [exact Ei|]. split; [exact E|]. split; [done|].
    apply (wf_set_window (set_index (clear_window hf) (Z.of_nat i))); [|exact Hok].
    apply wf_set_index; [by apply wf_clear|]. cbn. lia.
Qed.

Lemma window_start_machine (w h : Z) :
  0 < w < 2 ^ 32 -> (if u64 (w - 1) <=? h then h - u64 (w - 1) else 0) = window_start w h.
Proof. intros Hw. unfold window_start, u64. rewrite Z.mod_small by lia. done. Qed.

Lemma reorganize_block_wf (ndebug : bool) (hf : HardFork) (db : BlockchainDB) (h : Z) :
  wf_hf hf -> db_ok db -> in_u8 (original_version hf) -> 0 <= h ->
  exists hf' db' r, reorganize_from_block_height ndebug hf db h = Val (hf', db', r) /\
    wf_hf hf' /\ db_ok db' /\ same_setup hf hf' /\ db_blocks db' = db_blocks db.
Proof.
  intros Hwf Hdb Ho Hh. unfold reorganize_from_block_height.
  destruct (Z.leb_spec (db_height db) h) as [Hle|Hlt].
  { exists hf, db, false. repeat (done || split || apply same_setup_refl). }
  cbv zeta. change (window_size (clear_window hf)) with (window_size hf).
  change (original_version (clear_window hf)) with (original_version hf).
  change (heights (clear_window hf)) with (heights hf).
  change (current_fork_index (clear_window hf)) with (current_fork_index hf).
  rewrite window_start_machine by apply Hwf.
  assert (exists sv, (if h =? 0 then Val (original_version hf) else get_hard_fork_version db h) = Val sv)
    as [sv Esv].
  { zcase; [by eexists|]. unfold get_hard_fork_version.
    destruct (db_ok_versions db Hdb h) as (v & -> & _); [lia|]. by eexists. }
  rewrite Esv. run.
  destruct (reorganize_prefix hf db h sv) as (lv & i & hf1 & Ei & Es & E1 & Hwf1); [done..|lia|].
  cbv zeta in *. rewrite Ei. run. rewrite Es. run.
  destruct (raise_index_wf hf1 (u64 (h + 1)) Hwf1) as (i2 & E2 & Hwf2 & _). rewrite E2. run.
  destruct (add_blocks_wf ndebug (seqZ (h + 1) (db_height db - (h + 1))) (set_index hf1 i2) db)
    as (hf3 & db3 & E3 & Hwf3 & Hdb3 & Hs3 & Hb3); [done..| apply seqZ_range; lia |].
  rewrite E3. run. exists hf3, db3, true. repeat (split; [done|]). split; [|done].
  eapply same_setup_trans; [|exact Hs3]. subst hf1. by eexists _, _, _.
Qed.

(** The object [init] starts from: a placeholder fork when none is entered. *)
Definition with_placeholder (hf : HardFork) : HardFork :=
  match heights hf with
  | [] => set_heights hf [mk_hardfork_t (original_version hf) 0 0 0]
  | _ => hf
  end.

(** What the constructor and [add_fork] guarantee before [init]. *)
Record entered (hf : HardFork) : Prop := {
  entered_table : table_ok (heights hf);
  entered_window_size : 0 < window_size hf < 2 ^ 32;
  entered_original : 0 < original_version hf < 2 ^ 8;
}.

Lemma with_placeholder_ok (hf : HardFork) :
  entered hf -> entered (with_placeholder hf) /\ heights (with_placeholder hf) <> [].
Proof.
  intros [Ht Hw Ho]. unfold with_placeholder. destruct (heights hf) eqn:E.
  - split; [|done]. constructor; cbn; [|done..]. split; [repeat constructor|].
    constructor; [|constructor]. repeat split; cbn; lia.
  - split; [constructor; by rewrite ?E | by rewrite E].
Qed.

(** [init] loads the votes of the newest [window_size] blocks and returns. *)
Lemma init_spec (hf : HardFork) (db : BlockchainDB) :
  entered hf -> db_ok db ->
  let hf0 := with_placeholder hf in
  let start := Z.max 0 (db_height db - window_size hf) in
  exists lv i,
    let hf' := set_window hf0 (votes_at db (seqZ start (db_height db - start))) lv in
    init hf db = Val (set_index hf' i) /\ wf_hf (set_index hf' i) /\
    ((db_height db = 0 /\ i = 0) \/
     exists v k j, db_height db <> 0 /\ db_hf_versions db !! (db_height db - 1) = Some v /\
       k = find_version (heights hf0) v 0 /\ voted_index (set_index hf' k) (db_height db) j /\
       i = Z.max k j).
Proof.
  intros He Hdb. cbv zeta. unfold init. fold (with_placeholder hf).
  destruct (with_placeholder_ok hf He) as [[Ht Hw Ho] Hne].
  assert (window_size (with_placeholder hf) = window_size hf) as Ew.
  { unfold with_placeholder. by destruct (heights hf). }
  set (hf0 := with_placeholder hf) in *. clearbody hf0. rewrite <- Ew. clear Ew He hf.
  cbv zeta. change (window_size (set_index (clear_window hf0) 0)) with (window_size hf0).
  set (start := Z.max 0 (db_height db - window_size hf0)).
  assert (0 < length (heights hf0))%nat as Hlen by (destruct (heights hf0); [done|cbn; lia]).
  unfold rescan_from_chain_height. pose proof (Zle_0_nat (length (db_blocks db))).
  replace (if window_size hf0 <? db_height db then _ else 1) with (start + 1)
    by (unfold start, db_height in *; zcase; lia).
  rewrite (proj2 (Z.eqb_neq (start + 1) 0)) by lia. replace (start + 1 - 1) with start by lia.
  unfold rescan_from_block_height. destruct (Z.leb_spec (db_height db) start) as [Hle|Hlt].
  { assert (db_height db = 0) as E by (unfold start, db_height in *; lia).
    run. exists (replicate 256 0), 0. rewrite E. unfold start. rewrite E, Z.max_l by lia.
    split; [done|]. split; [|by left]. constructor; cbn; [done..| |lia]. apply window_ok_empty. lia. }
  destruct (scan_votes_spec db (seqZ start (db_height db - start)) (set_index (clear_window hf0) 0))
    as (lv & E & Hok); [cbn; lia | cbn; apply window_ok_empty; lia | apply Hdb | |
                        cbn; rewrite length_seqZ; lia |].
  { apply seqZ_range; lia. }
  change (clear_window (set_index (clear_window hf0) 0)) with (set_index (clear_window hf0) 0).
  rewrite E. run. destruct (db_ok_versions db Hdb (db_height db - 1)) as (v & Ev & Hv); [lia|].
  unfold get_hard_fork_version. rewrite Ev. run.
  change (versions (set_index (clear_window hf0) 0)) with (@nil Z) in *. rewrite app_nil_l in *.
  set (hf' := set_window _ _ lv) in *. change (heights hf') with (heights hf0).
  destruct (find_version_spec (heights hf0) v 0 Hne) as (k & Ek & Hk & _). rewrite Ek.
  destruct (raise_index_wf (set_index hf' (0 + Z.of_nat k)) (db_height db))
    as (i & Er & Hwf & _ & j & Hj & ->).
  { apply wf_set_index; [|cbn; lia]. by constructor; cbn; [..|lia]. }
  rewrite Er. run. eexists lv, _. split; [reflexivity|]. split; [exact Hwf|]. right.
  exists v, (0 + Z.of_nat k), j. split; [lia|]. done.
Qed.

Lemma pop_loop_spec (db : BlockchainDB) (n : nat) (top w : Z) (vs lv : list Z) :
  0 < db_height db -> top = db_height db + Z.of_nat n - 1 -> in_u64 (top + 1) -> w < 2 ^ 32 ->
  (forall h, 0 <= h <= top -> exists v, db_hf_versions db !! h = Some v /\ in_u8 v) ->
  vs <> [] -> window_ok w vs lv ->
  exists vs' lv', pop_loop n db (db_height db) top vs lv = Val (vs', lv') /\
    length vs' = length vs /\ window_ok w vs' lv'.
Proof.
  intros Hpos. revert top vs lv. induction n as [|n IH]; intros top vs lv -> Htop Hw Hdb Hne Hok;
    cbn [pop_loop].
  { rewrite (proj2 (Z.leb_gt _ _)) by lia. by exists vs, lv. }
  rewrite (proj2 (Z.leb_le _ _)) by lia.
  destruct (last vs) as [v|] eqn:E; [|by apply last_None in E].
  apply last_Some in E as [ws ->]. rewrite removelast_last.
  destruct Hok as (Hc & Hf & Hl). rewrite length_app in *. cbn [length] in *.
  apply Forall_app in Hf as [Hfw Hfv]. apply Forall_inv in Hfv.
  destruct (Hdb (db_height db + Z.of_nat (S n) - 1)) as (x & Ex & Hx); [lia|].
  unfold get_hard_fork_version. rewrite Ex. run.
  destruct (IH (db_height db + Z.of_nat n - 1) (x :: ws) (count_up (count_down lv v) x))
    as (vs' & lv' & E' & Hl' & Hok'); [done | unfold_words; lia | done | | done | |].
  { intros h Hh. apply Hdb. lia. }
  { split; [|by split; [constructor | cbn; lia]].
    apply counts_up_cons; [done|lia|]. apply counts_down; [done|lia|].
    eapply counts_perm; [|done]. symmetry. apply Permutation_cons_append. }
  exists vs', lv'. rewrite u64_small by (unfold_words; lia).
  replace (db_height db + Z.of_nat (S n) - 1 - 1) with (db_height db + Z.of_nat n - 1) by lia.
  split; [done|]. split; [cbn in Hl'; lia|done].
Qed.

Lemma on_block_popped_wf (hf : HardFork) (db : BlockchainDB) (n : Z) :
  wf_hf hf -> versions hf <> [] -> db_ok db -> in_u64 (db_height db) -> 0 < n < db_height db ->
  exists vs lv (i : nat), let hf' := set_index (set_window hf vs lv) (Z.of_nat i) in
    on_block_popped hf (pop_blocks db n) n = Val hf' /\ wf_hf hf' /\ vs <> [] /\
    height_index (heights hf) (db_height db - n) (pred (length (heights hf))) = Val (Z.of_nat i).
Proof.
  intros Hwf Hne Hdb Hh Hn. unfold on_block_popped.
  rewrite (proj2 (Z.eqb_neq n 0)) by lia. cbv zeta.
  pose proof (pop_blocks_height db n ltac:(lia)) as Eh.
  destruct (pop_loop_spec (pop_blocks db n) (Z.to_nat n) (db_height db - 1) (window_size hf)
              (versions hf) (last_versions hf)) as (vs & lv & E & Hl & Hok).
  - lia.
  - lia.
  - unfold_words; lia.
  - apply Hwf.
  - cbn. intros h Hx. apply Hdb. lia.
  - done.
  - apply Hwf.
  - rewrite (u64_small (_ + n)) by (rewrite Eh; unfold_words; lia).
    rewrite u64_small by (rewrite Eh; unfold_words; lia).
    replace (db_height (pop_blocks db n) + n - 1) with (db_height db - 1) by lia.
    rewrite E. run. pose proof (wf_index hf Hwf).
    destruct (search_down_spec (fun f => height f <=? db_height db - n) (heights hf)
                (pred (length (heights hf)))) as (i & Ei & Hi & _); [lia|].
    rewrite Eh. unfold height_index. rewrite Ei. run. exists vs, lv, i. split; [done|].
    split; [|split; [|done]].
    + apply wf_set_index; [by apply wf_set_window | cbn; lia].
    + intros ->. cbn in Hl. by destruct (versions hf).
Qed.

(** ** Histories

    The blockchain adds a block and hands it to [add], pops blocks and calls
    [on_block_popped] (never down to an empty chain), asks for a reorganisation,
    or initialises the object again. *)

Inductive hf_step (ndebug : bool) : relation (HardFork * BlockchainDB) :=
  | step_add hf db b hf' db' :
      block_ok b -> in_u64 (db_height db + 1) ->
      add ndebug hf (push_block db b) b (db_height db) = Val (hf', db', true) ->
      hf_step ndebug (hf, db) (hf', db')
  | step_pop hf db n hf' :
      0 < n < db_height db -> on_block_popped hf (pop_blocks db n) n = Val hf' ->
      hf_step ndebug (hf, db) (hf', pop_blocks db n)
  | step_reorganize hf db h hf' db' r :
      0 <= h -> reorganize_from_chain_height ndebug hf db h = Val (hf', db', r) ->
      hf_step ndebug (hf, db) (hf', db')
  | step_init hf db hf' :
      init hf db = Val hf' -> hf_step ndebug (hf, db) (hf', db).

Record good (s : HardFork * BlockchainDB) : Prop := {
  good_hf : wf_hf s.1;
  good_db : db_ok s.2;
  good_original : 0 < original_version s.1 < 2 ^ 8;
  good_votes : db_height s.2 <> 0 -> versions s.1 <> [];
  good_height : in_u64 (db_height s.2);
}.

Lemma good_entered (s : HardFork * BlockchainDB) : good s -> entered s.1.
Proof. intros [[] ? ? ? ?]. by constructor. Qed.

Lemma db_height_nonneg (db : BlockchainDB) : 0 <= db_height db.
Proof. apply Nat2Z.is_nonneg. Qed.

Lemma push_entry_ok (db : BlockchainDB) (b : block) (v : Z) :
  db_ok db -> block_ok b -> in_u8 v ->
  db_ok (set_hard_fork_version (push_block db b) (db_height db) v).
Proof.
  intros [Hb Hv] ? ?. split; [by apply Forall_app; split; [|constructor]|].
  intros h Hh. change (db_height (set_hard_fork_version _ _ _)) with (db_height (push_block db b)) in Hh.
  rewrite push_block_height in Hh. cbn. destruct (decide (h = db_height db)) as [->|].
  - exists v. by rewrite lookup_insert_eq.
  - rewrite lookup_insert_ne by done. apply Hv. lia.
Qed.

Lemma init_good (hf hf' : HardFork) (db : BlockchainDB) :
  entered hf -> db_ok db -> in_u64 (db_height db) -> init hf db = Val hf' -> good (hf', db).
Proof.
  intros He Hdb Hh E. destruct (init_spec hf db He Hdb) as (lv & i & E' & Hwf & _).
  rewrite E' in E. injection E as <-. pose proof (entered_original hf He) as Ho.
  constructor; cbn [fst snd]; [done..| | |done].
  - cbn. unfold with_placeholder. destruct (heights hf); done.
  - intros Hn Hv. cbn in Hv. apply (f_equal length) in Hv. pose proof (entered_window_size hf He).
    unfold votes_at in Hv. rewrite length_map, length_seqZ in Hv.
    pose proof (db_height_nonneg db). cbn in Hv. lia.
Qed.

Lemma good_same_setup (hf hf' : HardFork) (db db' : BlockchainDB) :
  good (hf, db) -> same_setup hf hf' -> wf_hf hf' -> db_ok db' -> db_blocks db' = db_blocks db ->
  (db_height db <> 0 -> versions hf' <> []) -> good (hf', db').
Proof.
  intros Hg (vs & lv & i & ->) Hwf Hdb Hb Hv. constructor; cbn [fst snd]; [done..|apply Hg| |].
  - unfold db_height. rewrite Hb. done.
  - unfold db_height. rewrite Hb. apply Hg.
Qed.

(** A reorganisation reads at least one block, so the window is not left empty. *)
Lemma add_blocks_nonempty (ndebug : bool) (hs : list Z) (hf hf' : HardFork) (db db' : BlockchainDB) :
  wf_hf hf -> db_ok db -> Forall (fun h => 0 <= h < db_height db) hs -> versions hf <> [] ->
  add_blocks ndebug hf db hs = Val (hf', db') -> versions hf' <> [].
Proof.
  revert hf db. induction hs as [|h hs IH]; intros hf db Hwf Hdb Hf Hne E.
  { by injection E as <- <-. }
  inversion_clear Hf as [|?? Hh Hf']. cbn [add_blocks] in E.
  rewrite get_block_from_height_at in E by done. rewrite bind_val in E.
  pose proof (block_at_ok db h (db_ok_blocks db Hdb) Hh) as Hb.
  destruct (add_wf ndebug hf db (block_at db h) h Hwf Hb)
    as (hf1 & db1 & r & E1 & Hwf1 & _ & Hb1 & Hdb1).
  rewrite E1, bind_val in E. apply (IH hf1 db1); auto; [by unfold db_height; rewrite Hb1|].
  clear E IH. unfold add in E1.
  destruct (add_versions_spec ndebug hf db (get_block_version (block_at db h))
              (get_block_vote (block_at db h)) h Hwf) as (f & _ & H); [by apply get_block_vote_ok|].
  destruct (_ && _).
  - destruct H as (lv & i & j & H & _). rewrite H in E1. injection E1 as <- <- <-.
    cbn. unfold slide. by destruct (drop _ _).
  - rewrite H in E1. by injection E1 as <- <- <-.
Qed.

Lemma reorganize_good (ndebug : bool) (hf : HardFork) (db : BlockchainDB) (h : Z) :
  good (hf, db) -> 0 <= h ->
  exists hf' db' r, reorganize_from_chain_height ndebug hf db h = Val (hf', db', r) /\ good (hf', db').
Proof.
  intros Hg Hh. unfold reorganize_from_chain_height. destruct (Z.eqb_spec h 0) as [->|Hn].
  { by exists hf, db, false. }
  pose proof Hg as [Hwf Hdb Ho Hv Hu]. cbn [fst snd] in *.
  destruct (reorganize_block_wf ndebug hf db (h - 1)) as (hf' & db' & r & E & Hwf' & Hdb' & Hs & Hb);
    [done..| unfold_words; lia | lia |].
  exists hf', db', r. split; [done|]. apply (good_same_setup hf hf' db db'); try done.
  intros Hz. specialize (Hv Hz). revert E. unfold reorganize_from_block_height.
  destruct (Z.leb_spec (db_height db) (h - 1)); [by intros [= <- _ _]|]. cbv zeta.
  change (window_size (clear_window hf)) with (window_size hf).
  change (heights (clear_window hf)) with (heights hf).
  change (current_fork_index (clear_window hf)) with (current_fork_index hf).
  rewrite window_start_machine by apply Hwf.
  destruct (if h - 1 =? 0 then _ else _) as [sv| | | |]; try done. run.
  destruct (reorganize_prefix hf db (h - 1) sv) as (lv & i & hf1 & Ei & Es & E1 & Hwf1); [done..|lia|].
  cbv zeta in *. rewrite Ei. run. rewrite Es. run.
  destruct (raise_index_wf hf1 (u64 (h - 1 + 1)) Hwf1) as (i2 & E2 & Hwf2 & _). rewrite E2. run.
  destruct (add_blocks _ _ _ _) as [[hf3 db3]| | | |] eqn:E3; try done. run. intros [= -> -> _].
  eapply add_blocks_nonempty in E3; [done | done | done | apply seqZ_range; lia |].
  subst hf1. cbn. unfold votes_at. set (r' := window_start _ _). intros Hnil%(f_equal length).
  rewrite length_map, length_seqZ in Hnil. cbn in Hnil.
  assert (r' <= h - 1) by (unfold r', window_start; pose proof (wf_window_size hf Hwf); zcase; lia). lia.
Qed.

Lemma add_total (ndebug : bool) (hf : HardFork) (db : BlockchainDB) (b : block) :
  good (hf, db) -> block_ok b ->
  exists hf' db' r, add ndebug hf (push_block db b) b (db_height db) = Val (hf', db', r) /\
    (r = true -> in_u64 (db_height db + 1) -> good (hf', db')).
Proof.
  intros Hg Hb. pose proof Hg as [Hwf Hdb Ho Hv Hu]. cbn [fst snd] in *. unfold add.
  destruct (add_versions_spec ndebug hf (push_block db b) (get_block_version b) (get_block_vote b)
              (db_height db) Hwf) as (f & Hf & H); [by apply get_block_vote_ok|].
  destruct (_ && _); [|by exists hf, (push_block db b), false].
  destruct H as (lv & i & j & E & Hwf' & _). eexists _, _, _. split; [exact E|].
  intros _ Hu'. constructor; cbn [fst snd]; [done| |done| |].
  - apply push_entry_ok; try done.
    apply (table_lookup_ok _ _ _ (wf_table hf Hwf)) in Hf as [? _]. unfold_words. lia.
  - intros _. cbn. unfold slide. by destruct (drop _ _).
  - change (in_u64 (db_height (push_block db b))). by rewrite push_block_height.
Qed.

Lemma pop_total (hf : HardFork) (db : BlockchainDB) (n : Z) :
  good (hf, db) -> 0 < n < db_height db ->
  exists hf', on_block_popped hf (pop_blocks db n) n = Val hf' /\ good (hf', pop_blocks db n).
Proof.
  intros Hg Hn. pose proof Hg as [Hwf Hdb Ho Hv Hu]. cbn [fst snd] in *.
  destruct (on_block_popped_wf hf db n) as (vs & lv & i & E & Hwf' & Hvs & _); [done|apply Hv; lia|done..|].
  eexists. split; [exact E|]. constructor; cbn [fst snd]; [done| |done|done|].
  - by apply pop_blocks_ok; [lia|].
  - rewrite pop_blocks_height by lia. unfold_words. lia.
Qed.

Lemma good_step (ndebug : bool) (s s' : HardFork * BlockchainDB) :
  good s -> hf_step ndebug s s' -> good s'.
Proof.
  intros Hg Hs. destruct Hs as [hf db b hf' db' Hb Hu E|hf db n hf' Hn E|hf db h hf' db' r Hh E|hf db hf' E].
  - destruct (add_total ndebug hf db b Hg Hb) as (? & ? & ? & E' & H).
    rewrite E' in E. injection E as -> -> ->. by apply H.
  - destruct (pop_total hf db n Hg Hn) as (? & E' & H). rewrite E' in E. by injection E as ->.
  - destruct (reorganize_good ndebug hf db h Hg Hh) as (? & ? & ? & E' & H).
    rewrite E' in E. by injection E as -> -> ->.
  - apply (init_good hf hf' db); [apply (good_entered _ Hg) | apply Hg | apply Hg | done].
Qed.

Lemma good_reachable (ndebug : bool) (s s' : HardFork * BlockchainDB) :
  good s -> rtc (hf_step ndebug) s s' -> good s'.
Proof. intros Hg Hr. induction Hr; eauto using good_step. Qed.

Lemma last_lookup_le (l : list hardfork_t) (g : hardfork_t) :
  table_ok l -> last l = Some g -> Forall (fun f => f = g \/ fork_lt f g) l.
Proof.
  intros [Hs _] [k ->]%last_Some. apply Forall_app. split; [|by constructor; [left|constructor]].
  apply Forall_forall. intros f [i Hi]%list_elem_of_lookup. right.
  apply (StronglySorted_lookup_rel fork_lt (k ++ [g]) i (length k)); [done| | |].
  - by apply lookup_lt_Some in Hi.
  - by apply lookup_app_l_Some.
  - by apply list_lookup_middle.
Qed.

(** [add_fork] refuses whatever would break the order of the table. *)
Lemma add_fork_entered (hf : HardFork) (v h thr t : Z) :
  entered hf -> in_u8 v -> in_u64 h -> in_u8 thr -> entered (add_fork hf v h thr t).1.
Proof.
  intros He Hv Hh Hthr. pose proof He as [Ht Hw Ho]. unfold add_fork.
  destruct (Z.eqb_spec v 0); [done|].
  match goal with |- context [if ?c then _ else if 100 <? _ then _ else _] => destruct c eqn:E end; [done|].
  destruct (Z.ltb_spec 100 thr); [done|]. constructor; cbn [fst set_heights heights window_size original_version];
    [|done..]. set (g := mk_hardfork_t v h thr t).
  assert (Forall (fun f => fork_lt f g) (heights hf)) as Hlt.
  { destruct (last (heights hf)) as [f|] eqn:El; [|by apply last_None in El as ->].
    apply orb_false_iff in E as [[E1 E2]%orb_false_iff E3].
    apply Z.leb_gt in E1, E2, E3. eapply Forall_impl; [by apply last_lookup_le|].
    intros x [->|(?&?&?)]; unfold fork_lt in *; cbn; lia. }
  destruct Ht as [Hs Hok]. split.
  - clear -Hs Hlt. induction Hs as [|x l Hs IH Hx]; cbn; [repeat constructor|].
    inversion_clear Hlt. constructor; [by apply IH|]. apply Forall_app. split; [done|]. by constructor.
  - apply Forall_app. split; [done|]. constructor; [|constructor]. split; cbn; [unfold_words; lia|].
    split; [done|]. unfold_words. lia.
Qed.

Lemma enter_forks_entered (l : list hardfork_t) (hf : HardFork) :
  entered hf -> Forall (fun f => in_u8 (version f) /\ in_u64 (height f) /\ in_u8 (threshold f)) l ->
  entered (enter_forks hf l).
Proof.
  intros He Hf. revert hf He. induction Hf as [|f l (? & ? & ?) Hf IH]; intros hf He; [done|].
  cbn. apply IH. by apply add_fork_entered.
Qed.

Lemma new_HardFork_entered (ov till ft ut w d : Z) (mem : list Z) (hf : HardFork) :
  0 < ov < 2 ^ 8 -> 0 <= w < 2 ^ 32 -> new_HardFork ov till ft ut w d mem = Val hf -> entered hf.
Proof.
  intros Ho Hw. unfold new_HardFork. destruct (Z.eqb_spec w 0); [done|].
  destruct (100 <? d); [done|]. intros [= <-]. constructor; cbn; [|lia|done].
  repeat constructor.
Qed.

(** C16. An object that is constructed, given any list of forks through [add_fork]
    and initialised on any database stays well-formed through every sequence of
    added blocks, pops, reorganisations and re-initialisations: the table is
    strictly ordered, [last_versions] counts exactly the votes of a window of at
    most [window_size], and the current index is a fork of the table.  In every
    such state each operation returns: no index out of range, no missing
    database entry, no failed assertion and no endless loop. *)
Theorem hardfork_reachable (ndebug : bool) (ov till ft ut w d : Z) (mem : list Z)
    (forks : list hardfork_t) (hf0 hf1 : HardFork) (db0 : BlockchainDB) (s : HardFork * BlockchainDB) :
  0 < ov < 2 ^ 8 -> 0 <= w < 2 ^ 32 -> new_HardFork ov till ft ut w d mem = Val hf0 ->
  Forall (fun f => in_u8 (version f) /\ in_u64 (height f) /\ in_u8 (threshold f)) forks ->
  db_ok db0 -> in_u64 (db_height db0) -> init (enter_forks hf0 forks) db0 = Val hf1 ->
  rtc (hf_step ndebug) (hf1, db0) s ->
  wf s /\
  (forall b, block_ok b -> exists r, add ndebug s.1 (push_block s.2 b) b (db_height s.2) = Val r) /\
  (forall b, exists r, check s.1 b = Val r) /\
  (forall b h, exists r, check_for_height s.1 b h = Val r) /\
  (forall h, 0 <= h -> exists r, reorganize_from_chain_height ndebug s.1 s.2 h = Val r) /\
  (forall n, 0 < n < db_height s.2 -> exists hf, on_block_popped s.1 (pop_blocks s.2 n) n = Val hf) /\
  (exists hf, init s.1 s.2 = Val hf) /\
  (forall h, 0 <= h <= db_height s.2 -> exists v, get ndebug s.1 s.2 h = Val v).
Proof.
  intros Ho Hw E0 Hforks Hdb0 Hu0 E1 Hr.
  assert (good s) as Hg.
  { eapply good_reachable; [|exact Hr]. apply (init_good (enter_forks hf0 forks)); try done.
    apply enter_forks_entered; [|done]. by eapply new_HardFork_entered. }
  destruct s as [hf db]. cbn [fst snd]. pose proof Hg as [Hwf Hdb _ _ _]. cbn [fst snd] in *.
  split; [done|]. split.
  { intros b Hb. destruct (add_total ndebug hf db b Hg Hb) as (? & ? & ? & E & _). by eexists. }
  destruct (wf_current hf Hwf) as (f & _ & _ & Ef). split.
  { intros b. unfold check, do_check. rewrite Ef. run. by eexists. }
  split.
  { intros b h. unfold check_for_height, do_check_for_height.
    destruct (get_voted_fork_index_spec hf h) as (i & Ei & Hi); try apply Hwf. rewrite Ei. run.
    rewrite c_index_total by (by eapply voted_index_range). run. by eexists. }
  split.
  { intros h Hh. destruct (reorganize_good ndebug hf db h Hg Hh) as (? & ? & ? & E & _). by eexists. }
  split.
  { intros n Hn. destruct (pop_total hf db n Hg Hn) as (? & E & _). by eexists. }
  split.
  { destruct (init_spec hf db) as (? & ? & E & _); [apply (good_entered _ Hg) | done |]. by eexists. }
  intros h Hh. unfold get. rewrite (proj2 (Z.ltb_ge _ _)) by lia. zcase.
  - unfold get_current_version. rewrite Ef. run. by eexists.
  - unfold get_hard_fork_version. destruct (db_ok_versions db Hdb h) as (v & -> & _); [lia|]. by eexists.
Qed.

(** ** Fork tables without voting

    Every network of the chain uses zero thresholds.  Then the votes do not
    matter and the version of a height is a function of the table. *)

(** The last fork at or below a height, by counting. *)
Definition forks_below (l : list hardfork_t) (h : Z) : nat :=
  length (filter (fun f => height f <= h) l).
Definition fork_index_at (l : list hardfork_t) (h : Z) : nat := pred (forks_below l h).

Definition scheduled (hf : HardFork) (h : Z) : Z :=
  version (heights hf !!! fork_index_at (heights hf) h).

Lemma filter_heights (l : list hardfork_t) (n : nat) (f : hardfork_t) (h : Z) :
  table_ok l -> l !! n = Some f ->
  (height f <= h <-> (n < forks_below l h)%nat).
Proof.
  intros [Hs _]. revert n. induction Hs as [|x l Hs IH Hx]; intros n Hf; [done|].
  unfold forks_below in *. rewrite filter_cons. case_decide as Hd.
  - destruct n as [|n]; cbn in *; [injection Hf as ->; split; (done || lia)|].
    rewrite (IH n Hf). lia.
  - replace (filter _ l) with (@nil hardfork_t).
    + cbn. destruct n as [|n]; cbn in Hf; [injection Hf as ->; lia|].
      eapply Forall_lookup_1 in Hx; [|done]. destruct Hx as (_ & ? & _). lia.
    + clear -Hx Hd. induction Hx as [|y l Hy Hx IH]; [done|].
      rewrite filter_cons_False; [done|]. destruct Hy as (_ & ? & _). lia.
Qed.

Lemma fork_index_at_lt (l : list hardfork_t) (h : Z) : l <> [] -> (fork_index_at l h < length l)%nat.
Proof.
  intros Hl. unfold fork_index_at, forks_below. pose proof (length_filter (fun f => height f <= h) l).
  destruct l; [done|]. cbn [length] in *. lia.
Qed.

Lemma fork_index_at_unique (l : list hardfork_t) (h : Z) (n : nat) :
  table_ok l -> (n < length l)%nat ->
  (n = 0%nat \/ exists f, l !! n = Some f /\ height f <= h) ->
  (forall k f, (n < k)%nat -> l !! k = Some f -> h < height f) -> fork_index_at l h = n.
Proof.
  intros Ht Hn Hle Hgt. unfold fork_index_at.
  assert (n = 0%nat \/ (n < forks_below l h)%nat) as Hlow.
  { destruct Hle as [?|(f & Hf & Hh)]; [by left|right]. by apply (filter_heights l n f). }
  enough (forks_below l h <= S n)%nat by lia.
  destruct (l !! S n) as [g|] eqn:Hg.
  - pose proof (filter_heights l (S n) g h Ht Hg). specialize (Hgt (S n) g ltac:(lia) Hg). lia.
  - apply lookup_ge_None in Hg. unfold forks_below.
    pose proof (length_filter (fun f => height f <= h) l). lia.
Qed.

Lemma fork_index_at_mono (l : list hardfork_t) (h h' : Z) :
  h <= h' -> (fork_index_at l h <= fork_index_at l h')%nat.
Proof.
  intros Hh. unfold fork_index_at, forks_below. apply Nat.pred_le_mono.
  induction l as [|f l IH]; [done|]. rewrite !filter_cons. repeat case_decide; cbn; lia.
Qed.

Lemma fork_index_at_0 (l : list hardfork_t) : table_ok l -> l <> [] -> fork_index_at l 0 = 0%nat.
Proof.
  intros Ht Hl. destruct l as [|x l]; [done|]. apply fork_index_at_unique; [done|cbn; lia|by left|].
  intros k f Hk Hf. destruct (table_lookup_lt (x :: l) 0 k x f) as (_ & ? & _); [done..|].
  assert (fork_ok x) as (_ & ? & _) by (eapply (table_lookup_ok _ 0); done).
  unfold_words. lia.
Qed.

(** A fork at or below the height counts for the search, so its index bounds the result. *)
Lemma fork_index_at_ge (l : list hardfork_t) (h : Z) (n : nat) (f : hardfork_t) :
  table_ok l -> l !! n = Some f -> height f <= h -> (n <= fork_index_at l h)%nat.
Proof. intros Ht Hf Hh%(filter_heights l n f); [|done..]. unfold fork_index_at. lia. Qed.

Definition no_voting (hf : HardFork) : Prop := Forall (fun f => threshold f = 0) (heights hf).

Lemma activated_no_voting (hf : HardFork) (h : Z) (n : nat) :
  table_ok (heights hf) -> no_voting hf ->
  activated hf h n <-> exists f, heights hf !! n = Some f /\ height f <= h.
Proof.
  intros Ht Hz. split; intros (f & Hf & H); exists f.
  - by destruct H.
  - split; [done|]. split; [done|]. unfold quota.
    assert (threshold f = 0) as -> by (eapply Forall_lookup_1 in Hz; done).
    rewrite Z.mul_0_r. apply support_bounds, Ht.
Qed.

Lemma voted_schedule (hf : HardFork) (h j : Z) :
  wf_hf hf -> no_voting hf -> current_fork_index hf <= Z.of_nat (fork_index_at (heights hf) h) ->
  voted_index hf h j -> Z.max (current_fork_index hf) j = Z.of_nat (fork_index_at (heights hf) h).
Proof.
  intros Hwf Hz Hc. pose proof (wf_table hf Hwf) as Ht. pose proof (wf_index hf Hwf).
  intros [(n & -> & Ha & Hmax)|[-> Hno]].
  - apply activated_no_voting in Ha as (f & Hf & Hh); [|done..].
    assert (fork_index_at (heights hf) h = n) as E; [|lia].
    apply fork_index_at_unique; [done | by apply lookup_lt_Some in Hf | by right; exists f |].
    intros k g Hk Hg. destruct (decide (height g <= h)); [|lia].
    destruct (Hmax k Hk). apply activated_no_voting; [done..|by exists g].
  - assert (fork_index_at (heights hf) h = 0%nat) as E; [|lia].
    apply fork_index_at_unique; [done|lia|by left|]. intros k g _ Hg.
    destruct (decide (height g <= h)); [|lia].
    destruct (Hno k). apply activated_no_voting; [done..|by exists g].
Qed.

Lemma raise_to_schedule (hf : HardFork) (h : Z) :
  wf_hf hf -> no_voting hf -> current_fork_index hf <= Z.of_nat (fork_index_at (heights hf) h) ->
  raise_index hf h = Val (set_index hf (Z.of_nat (fork_index_at (heights hf) h))).
Proof.
  intros Hwf Hz Hc. destruct (raise_index_spec hf h Hwf) as (i & Hi & ->).
  by rewrite (voted_schedule hf h i).
Qed.

(** The block at [h] has the version the table gives [h], a vote that does not
    fall behind, and its entry in the version table. *)
Definition block_scheduled (hf : HardFork) (db : BlockchainDB) (h : Z) : Prop :=
  db_hf_versions db !! h = Some (scheduled hf h) /\
  major_version (block_at db h) = scheduled hf h /\
  scheduled hf h <= get_block_vote (block_at db h).

Record on_schedule (s : HardFork * BlockchainDB) : Prop := {
  os_good : good s;
  os_no_voting : no_voting s.1;
  os_original : original_version s.1 = scheduled s.1 0;
  os_index : current_fork_index s.1 = Z.of_nat (fork_index_at (heights s.1) (db_height s.2));
  os_blocks : forall h, 0 <= h < db_height s.2 -> block_scheduled s.1 s.2 h;
}.

Lemma scheduled_same_setup (hf hf' : HardFork) (h : Z) :
  same_setup hf hf' -> scheduled hf' h = scheduled hf h.
Proof. by intros (? & ? & ? & ->). Qed.

Lemma wf_nonempty (hf : HardFork) : wf_hf hf -> heights hf <> [].
Proof. intros Hwf E. pose proof (wf_index hf Hwf) as H. rewrite E in H. cbn in H. lia. Qed.

Lemma scheduled_lookup (hf : HardFork) (h : Z) :
  heights hf <> [] -> exists f, heights hf !! fork_index_at (heights hf) h = Some f /\ version f = scheduled hf h.
Proof.
  intros Hne. unfold scheduled. eexists. split; [|done].
  apply list_lookup_lookup_total_lt, fork_index_at_lt, Hne.
Qed.

(** On schedule, [add] takes exactly the blocks of the scheduled version and
    moves to the version of the next height. *)
Lemma add_scheduled (ndebug : bool) (hf : HardFork) (db : BlockchainDB) (b : block) (h : Z) :
  wf_hf hf -> no_voting hf -> block_ok b -> 0 <= h -> in_u64 (h + 1) ->
  current_fork_index hf = Z.of_nat (fork_index_at (heights hf) h) ->
  if (major_version b =? scheduled hf h) && (scheduled hf h <=? get_block_vote b) then
    exists vs lv, let hf' := set_index (set_window hf vs lv) (Z.of_nat (fork_index_at (heights hf) (h + 1))) in
      add ndebug hf db b h = Val (hf', set_hard_fork_version db h (scheduled hf h), true) /\ wf_hf hf'
  else add ndebug hf db b h = Val (hf, db, false).
Proof.
  intros Hwf Hz Hb Hh Hu Hi. unfold add.
  destruct (add_versions_spec ndebug hf db (get_block_version b) (get_block_vote b) h Hwf)
    as (f & Hf & H); [by apply get_block_vote_ok|].
  assert (version f = scheduled hf h) as Ef.
  { rewrite Hi, Nat2Z.id in Hf. unfold scheduled. by rewrite (list_lookup_total_correct _ _ _ Hf). }
  rewrite Ef in H. change (get_block_version b) with (major_version b) in *.
  destruct (_ && _); [|exact H]. destruct H as (lv & i & j & E & Hwf' & Hj & Hij).
  set (hf1 := set_window hf _ lv) in *.
  assert (i = Z.of_nat (fork_index_at (heights hf) (h + 1))) as ->; [|by eexists _, lv].
  rewrite u64_small in Hj by done.
  assert (wf_hf hf1) as Hwf1 by (apply wf_set_window; [done | apply (wf_window _ Hwf')]).
  pose proof (fork_index_at_mono (heights hf) h (h + 1) ltac:(lia)).
  rewrite Hij. apply (voted_schedule hf1); [done | done | cbn; lia | done].
Qed.

Lemma add_blocks_scheduled (ndebug : bool) (n : nat) (hf : HardFork) (db : BlockchainDB) (h : Z) :
  wf_hf hf -> no_voting hf -> db_ok db -> 0 <= h -> h + Z.of_nat n <= db_height db ->
  in_u64 (db_height db) -> current_fork_index hf = Z.of_nat (fork_index_at (heights hf) h) ->
  (forall x, 0 <= x < db_height db -> block_scheduled hf db x) ->
  exists hf' db', add_blocks ndebug hf db (seqZ h (Z.of_nat n)) = Val (hf', db') /\
    same_setup hf hf' /\ db_blocks db' = db_blocks db /\
    current_fork_index hf' = Z.of_nat (fork_index_at (heights hf) (h + Z.of_nat n)) /\
    (forall x, 0 <= x < db_height db' -> block_scheduled hf' db' x).
Proof.
  revert hf db h. induction n as [|n IH]; intros hf db h Hwf Hz Hdb Hh Hn Hu Hi Hbl.
  { exists hf, db. rewrite Z.add_0_r. split; [done|]. by split; [apply same_setup_refl|]. }
  rewrite seqZ_cons by lia. change (Z.succ h) with (h + 1).
  replace (Z.pred (Z.of_nat (S n))) with (Z.of_nat n) by lia. cbn [add_blocks]. rewrite get_block_from_height_at by lia. run.
  destruct (Hbl h) as (Hv & Hm & Hvote); [lia|].
  pose proof (add_scheduled ndebug hf db (block_at db h) h Hwf Hz) as Ha.
  rewrite Hm, Z.eqb_refl, (proj2 (Z.leb_le _ _)) in Ha by done. cbn [andb] in Ha.
  destruct Ha as (vs & lv & E & Hwf1); [by apply block_at_ok; [apply Hdb|lia] | done | unfold_words; lia | done |].
  rewrite E. run. set (hf1 := set_index _ _) in *.
  destruct (scheduled_lookup hf h (wf_nonempty hf Hwf)) as (f & Hf & Ef).
  destruct (IH hf1 (set_hard_fork_version db h (scheduled hf h)) (h + 1))
    as (hf' & db' & E' & Hs & Hb & Hi' & Hbl'); try done.
  - apply set_hard_fork_version_ok; [done|]. rewrite <- Ef.
    apply (table_lookup_ok _ _ _ (wf_table hf Hwf)) in Hf as [? _]. unfold_words. lia.
  - lia.
  - change (db_height (set_hard_fork_version _ _ _)) with (db_height db). lia.
  - intros x Hx. destruct (Hbl x Hx) as (Hxv & Hxm & Hxvote). split; [|done]. cbn.
    destruct (decide (x = h)) as [->|]; [by rewrite lookup_insert_eq | by rewrite lookup_insert_ne].
  - exists hf', db'. split; [done|]. split; [eapply same_setup_trans; [|done]; by eexists _, _, _|]. split; [done|].
    split; [|done]. rewrite Hi'. cbn [heights hf1 set_index set_window].
    do 2 f_equal. lia.
Qed.

Lemma block_at_push (db : BlockchainDB) (b : block) (h : Z) :
  0 <= h <= db_height db -> block_at (push_block db b) h = if decide (h = db_height db) then b else block_at db h.
Proof.
  unfold block_at, db_height. intros Hh. cbn. case_decide as E.
  - rewrite lookup_total_app_r by lia. rewrite E, Nat2Z.id, Nat.sub_diag. done.
  - apply lookup_total_app_l. lia.
Qed.

Lemma schedule_add (ndebug : bool) (hf hf' : HardFork) (db db' : BlockchainDB) (b : block) :
  on_schedule (hf, db) -> good (hf', db') -> block_ok b -> in_u64 (db_height db + 1) ->
  add ndebug hf (push_block db b) b (db_height db) = Val (hf', db', true) -> on_schedule (hf', db').
Proof.
  intros [Hg Hz Ho Hi Hbl] Hg' Hb Hu E. cbn [fst snd] in *. pose proof (db_height_nonneg db) as Hpos.
  pose proof (add_scheduled ndebug hf (push_block db b) b (db_height db) (good_hf _ Hg) Hz Hb Hpos Hu Hi) as H.
  destruct (_ && _) eqn:Ec; [|by rewrite H in E].
  apply andb_true_iff in Ec as [E1%Z.eqb_eq E2%Z.leb_le].
  destruct H as (vs & lv & H & _). rewrite H in E. injection E as <- <-.
  constructor; cbn [fst snd]; [done..| |].
  - cbn. do 2 f_equal. change (db_height (set_hard_fork_version _ _ _)) with (db_height (push_block db b)).
    by rewrite push_block_height.
  - intros h Hh. change (db_height (set_hard_fork_version _ _ _)) with (db_height (push_block db b)) in Hh.
    rewrite push_block_height in Hh. unfold block_scheduled.
    change (block_at (set_hard_fork_version _ _ _) h) with (block_at (push_block db b) h).
    rewrite block_at_push by lia. change (scheduled (set_index _ _) h) with (scheduled hf h).
    cbn. destruct (decide (h = db_height db)) as [->|].
    + by rewrite lookup_insert_eq.
    + rewrite lookup_insert_ne by done. apply Hbl. lia.
Qed.

Lemma schedule_pop (hf hf' : HardFork) (db : BlockchainDB) (n : Z) :
  on_schedule (hf, db) -> good (hf', pop_blocks db n) -> 0 < n < db_height db ->
  on_block_popped hf (pop_blocks db n) n = Val hf' -> on_schedule (hf', pop_blocks db n).
Proof.
  intros [Hg Hz Ho Hi Hbl] Hg' Hn E. cbn [fst snd] in *.
  pose proof (good_hf _ Hg) as Hwf. cbn [fst] in Hwf. pose proof (wf_nonempty hf Hwf) as Hne.
  destruct (on_block_popped_wf hf db n) as (vs & lv & i & E' & Hwf' & _ & Eh);
    [done | apply Hg; cbn; lia | apply Hg | apply Hg | done |].
  rewrite E' in E. injection E as <-.
  constructor; cbn [fst snd]; [done..| |].
  - cbn. rewrite pop_blocks_height by lia. f_equal. symmetry. unfold height_index in Eh.
    destruct (search_down_spec (fun f => height f <=? db_height db - n) (heights hf) (pred (length (heights hf))))
      as (j & Ej & Hj & Hstop & Hno); [destruct (heights hf); [done|cbn; lia]|].
    rewrite Ej in Eh. injection Eh as ->%Nat2Z.inj. destruct (heights hf) as [|x l] eqn:El; [done|].
    rewrite <- El in *. apply fork_index_at_unique; [apply Hwf | rewrite El in *; cbn in *; lia | |].
    + destruct Hstop as [?|(f & Hf & Hh%Z.leb_le)]; [by left|right; by exists f].
    + intros k f Hk Hf. apply Z.leb_gt. apply (Hno k f); [|done]. apply lookup_lt_Some in Hf. lia.
  - intros h Hh. rewrite pop_blocks_height in Hh by lia. unfold block_scheduled.
    replace (block_at (pop_blocks db n) h) with (block_at db h).
    + apply (Hbl h). lia.
    + unfold block_at. cbn. symmetry. apply lookup_total_take_lt. lia.
Qed.

Lemma schedule_init (hf hf' : HardFork) (db : BlockchainDB) :
  entered hf -> heights hf <> [] -> no_voting hf -> original_version hf = scheduled hf 0 ->
  db_ok db -> in_u64 (db_height db) -> (forall h, 0 <= h < db_height db -> block_scheduled hf db h) ->
  init hf db = Val hf' -> on_schedule (hf', db).
Proof.
  intros He Hne Hz Ho Hdb Hu Hbl E. pose proof (init_good hf hf' db He Hdb Hu E) as Hg'.
  destruct (init_spec hf db He Hdb) as (lv & i & E' & Hwf' & Hi). rewrite E' in E. injection E as <-.
  assert (with_placeholder hf = hf) as Ep by (unfold with_placeholder; by destruct (heights hf)).
  rewrite Ep in *. set (hf1 := set_window hf _ lv) in *.
  assert (i = Z.of_nat (fork_index_at (heights hf) (db_height db))) as ->; [|by constructor].
  destruct Hi as [[-> ->]|(v & k & j & Hpos & Hv & -> & Hj & Hij)].
  { by rewrite fork_index_at_0 by (done || apply He). }
  pose proof (db_height_nonneg db) as Hh.
  destruct (Hbl (db_height db - 1)) as (Hv' & _ & _); [lia|]. rewrite Hv in Hv'. injection Hv' as ->.
  destruct (find_version_spec (heights hf) (scheduled hf (db_height db - 1)) 0 Hne) as (k & Ek & Hk & Hstop & Hno).
  destruct (scheduled_lookup hf (db_height db - 1) Hne) as (f & Hf & Ef).
  assert (k = fork_index_at (heights hf) (db_height db - 1)) as Ekk.
  { destruct (Nat.lt_trichotomy k (fork_index_at (heights hf) (db_height db - 1))) as [Hlt|[?|Hgt]]; [|done|].
    - destruct Hstop as [Hlen|(g & Hg & Eg)].
      + pose proof (fork_index_at_lt (heights hf) (db_height db - 1) Hne). lia.
      + destruct (table_lookup_lt _ _ _ g f (entered_table hf He) Hlt Hg Hf). lia.
    - by destruct (Hno _ f Hgt Hf). }
  rewrite Ek, Z.add_0_l in *. set (hf2 := set_index hf1 (Z.of_nat k)) in *.
  assert (wf_hf hf2) as Hwf2 by (apply (wf_set_index (set_index hf1 i)); [done|cbn; lia]).
  pose proof (fork_index_at_mono (heights hf) (db_height db - 1) (db_height db) ltac:(lia)).
  rewrite Hij. apply (voted_schedule hf2); [done | done | cbn; lia | done].
Qed.

(** Lowering the index to the version of height [h] does not leave it above the
    fork of [h]. *)
Lemma lower_to_schedule (hf : HardFork) (h : Z) (i : nat) :
  wf_hf hf ->
  lower_index (heights hf) (scheduled hf h) (Z.to_nat (current_fork_index hf)) = Val (Z.of_nat i) ->
  (i <= fork_index_at (heights hf) h)%nat.
Proof.
  intros Hwf Ei. pose proof (wf_index hf Hwf).
  destruct (search_down_spec (fun f => negb (scheduled hf h <? version f)) (heights hf)
              (Z.to_nat (current_fork_index hf))) as (j & Ej & _ & Hstop & _); [lia|].
  unfold lower_index in Ei. rewrite Ej in Ei. injection Ei as <-%Nat2Z.inj.
  destruct Hstop as [->|(g & Hg & Hv)]; [lia|].
  apply negb_true_iff, Z.ltb_ge in Hv.
  destruct (scheduled_lookup hf h (wf_nonempty hf Hwf)) as (f & Hf & Ef).
  destruct (decide (j <= fork_index_at (heights hf) h)%nat); [done|].
  destruct (table_lookup_lt _ (fork_index_at (heights hf) h) j f g (wf_table hf Hwf)); (done || lia).
Qed.

Lemma schedule_reorganize (ndebug : bool) (hf hf' : HardFork) (db db' : BlockchainDB) (h : Z) (r : bool) :
  on_schedule (hf, db) -> good (hf', db') -> 0 <= h ->
  reorganize_from_chain_height ndebug hf db h = Val (hf', db', r) -> on_schedule (hf', db').
Proof.
  intros Hos Hg' Hh. pose proof Hos as [Hg Hz Ho Hi Hbl]. cbn [fst snd] in *.
  unfold reorganize_from_chain_height. destruct (Z.eqb_spec h 0); [by intros [= <- <- _]|].
  unfold reorganize_from_block_height. destruct (Z.leb_spec (db_height db) (h - 1)); [by intros [= <- <- _]|].
  pose proof Hg as [Hwf Hdb _ _ Hu]. cbn [fst snd] in *.
  cbv zeta. change (window_size (clear_window hf)) with (window_size hf).
  change (original_version (clear_window hf)) with (original_version hf).
  change (heights (clear_window hf)) with (heights hf).
  change (current_fork_index (clear_window hf)) with (current_fork_index hf).
  rewrite window_start_machine by apply Hwf.
  assert ((if h - 1 =? 0 then Val (original_version hf) else get_hard_fork_version db (h - 1))
          = Val (scheduled hf (h - 1))) as ->.
  { destruct (Z.eqb_spec (h - 1) 0) as [->|]; [by rewrite Ho|]. unfold get_hard_fork_version.
    destruct (Hbl (h - 1)) as (-> & _); [lia|done]. }
  run. destruct (reorganize_prefix hf db (h - 1) (scheduled hf (h - 1)))
    as (lv & i & hf1 & Ei & Es & E1 & Hwf1); [done..|lia|].
  cbv zeta in *. rewrite Ei. run. rewrite Es. run.
  apply lower_to_schedule in Ei; [|done].
  pose proof (fork_index_at_mono (heights hf) (h - 1) h ltac:(lia)).
  replace (h - 1 + 1) with h by lia. rewrite (u64_small h) by (unfold_words; lia).
  assert (heights hf1 = heights hf) as Eh by (by subst hf1).
  rewrite (raise_to_schedule hf1 h); [run | done | unfold no_voting; by rewrite Eh | rewrite Eh; subst hf1; cbn; lia].
  set (hf2 := set_index hf1 _).
  assert (wf_hf hf2) as Hwf2.
  { apply wf_set_index; [done|]. pose proof (fork_index_at_lt (heights hf1) h).
    rewrite Eh in *. specialize (H1 (wf_nonempty hf Hwf)). lia. }
  destruct (add_blocks_scheduled ndebug (Z.to_nat (db_height db - h)) hf2 db h)
    as (hf3 & db3 & E3 & Hs3 & Hb3 & Hi3 & Hbl3); try done; try lia.
  { by subst hf1. }
  { by subst hf1. }
  rewrite Z2Nat.id in E3 by lia. rewrite E3. run. intros [= -> -> _].
  assert (same_setup hf hf') as Hs.
  { eapply same_setup_trans; [|exact Hs3]. subst hf2 hf1. by eexists _, _, _. }
  destruct Hs as (vs3 & lv3 & i3 & ->).
  constructor; cbn [fst snd]; [done..| | done].
  rewrite Hi3. cbn. rewrite Eh. do 2 f_equal. unfold db_height. rewrite Hb3. fold (db_height db). lia.
Qed.

Lemma schedule_step (ndebug : bool) (s s' : HardFork * BlockchainDB) :
  on_schedule s -> hf_step ndebug s s' -> on_schedule s'.
Proof.
  intros Hos Hs. pose proof (good_step ndebug s s' (os_good s Hos) Hs) as Hg'.
  destruct Hs as [hf db b hf' db' Hb Hu E|hf db n hf' Hn E|hf db h hf' db' r Hh E|hf db hf' E].
  - by apply (schedule_add ndebug hf hf' db db' b).
  - by apply (schedule_pop hf hf' db n).
  - by apply (schedule_reorganize ndebug hf hf' db db' h r).
  - destruct Hos as [Hg Hz Ho Hi Hbl]. cbn [fst snd] in *.
    apply (schedule_init hf hf' db); try done; try apply Hg.
    + apply (good_entered _ Hg).
    + apply wf_nonempty, Hg.
Qed.

Lemma schedule_reachable (ndebug : bool) (s s' : HardFork * BlockchainDB) :
  on_schedule s -> rtc (hf_step ndebug) s s' -> on_schedule s'.
Proof. intros Hos Hr. induction Hr; eauto using schedule_step. Qed.

(** [get_ideal_version(height)] reads the schedule. *)
Lemma get_ideal_version_scheduled (hf : HardFork) (h : Z) :
  table_ok (heights hf) -> heights hf <> [] -> original_version hf = scheduled hf 0 -> 0 <= h ->
  get_ideal_version hf h = Val (scheduled hf h).
Proof.
  intros Ht Hne Ho Hh. unfold get_ideal_version.
  assert (forall n, (n < length (heights hf))%nat ->
    (forall k f, (n < k)%nat -> heights hf !! k = Some f -> h < height f) ->
    ideal_loop hf h n = Val (scheduled hf h)) as Hloop.
  { induction n as [|n IH]; intros Hn Hno; cbn [ideal_loop].
    - f_equal. rewrite Ho. unfold scheduled. rewrite fork_index_at_0 by done.
      by rewrite (fork_index_at_unique (heights hf) h 0) by (done || by left).
    - destruct (lookup_lt_is_Some_2 (heights hf) (S n) Hn) as [f Hf].
      rewrite (c_index_lookup _ _ f); [run | lia | by rewrite Nat2Z.id].
      destruct (Z.leb_spec (height f) h) as [Hle|Hgt].
      + f_equal. unfold scheduled.
        rewrite (fork_index_at_unique (heights hf) h (S n)); [|done|done|right; by exists f|done].
        by rewrite (list_lookup_total_correct _ _ _ Hf).
      + apply IH; [lia|]. intros k g Hk Hg.
        destruct (decide (k = S n)) as [->|]; [congruence|]. apply (Hno k g); [lia|done]. }
  destruct (heights hf) as [|x l] eqn:E; [done|]. rewrite <- E in *.
  apply Hloop; [rewrite E; cbn; lia|]. intros k f Hk Hf. apply lookup_lt_Some in Hf. lia.
Qed.

(** No step changes the table. *)
Lemma step_heights (ndebug : bool) (s s' : HardFork * BlockchainDB) :
  good s -> hf_step ndebug s s' -> heights s'.1 = heights s.1.
Proof.
  intros Hg Hs. pose proof Hg as [Hwf Hdb Ho Hv Hu].
  destruct Hs as [hf db b hf' db' Hb Hu' E|hf db n hf' Hn E|hf db h hf' db' r Hh E|hf db hf' E];
    cbn [fst snd] in *.
  - destruct (add_wf ndebug hf (push_block db b) b (db_height db) Hwf Hb)
      as (? & ? & ? & E' & _ & (? & ? & ? & ->) & _). rewrite E' in E. by injection E as <- _ _.
  - destruct (on_block_popped_wf hf db n) as (? & ? & ? & E' & _); [done|apply Hv; lia|done..|].
    rewrite E' in E. by injection E as <-.
  - unfold reorganize_from_chain_height in E. destruct (Z.eqb_spec h 0); [by injection E as <- _ _|].
    destruct (reorganize_block_wf ndebug hf db (h - 1)) as (? & ? & ? & E' & _ & _ & (? & ? & ? & ->) & _);
      [done..|unfold_words; lia|lia|]. rewrite E' in E. by injection E as <- _ _.
  - destruct (init_spec hf db (good_entered _ Hg) Hdb) as (lv & i & E' & _). rewrite E' in E.
    injection E as <-. cbn. unfold with_placeholder. pose proof (wf_nonempty hf Hwf). destruct (heights hf) eqn:El; done.
Qed.

Lemma reachable_heights (ndebug : bool) (s s' : HardFork * BlockchainDB) :
  good s -> rtc (hf_step ndebug) s s' -> heights s'.1 = heights s.1.
Proof.
  intros Hg Hr. induction Hr as [|s1 s2 s3 Hs Hr IH]; [done|].
  rewrite IH by (by eapply good_step). by apply (step_heights ndebug).
Qed.

Lemma voted_no_voting (hf : HardFork) (h j : Z) :
  wf_hf hf -> no_voting hf -> voted_index hf h j ->
  j = Z.of_nat (fork_index_at (heights hf) h) \/ j = current_fork_index hf.
Proof.
  intros Hwf Hz [(n & -> & Ha & Hmax)|[-> _]]; [left|by right]. pose proof (wf_table hf Hwf) as Ht.
  apply activated_no_voting in Ha as (f & Hf & Hh); [|done..]. f_equal. symmetry.
  apply fork_index_at_unique; [done | by apply lookup_lt_Some in Hf | by right; exists f |].
  intros k g Hk Hg. destruct (decide (height g <= h)); [|lia].
  destruct (Hmax k Hk). apply activated_no_voting; [done..|by exists g].
Qed.

(** On schedule, the check for the next height agrees with the check against the
    current version. *)
Lemma check_agrees (s : HardFork * BlockchainDB) (b : block) :
  on_schedule s -> check_for_height s.1 b (db_height s.2) = check s.1 b.
Proof.
  intros Hos. pose proof (good_hf _ (os_good s Hos)) as Hwf.
  unfold check_for_height, do_check_for_height, check, do_check.
  destruct (get_voted_fork_index_spec s.1 (db_height s.2)) as (j & Ej & Hj); try apply Hwf.
  rewrite Ej. run. pose proof (os_index s Hos).
  assert (j = current_fork_index s.1) as ->; [|done].
  destruct (voted_no_voting s.1 (db_height s.2) j Hwf (os_no_voting s Hos) Hj); lia.
Qed.

(** The version of the three networks at a height. *)
Definition lode_version (h : Z) : Z := if h <? 2 then 1 else 16.

Definition lode_forks : list hardfork_t :=
  [mk_hardfork_t 1 1 0 1341378000; mk_hardfork_t 16 2 0 1341378001].

Lemma lode_scheduled (hf : HardFork) (h : Z) :
  heights hf = lode_forks -> scheduled hf h = lode_version h.
Proof.
  intros E. unfold scheduled. rewrite E. unfold fork_index_at, forks_below, lode_version, lode_forks.
  rewrite !filter_cons, filter_nil. cbn [height].
  repeat case_decide; destruct (Z.ltb_spec h 2); (reflexivity || lia).
Qed.

Definition empty_db : BlockchainDB := mk_db [] ∅.

Lemma empty_db_ok : db_ok empty_db.
Proof. split; [constructor|]. unfold db_height. cbn. lia. Qed.

Lemma make_hardfork_schedule (nettype : network_type) (mem : list Z) (hf : HardFork) :
  make_hardfork nettype mem empty_db = Val hf -> on_schedule (hf, empty_db) /\ heights hf = lode_forks.
Proof.
  intros E.
  assert (exists till, init (mk_HardFork DEFAULT_FORKED_TIME DEFAULT_UPDATE_TIME DEFAULT_WINDOW_SIZE
            DEFAULT_THRESHOLD_PERCENT 1 till lode_forks [] mem 0) empty_db = Val hf) as [till Ei].
  { destruct nettype; [exists 1|exists 1|exists 0]; exact E. }
  set (hf0 := mk_HardFork _ _ _ _ _ _ _ _ _ _) in Ei. clear E.
  assert (entered hf0) as He.
  { constructor; cbn; [|unfold DEFAULT_WINDOW_SIZE; lia|lia]. split.
    - repeat constructor; cbn; lia.
    - repeat constructor; cbn; lia. }
  split.
  - apply (schedule_init hf0); try done.
    + repeat constructor.
    + apply empty_db_ok.
    + unfold db_height. cbn. lia.
  - destruct (init_spec hf0 empty_db He empty_db_ok) as (? & ? & E & _). rewrite E in Ei. by injection Ei as <-.
Qed.

(** C15. On mainnet, testnet and stagenet, through any history of blocks, pops,
    reorganisations and restarts that starts from an empty chain: blocks 0 and 1
    have version 1 and every later block has version 16, the node's current
    version is the one of the next block, [get] reports the version of every
    block, [get_ideal_version] predicts it for every height, and the checks
    against the current version and for the next height agree; the newest version is 16, and
    the earliest height for a version is 1 up to version 1 and 2 up to 16.  This is the schedule
    of the tables of the code; the heights that README.md lists are those of Monero. *)
Theorem lode_schedule (ndebug : bool) (nettype : network_type) (mem : list Z) (hf : HardFork)
    (s : HardFork * BlockchainDB) :
  make_hardfork nettype mem empty_db = Val hf -> rtc (hf_step ndebug) (hf, empty_db) s ->
  get_current_version s.1 = Val (lode_version (db_height s.2)) /\
  (forall h, 0 <= h < db_height s.2 -> major_version (block_at s.2 h) = lode_version h /\
     get ndebug s.1 s.2 h = Val (lode_version h)) /\
  (forall h, 0 <= h -> get_ideal_version s.1 h = Val (lode_version h)) /\
  (forall b, check_for_height s.1 b (db_height s.2) = check s.1 b) /\
  get_newest_version s.1 = Val 16 /\
  (forall v, get_earliest_ideal_height_for_version s.1 v =
     if v <=? 1 then 1 else if v <=? 16 then 2 else 2 ^ 64 - 1).
Proof.
  intros E Hr. destruct (make_hardfork_schedule nettype mem hf E) as [Hos0 Hh0].
  pose proof (schedule_reachable ndebug _ _ Hos0 Hr) as Hos.
  pose proof (reachable_heights ndebug _ _ (os_good _ Hos0) Hr) as Eh. cbn [fst] in Eh. rewrite Hh0 in Eh.
  pose proof Hos as [Hg Hz Ho Hi Hbl]. pose proof (good_hf _ Hg) as Hwf.
  split; [|split; [|split; [|split]]].
  - unfold get_current_version.
    destruct (scheduled_lookup s.1 (db_height s.2) (wf_nonempty _ Hwf)) as (f & Hf & Ef).
    rewrite Hi, (c_index_lookup _ _ f); [run | lia | by rewrite Nat2Z.id].
    by rewrite Ef, lode_scheduled.
  - intros h Hh. destruct (Hbl h Hh) as (Hv & Hm & _). rewrite lode_scheduled in * by done.
    split; [done|]. unfold get. rewrite (proj2 (Z.ltb_ge _ _)), (proj2 (Z.eqb_neq _ _)) by lia.
    unfold get_hard_fork_version. by rewrite Hv.
  - intros h Hh. rewrite get_ideal_version_scheduled; [by rewrite lode_scheduled|apply Hwf| |done|done].
    by apply wf_nonempty.
  - intros b. by apply check_agrees.
  - unfold get_newest_version, get_earliest_ideal_height_for_version. rewrite Eh. split; [done|]. intros v.
    change (reverse lode_forks) with (List.rev lode_forks). cbn [List.rev app lode_forks earliest_loop version height].
    by repeat case_match; try lia.
Qed.

(** ** Running histories *)

(** Adds the blocks one by one while they are accepted. *)
Fixpoint grow (ndebug : bool) (s : HardFork * BlockchainDB) (bs : list block) :
    option (HardFork * BlockchainDB) :=
  match bs with
  | [] => Some s
  | b :: bs =>
      if db_height s.2 + 1 <? 2 ^ 64 then
        match add ndebug s.1 (push_block s.2 b) b (db_height s.2) with
        | Val (hf, db, true) => grow ndebug (hf, db) bs
        | _ => None
        end
      else None
  end.

Lemma grow_reachable (ndebug : bool) (bs : list block) (s s' : HardFork * BlockchainDB) :
  Forall block_ok bs -> grow ndebug s bs = Some s' -> rtc (hf_step ndebug) s s'.
Proof.
  intros Hf. revert s. induction Hf as [|b bs Hb Hf IH]; intros [hf db] E; cbn [grow fst snd] in E.
  { by injection E as ->. }
  destruct (Z.ltb_spec (db_height db + 1) (2 ^ 64)); [|done].
  destruct (add _ _ _ _ _) as [[[hf' db'] [|]]| | | |] eqn:Ea; try done.
  eapply rtc_l; [|by apply IH]. eapply step_add; [done| |done].
  pose proof (db_height_nonneg db). unfold_words. lia.
Qed.

Lemma lode_schedule_witness : exists hf s,
  make_hardfork MAINNET [] empty_db = Val hf /\
  grow false (hf, empty_db) [mk_block 1 0; mk_block 1 1; mk_block 16 16; mk_block 16 16] = Some s /\
  get_current_version s.1 = Val 16 /\ get_ideal_version s.1 1 = Val 1.
Proof.
  eexists _, _. split; [vm_compute; reflexivity|]. split; [vm_compute; reflexivity|].
  match goal with |- get_current_version (fst ?s) = _ /\ _ => set (st := s) end.
  assert (grow false
    (match make_hardfork MAINNET [] empty_db with Val hf => (hf, empty_db) | _ => st end)
    [mk_block 1 0; mk_block 1 1; mk_block 16 16; mk_block 16 16] = Some st) as Hg
    by (vm_compute; reflexivity).
  destruct (make_hardfork MAINNET [] empty_db) as [hf| | | |] eqn:E; [|vm_compute in E; discriminate..].
  destruct (lode_schedule false MAINNET [] hf st E) as (H1 & _ & H2 & _).
  - apply (grow_reachable false [mk_block 1 0; mk_block 1 1; mk_block 16 16; mk_block 16 16]); [|exact Hg].
    repeat constructor; cbn; lia.
  - split; [exact H1 | apply (H2 1); lia].
Defined.

Lemma hardfork_reachable_witness : exists hf0 hf1 s,
  new_HardFork 1 0 1 1 4 50 [] = Val hf0 /\
  init (enter_forks hf0 [mk_hardfork_t 1 0 0 0; mk_hardfork_t 2 4 50 1]) empty_db = Val hf1 /\
  grow false (hf1, empty_db) [mk_block 1 2; mk_block 1 2; mk_block 1 1; mk_block 1 2; mk_block 2 2] = Some s /\
  wf s.
Proof.
  destruct (new_HardFork 1 0 1 1 4 50 []) as [hf0| | | |] eqn:E0; [|vm_compute in E0; discriminate..].
  destruct (init (enter_forks hf0 [mk_hardfork_t 1 0 0 0; mk_hardfork_t 2 4 50 1]) empty_db)
    as [hf1| | | |] eqn:E1; [|vm_compute in E0; injection E0 as <-; vm_compute in E1; discriminate..].
  destruct (grow false (hf1, empty_db) [mk_block 1 2; mk_block 1 2; mk_block 1 1; mk_block 1 2; mk_block 2 2])
    as [s|] eqn:E2; [|vm_compute in E0; injection E0 as <-; vm_compute in E1; injection E1 as <-;
                      vm_compute in E2; discriminate].
  exists hf0, hf1, s. split; [done|]. split; [done|]. split; [done|].
  refine (proj1 (hardfork_reachable false 1 0 1 1 4 50 [] [mk_hardfork_t 1 0 0 0; mk_hardfork_t 2 4 50 1]
    hf0 hf1 empty_db s _ _ E0 _ empty_db_ok _ E1 _)).
  - lia.
  - lia.
  - repeat constructor; cbn; lia.
  - unfold db_height, in_u64; cbn; lia.
  - apply (grow_reachable false [mk_block 1 2; mk_block 1 2; mk_block 1 1; mk_block 1 2; mk_block 2 2]); [|exact E2].
    repeat constructor; cbn; lia.
Defined.

(** ** The window holds the votes of the chain *)

(** Steps that only extend the chain. *)
Definition extends (ndebug : bool) (s s' : HardFork * BlockchainDB) : Prop :=
  exists b, block_ok b /\ in_u64 (db_height s.2 + 1) /\
    add ndebug s.1 (push_block s.2 b) b (db_height s.2) = Val (s'.1, s'.2, true).

(** The votes of the newest [w] blocks. *)
Definition newest_votes (w : Z) (bs : list block) : list Z :=
  map get_block_vote (drop (length bs - Z.to_nat w) bs).

Lemma newest_votes_slide (w : Z) (bs : list block) (b : block) :
  0 < w -> slide w (newest_votes w bs) (get_block_vote b) = newest_votes w (bs ++ [b]).
Proof.
  intros Hw. unfold slide, newest_votes. rewrite length_map, length_drop, length_app. cbn [length].
  rewrite drop_app_le by lia. rewrite map_app. cbn [map]. f_equal.
  rewrite <- fmap_drop, drop_drop. do 2 f_equal. lia.
Qed.

Lemma votes_at_newest (w : Z) (db : BlockchainDB) :
  0 <= w ->
  votes_at db (seqZ (Z.max 0 (db_height db - w)) (db_height db - Z.max 0 (db_height db - w)))
  = newest_votes w (db_blocks db).
Proof.
  intros Hw. unfold votes_at, newest_votes, block_at. pose proof (db_height_nonneg db).
  unfold db_height in *. apply list_eq. intros i. rewrite !list_lookup_fmap, lookup_drop.
  set (s := Z.max 0 _). set (n := Z.of_nat (length (db_blocks db)) - s).
  destruct (decide (Z.of_nat i < n)) as [Hi|Hi].
  - rewrite lookup_seqZ_lt by lia. cbn.
    rewrite (list_lookup_lookup_total_lt (db_blocks db)) by lia. cbn. do 3 f_equal. lia.
  - rewrite lookup_seqZ_ge by lia. rewrite (lookup_ge_None_2 (db_blocks db)) by lia. done.
Qed.

Lemma extends_votes (ndebug : bool) (w : Z) (s0 s : HardFork * BlockchainDB) :
  0 < w -> rtc (extends ndebug) s0 s -> good s0 ->
  versions s0.1 = newest_votes w (db_blocks s0.2) -> window_size s0.1 = w ->
  good s /\ versions s.1 = newest_votes w (db_blocks s.2) /\ window_size s.1 = w.
Proof.
  intros Hpos Hr Hg Hv Hw.
  induction Hr as [|s0 s1 s2 (b & Hb & Hub & Ea) Hr IH]; [done|].
  destruct s0 as [hf db], s1 as [hf' db']. cbn [fst snd] in *.
  assert (good (hf', db')) as Hg' by (eapply good_step; [exact Hg | by apply (step_add ndebug hf db b)]).
  apply IH; [done| |].
  - unfold add in Ea. destruct (add_versions_spec ndebug hf (push_block db b) (get_block_version b) (get_block_vote b)
        (db_height db) (good_hf _ Hg)) as (f & _ & H); [by apply get_block_vote_ok|].
    destruct (_ && _); [|by rewrite H in Ea]. destruct H as (lv & i & j & H & _).
    rewrite H in Ea. injection Ea as <- <-. cbn. rewrite Hv, Hw. by apply newest_votes_slide.
  - destruct (add_wf ndebug hf (push_block db b) b (db_height db) (good_hf _ Hg) Hb)
      as (? & ? & ? & E' & _ & (? & ? & ? & ->) & _). rewrite E' in Ea. by injection Ea as <- _ _.
Qed.

(** After [init], and after any number of blocks added since, the window holds
    the votes of exactly the newest [window_size] blocks of the chain (all of them
    on a shorter chain), in order, and [last_versions] counts them. *)
Theorem window_votes (ndebug : bool) (hf0 hf1 : HardFork) (db0 : BlockchainDB) (s : HardFork * BlockchainDB) :
  entered hf0 -> db_ok db0 -> in_u64 (db_height db0) -> init hf0 db0 = Val hf1 ->
  rtc (extends ndebug) (hf1, db0) s ->
  versions s.1 = newest_votes (window_size hf0) (db_blocks s.2) /\
  forall v, in_u8 v -> last_versions s.1 !! Z.to_nat v
    = Some (votes_for v (newest_votes (window_size hf0) (db_blocks s.2))).
Proof.
  intros He Hdb Hu E Hr. pose proof (init_good hf0 hf1 db0 He Hdb Hu E) as Hg.
  assert (versions hf1 = newest_votes (window_size hf0) (db_blocks db0) /\ window_size hf1 = window_size hf0)
    as [Hv Hw].
  { destruct (init_spec hf0 db0 He Hdb) as (lv & i & E' & _). rewrite E' in E. injection E as <-.
    split; [|cbn; unfold with_placeholder; by destruct (heights hf0)].
    cbn. apply votes_at_newest. pose proof (entered_window_size hf0 He). lia. }
  pose proof (entered_window_size hf0 He) as Hpos.
  enough (good s /\ versions s.1 = newest_votes (window_size hf0) (db_blocks s.2) /\
          window_size s.1 = window_size hf0) as (Hgs & Hvs & _).
  { split; [done|]. rewrite <- Hvs. apply (wf_window _ (good_hf _ Hgs)). }
  apply (extends_votes ndebug (window_size hf0) (hf1, db0) s); try done. lia.
Qed.

Lemma window_votes_witness : exists hf0 hf1 s,
  new_HardFork 1 0 1 1 2 50 [] = Val hf0 /\ init hf0 empty_db = Val hf1 /\
  add false hf1 (push_block empty_db (mk_block 1 3)) (mk_block 1 3) 0 = Val (s.1, s.2, true) /\
  versions s.1 = [3].
Proof.
  destruct (new_HardFork 1 0 1 1 2 50 []) as [hf0| | | |] eqn:E0; [|vm_compute in E0; discriminate..].
  assert (window_size hf0 = 2) as Hw by (vm_compute in E0; by injection E0 as <-).
  destruct (init hf0 empty_db) as [hf1| | | |] eqn:E1;
    [|vm_compute in E0; injection E0 as <-; vm_compute in E1; discriminate..].
  destruct (add false hf1 (push_block empty_db (mk_block 1 3)) (mk_block 1 3) 0)
    as [[[hf db] [|]]| | | |] eqn:E2;
    [|vm_compute in E0; injection E0 as <-; vm_compute in E1; injection E1 as <-;
      vm_compute in E2; discriminate..].
  assert (db_blocks db = [mk_block 1 3]) as Hb.
  { vm_compute in E0; injection E0 as <-; vm_compute in E1; injection E1 as <-;
      vm_compute in E2. by injection E2 as _ <-. }
  exists hf0, hf1, (hf, db). split; [done|]. split; [done|]. split; [done|].
  refine (eq_trans (proj1 (window_votes false hf0 hf1 empty_db (hf, db) _ empty_db_ok _ E1 _)) _).
  - apply (new_HardFork_entered 1 0 1 1 2 50 [] hf0); (lia || done).
  - unfold db_height, in_u64; cbn; lia.
  - apply rtc_once. exists (mk_block 1 3). split; [repeat constructor; cbn; lia|].
    split; [unfold db_height, in_u64; cbn; lia | exact E2].
  - cbn [snd]. rewrite Hw, Hb. reflexivity.
Defined.

(** ** Voting *)

Lemma voted_index_unique (hf : HardFork) (h i j : Z) :
  voted_index hf h i -> voted_index hf h j -> i = j.
Proof.
  intros [(n & -> & Ha & Hm)|[-> Hno]] [(m & -> & Ha' & Hm')|[-> Hno']]; try done.
  - f_equal. destruct (Nat.lt_trichotomy n m) as [?|[?|?]]; [by destruct (Hm m)|done|by destruct (Hm' n)].
  - by destruct (Hno' n).
  - by destruct (Hno m).
Qed.

(** C17. [get_voted_fork_index] returns the newest fork whose height is reached and
    for which, together with all newer forks, at least its percentage of the
    window (rounded up) votes, and the current fork when there is none; a block is
    accepted for a height exactly when it has that fork's version and does not
    vote for an older one. *)
Theorem voting_correct (hf : HardFork) (b : block) (h i : Z) :
  wf_hf hf ->
  (get_voted_fork_index hf h = Val i <-> voted_index hf h i) /\
  (check_for_height hf b h = Val true <->
   exists n f, voted_index hf h (Z.of_nat n) /\ heights hf !! n = Some f /\
     major_version b = version f /\ version f <= get_block_vote b).
Proof.
  intros Hwf. destruct (get_voted_fork_index_spec hf h) as (j & Ej & Hj); try apply Hwf.
  split.
  { rewrite Ej. split; [by intros [= <-]|]. intros Hi. f_equal. by apply (voted_index_unique hf h). }
  unfold check_for_height, do_check_for_height. rewrite Ej. run.
  pose proof (voted_index_range hf h j Hwf Hj) as Hr.
  destruct (lookup_lt_is_Some_2 (heights hf) (Z.to_nat j)) as [f Hf]; [lia|].
  rewrite (c_index_lookup _ _ f) by (done || lia). run.
  change (get_block_version b) with (major_version b). split.
  - intros [= [E1%Z.eqb_eq E2%Z.leb_le]%andb_true_iff]. exists (Z.to_nat j), f.
    rewrite Z2Nat.id by lia. done.
  - intros (n & g & Hn & Hg & E1 & E2). pose proof (voted_index_unique hf h j _ Hj Hn) as ->.
    rewrite Nat2Z.id in Hf. assert (g = f) as -> by congruence.
    by rewrite E1, Z.eqb_refl, (proj2 (Z.leb_le _ _)).
Qed.

(** A window of four votes on a table whose second fork needs half of it. *)
Definition sample_hf (index : Z) (vs : list Z) : HardFork :=
  mk_HardFork 1 1 4 50 1 0 [mk_hardfork_t 1 0 0 0; mk_hardfork_t 2 4 50 1]
    vs (foldl count_up (replicate 256 0) vs) index.

Lemma counts_foldl (vs : list Z) (ws lv : list Z) :
  Forall in_u8 vs -> Z.of_nat (length ws + length vs) < 2 ^ 32 -> counts lv ws ->
  counts (foldl count_up lv vs) (ws ++ vs).
Proof.
  intros Hf. revert ws lv. induction Hf as [|v vs Hv Hf IH]; intros ws lv Hl Hc.
  { by rewrite app_nil_r. }
  cbn [foldl length] in *. rewrite cons_middle, app_assoc. apply IH.
  - rewrite length_app. cbn. lia.
  - apply counts_up; (done || lia).
Qed.

Lemma sample_wf (i : Z) (vs : list Z) :
  Forall in_u8 vs -> (length vs <= 4)%nat -> 0 <= i < 2 -> wf_hf (sample_hf i vs).
Proof.
  intros Hf Hl Hi. constructor; cbn; [| lia | | lia].
  - split; repeat constructor; cbn; lia.
  - split; [|split; [done|lia]]. apply (counts_foldl vs []); [done| |apply counts_empty]. cbn. lia.
Qed.

Lemma voting_correct_witness :
  wf_hf (sample_hf 0 [2; 1; 2; 1]) /\ voted_index (sample_hf 0 [2; 1; 2; 1]) 4 1 /\
  ~ voted_index (sample_hf 0 [2; 1; 1; 1]) 4 1.
Proof.
  assert (wf_hf (sample_hf 0 [2; 1; 2; 1])) as H1
    by (apply sample_wf; [repeat constructor; cbn; lia | cbn; lia | lia]).
  assert (wf_hf (sample_hf 0 [2; 1; 1; 1])) as H2
    by (apply sample_wf; [repeat constructor; cbn; lia | cbn; lia | lia]).
  split; [exact H1|]. split.
  - apply (proj1 (proj1 (voting_correct (sample_hf 0 [2; 1; 2; 1]) (mk_block 2 2) 4 1 H1))).
    vm_compute; reflexivity.
  - intros H. apply (proj2 (proj1 (voting_correct (sample_hf 0 [2; 1; 1; 1]) (mk_block 2 2) 4 1 H2))) in H.
    vm_compute in H. discriminate.
Defined.

(** A vote for a version newer than the newest fork of the table is not counted
    for any fork: [get_effective_version] never lowers it to the newest known
    version.  When the whole window votes that way, only forks with threshold zero
    can be activated, at any height. *)
Theorem newer_votes_ignored (hf : HardFork) (newest : hardfork_t) (h : Z) (n : nat) (f : hardfork_t) :
  wf_hf hf -> last (heights hf) = Some newest ->
  Forall (fun v => version newest < get_effective_version hf v) (versions hf) ->
  heights hf !! n = Some f -> activated hf h n -> threshold f = 0.
Proof.
  intros Hwf Hlast Hv Hf (g & Hg & _ & Hq). assert (g = f) as -> by congruence.
  assert (support hf n = 0) as Es.
  { unfold support. pose proof (last_lookup_le _ _ (wf_table hf Hwf) Hlast) as Hle.
    apply (Forall_drop _ n) in Hle. induction Hle as [|x l Hx Hle IH]; [done|].
    cbn [map]. rewrite sumZ_cons, IH, Z.add_0_r. unfold votes_for.
    enough (filter (eq (version x)) (versions hf) = []) as -> by done. clear -Hv Hx.
    induction Hv as [|v vs Hv Hvs IH]; [done|]. rewrite filter_cons_False; [done|].
    rewrite get_effective_version_id in Hv. destruct Hx as [->|[? _]]; lia. }
  pose proof (table_lookup_ok _ _ _ (wf_table hf Hwf) Hf) as (_ & _ & Ht).
  pose proof (wf_window_size hf Hwf). rewrite Es in Hq. unfold quota in Hq.
  destruct (decide (threshold f = 0)); [done|].
  assert (1 <= (window_size hf * threshold f + 99) / 100); [|lia].
  apply Z.div_le_lower_bound; nia.
Qed.

Lemma newer_votes_ignored_witness :
  wf_hf (sample_hf 0 [3; 3; 3; 3]) /\ activated (sample_hf 0 [3; 3; 3; 3]) 9 0 /\
  threshold (mk_hardfork_t 1 0 0 0) = 0.
Proof.
  assert (wf_hf (sample_hf 0 [3; 3; 3; 3])) as H1
    by (apply sample_wf; [repeat constructor; cbn; lia | cbn; lia | lia]).
  assert (activated (sample_hf 0 [3; 3; 3; 3]) 9 0) as H2.
  { exists (mk_hardfork_t 1 0 0 0). vm_compute. repeat split; discriminate. }
  split; [exact H1|]. split; [exact H2|].
  refine (newer_votes_ignored (sample_hf 0 [3; 3; 3; 3]) (mk_hardfork_t 2 4 50 1) 9 0 (mk_hardfork_t 1 0 0 0)
            H1 eq_refl _ eq_refl H2).
  repeat constructor; cbn; lia.
Defined.

(** ** Versions and heights of the table *)

(** [get_earliest_ideal_height_for_version] reads the first fork that is new enough. *)
Lemma earliest_loop_spec (l : list hardfork_t) (v acc : Z) :
  table_ok l ->
  earliest_loop (reverse l) v acc
  = match head (filter (fun f => v <= version f) l) with Some f => height f | None => acc end.
Proof.
  intros [Hs _]. revert acc Hs. induction l as [|x l IH] using rev_ind; intros acc Hs; [done|].
  rewrite reverse_snoc. cbn [earliest_loop]. rewrite filter_app, head_app.
  apply StronglySorted_app in Hs as (Hlt & Hs & _). destruct (Z.leb_spec v (version x)) as [Hv|Hv].
  - rewrite IH by done. destruct (head _); [done|]. by rewrite filter_cons_True.
  - assert (filter (fun f => v <= version f) l = []) as ->.
    { clear -Hlt Hv. induction l as [|y l IH]; [done|]. rewrite filter_cons_False.
      - apply IH. intros a b Ha Hb. apply Hlt; [by right|done].
      - destruct (Hlt y x) as [? _]; [by left|by left|]. lia. }
    by rewrite filter_cons_False by lia.
Qed.

Lemma head_filter_first (l : list hardfork_t) (v : Z) (g : hardfork_t) :
  StronglySorted fork_lt l -> head (filter (fun f => v <= version f) l) = Some g ->
  g ∈ l /\ v <= version g /\ forall f, f ∈ l -> v <= version f -> f = g \/ fork_lt g f.
Proof.
  intros Hs. induction Hs as [|x l Hs IH Hx]; [done|]. rewrite filter_cons. case_decide as Hd.
  - intros [= ->]. split; [by left|]. split; [done|]. intros f Hf _.
    apply elem_of_cons in Hf as [->|Hf]; [by left|right]. by eapply Forall_forall in Hx.
  - intros Hh. destruct (IH Hh) as (Hg & Hv & Hmin). split; [by right|]. split; [done|].
    intros f Hf Hvf. apply elem_of_cons in Hf as [->|Hf]; [done|]. by apply Hmin.
Qed.

(** [get_ideal_version] and [get_earliest_ideal_height_for_version] are adjoint:
    a version later than the original one is scheduled at a height exactly when
    the height is at least the earliest one reported for the version, which is
    the largest 64-bit number for versions the table does not have. *)
Theorem ideal_version_adjoint (hf : HardFork) (v h : Z) :
  table_ok (heights hf) -> heights hf <> [] -> original_version hf = scheduled hf 0 ->
  original_version hf < v -> 0 <= h < 2 ^ 64 - 1 ->
  exists u, get_ideal_version hf h = Val u /\
    (v <= u <-> get_earliest_ideal_height_for_version hf v <= h).
Proof.
  intros Ht Hne Ho Hv Hh. exists (scheduled hf h).
  split; [apply get_ideal_version_scheduled; (done || lia)|].
  unfold get_earliest_ideal_height_for_version. rewrite earliest_loop_spec by done.
  destruct (scheduled_lookup hf h Hne) as (f & Hf & Ef). rewrite <- Ef.
  destruct (head _) as [g|] eqn:Eg.
  - apply head_filter_first in Eg as (Hg & Hvg & Hmin); [|apply Ht]. split.
    + intros Hvf. assert (height f <= h) as Hhf.
      { apply (filter_heights _ _ _ h Ht Hf). unfold fork_index_at in *.
        destruct (forks_below (heights hf) h) eqn:E; [|lia]. exfalso. cbn in Hf.
        rewrite Ho in Hv. unfold scheduled in Hv. rewrite fork_index_at_0 in Hv by done.
        rewrite (list_lookup_total_correct _ _ _ Hf) in Hv. lia. }
      destruct (Hmin f) as [->|(_ & ? & _)]; [by eapply list_elem_of_lookup_2|done|done|lia].
    + intros Hhg. apply list_elem_of_lookup in Hg as [n Hg].
      pose proof (fork_index_at_ge _ h n g Ht Hg Hhg) as Hn.
      destruct (decide (n = fork_index_at (heights hf) h)) as [->|].
      * assert (g = f) as -> by congruence. done.
      * destruct (table_lookup_lt _ n (fork_index_at (heights hf) h) g f Ht) as [? _]; (done || lia).
  - split; [|lia]. intros Hvf. exfalso.
    destruct (filter _ _) eqn:E; [|done].
    apply (filter_nil_not_elem_of _ (heights hf) f E Hvf). by eapply list_elem_of_lookup_2.
Qed.

Lemma ideal_version_adjoint_witness : exists u,
  get_ideal_version (sample_hf 0 []) 7 = Val u /\
  (2 <= u <-> get_earliest_ideal_height_for_version (sample_hf 0 []) 2 <= 7).
Proof.
  apply (ideal_version_adjoint (sample_hf 0 []) 2 7).
  - split; repeat constructor; cbn; lia.
  - discriminate.
  - reflexivity.
  - cbn; lia.
  - lia.
Defined.

(** ** Pops and votes *)

(** The object initialised on an empty chain and grown by the blocks. *)
Definition chain_from (hf : HardFork) (bs : list block) : option (HardFork * BlockchainDB) :=
  match init hf empty_db with
  | Val hf => grow false (hf, empty_db) bs
  | _ => None
  end.

Lemma chain_from_reachable (hf : HardFork) (bs : list block) (s : HardFork * BlockchainDB) :
  Forall block_ok bs -> chain_from hf bs = Some s -> rtc (hf_step false) (hf, empty_db) s.
Proof.
  intros Hb. unfold chain_from. destruct (init hf empty_db) as [hf0| | | |] eqn:E0; try discriminate.
  intros E. eapply rtc_l; [apply step_init; exact E0|]. by apply (grow_reachable false bs).
Qed.

Lemma sample_pop :
  match chain_from (sample_hf 0 []) (replicate 6 (mk_block 1 1)) with
  | Some (hf, db) =>
      match on_block_popped hf (pop_blocks db 1) 1, init hf (pop_blocks db 1) with
      | Val hf_popped, Val hf_restarted =>
          votes_for 2 (map get_block_vote (db_blocks db)) = 0 /\
          get_current_version hf_popped = Val 2 /\ get_current_version hf_restarted = Val 1
      | _, _ => False
      end
  | None => False
  end.
Proof. vm_compute. repeat split. Qed.

(** With a voting threshold, a pop and a restart on the same chain disagree.
    There is a chain of six blocks, none of which votes for the second fork, such
    that after one block is popped the object requires version 2, which is never
    voted for, while an object initialised from the same database requires
    version 1. *)
Theorem pop_ignores_votes :
  exists hf db hf_popped hf_restarted,
    chain_from (sample_hf 0 []) (replicate 6 (mk_block 1 1)) = Some (hf, db) /\
    rtc (hf_step false) (sample_hf 0 [], empty_db) (hf, db) /\
    votes_for 2 (map get_block_vote (db_blocks db)) = 0 /\
    on_block_popped hf (pop_blocks db 1) 1 = Val hf_popped /\
    init hf (pop_blocks db 1) = Val hf_restarted /\
    get_current_version hf_popped = Val 2 /\ get_current_version hf_restarted = Val 1.
Proof.
  pose proof sample_pop as H.
  destruct (chain_from (sample_hf 0 []) (replicate 6 (mk_block 1 1))) as [[hf db]|] eqn:E;
    [|contradiction].
  destruct (on_block_popped hf (pop_blocks db 1) 1) as [hfp| | | |] eqn:Ep; try contradiction.
  destruct (init hf (pop_blocks db 1)) as [hfr| | | |] eqn:Er; try contradiction.
  destruct H as (H1 & H2 & H3). exists hf, db, hfp, hfr. split; [reflexivity|].
  split; [|exact (conj H1 (conj Ep (conj Er (conj H2 H3))))].
  apply (chain_from_reachable _ (replicate 6 (mk_block 1 1))); [|exact E].
  apply Forall_replicate. repeat constructor; cbn; lia.
Qed.
