(* ===== verification/I18n.v ===== *)
(** * Translations at run time

    src/src/common/i18n.cpp: the choice of the language, the reader of Qt's
    compiled catalogues (.qm) and the lookup of a message.  Strings and file
    contents are lists of bytes.  The environment, the file system and the table
    of embedded files (generated by the build) are arguments.

    The end of the file gives a reference writer of the format and proves that
    what it writes is read back. *)

From Stdlib Require Import Ascii String.
From stdpp Require Import gmap.
From S2P Require Import Prelude.

(** ** Bytes *)

Definition bytes := list Z.

Definition bytes_of_string (s : string) : bytes :=
  map (fun c => Z.of_N (N_of_ascii c)) (list_ascii_of_string s).

Definition is_bytes (l : bytes) : Prop := Forall in_u8 l.

(** ** The language *)

(** [s.substr(0, s.find(c))]: up to the first [c], all of it when there is none. *)
Fixpoint up_to (c : Z) (s : bytes) : bytes :=
  match s with
  | [] => []
  | x :: s => if x =? c then [] else x :: up_to c s
  end.

Definition language_chars : bytes :=
  bytes_of_string "abcdefghijklmnopqrstuvwxyzABCDEFGHIJKLMNOPQRSTUVWXYZ_-.@".

(** [tolower] on the characters that pass the check. *)
Definition tolower (c : Z) : Z := if (65 <=? c) && (c <=? 90) then c + 32 else c.

Definition MAX_LANGUAGE_SIZE : Z := 16.

(** [getenv] maps a variable to its value; [!e || !*e] treats an empty value as
    an absent one. *)
Definition i18n_get_language (getenv : bytes -> option bytes) : bytes :=
  let nonempty (e : option bytes) := match e with Some (c :: s) => Some (c :: s) | _ => None end in
  let e := match nonempty (getenv (bytes_of_string "LANG")) with
           | Some s => Some s
           | None => nonempty (getenv (bytes_of_string "LC_ALL"))
           end in
  let language := match e with Some s => s | None => bytes_of_string "en" end in
  let language := up_to 46 language in
  let language := up_to 64 language in
  if negb (forallb (fun c => existsb (Z.eqb c) language_chars) language) then bytes_of_string "en"
  else
    let language := map tolower language in
    if MAX_LANGUAGE_SIZE <? Z.of_nat (length language) then bytes_of_string "en" else language.

(** ** Reading the file *)

(** [data[i]] on the buffer of a [std::string], which ends in a zero byte. *)
Definition rd (data : bytes) (i : Z) : outcome Z := c_index (data ++ [0]) i.

Definition be32 (data : bytes) (i : Z) : outcome Z :=
  b0 ← rd data i; b1 ← rd data (i + 1); b2 ← rd data (i + 2); b3 ← rd data (i + 3);
  Val (u32 (Z.lor (Z.lor (Z.lor (Z.shiftl b0 24) (Z.shiftl b1 16)) (Z.shiftl b2 8)) b3)).

(** The [len] bytes at [i]. *)
Definition slice (data : bytes) (i len : Z) : outcome bytes :=
  if (0 <=? i) && (i + len <=? Z.of_nat (length data) + 1)
  then Val (take (Z.to_nat len) (drop (Z.to_nat i) (data ++ [0]))) else Undef.

(** The bytes appended for one code; [s += x] keeps the low byte. *)
Definition append_code (code : Z) : bytes :=
  if code <=? 0x7f then [u8 code]
  else if code <=? 0x7ff then
    [u8 (Z.lor 0xc0 (Z.shiftr code 6)); u8 (Z.lor 0x80 (Z.land code 0x3f))]
  else if code <=? 0xffff then
    [u8 (Z.lor 0xe0 (Z.shiftr code 12)); u8 (Z.lor 0x80 (Z.land (Z.shiftr code 6) 0x3f));
     u8 (Z.lor 0x80 (Z.land code 0x3f))]
  else
    [u8 (Z.lor 0xf0 (Z.shiftr code 18)); u8 (Z.lor 0x80 (Z.land (Z.shiftr code 12) 0x3f));
     u8 (Z.lor 0x80 (Z.land (Z.shiftr code 6) 0x3f)); u8 (Z.lor 0x80 (Z.land code 0x3f))].

(** The bounds [0xdbfff] and [0x35dfc00] are the source's. *)
Fixpoint utf16 (data : bytes) : bytes :=
  match data with
  | d0 :: d1 :: data =>
      let code := Z.lor (Z.shiftl d0 8) d1 in
      match data with
      | n0 :: n1 :: data' =>
          let next := Z.lor (Z.shiftl n0 8) n1 in
          if (0xd800 <=? code) && (code <=? 0xdbfff) && (0xdc00 <=? next) && (next <=? 0xdfff)
          then append_code (u32 (u32 (Z.shiftl code 10) + next - 0x35dfc00)) ++ utf16 data'
          else append_code code ++ utf16 data
      | _ => append_code code ++ utf16 data
      end
  | _ => []
  end.

Definition utf8 (data : bytes) : bytes := data.

(** ** The catalogue in memory *)

Definition i18n_entries := gmap bytes bytes.

(** [context + std::string("", 1) + s]: a zero byte between the two. *)
Definition entry_key (context s : bytes) : bytes := context ++ 0 :: s.

(** What a C string in memory is read as: the bytes before the first zero. *)
Definition c_str (s : bytes) : bytes := up_to 0 s.

(** [s] and the result are C strings. *)
Definition i18n_translate (entries : i18n_entries) (s context : bytes) : bytes :=
  match entries !! entry_key context (c_str s) with Some t => c_str t | None => c_str s end.

(** ** [i18n_set_language] *)

Definition qm_magic : bytes :=
  [0x3c; 0xb8; 0x64; 0x18; 0xca; 0xef; 0x9c; 0x95; 0xcd; 0x21; 0x1c; 0xbf; 0x60; 0xa1; 0xbd; 0xdd].

(** Where the chunks were found; [2^32 - 1] stands for not found. *)
Record chunks : Type := mk_chunks {
  num_messages : Z;
  messages_idx : Z;
  offsets_idx : Z;
}.

(** The [switch] on the type of a chunk. *)
Definition note_chunk (c : chunks) (chunk_type idx chunk_size : Z) : chunks :=
  if chunk_type =? 0x42 then mk_chunks (chunk_size / 8) (messages_idx c) (u32 idx)
  else if chunk_type =? 0x69 then mk_chunks (num_messages c) (u32 idx) (offsets_idx c)
  else c.

(** The [while (idx < datalen)] loop; [None] is [return -1]. *)
Fixpoint chunk_loop (fuel : nat) (data : bytes) (idx : Z) (c : chunks) : outcome (option chunks) :=
  let datalen := Z.of_nat (length data) in
  if idx <? datalen then
    match fuel with
    | O => Diverge
    | S fuel =>
        if datalen <? idx + 5 then Val None
        else
          chunk_type ← rd data idx;
          chunk_size ← be32 data (idx + 1);
          let idx := idx + 5 in
          if (datalen <=? chunk_size) || (datalen - chunk_size <? idx) then Val None
          else chunk_loop fuel data (idx + chunk_size) (note_chunk c chunk_type idx chunk_size)
    end
  else Val (Some c).

(** The locals that a message fills. *)
Record message_parts : Type := mk_parts {
  p_translation : bytes;
  p_source : bytes;
  p_context : bytes;
}.

Definition no_parts : message_parts := mk_parts [] [] [].

(** The [switch] on the type of a subchunk with its data. *)
Definition note_part (p : message_parts) (chunk_type : Z) (s : bytes) : message_parts :=
  if chunk_type =? 0x03 then mk_parts (utf16 s) (p_source p) (p_context p)
  else if chunk_type =? 0x06 then mk_parts (p_translation p) (utf8 s) (p_context p)
  else if chunk_type =? 0x07 then mk_parts (p_translation p) (p_source p) (utf8 s)
  else p.

(** The [while (1)] loop over the parts of a message: the table after it, and
    whether the function goes on. *)
Fixpoint part_loop (fuel : nat) (data : bytes) (idx : Z) (p : message_parts) (entries : i18n_entries) :
    outcome (i18n_entries * bool) :=
  let datalen := Z.of_nat (length data) in
  match fuel with
  | O => Diverge
  | S fuel =>
      if datalen <? idx + 5 then Val (entries, false)
      else
        chunk_type ← rd data idx;
        if chunk_type =? 0x01
        then Val (<[entry_key (p_context p) (p_source p) := p_translation p]> entries, true)
        else
          chunk_size ← be32 data (idx + 1);
          let idx := idx + 5 in
          if (datalen <=? chunk_size) || (datalen - chunk_size <? idx) then Val (entries, false)
          else
            s ← slice data idx chunk_size;
            part_loop fuel data (idx + chunk_size) (note_part p chunk_type s) entries
  end.

(** The loop over the messages, with [n] of them left from message [m] on.  The
    parts are cleared at the end of every message. *)
Fixpoint message_loop (n : nat) (data : bytes) (c : chunks) (m : Z) (entries : i18n_entries) :
    outcome (i18n_entries * bool) :=
  match n with
  | O => Val (entries, true)
  | S n =>
      _ ← be32 data (offsets_idx c + u32 (m * 8));
      offset ← be32 data (offsets_idx c + u32 (m * 8) + 4);
      let idx := offset + messages_idx c in
      if Z.of_nat (length data) <? idx + 1 then Val (entries, false)
      else
        r ← part_loop (S (length data)) data idx no_parts entries;
        match r with
        | (entries, true) => message_loop n data c (m + 1) entries
        | (entries, false) => Val (entries, false)
        end
  end.

(** The part of [i18n_set_language] after the file is loaded. *)
Definition read_qm (data : bytes) (entries : i18n_entries) : outcome (i18n_entries * bool) :=
  if bool_decide (take 16 data = qm_magic) then
    r ← chunk_loop (length data) data 16 (mk_chunks (2 ^ 32 - 1) (2 ^ 32 - 1) (2 ^ 32 - 1));
    match r with
    | None => Val (entries, false)
    | Some c =>
        if offsets_idx c =? 2 ^ 32 - 1 then Val (entries, false)
        else if messages_idx c =? 2 ^ 32 - 1 then Val (entries, false)
        else message_loop (Z.to_nat (num_messages c)) data c 0 entries
    end
  else Val (entries, false).

(** What the surroundings provide: [getenv], the files that exist with what
    loading them gives, and the embedded files. *)
Record surroundings : Type := mk_surroundings {
  env_getenv : bytes -> option bytes;
  env_file : bytes -> option (option bytes);
  env_embedded : bytes -> option bytes;
}.

(** The file of a language: on disk, else embedded.  [None] is [return -1], [Some None]
    means that there is neither. *)
Definition find_file (env : surroundings) (directory base language : bytes) : option (option bytes) :=
  let name := base ++ bytes_of_string "_" ++ language ++ bytes_of_string ".qm" in
  match env_file env (directory ++ bytes_of_string "/" ++ name) with
  | Some (Some contents) => Some (Some contents)
  | Some None => None
  | None => Some (env_embedded env name)
  end.

(** The result is [0] when the flag is true and [-1] otherwise; a [NULL] directory
    or base is [None]. *)
Definition i18n_set_language (env : surroundings) (directory base : option bytes) (language : bytes)
    (entries : i18n_entries) : outcome (i18n_entries * bool) :=
  match directory, base with
  | Some directory, Some base =>
      let language := match language with [] => i18n_get_language (env_getenv env) | _ => language end in
      match find_file env directory base language with
      | None => Val (entries, false)
      | Some (Some contents) => read_qm contents entries
      | Some None =>
          if existsb (Z.eqb 95) (c_str language) then
            match find_file env directory base (up_to 95 language) with
            | Some (Some contents) => read_qm contents entries
            | _ => Val (entries, false)
            end
          else Val (entries, false)
      end
  | _, _ => Val (entries, false)
  end.

(** ** Every file is read within its bounds *)

Lemma rd_val (data : bytes) (i : Z) :
  0 <= i <= Z.of_nat (length data) -> exists b, rd data i = Val b.
Proof.
  intros Hi. unfold rd. rewrite c_index_total; [by eexists|]. rewrite length_app. cbn. lia.
Qed.

Lemma be32_val (data : bytes) (i : Z) :
  0 <= i -> i + 3 <= Z.of_nat (length data) ->
  exists n, be32 data i = Val n /\ 0 <= n < 2 ^ 32.
Proof.
  intros Hi Hl. unfold be32.
  destruct (rd_val data i) as [b0 ->]; [lia|]. run. destruct (rd_val data (i + 1)) as [b1 ->]; [lia|]. run.
  destruct (rd_val data (i + 2)) as [b2 ->]; [lia|]. run. destruct (rd_val data (i + 3)) as [b3 ->]; [lia|]. run.
  eexists. split; [done|]. apply Z.mod_pos_bound. lia.
Qed.

(** What the chunk loop knows of the offsets it found. *)
Definition chunks_ok (data : bytes) (c : chunks) : Prop :=
  0 <= messages_idx c /\
  (offsets_idx c = 2 ^ 32 - 1 \/
   0 <= offsets_idx c /\ 0 <= num_messages c /\ num_messages c * 8 < 2 ^ 32 /\
   offsets_idx c + num_messages c * 8 <= Z.of_nat (length data)).

Lemma note_chunk_ok (data : bytes) (c : chunks) (ty idx size : Z) :
  chunks_ok data c -> 0 <= idx -> 0 <= size < 2 ^ 32 -> idx + size <= Z.of_nat (length data) ->
  chunks_ok data (note_chunk c ty idx size).
Proof.
  intros [Hm Ho] Hi Hs Hl. unfold note_chunk.
  pose proof (Z.mod_pos_bound idx (2 ^ 32) ltac:(lia)). pose proof (Z.mod_le idx (2 ^ 32) ltac:(lia) ltac:(lia)).
  pose proof (Z.div_mod size 8 ltac:(lia)). pose proof (Z.mod_pos_bound size 8 ltac:(lia)).
  destruct (ty =? 0x42); [|destruct (ty =? 0x69)]; unfold chunks_ok; cbn; unfold u32; [|split; [lia|done]|done].
  split; [done|right]. lia.
Qed.

Lemma chunk_loop_total (fuel : nat) (data : bytes) (idx : Z) (c : chunks) :
  0 <= idx -> Z.of_nat (length data) - idx <= Z.of_nat fuel -> chunks_ok data c ->
  exists r, chunk_loop fuel data idx c = Val r /\ forall c', r = Some c' -> chunks_ok data c'.
Proof.
  revert idx c. induction fuel as [|fuel IH]; intros idx c Hi Hf Hc; cbn [chunk_loop]; cbv zeta.
  { rewrite (proj2 (Z.ltb_ge _ _)) by lia. exists (Some c). by split; [|intros ? [= <-]]. }
  destruct (Z.ltb_spec idx (Z.of_nat (length data))) as [Hlt|Hge].
  2: { exists (Some c). by split; [|intros ? [= <-]]. }
  destruct (Z.ltb_spec (Z.of_nat (length data)) (idx + 5)) as [?|Hle]; [by exists None|].
  destruct (rd_val data idx) as [ty ->]; [lia|]. run.
  destruct (be32_val data (idx + 1)) as (size & -> & Hs); [lia|lia|]. run.
  destruct (_ || _) eqn:E; [by exists None|].
  apply orb_false_iff in E as [E1%Z.leb_gt E2%Z.ltb_ge].
  apply IH; [lia|lia|]. apply note_chunk_ok; (done || lia).
Qed.

Lemma part_loop_total (fuel : nat) (data : bytes) (idx : Z) (p : message_parts) (entries : i18n_entries) :
  0 <= idx -> 1 <= Z.of_nat fuel -> Z.of_nat (length data) - idx < Z.of_nat fuel ->
  exists r, part_loop fuel data idx p entries = Val r.
Proof.
  revert idx p. induction fuel as [|fuel IH]; intros idx p Hi H1 Hf; [lia|]. cbn [part_loop]. cbv zeta.
  destruct (Z.ltb_spec (Z.of_nat (length data)) (idx + 5)) as [?|Hle]; [by eexists|].
  destruct (rd_val data idx) as [ty ->]; [lia|]. run.
  destruct (ty =? 1); [by eexists|].
  destruct (be32_val data (idx + 1)) as (size & -> & Hs); [lia|lia|]. run.
  destruct (_ || _) eqn:E; [by eexists|].
  apply orb_false_iff in E as [E1%Z.leb_gt E2%Z.ltb_ge]. unfold slice.
  rewrite (proj2 (Z.leb_le _ _)), (proj2 (Z.leb_le _ _)) by lia. cbn [andb]. run.
  apply IH; lia.
Qed.

Lemma message_loop_total (n : nat) (data : bytes) (c : chunks) (m : Z) (entries : i18n_entries) :
  chunks_ok data c -> offsets_idx c <> 2 ^ 32 - 1 -> 0 <= m -> m + Z.of_nat n = num_messages c ->
  exists r, message_loop n data c m entries = Val r.
Proof.
  intros [Hm Ho] Hn. destruct Ho as [?|(Ho & Hp & Hq & Hl)]; [done|].
  revert m entries. induction n as [|n IH]; intros m entries Hm0 Hmn; cbn [message_loop]; [by eexists|].
  assert (u32 (m * 8) = m * 8) as -> by (apply Z.mod_small; lia).
  destruct (be32_val data (offsets_idx c + m * 8)) as (h & -> & _); [lia|lia|]. run.
  destruct (be32_val data (offsets_idx c + m * 8 + 4)) as (o & -> & Hor); [lia|lia|]. run.
  destruct (Z.ltb_spec (Z.of_nat (length data)) (o + messages_idx c + 1)); [by eexists|].
  destruct (part_loop_total (S (length data)) data (o + messages_idx c) no_parts entries)
    as [[e [|]] ->]; [lia|lia|lia| |]; run; [apply IH; lia | by eexists].
Qed.

Lemma read_qm_total (data : bytes) (entries : i18n_entries) : exists r, read_qm data entries = Val r.
Proof.
  unfold read_qm. case_bool_decide; [|by eexists].
  destruct (chunk_loop_total (length data) data 16 (mk_chunks (2 ^ 32 - 1) (2 ^ 32 - 1) (2 ^ 32 - 1)))
    as (r & -> & Hr); [lia | lia | by split; [cbn; lia|left] |]. run.
  destruct r as [c|]; [|by eexists]. specialize (Hr c eq_refl).
  destruct (Z.eqb_spec (offsets_idx c) (2 ^ 32 - 1)); [by eexists|].
  destruct (messages_idx c =? 2 ^ 32 - 1); [by eexists|].
  destruct Hr as [Hm [?|Ho]]; [done|].
  apply message_loop_total; [by split; [|right] | done | lia | lia].
Qed.

(** C40. Whatever the environment, the files and the bytes in them, loading a
    language returns: no read outside the file's buffer and no endless loop, also
    on a malformed or hostile catalogue. *)
Theorem set_language_safe (env : surroundings) (directory base : option bytes) (language : bytes)
    (entries : i18n_entries) :
  exists entries' ok, i18n_set_language env directory base language entries = Val (entries', ok).
Proof.
  enough (exists r, i18n_set_language env directory base language entries = Val r) as [[e ok] ?]
    by (by exists e, ok).
  unfold i18n_set_language. cbv zeta. destruct directory as [d|]; [|by eexists].
  destruct base as [b|]; [|by eexists].
  destruct (find_file env d b _) as [[contents|]|]; [apply read_qm_total| |by eexists].
  destruct (existsb _ _); [|by eexists].
  destruct (find_file env d b _) as [[contents|]|]; [apply read_qm_total|by eexists..].
Qed.

(** ** The language taken from the environment *)

Lemma up_to_Forall (P : Z -> Prop) (c : Z) (s : bytes) : Forall P s -> Forall P (up_to c s).
Proof. induction 1 as [|x s Hx Hs IH]; cbn; [constructor|]. case_match; by constructor. Qed.

Lemma up_to_not (c : Z) (s : bytes) : Forall (fun x => x <> c) (up_to c s).
Proof. induction s as [|x s IH]; cbn; [constructor|]. destruct (Z.eqb_spec x c); by constructor. Qed.

(** A lower-case letter, an underscore or a hyphen. *)
Definition language_char (c : Z) : Prop := 97 <= c <= 122 \/ c = 95 \/ c = 45.

Lemma c_str_id (s : bytes) : Forall (fun b => b <> 0) s -> c_str s = s.
Proof. unfold c_str. induction 1 as [|x s Hx _ IH]; [done|]. simpl. by rewrite (proj2 (Z.eqb_neq _ _) Hx), IH. Qed.

Lemma tolower_allowed (c : Z) :
  existsb (Z.eqb c) language_chars = true -> c <> 46 -> c <> 64 -> language_char (tolower c).
Proof.
  intros H Hd Ha. apply existsb_exists in H as (x & Hx & ->%Z.eqb_eq).
  assert (forallb (fun x => let t := tolower x in (x =? 46) || (x =? 64) ||
            ((97 <=? t) && (t <=? 122)) || (t =? 95) || (t =? 45)) language_chars = true) as Hall
    by (vm_compute; reflexivity).
  rewrite forallb_forall in Hall. specialize (Hall x Hx). cbv zeta in Hall. unfold language_char. lia.
Qed.

(** The language read from the environment is at most 16 characters long and
    made of lower-case letters, underscores and hyphens only, so the file name
    built from it has no directory separator or dot of the environment's making. *)
Theorem language_safe (getenv : bytes -> option bytes) :
  Forall language_char (i18n_get_language getenv) /\
  Z.of_nat (length (i18n_get_language getenv)) <= 16.
Proof.
  assert (Forall language_char (bytes_of_string "en")) as Hen.
  { repeat constructor; unfold language_char; cbn; lia. }
  unfold i18n_get_language. cbv zeta.
  match goal with |- context [up_to 46 ?x] => set (s := x) end.
  destruct (forallb _ _) eqn:E; cbn [negb]; [|done].
  destruct (Z.ltb_spec MAX_LANGUAGE_SIZE (Z.of_nat (length (map tolower (up_to 64 (up_to 46 s)))))); [done|].
  split; [|unfold MAX_LANGUAGE_SIZE in *; lia].
  apply Forall_fmap. rewrite forallb_forall in E. apply Forall_forall. intros c Hc.
  pose proof (up_to_not 64 (up_to 46 s)) as H1. pose proof (up_to_Forall _ 64 _ (up_to_not 46 s)) as H2.
  rewrite Forall_forall in H1, H2. apply tolower_allowed; auto.
  apply E, list_elem_of_In, Hc.
Qed.

(** ** A writer of the format

    The layout the comment in the source describes and Qt's lrelease produces: the
    magic, the offsets chunk (a hash and an offset per message), the messages
    chunk and the chunk of plural rules, which the reader skips. *)

Record qm_message : Type := mk_qm_message {
  qm_context : bytes;
  qm_source : bytes;
  qm_translation : list Z; (** code points *)
}.

Definition be32_bytes (n : Z) : bytes :=
  [n / 2 ^ 24 mod 2 ^ 8; n / 2 ^ 16 mod 2 ^ 8; n / 2 ^ 8 mod 2 ^ 8; n mod 2 ^ 8].

Definition blen (s : bytes) : Z := Z.of_nat (length s).

(** A chunk or subchunk: type, length, data. *)
Definition write_part (ty : Z) (s : bytes) : bytes := ty :: be32_bytes (blen s) ++ s.

Definition unit_bytes (u : Z) : bytes := [u / 2 ^ 8; u mod 2 ^ 8].

(** UTF-16, big endian. *)
Definition utf16_char (c : Z) : bytes :=
  if c <? 0x10000 then unit_bytes c
  else unit_bytes (0xd800 + (c - 0x10000) / 2 ^ 10) ++ unit_bytes (0xdc00 + (c - 0x10000) mod 2 ^ 10).

(** UTF-8. *)
Definition utf8_char (c : Z) : bytes :=
  if c <? 0x80 then [c]
  else if c <? 0x800 then [0xc0 + c / 2 ^ 6; 0x80 + c mod 2 ^ 6]
  else if c <? 0x10000 then [0xe0 + c / 2 ^ 12; 0x80 + c / 2 ^ 6 mod 2 ^ 6; 0x80 + c mod 2 ^ 6]
  else [0xf0 + c / 2 ^ 18; 0x80 + c / 2 ^ 12 mod 2 ^ 6; 0x80 + c / 2 ^ 6 mod 2 ^ 6; 0x80 + c mod 2 ^ 6].

Definition utf8_bytes (l : list Z) : bytes := l ≫= utf8_char.

Definition write_message (m : qm_message) : bytes :=
  write_part 0x03 (qm_translation m ≫= utf16_char) ++ write_part 0x06 (qm_source m) ++
  write_part 0x07 (qm_context m) ++ [0x01].

Fixpoint write_offsets (hash : qm_message -> Z) (ms : list qm_message) (offset : Z) : bytes :=
  match ms with
  | [] => []
  | m :: ms => be32_bytes (hash m) ++ be32_bytes offset ++
               write_offsets hash ms (offset + blen (write_message m))
  end.

Definition write_qm (hash : qm_message -> Z) (ms : list qm_message) (numerus : bytes) : bytes :=
  qm_magic ++ write_part 0x42 (write_offsets hash ms 0) ++ write_part 0x69 (ms ≫= write_message) ++
  write_part 0x88 numerus.

(** *** Characters *)

(** A code point of the basic plane that is not a surrogate. *)
Definition bmp (c : Z) : Prop := 0 <= c < 0xd800 \/ 0xe000 <= c < 0x10000.

Lemma u8_small (z : Z) : 0 <= z < 2 ^ 8 -> u8 z = z.
Proof. apply Z.mod_small. Qed.

Lemma lead_byte (k n b : Z) : 0 <= n -> 0 <= b < 2 ^ n -> 0 <= k * 2 ^ n -> k * 2 ^ n + b < 2 ^ 8 ->
  u8 (Z.lor (k * 2 ^ n) b) = k * 2 ^ n + b.
Proof.
  intros Hn Hb Hk Hl.
  assert (Z.lor (k * 2 ^ n) b = k * 2 ^ n + b) as ->; [|apply u8_small; lia].
  rewrite <- (Z.shiftl_mul_pow2 k n) by done. rewrite lor_shiftl_add by done.
  by rewrite Z.shiftl_mul_pow2.
Qed.

Lemma tail_byte (c : Z) : u8 (Z.lor 0x80 (Z.land c 0x3f)) = 0x80 + c mod 2 ^ 6.
Proof.
  change 0x3f with (2 ^ 6 - 1). rewrite land_ones_mod by lia.
  pose proof (Z.mod_pos_bound c (2 ^ 6) ltac:(lia)).
  apply (lead_byte 2 6); lia.
Qed.

(** The bytes the code appends are UTF-8. *)
Lemma append_code_utf8 (c : Z) : 0 <= c < 0x200000 -> append_code c = utf8_char c.
Proof.
  intros Hc. unfold append_code, utf8_char.
  rewrite !Z.shiftr_div_pow2, !tail_byte by lia.
  destruct (Z.leb_spec c 0x7f), (Z.ltb_spec c 0x80); try lia; [by rewrite u8_small by lia|].
  destruct (Z.leb_spec c 0x7ff), (Z.ltb_spec c 0x800); try lia.
  { f_equal. apply (lead_byte 6 5); [lia| |lia|]; (assert (0 <= c / 2 ^ 6 < 2 ^ 5); [|lia]);
      split; [apply Z.div_pos; lia | apply Z.div_lt_upper_bound; lia
             | apply Z.div_pos; lia | apply Z.div_lt_upper_bound; lia]. }
  destruct (Z.leb_spec c 0xffff), (Z.ltb_spec c 0x10000); try lia.
  { f_equal. assert (0 <= c / 2 ^ 12 < 2 ^ 4)
      by (split; [apply Z.div_pos; lia | apply Z.div_lt_upper_bound; lia]).
    apply (lead_byte 14 4); lia. }
  f_equal. assert (0 <= c / 2 ^ 18 < 2 ^ 3)
    by (split; [apply Z.div_pos; lia | apply Z.div_lt_upper_bound; lia]).
  apply (lead_byte 30 3); lia.
Qed.

Lemma unit_code (u : Z) : 0 <= u < 0x10000 -> Z.lor (Z.shiftl (u / 2 ^ 8) 8) (u mod 2 ^ 8) = u.
Proof.
  intros Hu. rewrite lor_shiftl_add by (lia || apply Z.mod_pos_bound; lia).
  pose proof (Z.div_mod u (2 ^ 8) ltac:(lia)). lia.
Qed.

Lemma utf16_char_bmp (c : Z) : bmp c -> utf16_char c = unit_bytes c.
Proof. intros Hc. unfold utf16_char, bmp in *. by rewrite (proj2 (Z.ltb_lt c _)) by lia. Qed.

(** [utf16] turns UTF-16 into UTF-8 on the basic plane. *)
Lemma utf16_bmp (l : list Z) : Forall bmp l -> utf16 (l ≫= utf16_char) = utf8_bytes l.
Proof.
  unfold utf8_bytes. induction 1 as [|c l Hc Hl IH]; [done|].
  rewrite !bind_cons, (utf16_char_bmp c Hc). cbn [unit_bytes app utf16]. unfold bmp in Hc.
  rewrite unit_code by lia. rewrite append_code_utf8 by lia.
  destruct Hl as [|c' l Hc' Hl]; [reflexivity|].
  rewrite !bind_cons, (utf16_char_bmp c' Hc') in *. cbn [unit_bytes app] in *. unfold bmp in Hc'.
  rewrite unit_code by lia. destruct (_ && _) eqn:E; [|by rewrite IH].
  repeat (apply andb_true_iff in E as [E ?%Z.leb_le]). lia.
Qed.

(** A character outside the basic plane is decoded to the wrong character: the
    code subtracts 0x35dfc00 where the surrogates add up to 0x35fdc00, so the
    UTF-8 written is that of the code point 0x1e000 higher. *)
Theorem supplementary_misdecoded (c : Z) :
  0x10000 <= c < 0x110000 ->
  utf16 (utf16_char c) = utf8_char (c + 0x1e000) /\ utf8_char (c + 0x1e000) <> utf8_char c.
Proof.
  intros Hc. pose proof (Z.div_mod (c - 0x10000) (2 ^ 10) ltac:(lia)) as Hd.
  pose proof (Z.mod_pos_bound (c - 0x10000) (2 ^ 10) ltac:(lia)) as Hr.
  set (q := (c - 0x10000) / 2 ^ 10) in *. set (r := (c - 0x10000) mod 2 ^ 10) in *.
  assert (0 <= q < 2 ^ 10) as Hq by (unfold q; split; [apply Z.div_pos; lia | apply Z.div_lt_upper_bound; lia]).
  split.
  - unfold utf16_char. rewrite (proj2 (Z.ltb_ge c _)) by lia. fold q r. cbn [unit_bytes app utf16].
    rewrite !unit_code by lia.
    rewrite !(proj2 (Z.leb_le _ _)) by lia. cbn [andb]. rewrite app_nil_r.
    rewrite append_code_utf8.
    + f_equal. rewrite Z.shiftl_mul_pow2 by lia. unfold u32.
      rewrite (Z.mod_small ((0xd800 + q) * 2 ^ 10)) by lia. rewrite Z.mod_small; lia.
    + rewrite Z.shiftl_mul_pow2 by lia. unfold u32.
      rewrite (Z.mod_small ((0xd800 + q) * 2 ^ 10)) by lia. rewrite Z.mod_small; lia.
  - unfold utf8_char. repeat (rewrite (proj2 (Z.ltb_ge _ _)) by lia).
    intros [= E1 E2 E3 E4].
    pose proof (Z.div_mod c (2 ^ 6) ltac:(lia)). pose proof (Z.div_mod (c + 0x1e000) (2 ^ 6) ltac:(lia)).
    assert (c / 2 ^ 12 = c / 2 ^ 6 / 2 ^ 6) as Ea by (rewrite Z.div_div by lia; done).
    assert ((c + 0x1e000) / 2 ^ 12 = (c + 0x1e000) / 2 ^ 6 / 2 ^ 6) as Eb by (rewrite Z.div_div by lia; done).
    assert (c / 2 ^ 18 = c / 2 ^ 12 / 2 ^ 6) as Ec by (rewrite Z.div_div by lia; done).
    assert ((c + 0x1e000) / 2 ^ 18 = (c + 0x1e000) / 2 ^ 12 / 2 ^ 6) as Ed by (rewrite Z.div_div by lia; done).
    pose proof (Z.div_mod (c / 2 ^ 6) (2 ^ 6) ltac:(lia)). pose proof (Z.div_mod ((c + 0x1e000) / 2 ^ 6) (2 ^ 6) ltac:(lia)).
    pose proof (Z.div_mod (c / 2 ^ 12) (2 ^ 6) ltac:(lia)). pose proof (Z.div_mod ((c + 0x1e000) / 2 ^ 12) (2 ^ 6) ltac:(lia)).
    lia.
Qed.

Lemma supplementary_misdecoded_witness :
  utf16 (utf16_char 0x1f600) = utf8_char (0x1f600 + 0x1e000) /\
  utf8_char (0x1f600 + 0x1e000) <> utf8_char 0x1f600.
Proof. apply (supplementary_misdecoded 0x1f600). lia. Defined.

(** *** Reading what was written *)

Lemma rd_middle (pre post : bytes) (x : Z) : rd (pre ++ x :: post) (blen pre) = Val x.
Proof.
  unfold rd. apply c_index_lookup; [unfold blen; lia|]. unfold blen. rewrite Nat2Z.id, <- app_assoc.
  by apply list_lookup_middle.
Qed.

Lemma be32_bytes_value (n : Z) :
  0 <= n < 2 ^ 32 ->
  u32 (Z.lor (Z.lor (Z.lor (Z.shiftl (n / 2 ^ 24 mod 2 ^ 8) 24) (Z.shiftl (n / 2 ^ 16 mod 2 ^ 8) 16))
         (Z.shiftl (n / 2 ^ 8 mod 2 ^ 8) 8)) (n mod 2 ^ 8)) = n.
Proof.
  intros Hn. set (b3 := n mod 2 ^ 8). set (b2 := n / 2 ^ 8 mod 2 ^ 8). set (b1 := n / 2 ^ 16 mod 2 ^ 8).
  set (b0 := n / 2 ^ 24 mod 2 ^ 8).
  assert (Hb : forall z, 0 <= z mod 2 ^ 8 < 2 ^ 8) by (intros; apply Z.mod_pos_bound; lia).
  pose proof (Hb n) as H3. pose proof (Hb (n / 2 ^ 8)) as H2. pose proof (Hb (n / 2 ^ 16)) as H1.
  pose proof (Hb (n / 2 ^ 24)) as H0. fold b3 in H3. fold b2 in H2. fold b1 in H1. fold b0 in H0.
  replace (Z.lor (Z.shiftl b0 24) (Z.shiftl b1 16)) with (Z.shiftl (b0 * 2 ^ 8 + b1) 16).
  2: { rewrite <- lor_shiftl_add, Z.shiftl_lor, Z.shiftl_shiftl by lia. done. }
  replace (Z.lor _ (Z.shiftl b2 8)) with (Z.shiftl ((b0 * 2 ^ 8 + b1) * 2 ^ 8 + b2) 8).
  2: { rewrite <- (lor_shiftl_add (b0 * 2 ^ 8 + b1)), Z.shiftl_lor, Z.shiftl_shiftl by lia. done. }
  rewrite lor_shiftl_add by lia.
  assert (n = ((b0 * 2 ^ 8 + b1) * 2 ^ 8 + b2) * 2 ^ 8 + b3) as <-; [|by apply Z.mod_small].
  pose proof (Z.div_mod n (2 ^ 8) ltac:(lia)) as E3. pose proof (Z.div_mod (n / 2 ^ 8) (2 ^ 8) ltac:(lia)) as E2.
  pose proof (Z.div_mod (n / 2 ^ 16) (2 ^ 8) ltac:(lia)) as E1.
  rewrite Z.div_div in E2 by lia. rewrite Z.div_div in E1 by lia.
  change (2 ^ 8 * 2 ^ 8) with (2 ^ 16) in E2. change (2 ^ 16 * 2 ^ 8) with (2 ^ 24) in E1.
  assert (b0 = n / 2 ^ 24) as E0.
  { unfold b0. apply Z.mod_small. split; [apply Z.div_pos; lia|]. apply Z.div_lt_upper_bound; lia. }
  fold b3 in E3. fold b2 in E2. fold b1 in E1. lia.
Qed.

Lemma blen_app (a b : bytes) : blen (a ++ b) = blen a + blen b.
Proof. unfold blen. rewrite length_app. lia. Qed.

Lemma blen_cons (x : Z) (a : bytes) : blen (x :: a) = 1 + blen a.
Proof. unfold blen. cbn [length]. lia. Qed.

Lemma blen_nonneg (a : bytes) : 0 <= blen a.
Proof. unfold blen. lia. Qed.

Lemma be32_middle (pre post : bytes) (n : Z) :
  0 <= n < 2 ^ 32 -> be32 (pre ++ be32_bytes n ++ post) (blen pre) = Val n.
Proof.
  intros Hn. unfold be32, be32_bytes. cbn [app].
  set (b0 := n / 2 ^ 24 mod 2 ^ 8). set (b1 := n / 2 ^ 16 mod 2 ^ 8). set (b2 := n / 2 ^ 8 mod 2 ^ 8).
  set (b3 := n mod 2 ^ 8). rewrite rd_middle. run.
  rewrite (cons_middle b0), app_assoc. replace (blen pre + 1) with (blen (pre ++ [b0])) by (rewrite blen_app; done).
  rewrite rd_middle. run.
  rewrite (cons_middle b1), app_assoc.
  replace (blen pre + 2) with (blen ((pre ++ [b0]) ++ [b1])) by (rewrite !blen_app; unfold blen; cbn; lia).
  rewrite rd_middle. run.
  rewrite (cons_middle b2), app_assoc.
  replace (blen pre + 3) with (blen (((pre ++ [b0]) ++ [b1]) ++ [b2])) by (rewrite !blen_app; unfold blen; cbn; lia).
  rewrite rd_middle. run. f_equal. by apply be32_bytes_value.
Qed.

Lemma blen_part (ty : Z) (s : bytes) : blen (write_part ty s) = 5 + blen s.
Proof. unfold write_part. rewrite blen_cons, blen_app. unfold blen, be32_bytes. cbn. lia. Qed.

(** The head of a chunk or subchunk, seen from the reader. *)
Lemma read_head (pre post s : bytes) (ty : Z) :
  blen s < 2 ^ 32 ->
  rd (pre ++ write_part ty s ++ post) (blen pre) = Val ty /\
  be32 (pre ++ write_part ty s ++ post) (blen pre + 1) = Val (blen s) /\
  slice (pre ++ write_part ty s ++ post) (blen pre + 5) (blen s) = Val s.
Proof.
  intros Hs. pose proof (blen_nonneg s). unfold write_part. rewrite <- app_comm_cons, <- app_assoc. split; [|split].
  - apply rd_middle.
  - rewrite cons_middle, app_assoc. replace (blen pre + 1) with (blen (pre ++ [ty])) by (by rewrite blen_app).
    by apply be32_middle.
  - unfold slice. pose proof (blen_nonneg pre). pose proof (blen_nonneg post).
    rewrite (proj2 (Z.leb_le _ _)) by lia. rewrite (proj2 (Z.leb_le _ _)).
    2: { change (Z.of_nat (length ?l)) with (blen l). rewrite !blen_app, blen_cons, !blen_app.
         unfold be32_bytes. unfold blen at 4. cbn [length]. lia. }
    cbn [andb]. f_equal.
    replace (pre ++ ty :: be32_bytes (blen s) ++ s ++ post)
      with ((pre ++ ty :: be32_bytes (blen s)) ++ s ++ post) by (by rewrite <- app_assoc).
    rewrite <- app_assoc, drop_app_length', <- app_assoc, take_app_length'; [done| |].
    + unfold blen. lia.
    + rewrite length_app. unfold blen, be32_bytes. cbn [length]. lia.
Qed.

Lemma chunk_loop_step (fuel : nat) (pre post s : bytes) (ty : Z) (c : chunks) :
  blen s < 2 ^ 32 ->
  chunk_loop (S fuel) (pre ++ write_part ty s ++ post) (blen pre) c
  = chunk_loop fuel (pre ++ write_part ty s ++ post) (blen (pre ++ write_part ty s))
      (note_chunk c ty (blen pre + 5) (blen s)).
Proof.
  intros Hs. destruct (read_head pre post s ty Hs) as (H1 & H2 & _).
  pose proof (blen_nonneg s). pose proof (blen_nonneg pre). pose proof (blen_nonneg post).
  assert (blen (pre ++ write_part ty s ++ post) = blen pre + (5 + blen s) + blen post) as El
    by (rewrite !blen_app, blen_part; lia).
  cbn [chunk_loop]. cbv zeta. change (Z.of_nat (length ?l)) with (blen l). rewrite El.
  rewrite (proj2 (Z.ltb_lt _ _)) by lia. rewrite (proj2 (Z.ltb_ge _ _)) by lia.
  rewrite H1. run. rewrite H2. run.
  rewrite (proj2 (Z.leb_gt _ _)), (proj2 (Z.ltb_ge _ _)) by lia. cbn [orb].
  f_equal. rewrite blen_app, blen_part. lia.
Qed.

Lemma part_loop_step (fuel : nat) (pre post s : bytes) (ty : Z) (p : message_parts) (e : i18n_entries) :
  blen s < 2 ^ 32 -> ty <> 1 ->
  part_loop (S fuel) (pre ++ write_part ty s ++ post) (blen pre) p e
  = part_loop fuel (pre ++ write_part ty s ++ post) (blen (pre ++ write_part ty s)) (note_part p ty s) e.
Proof.
  intros Hs Hty. destruct (read_head pre post s ty Hs) as (H1 & H2 & H3).
  pose proof (blen_nonneg s). pose proof (blen_nonneg pre). pose proof (blen_nonneg post).
  assert (blen (pre ++ write_part ty s ++ post) = blen pre + (5 + blen s) + blen post) as El
    by (rewrite !blen_app, blen_part; lia).
  cbn [part_loop]. cbv zeta. change (Z.of_nat (length ?l)) with (blen l). rewrite El.
  rewrite (proj2 (Z.ltb_ge _ _)) by lia. rewrite H1. run.
  rewrite (proj2 (Z.eqb_neq ty 1)) by done. rewrite H2. run.
  rewrite (proj2 (Z.leb_gt _ _)), (proj2 (Z.ltb_ge _ _)) by lia. cbn [orb].
  rewrite H3. run. f_equal. rewrite blen_app, blen_part. lia.
Qed.

Definition read_message (m : qm_message) (e : i18n_entries) : i18n_entries :=
  <[entry_key (qm_context m) (qm_source m) := utf16 (qm_translation m ≫= utf16_char)]> e.

(** The loop over the parts of a written message arrives at its end marker. *)
Lemma part_loop_to_end (fuel : nat) (pre post : bytes) (m : qm_message) (e : i18n_entries) :
  let data := pre ++ write_message m ++ post in
  let last := blen pre + blen (write_message m) - 1 in
  blen data < 2 ^ 32 ->
  rd data last = Val 1 /\
  part_loop (S (S (S fuel))) data (blen pre) no_parts e
  = part_loop fuel data last
      (mk_parts (utf16 (qm_translation m ≫= utf16_char)) (qm_source m) (qm_context m)) e.
Proof.
  intros data last Hl.
  set (t := qm_translation m ≫= utf16_char). set (s := qm_source m). set (c := qm_context m).
  assert (data = pre ++ write_part 3 t ++ (write_part 6 s ++ write_part 7 c ++ 1 :: post)) as E1
    by (unfold data, write_message; by rewrite <- !app_assoc).
  assert (data = (pre ++ write_part 3 t) ++ write_part 6 s ++ (write_part 7 c ++ 1 :: post)) as E2
    by (rewrite E1; by rewrite !app_assoc).
  assert (data = ((pre ++ write_part 3 t) ++ write_part 6 s) ++ write_part 7 c ++ 1 :: post) as E3
    by (rewrite E2; by rewrite !app_assoc).
  assert (data = (((pre ++ write_part 3 t) ++ write_part 6 s) ++ write_part 7 c) ++ 1 :: post) as E4
    by (rewrite E3; by rewrite !app_assoc).
  assert (last = blen (((pre ++ write_part 3 t) ++ write_part 6 s) ++ write_part 7 c)) as El.
  { unfold last, write_message. fold t s c. rewrite !blen_app. change (blen [1]) with 1. lia. }
  assert (blen t < 2 ^ 32 /\ blen s < 2 ^ 32 /\ blen c < 2 ^ 32) as (Ht & Hs & Hc).
  { rewrite E4, !blen_app, !blen_part in Hl. pose proof (blen_nonneg pre). pose proof (blen_nonneg (1 :: post)).
    pose proof (blen_nonneg t). pose proof (blen_nonneg s). pose proof (blen_nonneg c). lia. }
  rewrite El. clearbody data. split; [rewrite E4; apply rd_middle|].
  rewrite E1, part_loop_step by done. rewrite <- E1, E2, part_loop_step by done.
  rewrite <- E2, E3, part_loop_step by done. done.
Qed.

Lemma part_loop_message (fuel : nat) (pre post : bytes) (m : qm_message) (e : i18n_entries) :
  blen (pre ++ write_message m ++ post) < 2 ^ 32 -> (4 <= fuel)%nat ->
  part_loop fuel (pre ++ write_message m ++ post) (blen pre) no_parts e
  = if 4 <=? blen post then Val (read_message m e, true) else Val (e, false).
Proof.
  intros Hl Hf. destruct fuel as [|[|[|[|fuel]]]]; [lia..|]. clear Hf.
  destruct (part_loop_to_end (S fuel) pre post m e Hl) as [Hrd ->].
  cbn [part_loop]. cbv zeta. change (Z.of_nat (length ?l)) with (blen l). rewrite !blen_app.
  destruct (Z.leb_spec 4 (blen post)).
  - rewrite (proj2 (Z.ltb_ge _ _)) by lia. rewrite Hrd. run. reflexivity.
  - by rewrite (proj2 (Z.ltb_lt _ _)) by lia.
Qed.

(** The message loop, from some message on: [pre] and [mid] hold what the offsets
    and the messages before it take. *)
Lemma message_loop_read (hash : qm_message -> Z) (ms : list qm_message) (c : chunks) (m offset : Z)
    (pre mid post : bytes) (e : i18n_entries) :
  (forall x, 0 <= hash x < 2 ^ 32) -> 4 <= blen post -> 0 <= offset -> 0 <= m ->
  let data := pre ++ write_offsets hash ms offset ++ mid ++ (ms ≫= write_message) ++ post in
  blen data < 2 ^ 32 -> blen pre = offsets_idx c + m * 8 -> 0 <= offsets_idx c ->
  offset + messages_idx c = blen (pre ++ write_offsets hash ms offset ++ mid) -> 0 <= messages_idx c ->
  message_loop (length ms) data c m e = Val (foldl (fun e m => read_message m e) e ms, true).
Proof.
  intros Hh Hp. revert m offset pre mid e.
  induction ms as [|x ms IH]; intros m offset pre mid e Ho Hm data Hl Ep Hoi Em Hmi; [done|].
  cbn [length message_loop]. cbn [write_offsets] in data.
  set (h := be32_bytes (hash x)) in data. set (o := be32_bytes offset) in data.
  set (rest := write_offsets hash ms _) in data.
  pose proof (blen_nonneg pre). pose proof (blen_nonneg mid). pose proof (blen_nonneg post).
  assert (data = pre ++ h ++ (o ++ rest ++ mid ++ (write_message x ++ (ms ≫= write_message)) ++ post)) as E1.
  { unfold data. rewrite bind_cons. by rewrite <- !app_assoc. }
  assert (data = (pre ++ h) ++ o ++ (rest ++ mid ++ (write_message x ++ (ms ≫= write_message)) ++ post)) as E2
    by (rewrite E1; by rewrite <- !app_assoc).
  assert (data = (pre ++ h ++ o ++ rest ++ mid) ++ write_message x ++ ((ms ≫= write_message) ++ post)) as E3
    by (rewrite E1; by rewrite <- !app_assoc).
  assert (data = (pre ++ h ++ o) ++ rest ++ (mid ++ write_message x) ++ (ms ≫= write_message) ++ post) as E4
    by (rewrite E1; by rewrite <- !app_assoc).
  assert (blen h = 4 /\ blen o = 4) as [Eh Eo] by done.
  assert (blen (pre ++ h ++ o ++ rest ++ mid) = offset + messages_idx c) as Ei.
  { rewrite Em. cbn [write_offsets]. fold h o rest. by rewrite <- !app_assoc. }
  assert (blen data = blen pre + 8 + blen rest + blen mid + blen (write_message x) +
          blen (ms ≫= write_message) + blen post) as El.
  { rewrite E3, !blen_app. lia. }
  pose proof (blen_nonneg rest). pose proof (blen_nonneg (write_message x)). pose proof (blen_nonneg (ms ≫= write_message)).
  rewrite !blen_app, Eh, Eo in Ei.
  assert (u32 (m * 8) = m * 8) as -> by (apply Z.mod_small; lia).
  replace (offsets_idx c + m * 8) with (blen pre) by lia.
  assert (be32 data (blen pre) = Val (hash x)) as R1 by (rewrite E1; apply be32_middle, Hh).
  assert (be32 data (blen pre + 4) = Val offset) as R2.
  { replace (blen pre + 4) with (blen (pre ++ h)) by (rewrite blen_app; lia).
    rewrite E2. apply be32_middle. lia. }
  rewrite R1. run. rewrite R2. run. change (Z.of_nat (length data)) with (blen data).
  assert (16 <= blen (write_message x)) as Hx.
  { unfold write_message. rewrite !blen_app, !blen_part. unfold blen at 4. cbn [length].
    pose proof (blen_nonneg (qm_translation x ≫= utf16_char)). pose proof (blen_nonneg (qm_source x)).
    pose proof (blen_nonneg (qm_context x)). lia. }
  rewrite (proj2 (Z.ltb_ge _ _)) by lia.
  replace (offset + messages_idx c) with (blen (pre ++ h ++ o ++ rest ++ mid)) by (rewrite !blen_app; lia).
  assert (part_loop (S (length data)) data (blen (pre ++ h ++ o ++ rest ++ mid)) no_parts e
          = Val (read_message x e, true)) as ->.
  { rewrite E3 at 2. rewrite part_loop_message; [| by rewrite <- E3 | unfold blen in Hx, El; lia].
    by rewrite (proj2 (Z.leb_le _ _)) by (rewrite blen_app; lia). }
  run. rewrite E4. cbn [foldl]. apply IH; [lia | lia | rewrite E4 in Hl; exact Hl | | done | | done].
  - rewrite !blen_app. lia.
  - rewrite !blen_app. fold rest. lia.
Qed.

Lemma write_offsets_length (hash : qm_message -> Z) (ms : list qm_message) (offset : Z) :
  blen (write_offsets hash ms offset) = 8 * Z.of_nat (length ms).
Proof.
  revert offset. induction ms as [|m ms IH]; intros offset; [done|]. cbn [write_offsets].
  rewrite !blen_app, IH. unfold blen, be32_bytes. cbn [length]. lia.
Qed.

(** The first two chunks of a written file. *)
Lemma chunk_loop_written (fuel : nat) (n : Z) (offs body tail : bytes) :
  let data := qm_magic ++ write_part 0x42 offs ++ write_part 0x69 body ++ tail in
  blen data < 2 ^ 32 -> blen offs = 8 * n ->
  chunk_loop (S (S fuel)) data 16 (mk_chunks (2 ^ 32 - 1) (2 ^ 32 - 1) (2 ^ 32 - 1))
  = chunk_loop fuel data (blen ((qm_magic ++ write_part 0x42 offs) ++ write_part 0x69 body))
      (mk_chunks n (26 + blen offs) 21).
Proof.
  intros data Hl Eo. set (c0 := mk_chunks _ _ _).
  pose proof (blen_nonneg body). pose proof (blen_nonneg tail). pose proof (blen_nonneg offs).
  assert (blen data = 26 + blen offs + blen body + blen tail) as El.
  { unfold data. rewrite !blen_app, !blen_part. change (blen qm_magic) with 16. lia. }
  assert (data = (qm_magic ++ write_part 0x42 offs) ++ write_part 0x69 body ++ tail) as E2
    by (unfold data; by rewrite <- !app_assoc).
  pose proof (chunk_loop_step (S fuel) qm_magic (write_part 0x69 body ++ tail) offs 0x42 c0 ltac:(lia)) as S1.
  fold data in S1. change (blen qm_magic) with 16 in S1. rewrite S1. clear S1.
  rewrite E2, chunk_loop_step by lia. rewrite <- E2. f_equal.
  rewrite blen_app, blen_part. change (blen qm_magic) with 16.
  unfold note_chunk. cbn [Z.eqb Pos.eqb num_messages messages_idx offsets_idx].
  f_equal; [rewrite Eo, Z.mul_comm; by apply Z.div_mul | unfold u32; rewrite Z.mod_small; lia].
Qed.

Lemma chunk_loop_done (fuel : nat) (data : bytes) (c : chunks) :
  chunk_loop fuel data (blen data) c = Val (Some c).
Proof.
  destruct fuel; cbn [chunk_loop]; cbv zeta; change (Z.of_nat (length data)) with (blen data);
    by rewrite Z.ltb_irrefl.
Qed.

Lemma read_qm_written (hash : qm_message -> Z) (ms : list qm_message) (numerus : bytes) (e : i18n_entries) :
  (forall x, 0 <= hash x < 2 ^ 32) -> blen (write_qm hash ms numerus) < 2 ^ 32 ->
  read_qm (write_qm hash ms numerus) e = Val (foldl (fun e m => read_message m e) e ms, true).
Proof.
  intros Hh Hl. unfold read_qm, write_qm in *.
  set (offs := write_offsets hash ms 0) in *. set (body := ms ≫= write_message) in *.
  pose proof (chunk_loop_written (length (qm_magic ++ write_part 66 offs ++ write_part 105 body ++
                write_part 136 numerus) - 2) (Z.of_nat (length ms)) offs body (write_part 136 numerus) Hl
                (write_offsets_length hash ms 0)) as Ec.
  set (data := qm_magic ++ _) in *.
  assert (blen offs = 8 * Z.of_nat (length ms)) as Eo by apply write_offsets_length.
  pose proof (blen_nonneg body). pose proof (blen_nonneg numerus).
  assert (blen data = 31 + blen offs + blen body + blen numerus) as El.
  { unfold data. rewrite !blen_app, !blen_part. change (blen qm_magic) with 16. lia. }
  rewrite bool_decide_true by reflexivity.
  replace (S (S (length data - 2))) with (length data) in Ec by (unfold blen in El; lia).
  rewrite Ec. clear Ec.
  assert (exists fuel, (length data - 2 = S fuel)%nat) as [fuel ->].
  { exists (length data - 3)%nat. unfold blen in El. lia. }
  assert (data = ((qm_magic ++ write_part 66 offs) ++ write_part 105 body) ++ write_part 136 numerus ++ []) as E3
    by (unfold data; rewrite app_nil_r; by rewrite <- !app_assoc).
  rewrite E3 at 1. rewrite chunk_loop_step by lia. rewrite <- E3.
  replace (blen (((qm_magic ++ _) ++ _) ++ _)) with (blen data) by (rewrite E3, app_nil_r; done).
  rewrite chunk_loop_done. run. change (note_chunk ?c 136 _ _) with c. cbn [offsets_idx messages_idx num_messages].
  rewrite (proj2 (Z.eqb_neq 21 _)), (proj2 (Z.eqb_neq (26 + _) _)) by lia. rewrite Nat2Z.id.
  assert (data = (qm_magic ++ 66 :: be32_bytes (blen offs)) ++ write_offsets hash ms 0 ++
            (105 :: be32_bytes (blen body)) ++ (ms ≫= write_message) ++ write_part 136 numerus) as E.
  { unfold data, write_part. fold offs body. rewrite <- !app_assoc. done. }
  rewrite E. apply message_loop_read; try done; try lia.
  - rewrite blen_part. lia.
  - cbn [messages_idx]. rewrite !blen_app. fold offs. change (blen qm_magic) with 16.
    change (blen (66 :: be32_bytes (blen offs))) with 5.
    change (blen (105 :: be32_bytes (blen body))) with 5. lia.
  - cbn [messages_idx]. lia.
Qed.

Lemma entry_key_inj (c c' s s' : bytes) :
  Forall (fun b => b <> 0) c -> Forall (fun b => b <> 0) c' -> entry_key c s = entry_key c' s' ->
  c = c' /\ s = s'.
Proof.
  unfold entry_key. intros Hc. revert c'. induction Hc as [|x c Hx Hc IH]; intros [|x' c'] Hc' E; cbn in E.
  - by injection E as ->.
  - inversion_clear Hc'. injection E as <- _. done.
  - by injection E as -> _.
  - injection E as -> E. inversion_clear Hc' as [|?? _ Hc0]. by destruct (IH c' Hc0 E) as [-> ->].
Qed.

(** A message of the basic plane whose context has no zero byte. *)
Definition message_ok (m : qm_message) : Prop :=
  Forall bmp (qm_translation m) /\ Forall (fun b => b <> 0) (qm_context m).

Definition message_key (m : qm_message) : bytes * bytes := (qm_context m, qm_source m).

Lemma entries_lookup (ms : list qm_message) (e : i18n_entries) (c s : bytes) :
  Forall message_ok ms -> Forall (fun b => b <> 0) c -> NoDup (map message_key ms) ->
  (forall m, m ∈ ms -> message_key m = (c, s) ->
    foldl (fun e m => read_message m e) e ms !! entry_key c s = Some (utf8_bytes (qm_translation m))) /\
  ((c, s) ∉ map message_key ms -> foldl (fun e m => read_message m e) e ms !! entry_key c s = e !! entry_key c s).
Proof.
  intros Hok Hc. revert e. induction Hok as [|x ms [Hx Hxc] Hok IH]; intros e Hnd; cbn [foldl map].
  { split; [by intros m Hm%elem_of_nil|done]. }
  apply NoDup_cons in Hnd as [Hnin Hnd]. destruct (IH (read_message x e) Hnd) as [IH1 IH2]. split.
  - intros m [->|Hm]%elem_of_cons Hk; [|by apply IH1]. rewrite <- Hk in IH2. rewrite IH2 by done.
    injection Hk as <- <-. unfold read_message. rewrite utf16_bmp by done.
    apply lookup_insert_eq.
  - intros [Hn1 Hn2]%not_elem_of_cons. rewrite IH2 by done. unfold read_message.
    apply lookup_insert_ne. intros Heq. apply Hn1. unfold message_key.
    destruct (entry_key_inj (qm_context x) c (qm_source x) s) as [-> ->]; done.
Qed.

(** Loading the file that the reference writer makes of a catalogue succeeds,
    and afterwards every message is translated to the UTF-8 of its translation, up to a
    zero in it, while a message that is not in the catalogue stays as it is.  The catalogue may
    use any character of the basic plane and must not list a message twice. *)
Theorem qm_roundtrip (env : surroundings) (directory base language : bytes) (hash : qm_message -> Z)
    (ms : list qm_message) (numerus : bytes) :
  (forall x, 0 <= hash x < 2 ^ 32) -> blen (write_qm hash ms numerus) < 2 ^ 32 ->
  Forall message_ok ms -> NoDup (map message_key ms) -> language <> [] ->
  find_file env directory base language = Some (Some (write_qm hash ms numerus)) ->
  exists e, i18n_set_language env (Some directory) (Some base) language ∅ = Val (e, true) /\
    (forall m, m ∈ ms -> Forall (fun b => b <> 0) (qm_source m) ->
       i18n_translate e (qm_source m) (qm_context m) = c_str (utf8_bytes (qm_translation m))) /\
    (forall s c, Forall (fun b => b <> 0) c -> Forall (fun b => b <> 0) s -> (c, s) ∉ map message_key ms -> i18n_translate e s c = s).
Proof.
  intros Hh Hl Hok Hnd Hlang Hfile. eexists. split.
  { unfold i18n_set_language. cbv zeta. destruct language; [done|]. rewrite Hfile. by apply read_qm_written. }
  split.
  - intros m Hm Hs. unfold i18n_translate. rewrite (c_str_id (qm_source m) Hs). rewrite Forall_forall in Hok. pose proof (Hok m Hm) as [_ Hc].
    rewrite <- Forall_forall in Hok.
    by rewrite (proj1 (entries_lookup ms ∅ (qm_context m) (qm_source m) Hok Hc Hnd) m Hm eq_refl).
  - intros s c Hc Hs Hn. unfold i18n_translate. rewrite (c_str_id s Hs).
    by rewrite (proj2 (entries_lookup ms ∅ c s Hok Hc Hnd) Hn).
Qed.

Definition sample_env (file : bytes) : surroundings :=
  mk_surroundings (fun _ => None) (fun _ => None) (fun _ => Some file).

Definition sample_messages : list qm_message :=
  [mk_qm_message (bytes_of_string "a") (bytes_of_string "hi") [0x53; 0x2603];
   mk_qm_message (bytes_of_string "b") (bytes_of_string "hi") [0xe9]].

Lemma qm_roundtrip_witness : exists e,
  i18n_set_language (sample_env (write_qm (fun _ => 7) sample_messages [1; 0])) (Some []) (Some []) [102] ∅
    = Val (e, true) /\
  i18n_translate e (bytes_of_string "hi") (bytes_of_string "b") = [0xc3; 0xa9] /\
  i18n_translate e (bytes_of_string "bye") (bytes_of_string "b") = bytes_of_string "bye".
Proof.
  destruct (qm_roundtrip (sample_env (write_qm (fun _ => 7) sample_messages [1; 0])) [] [] [102] (fun _ => 7)
              sample_messages [1; 0]) as (e & E & H1 & H2).
  - intros x. lia.
  - vm_compute. reflexivity.
  - repeat constructor; cbn; unfold bmp; lia.
  - apply (bool_decide_unpack _). vm_compute. exact I.
  - discriminate.
  - reflexivity.
  - exists e. split; [exact E|]. split.
    + apply (H1 (mk_qm_message (bytes_of_string "b") (bytes_of_string "hi") [0xe9])); [right; left|repeat constructor; cbn; lia].
    + apply H2; [repeat constructor; cbn; lia..|]. apply (bool_decide_unpack _). vm_compute. exact I.
Defined.

(** The reader wants five bytes where an end marker needs one: a catalogue that
    ends with its messages chunk, as the described format allows, is refused and its
    message is not entered. *)
Theorem trailing_end_marker (hash : qm_message -> Z) (m : qm_message) (e : i18n_entries) :
  let data := qm_magic ++ write_part 0x42 (write_offsets hash [m] 0) ++ write_part 0x69 (write_message m) in
  0 <= hash m < 2 ^ 32 -> blen data < 2 ^ 32 ->
  read_qm data e = Val (e, false).
Proof.
  intros data Hh Hl. set (offs := write_offsets hash [m] 0) in *. set (body := write_message m) in *.
  assert (blen offs = 8) as Eo by apply (write_offsets_length hash [m] 0).
  assert (data = qm_magic ++ write_part 66 offs ++ write_part 105 body ++ []) as E
    by (unfold data; by rewrite app_nil_r).
  assert (blen data = 34 + blen body) as El.
  { unfold data. rewrite !blen_app, !blen_part, Eo. change (blen qm_magic) with 16. lia. }
  assert (16 <= blen body) as Hb.
  { unfold body, write_message. rewrite !blen_app, !blen_part. change (blen [1]) with 1.
    pose proof (blen_nonneg (qm_translation m ≫= utf16_char)). pose proof (blen_nonneg (qm_source m)).
    pose proof (blen_nonneg (qm_context m)). lia. }
  pose proof (chunk_loop_written (length data - 2) 1 offs body []) as Ec. cbv zeta in Ec.
  rewrite <- E, Eo in Ec. specialize (Ec Hl eq_refl).
  replace (S (S (length data - 2))) with (length data) in Ec by (unfold blen in El; lia).
  unfold read_qm. rewrite bool_decide_true by reflexivity. rewrite Ec. clear Ec.
  replace (blen ((qm_magic ++ _) ++ _)) with (blen data) by (unfold data; by rewrite <- app_assoc).
  rewrite chunk_loop_done. run. cbn [offsets_idx messages_idx num_messages].
  rewrite (proj2 (Z.eqb_neq 21 _)), (proj2 (Z.eqb_neq (26 + 8) _)) by lia.
  change (Z.to_nat 1) with 1%nat. cbn [message_loop offsets_idx messages_idx]. change (21 + u32 (0 * 8)) with 21.
  set (pre := qm_magic ++ 66 :: be32_bytes (blen offs)). set (h := be32_bytes (hash m)).
  set (mid := 105 :: be32_bytes (blen body)).
  assert (data = pre ++ h ++ (be32_bytes 0 ++ mid ++ body)) as E1.
  { unfold data, write_part, pre, mid. rewrite <- !app_assoc. done. }
  assert (data = (pre ++ h) ++ be32_bytes 0 ++ (mid ++ body)) as E2 by (rewrite E1; by rewrite <- !app_assoc).
  assert (data = (pre ++ h ++ be32_bytes 0 ++ mid) ++ write_message m ++ []) as E3
    by (rewrite E1, app_nil_r; fold body; by rewrite <- !app_assoc).
  assert (be32 data 21 = Val (hash m)) as -> by (rewrite E1; by apply (be32_middle pre)).
  run. assert (be32 data (21 + 4) = Val 0) as -> by (rewrite E2; apply (be32_middle (pre ++ h)); lia).
  run. change (Z.of_nat (length data)) with (blen data). change (0 + (26 + 8)) with 34.
  rewrite (proj2 (Z.ltb_ge _ _)) by lia.
  assert (part_loop (S (length data)) data 34 no_parts e = Val (e, false)) as ->; [|done].
  rewrite E3 at 2. change 34 with (blen (pre ++ h ++ be32_bytes 0 ++ mid)).
  rewrite part_loop_message; [done | by rewrite <- E3 | unfold blen in El, Hb; lia].
Qed.

Lemma trailing_end_marker_witness :
  let m := mk_qm_message [97] [98] [99] in
  read_qm (qm_magic ++ write_part 0x42 (write_offsets (fun _ => 7) [m] 0) ++ write_part 0x69 (write_message m)) ∅
  = Val (∅, false).
Proof.
  apply (trailing_end_marker (fun _ => 7) (mk_qm_message [97] [98] [99]) ∅); [lia|].
  vm_compute. reflexivity.
Defined.
