(* ===== verification/Base58.v ===== *)
(** * Base58 and addresses

    src/src/common/base58.cpp: the block-wise Base58 of public addresses, and
    addresses with a tag and a checksum.  Strings are lists of bytes.  The hash
    function of the checksum is an argument. *)

From Stdlib Require Import Ascii String.
From S2P Require Import Prelude IntUtil Varint.

(** ** Tables *)

Definition alphabet : list Z :=
  map (fun c => Z.of_N (N_of_ascii c))
    (list_ascii_of_string "123456789ABCDEFGHJKLMNPQRSTUVWXYZabcdefghijkmnopqrstuvwxyz").

Definition alphabet_size : Z := 58.
Definition encoded_block_sizes : list Z := [0; 2; 3; 5; 6; 7; 9; 10; 11].
Definition full_block_size : Z := 8.
Definition full_encoded_block_size : Z := 11.
Definition addr_checksum_size : Z := 4.

(** The table built by the constructor of [reverse_alphabet]: 74 entries, -1 for the
    characters that are not digits. *)
Definition reverse_alphabet_data : list Z :=
  foldl (fun d '(i, c) => <[Z.to_nat (c - 49) := i]> d) (replicate 74 (-1)) (zip (seqZ 0 58) alphabet).

(** [operator()(char letter)]: letters below the first one wrap to a huge index. *)
Definition reverse_alphabet (letter : Z) : Z :=
  if decide (0 <= letter - 49 < 74) then reverse_alphabet_data !!! Z.to_nat (letter - 49) else -1.

(** The table of [decoded_block_sizes]. *)
Definition decoded_block_sizes_data : list Z :=
  foldl (fun d '(i, s) => <[Z.to_nat s := i]> d) (replicate 12 (-1)) (zip (seqZ 0 9) encoded_block_sizes).

Definition decoded_block_sizes (ndebug : bool) (encoded_block_size : Z) : outcome Z :=
  _ ← c_assert ndebug (encoded_block_size <=? full_encoded_block_size);
  c_index decoded_block_sizes_data encoded_block_size.

(** ** Blocks *)

(** The bytes of a big-endian number, and the [size] bytes of a number. *)
Definition uint_8be_to_64 (ndebug : bool) (data : list Z) : outcome Z :=
  _ ← c_assert ndebug ((1 <=? Z.of_nat (length data)) && (Z.of_nat (length data) <=? 8));
  Val (of_digits 256 data).

Definition uint_64_to_8be (ndebug : bool) (num size : Z) : outcome (list Z) :=
  _ ← c_assert ndebug ((1 <=? size) && (size <=? 8));
  Val (to_digits 256 (Z.to_nat size) num).

(** The [while (0 < num)] loop, which fills [res] from index [i] down. *)
Fixpoint encode_loop (fuel : nat) (num i : Z) (res : list Z) : outcome (list Z) :=
  if 0 <? num then
    match fuel with
    | O => Diverge
    | S fuel =>
        c ← c_index alphabet (num mod alphabet_size);
        res ← c_update res i c;
        encode_loop fuel (num / alphabet_size) (i - 1) res
    end
  else Val res.

(** [encode_block] on its segment of the result, which holds the first letter
    throughout. *)
Definition encode_block (ndebug : bool) (block : list Z) : outcome (list Z) :=
  let size := Z.of_nat (length block) in
  _ ← c_assert ndebug ((1 <=? size) && (size <=? full_block_size));
  num ← uint_8be_to_64 ndebug block;
  len ← c_index encoded_block_sizes size;
  encode_loop 11 num (len - 1) (replicate (Z.to_nat len) 49).

(** The loop of [decode_block], over the letters from the last to the first. *)
Fixpoint decode_loop (ndebug : bool) (letters : list Z) (res_num order : Z) : outcome (option Z) :=
  match letters with
  | [] => Val (Some res_num)
  | letter :: letters =>
      let digit := reverse_alphabet letter in
      if digit <? 0 then Val None
      else
        '(product_lo, product_hi) ← mul128 ndebug order digit;
        let tmp := u64 (res_num + product_lo) in
        if (tmp <? res_num) || negb (product_hi =? 0) then Val None
        else decode_loop ndebug letters tmp (u64 (order * alphabet_size))
  end.

Definition decode_block (ndebug : bool) (block : list Z) : outcome (option (list Z)) :=
  let size := Z.of_nat (length block) in
  _ ← c_assert ndebug ((1 <=? size) && (size <=? full_encoded_block_size));
  res_size ← decoded_block_sizes ndebug size;
  if res_size <=? 0 then Val None
  else
    res_num ← decode_loop ndebug (reverse block) 0 1;
    match res_num with
    | None => Val None
    | Some res_num =>
        if (res_size <? full_block_size) && (Z.shiftl 1 (8 * res_size) <=? res_num) then Val None
        else
          res ← uint_64_to_8be ndebug res_num res_size;
          Val (Some res)
    end.

(** ** Strings *)

(** The loop over [count] full blocks; each call writes its own segment. *)
Fixpoint encode_blocks (ndebug : bool) (count : nat) (data : list Z) : outcome (list Z) :=
  match count with
  | O => Val []
  | S count =>
      b ← encode_block ndebug (take 8 data);
      rest ← encode_blocks ndebug count (drop 8 data);
      Val (b ++ rest)
  end.

Definition encode (ndebug : bool) (data : list Z) : outcome (list Z) :=
  match data with
  | [] => Val []
  | _ =>
      let full_block_count := (length data / 8)%nat in
      let last_block_size := (length data mod 8)%nat in
      res ← encode_blocks ndebug full_block_count data;
      if decide (0 < last_block_size)%nat then
        b ← encode_block ndebug (drop (full_block_count * 8) data);
        Val (res ++ b)
      else Val res
  end.

Fixpoint decode_blocks (ndebug : bool) (count : nat) (enc : list Z) : outcome (option (list Z)) :=
  match count with
  | O => Val (Some [])
  | S count =>
      b ← decode_block ndebug (take 11 enc);
      match b with
      | None => Val None
      | Some b =>
          rest ← decode_blocks ndebug count (drop 11 enc);
          match rest with
          | None => Val None
          | Some rest => Val (Some (b ++ rest))
          end
      end
  end.

Definition decode (ndebug : bool) (enc : list Z) : outcome (option (list Z)) :=
  match enc with
  | [] => Val (Some [])
  | _ =>
      let full_block_count := (length enc / 11)%nat in
      let last_block_size := (length enc mod 11)%nat in
      last_block_decoded_size ← decoded_block_sizes ndebug (Z.of_nat last_block_size);
      if last_block_decoded_size <? 0 then Val None
      else
        data ← decode_blocks ndebug full_block_count enc;
        match data with
        | None => Val None
        | Some data =>
            if decide (0 < last_block_size)%nat then
              b ← decode_block ndebug (drop (full_block_count * 11) enc);
              match b with
              | None => Val None
              | Some b => Val (Some (data ++ b))
              end
            else Val (Some data)
        end
  end.

(** ** Addresses *)

Section addresses.
Context (cn_fast_hash : list Z -> list Z) (ndebug : bool).

Definition encode_addr (tag : Z) (data : list Z) : outcome (list Z) :=
  buf ← get_varint_data tag;
  let buf := buf ++ data in
  let buf := buf ++ take 4 (cn_fast_hash buf) in
  encode ndebug buf.

Definition decode_addr (addr : list Z) : outcome (option (Z * list Z)) :=
  r ← decode ndebug addr;
  match r with
  | None => Val None
  | Some addr_data =>
      if Z.of_nat (length addr_data) <=? addr_checksum_size then Val None
      else
        let checksum := drop (length addr_data - 4) addr_data in
        let addr_data := take (length addr_data - 4) addr_data in
        if bool_decide (take 4 (cn_fast_hash addr_data) = checksum) then
          let '(read, tag) := read_varint 64 addr_data in
          if read <=? 0 then Val None else Val (Some (tag, drop (Z.to_nat read) addr_data))
        else Val None
  end.
End addresses.

(** ** Digits and letters *)

Definition letter (d : Z) : Z := alphabet !!! Z.to_nat d.

Lemma letter_reverse (d : Z) : is_digit 58 d -> reverse_alphabet (letter d) = d.
Proof.
  intros Hd. unfold is_digit in Hd.
  assert (forallb (fun d => reverse_alphabet (letter d) =? d) (seqZ 0 58) = true) as H by (vm_compute; reflexivity).
  rewrite forallb_forall in H. apply Z.eqb_eq, H, list_elem_of_In, elem_of_seqZ. lia.
Qed.

(** A letter is a digit or refused. *)
Lemma reverse_letter (c : Z) :
  reverse_alphabet c < 0 \/ (is_digit 58 (reverse_alphabet c) /\ letter (reverse_alphabet c) = c).
Proof.
  destruct (decide (0 <= c - 49 < 74)) as [Hc|Hc].
  - assert (forallb (fun k => let d := reverse_alphabet (k + 49) in
              (d <? 0) || ((0 <=? d) && (d <? 58) && (letter d =? k + 49))) (seqZ 0 74) = true) as H
      by (vm_compute; reflexivity).
    rewrite forallb_forall in H. specialize (H (c - 49)). cbv zeta in H.
    replace (c - 49 + 49) with c in H by lia.
    assert ((reverse_alphabet c <? 0) || ((0 <=? reverse_alphabet c) && (reverse_alphabet c <? 58) &&
              (letter (reverse_alphabet c) =? c)) = true) as H'.
    { apply H, list_elem_of_In, elem_of_seqZ. lia. }
    unfold is_digit. lia.
  - left. unfold reverse_alphabet. rewrite decide_False by done. lia.
Qed.

Lemma alphabet_index (d : Z) : is_digit 58 d -> c_index alphabet d = Val (letter d).
Proof. intros Hd. apply c_index_total. exact Hd. Qed.

(** The encoded size of a block is the least with enough digits. *)
Lemma block_sizes (s : Z) :
  1 <= s <= 8 ->
  exists k, c_index encoded_block_sizes s = Val k /\ 1 <= k <= 11 /\ 256 ^ s <= 58 ^ k /\
    forall ndebug, decoded_block_sizes ndebug k = Val s.
Proof.
  intros Hs. assert (s = 1 \/ s = 2 \/ s = 3 \/ s = 4 \/ s = 5 \/ s = 6 \/ s = 7 \/ s = 8) as H by lia.
  destruct H as [->|[->|[->|[->|[->|[->|[->| ->]]]]]]]; eexists; (split; [reflexivity|]); (split; [lia|]);
    (split; [lia|]); intros ndebug; unfold decoded_block_sizes; by rewrite c_assert_true.
Qed.

(** ** Encoding a block *)

Lemma to_digits_0 (k : nat) : to_digits 58 k 0 = replicate k 0.
Proof.
  induction k as [|k IH]; [done|]. cbn [to_digits]. change (0 / 58) with 0. change (0 mod 58) with 0.
  rewrite IH. by rewrite <- replicate_S_end.
Qed.

(** The loop writes the digits of the number, right-aligned over the first letter. *)
Lemma encode_loop_spec (fuel k : nat) (num : Z) (rest : list Z) :
  0 <= num < 58 ^ Z.of_nat k -> (k <= fuel)%nat ->
  encode_loop fuel num (Z.of_nat k - 1) (replicate k 49 ++ rest) = Val (map letter (to_digits 58 k num) ++ rest).
Proof.
  revert fuel num rest. induction k as [|k IH]; intros fuel num rest Hn Hf.
  { assert (num = 0) as -> by (cbn in Hn; lia). by destruct fuel. }
  destruct (Z.ltb_spec 0 num) as [Hpos|Hz].
  - destruct fuel as [|fuel]; [lia|]. cbn [encode_loop]. rewrite (proj2 (Z.ltb_lt _ _) Hpos).
    assert (is_digit 58 (num mod 58)) as Hd by (apply Z.mod_pos_bound; lia).
    rewrite alphabet_index by done. run. unfold c_update. rewrite decide_True.
    2: { rewrite length_app, length_replicate. lia. }
    run. replace (Z.of_nat (S k) - 1) with (Z.of_nat k) by lia. rewrite Nat2Z.id.
    replace (<[k:=letter (num mod alphabet_size)]> (replicate (S k) 49 ++ rest))
      with (replicate k 49 ++ (letter (num mod alphabet_size) :: rest)).
    2: { rewrite replicate_S_end, <- app_assoc. cbn [app].
         rewrite insert_app_r_alt by (rewrite length_replicate; lia).
         by rewrite length_replicate, Nat.sub_diag. }
    rewrite IH; [|split|lia].
    + cbn [to_digits]. rewrite map_app, <- app_assoc. done.
    + apply Z.div_pos; unfold alphabet_size; lia.
    + rewrite Nat2Z.inj_succ, Z.pow_succ_r in Hn by lia. apply Z.div_lt_upper_bound; unfold alphabet_size; lia.
  - assert (num = 0) as -> by lia.
    replace (encode_loop fuel 0 (Z.of_nat (S k) - 1) (replicate (S k) 49 ++ rest))
      with (Val (replicate (S k) 49 ++ rest)) by (by destruct fuel).
    rewrite to_digits_0, (fmap_replicate letter). done.
Qed.

Definition is_byte (b : Z) : Prop := is_digit 256 b.

(** A block becomes the digits of its number, as many as its size has. *)
Lemma encode_block_spec (ndebug : bool) (block : list Z) :
  (1 <= length block <= 8)%nat -> Forall is_byte block ->
  exists k, c_index encoded_block_sizes (Z.of_nat (length block)) = Val (Z.of_nat k) /\
    encode_block ndebug block = Val (map letter (to_digits 58 k (of_digits 256 block))).
Proof.
  intros Hl Hb. destruct (block_sizes (Z.of_nat (length block))) as (k & Ek & Hk & Hpow & _); [lia|].
  exists (Z.to_nat k). rewrite Z2Nat.id by lia. split; [done|]. unfold encode_block. cbv zeta.
  rewrite c_assert_true; [run|].
  2: { unfold full_block_size. lia. }
  unfold uint_8be_to_64. rewrite c_assert_true by lia. run. run. rewrite Ek. run. pose proof (of_digits_range 256 block ltac:(lia) Hb) as Hr.
  rewrite <- (app_nil_r (replicate _ _)), <- (app_nil_r (map _ _)).
  replace (k - 1) with (Z.of_nat (Z.to_nat k) - 1) by lia.
  apply encode_loop_spec; [|lia]. rewrite Z2Nat.id by lia. lia.
Qed.

(** ** Decoding a block *)

Lemma of_digits_reverse_cons (base d : Z) (l : list Z) :
  of_digits base (reverse (d :: l)) = of_digits base (reverse l) * base + d.
Proof. by rewrite reverse_cons, of_digits_snoc. Qed.

(** The loop adds up the digits, and refuses exactly the values of 2^64 and more. *)
Lemma decode_loop_spec (ndebug : bool) (ds : list Z) (j : nat) (r : Z) :
  Forall (is_digit 58) ds -> (j + length ds <= 11)%nat -> in_u64 r ->
  let v := r + 58 ^ Z.of_nat j * of_digits 58 (reverse ds) in
  decode_loop ndebug (map letter ds) r (u64 (58 ^ Z.of_nat j)) = Val (if v <? 2 ^ 64 then Some v else None).
Proof.
  intros Hds. revert j r. induction Hds as [|d ds Hd Hds IH]; intros j r Hj Hr; cbv zeta.
  { cbn [map decode_loop]. change (of_digits 58 (reverse [])) with 0. rewrite Z.mul_0_r, Z.add_0_r.
    by rewrite (proj2 (Z.ltb_lt _ _)) by apply Hr. }
  cbn [map decode_loop length] in *. rewrite letter_reverse by done. unfold is_digit in Hd.
  rewrite (proj2 (Z.ltb_ge d 0)) by lia.
  assert (0 < 58 ^ Z.of_nat j <= 58 ^ 10) as Hp.
  { split; [apply Z.pow_pos_nonneg; lia|]. apply Z.pow_le_mono_r; lia. }
  assert (u64 (58 ^ Z.of_nat j) = 58 ^ Z.of_nat j) as Eo by (apply Z.mod_small; lia). rewrite Eo.
  rewrite mul128_spec by (unfold_words; lia). run. set (p := 58 ^ Z.of_nat j * d).
  pose proof (of_digits_range 58 (reverse ds) ltac:(lia) ltac:(by apply Forall_reverse)) as Hv.
  rewrite of_digits_reverse_cons. set (w := of_digits 58 (reverse ds)) in *.
  replace (58 ^ Z.of_nat j * (w * 58 + d)) with (p + 58 ^ Z.of_nat (S j) * w)
    by (unfold p; rewrite Nat2Z.inj_succ, Z.pow_succ_r by lia; ring).
  assert (0 <= 58 ^ Z.of_nat (S j) * w) as Hrest by (apply Z.mul_nonneg_nonneg; [apply Z.pow_nonneg|]; lia).
  assert (0 <= p) as Hp0 by (unfold p; nia). unfold in_u64 in Hr.
  destruct (Z.lt_ge_cases p (2 ^ 64)) as [Hsm|Hbig].
  - rewrite (Z.mod_small p), (Z.div_small p) by lia. cbn [Z.eqb negb]. rewrite orb_false_r.
    destruct (Z.lt_ge_cases (r + p) (2 ^ 64)) as [Hok|Hov].
    + rewrite u64_small by (unfold_words; lia). rewrite (proj2 (Z.ltb_ge (r + p) r)) by lia.
      replace (u64 (58 ^ Z.of_nat j * alphabet_size)) with (u64 (58 ^ Z.of_nat (S j)))
        by (rewrite Nat2Z.inj_succ, Z.pow_succ_r, Z.mul_comm by lia; done).
      rewrite IH by (unfold_words; lia). cbv zeta. fold w. rewrite Z.add_assoc. done.
    + rewrite u64_add_wrap by (unfold_words; lia). rewrite (proj2 (Z.ltb_lt (r + p - 2 ^ 64) r)) by lia.
      by rewrite (proj2 (Z.ltb_ge (r + _) _)) by lia.
  - assert (0 < p / 2 ^ 64) by (apply Z.div_str_pos; lia). rewrite (proj2 (Z.eqb_neq (p / 2 ^ 64) 0)) by lia.
    cbn [negb]. rewrite orb_true_r. by rewrite (proj2 (Z.ltb_ge (r + _) _)) by lia.
Qed.

Lemma decode_loop_bad (ndebug : bool) (letters : list Z) (j : nat) (r : Z) :
  Exists (fun c => reverse_alphabet c < 0) letters -> (j + length letters <= 11)%nat -> in_u64 r ->
  decode_loop ndebug letters r (u64 (58 ^ Z.of_nat j)) = Val None.
Proof.
  revert j r. induction letters as [|c letters IH]; intros j r He Hj Hr; [by apply Exists_nil in He|].
  cbn [decode_loop length] in *.
  destruct (reverse_letter c) as [Hc|[Hd _]]; [by rewrite (proj2 (Z.ltb_lt _ _))|].
  unfold is_digit in Hd. rewrite (proj2 (Z.ltb_ge _ _)) by lia. apply Exists_cons in He as [?|He]; [lia|].
  rewrite mul128_spec by (apply u64_range || (unfold_words; lia)). run.
  destruct (_ || _); [done|].
  assert (u64 (u64 (58 ^ Z.of_nat j) * alphabet_size) = u64 (58 ^ Z.of_nat (S j))) as ->.
  { unfold u64, alphabet_size. rewrite Zmult_mod_idemp_l, Nat2Z.inj_succ, Z.pow_succ_r by lia. f_equal. lia. }
  apply IH; [done|lia|apply u64_range].
Qed.

Lemma letters_cases (block : list Z) :
  Exists (fun c => reverse_alphabet c < 0) block \/
  exists ds, Forall (is_digit 58) ds /\ block = map letter ds.
Proof.
  induction block as [|c block IH]; [by right; exists []|].
  destruct (reverse_letter c) as [Hc|[Hd Hl]]; [by left; apply Exists_cons; left|].
  destruct IH as [He|(ds & Hds & ->)]; [by left; apply Exists_cons; right|].
  right. exists (reverse_alphabet c :: ds). split; [by constructor|]. cbn. by rewrite Hl.
Qed.

(** The sizes a block can have. *)
Lemma decoded_sizes (ndebug : bool) (k : nat) :
  (k <= 11)%nat ->
  decoded_block_sizes ndebug (Z.of_nat k) = Val (-1) \/
  (k = 0%nat /\ decoded_block_sizes ndebug (Z.of_nat k) = Val 0) \/
  exists s : nat, (1 <= s <= 8)%nat /\ decoded_block_sizes ndebug (Z.of_nat k) = Val (Z.of_nat s) /\
    c_index encoded_block_sizes (Z.of_nat s) = Val (Z.of_nat k).
Proof.
  intros Hk. unfold decoded_block_sizes. rewrite c_assert_true by (unfold full_encoded_block_size; lia). run.
  do 12 (destruct k as [|k]; [first [left; reflexivity | right; left; split; reflexivity |
    right; right; first [exists 1%nat; split; [lia|split; reflexivity] | exists 2%nat; split; [lia|split; reflexivity]
    | exists 3%nat; split; [lia|split; reflexivity] | exists 4%nat; split; [lia|split; reflexivity]
    | exists 5%nat; split; [lia|split; reflexivity] | exists 6%nat; split; [lia|split; reflexivity]
    | exists 7%nat; split; [lia|split; reflexivity] | exists 8%nat; split; [lia|split; reflexivity]]]|]). lia.
Qed.

(** A block of digits is decoded when its number fits the bytes. *)
Lemma decode_block_spec (ndebug : bool) (ds : list Z) (s : nat) :
  Forall (is_digit 58) ds -> (1 <= s <= 8)%nat ->
  c_index encoded_block_sizes (Z.of_nat s) = Val (Z.of_nat (length ds)) ->
  decode_block ndebug (map letter ds)
  = Val (if of_digits 58 ds <? 256 ^ Z.of_nat s then Some (to_digits 256 s (of_digits 58 ds)) else None).
Proof.
  intros Hds Hs Ek. destruct (block_sizes (Z.of_nat s)) as (k & Ek' & Hk & Hpow & Hdec); [lia|].
  rewrite Ek in Ek'. injection Ek' as <-. unfold decode_block. cbv zeta. rewrite length_map.
  rewrite c_assert_true by (unfold full_encoded_block_size; lia). run. rewrite Hdec. run.
  rewrite (proj2 (Z.leb_gt _ _)) by lia. rewrite <- (fmap_reverse letter).
  pose proof (of_digits_range 58 ds ltac:(lia) Hds) as Hr.
  pose proof (decode_loop_spec ndebug (reverse ds) 0 0 ltac:(by apply Forall_reverse)
                ltac:(rewrite length_reverse; lia) ltac:(unfold_words; lia)) as E.
  cbv zeta in E. change (u64 (58 ^ Z.of_nat 0)) with 1 in E. change (58 ^ Z.of_nat 0) with 1 in E.
  rewrite reverse_involutive, Z.mul_1_l, Z.add_0_l in E. change (fmap letter) with (map letter).
  rewrite E. run. set (v := of_digits 58 ds) in *.
  assert (256 ^ Z.of_nat s = 2 ^ (8 * Z.of_nat s)) as E256 by (by rewrite Z.pow_mul_r by lia).
  assert (2 ^ (8 * Z.of_nat s) <= 2 ^ 64) as Hle by (apply Z.pow_le_mono_r; lia).
  assert (forall x, uint_64_to_8be ndebug x (Z.of_nat s) = Val (to_digits 256 s x)) as Ebe.
  { intros x. unfold uint_64_to_8be. rewrite c_assert_true by lia. run. by rewrite Nat2Z.id. }
  unfold full_block_size. rewrite E256, Z.shiftl_1_l. destruct (Z.ltb_spec v (2 ^ 64)); cycle 1.
  { by rewrite (proj2 (Z.ltb_ge _ _)) by lia. }
  rewrite Ebe. run. destruct (Z.ltb_spec (Z.of_nat s) 8) as [Hs8|Hs8]; cbn [andb].
  - destruct (Z.leb_spec (2 ^ (8 * Z.of_nat s)) v), (Z.ltb_spec v (2 ^ (8 * Z.of_nat s))); (done || lia).
  - assert (s = 8%nat) as -> by lia. by rewrite (proj2 (Z.ltb_lt _ _)).
Qed.

Lemma block_roundtrip (ndebug : bool) (block : list Z) :
  (1 <= length block <= 8)%nat -> Forall is_byte block ->
  exists e k, encode_block ndebug block = Val e /\ decode_block ndebug e = Val (Some block) /\ length e = k /\
    c_index encoded_block_sizes (Z.of_nat (length block)) = Val (Z.of_nat k).
Proof.
  intros Hl Hb. destruct (encode_block_spec ndebug block Hl Hb) as (k & Ek & E).
  exists (map letter (to_digits 58 k (of_digits 256 block))), k.
  split; [done|]. split; [|by rewrite length_map, to_digits_length].
  destruct (block_sizes (Z.of_nat (length block))) as (k' & Ek' & Hk & Hpow & _); [lia|].
  rewrite Ek in Ek'. injection Ek' as <-. pose proof (of_digits_range 256 block ltac:(lia) Hb) as Hr.
  rewrite (decode_block_spec ndebug _ (length block)); [| by apply to_digits_range | done | by rewrite to_digits_length].
  rewrite of_to_digits by lia. rewrite (proj2 (Z.ltb_lt _ _)) by lia. by rewrite to_of_digits.
Qed.

Lemma decode_block_total (ndebug : bool) (e : list Z) :
  (1 <= length e <= 11)%nat ->
  decode_block ndebug e = Val None \/
  exists block, decode_block ndebug e = Val (Some block) /\ (1 <= length block <= 8)%nat /\ Forall is_byte block /\
    encode_block ndebug block = Val e /\
    c_index encoded_block_sizes (Z.of_nat (length block)) = Val (Z.of_nat (length e)).
Proof.
  intros Hl. destruct (decoded_sizes ndebug (length e) ltac:(lia)) as [E|[[? _]|(s & Hs & E & Ek)]]; [|lia|].
  { left. unfold decode_block. cbv zeta. rewrite c_assert_true by (unfold full_encoded_block_size; lia).
    run. rewrite E. run. done. }
  destruct (letters_cases e) as [He|(ds & Hds & ->)].
  { left. unfold decode_block. cbv zeta. rewrite c_assert_true by (unfold full_encoded_block_size; lia).
    run. rewrite E. run. rewrite (proj2 (Z.leb_gt _ _)) by lia.
    pose proof (decode_loop_bad ndebug (reverse e) 0 0) as Hbad. change (u64 (58 ^ Z.of_nat 0)) with 1 in Hbad.
    rewrite Hbad; [done| |rewrite length_reverse; lia|unfold_words; lia].
    apply Exists_exists in He as (x & Hx & Hneg). apply Exists_exists. exists x. by rewrite elem_of_reverse. }
  rewrite length_map in *. rewrite (decode_block_spec ndebug ds s) by done.
  destruct (Z.ltb_spec (of_digits 58 ds) (256 ^ Z.of_nat s)) as [Hv|]; [right|by left].
  pose proof (of_digits_range 58 ds ltac:(lia) Hds) as Hr.
  eexists. split; [done|]. rewrite to_digits_length. split; [done|]. split; [by apply to_digits_range|].
  split; [|done].
  destruct (encode_block_spec ndebug (to_digits 256 s (of_digits 58 ds))) as (k & Ek' & ->);
    [by rewrite to_digits_length | by apply to_digits_range |].
  rewrite to_digits_length, Ek in Ek'. injection Ek' as <-%Nat2Z.inj.
  rewrite of_to_digits by lia. by rewrite to_of_digits.
Qed.

(** ** Strings *)

Lemma encode_blocks_spec (ndebug : bool) (n : nat) (data : list Z) :
  (n * 8 <= length data)%nat -> Forall is_byte data ->
  exists e, encode_blocks ndebug n data = Val e /\ length e = (n * 11)%nat /\
    forall tail, decode_blocks ndebug n (e ++ tail) = Val (Some (take (n * 8) data)).
Proof.
  revert data. induction n as [|n IH]; intros data Hl Hb; [by exists []|].
  destruct (block_roundtrip ndebug (take 8 data)) as (b & k & Eb & Db & Lb & Ek);
    [rewrite length_take; lia | by apply Forall_take |].
  rewrite length_take, Nat.min_l in Ek by lia. injection Ek as Ek.
  destruct (IH (drop 8 data)) as (e & Ee & Le & De); [rewrite length_drop; lia | by apply Forall_drop |].
  exists (b ++ e). cbn [encode_blocks]. rewrite Eb. run. rewrite Ee. run. split; [done|].
  assert (length b = 11%nat) as Lb' by (rewrite Lb; cbn in Ek; lia).
  split; [rewrite length_app; lia|]. intros tail. cbn [decode_blocks]. rewrite <- app_assoc.
  rewrite take_app_length', drop_app_length' by done. rewrite Db. run. rewrite De. run. do 2 f_equal.
  rewrite <- (take_drop 8 (take (S n * 8) data)), take_take, Nat.min_l by lia. f_equal.
  by rewrite take_drop_commute.
Qed.

Lemma decode_blocks_total (ndebug : bool) (n : nat) (enc : list Z) :
  (n * 11 <= length enc)%nat ->
  decode_blocks ndebug n enc = Val None \/
  exists d, decode_blocks ndebug n enc = Val (Some d) /\ length d = (n * 8)%nat /\ Forall is_byte d /\
    forall tail, encode_blocks ndebug n (d ++ tail) = Val (take (n * 11) enc).
Proof.
  revert enc. induction n as [|n IH]; intros enc Hl; [by right; exists []|]. cbn [decode_blocks].
  destruct (decode_block_total ndebug (take 11 enc)) as [E|(b & E & Lb & Hb & Eb & Ek)];
    [rewrite length_take; lia| |]; rewrite E; run; [by left|].
  rewrite length_take, Nat.min_l in Ek by lia.
  assert (length b = 8%nat) as Lb'.
  { destruct b as [|? [|? [|? [|? [|? [|? [|? [|? [|? ?]]]]]]]]]; cbn in *; (done || lia). }
  destruct (IH (drop 11 enc)) as [E'|(d & E' & Ld & Hd & Ed)]; [rewrite length_drop; lia| |]; rewrite E'; run; [by left|].
  right. exists (b ++ d). split; [done|]. split; [rewrite length_app; lia|].
  split; [by apply Forall_app|]. intros tail. cbn [encode_blocks]. rewrite <- app_assoc.
  rewrite take_app_length', drop_app_length' by done. rewrite Eb. run. rewrite Ed. run. f_equal.
  rewrite <- (take_drop 11 (take (S n * 11) enc)), take_take, Nat.min_l by lia. f_equal.
  by rewrite take_drop_commute.
Qed.

(** The size of the last, partial block. *)
Lemma partial_sizes (s : nat) (k : nat) :
  (1 <= s < 8)%nat -> c_index encoded_block_sizes (Z.of_nat s) = Val (Z.of_nat k) -> (1 <= k < 11)%nat.
Proof.
  intros Hs E. do 8 (destruct s as [|s]; [cbn in E; injection E as E; lia|]). lia.
Qed.

Lemma partial_sizes_inv (s k : nat) :
  (1 <= s <= 8)%nat -> (k < 11)%nat -> c_index encoded_block_sizes (Z.of_nat s) = Val (Z.of_nat k) -> (s < 8)%nat.
Proof. intros Hs Hk E. destruct (decide (s = 8%nat)) as [->|]; [|lia]. cbn in E. injection E as E. lia. Qed.

Lemma div_mod_parts (n r m : nat) : (r < m)%nat -> ((n * m + r) / m = n)%nat /\ ((n * m + r) mod m = r)%nat.
Proof.
  intros Hr. split.
  - rewrite Nat.div_add_l by lia. rewrite Nat.div_small by done. lia.
  - rewrite Nat.add_comm, Nat.Div0.mod_add. by apply Nat.mod_small.
Qed.

Lemma encode_decode (ndebug : bool) (data : list Z) :
  Forall is_byte data -> exists e, encode ndebug data = Val e /\ decode ndebug e = Val (Some data).
Proof.
  intros Hb. destruct data as [|x l] eqn:Ed; [by exists []|]. rewrite <- Ed in *.
  assert (data <> []) as Hne by (by rewrite Ed). clear Ed.
  pose proof (Nat.div_mod_eq (length data) 8) as Hdm. pose proof (Nat.mod_upper_bound (length data) 8 ltac:(lia)) as Hm.
  set (n := (length data / 8)%nat) in *. set (r := (length data mod 8)%nat) in *.
  destruct (encode_blocks_spec ndebug n data) as (e & Ee & Le & De); [lia|done|].
  assert (encode ndebug data = if decide (0 < r)%nat
    then b ← encode_block ndebug (drop (n * 8) data); Val (e ++ b) else Val e) as Eenc.
  { unfold encode. destruct data; [done|]. fold n r. rewrite Ee. run. done. }
  rewrite Eenc. case_decide as Hr.
  - destruct (block_roundtrip ndebug (drop (n * 8) data)) as (b & k & Eb & Db & Lb & Ek);
      [rewrite length_drop; lia | by apply Forall_drop |].
    rewrite length_drop in Ek. replace (length data - n * 8)%nat with r in Ek by lia.
    pose proof (partial_sizes r k ltac:(lia) Ek) as Hk. rewrite Eb. run. exists (e ++ b). split; [done|].
    unfold decode. destruct (e ++ b) as [|y t] eqn:Eeb; [apply (f_equal length) in Eeb; rewrite length_app in Eeb; cbn in Eeb; lia|].
    rewrite <- Eeb. rewrite length_app, Le, Lb. destruct (div_mod_parts n k 11 ltac:(lia)) as [-> ->].
    destruct (block_sizes (Z.of_nat r)) as (k' & Ek' & _ & _ & Hdec); [lia|].
    rewrite Ek in Ek'. injection Ek' as <-. rewrite Hdec. run. rewrite (proj2 (Z.ltb_ge _ _)) by lia.
    rewrite De. run. rewrite decide_True by lia. rewrite drop_app_length' by done. rewrite Db. run.
    by rewrite take_drop.
  - exists e. split; [done|]. unfold decode.
    destruct e as [|y t] eqn:Eeq; [cbn in Le; destruct data; [done|cbn in *; lia]|]. rewrite <- Eeq in *.
    rewrite Le. destruct (div_mod_parts n 0 11 ltac:(lia)) as [Hd Hm0]. rewrite Nat.add_0_r in Hd, Hm0.
    rewrite Hd, Hm0. change (decoded_block_sizes ndebug (Z.of_nat 0)) with (_ ← c_assert ndebug true; Val 0).
    rewrite c_assert_true by done. run. specialize (De []). rewrite app_nil_r in De. rewrite De. run.
    rewrite take_ge by lia. done.
Qed.

Lemma decode_encode (ndebug : bool) (enc : list Z) :
  decode ndebug enc = Val None \/
  exists d, decode ndebug enc = Val (Some d) /\ Forall is_byte d /\ encode ndebug d = Val enc.
Proof.
  destruct enc as [|x l] eqn:Ed; [by right; exists []|]. rewrite <- Ed in *.
  assert (enc <> []) as Hne by (by rewrite Ed). clear Ed.
  pose proof (Nat.div_mod_eq (length enc) 11) as Hdm. pose proof (Nat.mod_upper_bound (length enc) 11 ltac:(lia)) as Hm.
  set (n := (length enc / 11)%nat) in *. set (r := (length enc mod 11)%nat) in *.
  assert (decode ndebug enc = (sz ← decoded_block_sizes ndebug (Z.of_nat r);
    if sz <? 0 then Val None else
    data ← decode_blocks ndebug n enc;
    match data with
    | None => Val None
    | Some data => if decide (0 < r)%nat then
        b ← decode_block ndebug (drop (n * 11) enc);
        match b with None => Val None | Some b => Val (Some (data ++ b)) end
      else Val (Some data)
    end)) as Edec by (unfold decode; by destruct enc).
  rewrite Edec. clear Edec.
  destruct (decode_blocks_total ndebug n enc) as [E|(d & E & Ld & Hd & Ee)]; [lia| |].
  { left. destruct (decoded_sizes ndebug r ltac:(lia)) as [->|[[_ ->]|(s & _ & -> & _)]]; run; [done| |].
    - rewrite E. done.
    - rewrite (proj2 (Z.ltb_ge _ _)) by lia. rewrite E. done. }
  destruct (decoded_sizes ndebug r ltac:(lia)) as [Es|[[Er Es]|(s & Hs & Es & Ek)]]; rewrite Es; run; [by left| |].
  - cbn [Z.ltb Z.compare]. rewrite E. run. rewrite decide_False by lia. right. exists d.
    split; [done|]. split; [done|]. unfold encode.
    destruct d as [|y t] eqn:Ed; [cbn in Ld; destruct enc; [done|cbn in *; lia]|]. rewrite <- Ed in *.
    rewrite Ld. destruct (div_mod_parts n 0 8 ltac:(lia)) as [H1 H2]. rewrite Nat.add_0_r in H1, H2. rewrite H1, H2.
    specialize (Ee []). rewrite app_nil_r in Ee. rewrite Ee. run. rewrite decide_False by lia. by rewrite take_ge by lia.
  - rewrite (proj2 (Z.ltb_ge _ _)) by lia. rewrite E. run.
    assert (0 < r)%nat as Hr.
    { destruct (decide (r = 0%nat)) as [Hr0|]; [|lia]. rewrite Hr0 in Ek.
      assert (s < 8)%nat as Hs8 by (apply (partial_sizes_inv s 0 Hs); [lia|done]).
      assert (1 <= s < 8)%nat as Hs1 by lia. pose proof (partial_sizes s 0 Hs1 Ek). lia. }
    rewrite decide_True by done.
    destruct (decode_block_total ndebug (drop (n * 11) enc)) as [Eb|(b & Eb & Lb & Hb & Ebe & Ekb)];
      [rewrite length_drop; lia| |]; rewrite Eb; run; [by left|].
    right. exists (d ++ b). split; [done|]. split; [by apply Forall_app|].
    rewrite length_drop in Ekb. replace (length enc - n * 11)%nat with r in Ekb by lia.
    pose proof (partial_sizes_inv (length b) r Lb ltac:(lia) Ekb) as Hb8. unfold encode.
    destruct (d ++ b) as [|y t] eqn:Edb; [apply (f_equal length) in Edb; rewrite length_app in Edb; cbn in Edb; lia|].
    rewrite <- Edb. rewrite length_app, Ld. destruct (div_mod_parts n (length b) 8 ltac:(lia)) as [-> ->].
    rewrite Ee. run. rewrite decide_True by lia. rewrite drop_app_length' by done. rewrite Ebe. run.
    by rewrite take_drop.
Qed.

(** ** Shape of the encoding *)

Lemma to_digits_head (base : Z) (k : nat) (n : Z) :
  0 < base -> head (to_digits base (S k) n) = Some (n / base ^ Z.of_nat k mod base).
Proof.
  intros Hb. revert n. induction k as [|k IH]; intros n.
  { cbn. by rewrite Z.div_1_r. }
  change (to_digits base (S (S k)) n) with (to_digits base (S k) (n / base) ++ [n mod base]).
  rewrite head_app, IH, Z.div_div, Nat2Z.inj_succ, Z.pow_succ_r by (lia || apply Z.pow_nonzero; lia). done.
Qed.

Lemma head_map {A B} (f : A -> B) (l : list A) : head (map f l) = option_map f (head l).
Proof. by destruct l. Qed.

(** The length of an encoding and, from eight bytes on, its first letter. *)
Lemma encode_shape (ndebug : bool) (data e : list Z) :
  Forall is_byte data -> (8 <= length data)%nat -> encode ndebug data = Val e ->
  head e = Some (letter (of_digits 256 (take 8 data) / 58 ^ 10 mod 58)) /\
  (11 * (length data / 8) + length data mod 8 <= length e)%nat.
Proof.
  intros Hb Hl E.
  pose proof (Nat.div_mod_eq (length data) 8) as Hdm. pose proof (Nat.mod_upper_bound (length data) 8 ltac:(lia)) as Hm.
  set (n := (length data / 8)%nat) in *. set (r := (length data mod 8)%nat) in *.
  destruct (encode_blocks_spec ndebug n data) as (e1 & Ee & Le & _); [lia|done|].
  assert (head e1 = Some (letter (of_digits 256 (take 8 data) / 58 ^ 10 mod 58))) as Hh.
  { destruct n as [|n']; [lia|]. cbn [encode_blocks] in Ee.
    destruct (encode_block_spec ndebug (take 8 data)) as (k & Ek & Eb); [rewrite length_take; lia | by apply Forall_take |].
    rewrite length_take, Nat.min_l in Ek by lia. injection Ek as Ek. assert (k = 11%nat) as -> by lia.
    rewrite Eb, bind_val in Ee. destruct (encode_blocks ndebug n' (drop 8 data)) as [e2| | | |]; try done.
    rewrite bind_val in Ee.
    assert (map letter (to_digits 58 11 (of_digits 256 (take 8 data))) ++ e2 = e1) as <- by congruence.
    apply head_app_Some. left.
    rewrite head_map, to_digits_head by lia. done. }
  assert (encode ndebug data = if decide (0 < r)%nat
    then b ← encode_block ndebug (drop (n * 8) data); Val (e1 ++ b) else Val e1) as Eenc.
  { unfold encode. destruct data; [cbn in Hl; lia|]. fold n r. rewrite Ee. run. done. }
  rewrite Eenc in E. case_decide as Hr.
  - destruct (encode_block_spec ndebug (drop (n * 8) data)) as (k & Ek & Eb);
      [rewrite length_drop; lia | by apply Forall_drop |].
    rewrite length_drop in Ek. replace (length data - n * 8)%nat with r in Ek by lia.
    rewrite Eb, bind_val in E. injection E as <-. rewrite head_app, Hh. split; [done|].
    rewrite length_app, length_map, to_digits_length, Le.
    assert (r <= k)%nat; [|lia]. clear -Ek Hm.
    do 8 (destruct r as [|r]; [cbn in Ek; injection Ek as Ek; lia|]). lia.
  - injection E as <-. split; [done|]. lia.
Qed.

(** ** Correctness *)

(** C38. Base58 encoding and decoding are inverse to each other: every byte string is
    encoded and decodes to itself, and every string of letters is either refused
    or decodes to the one byte string that encodes to it.  No assertion fails and
    no index is out of range on the way. *)
Theorem base58_bijection (ndebug : bool) :
  (forall data, Forall is_byte data ->
     exists e, encode ndebug data = Val e /\ decode ndebug e = Val (Some data)) /\
  (forall enc, decode ndebug enc = Val None \/
     exists data, decode ndebug enc = Val (Some data) /\ encode ndebug data = Val enc).
Proof.
  split; [apply encode_decode|]. intros enc.
  destruct (decode_encode ndebug enc) as [?|(d & ? & _ & ?)]; [by left|right; by exists d].
Qed.

Section address_theorems.
Context (cn_fast_hash : list Z -> list Z).

(** A hash is 32 bytes. *)
Definition hash_ok : Prop := forall l, Forall is_byte (cn_fast_hash l) /\ length (cn_fast_hash l) = 32%nat.

(** What [encode_addr] hands to [encode]. *)
Definition addr_payload (tag_bytes data : list Z) : list Z :=
  (tag_bytes ++ data) ++ take 4 (cn_fast_hash (tag_bytes ++ data)).

Lemma addr_payload_ok (tag_bytes data : list Z) :
  hash_ok -> Forall in_u8 tag_bytes -> Forall is_byte data -> Forall is_byte (addr_payload tag_bytes data).
Proof.
  intros Hh Ht Hd. apply Forall_app. split; [|apply Forall_take, Hh]. by apply Forall_app.
Qed.

(** C39. An address made of a 64-bit tag and any data decodes to that tag and data,
    for every hash function with 32-byte results. *)
Theorem address_roundtrip (ndebug : bool) (tag : Z) (data : list Z) :
  hash_ok -> in_u64 tag -> Forall is_byte data ->
  exists addr, encode_addr cn_fast_hash ndebug tag data = Val addr /\
    decode_addr cn_fast_hash ndebug addr = Val (Some (tag, data)).
Proof.
  intros Hh Ht Hd. destruct (get_varint_data_read tag data Ht) as (l & El & Hl & Hlen & Hr).
  destruct (encode_decode ndebug (addr_payload l data) (addr_payload_ok l data Hh Hl Hd)) as (e & Ee & De).
  exists e. split; [unfold encode_addr; rewrite El; exact Ee|].
  unfold decode_addr. rewrite De. run. unfold addr_payload in *.
  assert (length (take 4 (cn_fast_hash (l ++ data))) = 4%nat) as L4.
  { rewrite length_take. destruct (Hh (l ++ data)) as [_ ->]. done. }
  rewrite (length_app _ (take 4 _)), L4. rewrite (proj2 (Z.leb_gt _ _)).
  2: { rewrite length_app. unfold addr_checksum_size. lia. }
  replace (length (l ++ data) + 4 - 4)%nat with (length (l ++ data)) by lia.
  rewrite drop_app_length, take_app_length. rewrite bool_decide_true by done. rewrite Hr.
  rewrite (proj2 (Z.leb_gt _ _)) by lia. by rewrite Nat2Z.id, drop_app_length.
Qed.
End address_theorems.

Lemma address_roundtrip_witness : exists addr,
  encode_addr (fun _ => replicate 32 7) false 120 [1; 2; 3] = Val addr /\
  decode_addr (fun _ => replicate 32 7) false addr = Val (Some (120, [1; 2; 3])).
Proof.
  apply (address_roundtrip (fun _ => replicate 32 7) false 120 [1; 2; 3]).
  - intros l. split; [apply Forall_replicate; unfold is_byte, is_digit; lia | reflexivity].
  - unfold in_u64. lia.
  - repeat constructor; unfold is_byte, is_digit; lia.
Defined.
