(* ===== verification/JS.v ===== *)
(** * The JavaScript that the faucet uses

    Values as JSON and the DOM produce them, property access, truthiness, conversion
    to a string, [String.prototype.trim] and [startsWith], and [JSON.stringify], after
    ECMAScript.  A string is the list of its UTF-16 code units.  An operation that
    throws is an [outcome] that is [Throw]. *)

From Stdlib Require Import Ascii String.
From stdpp Require Import pretty.
From S2P Require Import Prelude.

#[local] Open Scope Z_scope.

Definition jstring := list Z.

(** A literal of the source. *)
Definition lit (s : string) : jstring := map (fun c => Z.of_N (N_of_ascii c)) (list_ascii_of_string s).

(** A number is an integer of the safe range, or any other double with the text that
    [Number::toString] has for it, which identifies it. *)
Inductive number :=
  | Int (z : Z)
  | Other (text : jstring).

(** The values that [JSON.parse] makes, and [undefined].  An object is its own
    properties in order, no key twice. *)
Inductive value :=
  | Undefined
  | Null
  | Bool (b : bool)
  | Num (n : number)
  | Str (s : jstring)
  | Arr (l : list value)
  | Obj (ps : list (jstring * value)).

Definition decimal (z : Z) : jstring := lit (pretty z).

(** ** Operations on values *)

(** [Boolean(v)]. *)
Definition truthy (v : value) : bool :=
  match v with
  | Undefined | Null => false
  | Bool b => b
  | Num (Int z) => negb (z =? 0)
  | Num (Other _) => true
  | Str s => bool_decide (s <> [])
  | Arr _ | Obj _ => true
  end.

Fixpoint own (ps : list (jstring * value)) (key : jstring) : option value :=
  match ps with
  | [] => None
  | (k, v) :: ps => if decide (k = key) then Some v else own ps key
  end.

(** [v.key], for a key that no built-in prototype has. *)
Definition get_property (v : value) (key : string) : outcome value :=
  match v with
  | Undefined | Null => Throw
  | Obj ps => Val (default Undefined (own ps (lit key)))
  | _ => Val Undefined
  end.

(** Conversion to a string.  An object from JSON with a property toString of its own
    has no callable one, and cannot be converted. *)
Fixpoint to_string (v : value) : outcome jstring :=
  match v with
  | Undefined => Val (lit "undefined")
  | Null => Val (lit "null")
  | Bool b => Val (lit (if b then "true" else "false"))
  | Num (Int z) => Val (decimal z)
  | Num (Other text) => Val text
  | Str s => Val s
  | Obj ps => match own ps (lit "toString") with Some _ => Throw | None => Val (lit "[object Object]") end
  | Arr l =>
      (fix join (first : bool) (l : list value) : outcome jstring :=
         match l with
         | [] => Val []
         | v :: l =>
             t ← match v with Undefined | Null => Val [] | _ => to_string v end;
             rest ← join false l;
             Val ((if first then [] else lit ",") ++ t ++ rest)
         end) true l
  end.

(** [try { m } catch { h }]. *)
Definition try_catch {A} (m h : outcome A) : outcome A := match m with Throw => h | _ => m end.

(** ** Strings *)

Definition startsWith (s p : jstring) : bool := bool_decide (take (length p) s = p).

(** WhiteSpace and LineTerminator. *)
Definition is_space (c : Z) : bool :=
  bool_decide (c ∈ [0x9; 0xa; 0xb; 0xc; 0xd; 0x20; 0xa0; 0x1680; 0x2028; 0x2029; 0x202f; 0x205f; 0x3000; 0xfeff])
  || (0x2000 <=? c) && (c <=? 0x200a).

Fixpoint trim_start (s : jstring) : jstring :=
  match s with
  | [] => []
  | c :: t => if is_space c then trim_start t else s
  end.

Definition trim (s : jstring) : jstring := reverse (trim_start (reverse (trim_start s))).

(** ** [JSON.stringify] *)

Definition hex_digit (d : Z) : Z := if d <? 10 then 48 + d else 87 + d.

Definition unicode_escape (c : Z) : jstring := lit "\u" ++ map hex_digit (to_digits 16 4 c).

Definition is_lead (c : Z) : bool := (0xd800 <=? c) && (c <=? 0xdbff).
Definition is_trail (c : Z) : bool := (0xdc00 <=? c) && (c <=? 0xdfff).

(** A code unit that is not part of a surrogate pair. *)
Definition quote_unit (c : Z) : jstring :=
  if c =? 8 then lit "\b" else if c =? 9 then lit "\t" else if c =? 10 then lit "\n"
  else if c =? 12 then lit "\f" else if c =? 13 then lit "\r"
  else if (c =? 34) || (c =? 92) then [92; c]
  else if (c <? 32) || is_lead c || is_trail c then unicode_escape c
  else [c].

(** The steps of QuoteJSONString between the quotes: well-formed surrogate pairs are
    kept, other surrogates are escaped. *)
Fixpoint quote_units (s : jstring) : jstring :=
  match s with
  | [] => []
  | c :: t =>
      match t with
      | d :: u => if is_lead c && is_trail d then c :: d :: quote_units u else quote_unit c ++ quote_units t
      | [] => quote_unit c
      end
  end.

Definition quote (s : jstring) : jstring := [34] ++ quote_units s ++ [34].

Fixpoint intersperse (l : list jstring) : jstring :=
  match l with
  | [] => []
  | [x] => x
  | x :: l => x ++ lit "," ++ intersperse l
  end.

(** [None] is [undefined]: such a property is left out. *)
Fixpoint stringify (v : value) : option jstring :=
  match v with
  | Undefined => None
  | Null => Some (lit "null")
  | Bool b => Some (lit (if b then "true" else "false"))
  | Num (Int z) => Some (decimal z)
  | Num (Other text) =>
      Some (if bool_decide (text ∈ [lit "NaN"; lit "Infinity"; lit "-Infinity"]) then lit "null" else text)
  | Str s => Some (quote s)
  | Arr l => Some (lit "[" ++ intersperse (map (fun v => default (lit "null") (stringify v)) l) ++ lit "]")
  | Obj ps =>
      Some (lit "{" ++ intersperse
              ((fix members (ps : list (jstring * value)) : list jstring :=
                  match ps with
                  | [] => []
                  | (k, v) :: ps =>
                      match stringify v with
                      | Some t => (quote k ++ lit ":" ++ t) :: members ps
                      | None => members ps
                      end
                  end) ps) ++ lit "}")
  end.

(** ** Reading a string literal

    The JSON grammar of string literals, from after the opening quote: the string and
    the text after the closing quote. *)

Definition hex_value (c : Z) : option Z :=
  if (48 <=? c) && (c <=? 57) then Some (c - 48)
  else if (97 <=? c) && (c <=? 102) then Some (c - 87)
  else if (65 <=? c) && (c <=? 70) then Some (c - 55)
  else None.

Definition escaped (c : Z) : option Z :=
  if c =? 98 then Some 8 else if c =? 116 then Some 9 else if c =? 110 then Some 10
  else if c =? 102 then Some 12 else if c =? 114 then Some 13
  else if (c =? 34) || (c =? 92) || (c =? 47) then Some c
  else None.

Fixpoint read_string (text : jstring) : option (jstring * jstring) :=
  match text with
  | [] => None
  | c :: rest =>
      if c =? 34 then Some ([], rest)
      else if c =? 92 then
        match rest with
        | [] => None
        | e :: rest =>
            if e =? 117 then
              match rest with
              | h1 :: h2 :: h3 :: h4 :: rest =>
                  d ← mapM hex_value [h1; h2; h3; h4];
                  '(s, rest) ← read_string rest;
                  Some (of_digits 16 d :: s, rest)
              | _ => None
              end
            else
              u ← escaped e;
              '(s, rest) ← read_string rest;
              Some (u :: s, rest)
        end
      else if c <? 32 then None
      else '(s, rest) ← read_string rest; Some (c :: s, rest)
  end.

(** ** Quoting loses nothing *)

Definition is_unit (c : Z) : Prop := is_digit 65536 c.

Lemma hex_digit_value (d : Z) : is_digit 16 d -> hex_value (hex_digit d) = Some d.
Proof.
  unfold is_digit, hex_digit, hex_value. intros Hd. destruct (Z.ltb_spec d 10).
  - rewrite (proj2 (Z.leb_le _ _)), (proj2 (Z.leb_le _ _)) by lia. cbn. f_equal. lia.
  - rewrite (proj2 (Z.leb_gt (87 + d) 57)), andb_false_r by lia.
    rewrite (proj2 (Z.leb_le _ _)), (proj2 (Z.leb_le _ _)) by lia. cbn. f_equal. lia.
Qed.

Lemma hex_values (ds : list Z) : Forall (is_digit 16) ds -> mapM hex_value (map hex_digit ds) = Some ds.
Proof.
  intros Hds. apply mapM_Some. apply Forall2_fmap_l. apply Forall_Forall2_diag.
  eapply Forall_impl; [done|]. apply hex_digit_value.
Qed.

(** A literal code unit. *)
Lemma read_plain (c : Z) (t : jstring) :
  32 <= c -> c <> 34 -> c <> 92 ->
  read_string (c :: t) = '(s, rest) ← read_string t; Some (c :: s, rest).
Proof.
  intros H1 H2 H3. cbn [read_string].
  by rewrite (proj2 (Z.eqb_neq _ _)), (proj2 (Z.eqb_neq _ _)), (proj2 (Z.ltb_ge _ _)) by done.
Qed.

Lemma read_unicode (c : Z) (t : jstring) :
  is_unit c -> read_string (unicode_escape c ++ t) = '(s, rest) ← read_string t; Some (c :: s, rest).
Proof.
  intros Hc. unfold unicode_escape.
  pose proof (to_digits_range 16 4 c ltac:(lia)) as Hr. pose proof (hex_values _ Hr) as Hv.
  pose proof (of_to_digits 16 4 c ltac:(lia) Hc) as Hof. pose proof (to_digits_length 16 4 c) as Hl.
  remember (to_digits 16 4 c) as ds eqn:Eds. clear Eds.
  destruct ds as [|d1 [|d2 [|d3 [|d4 [|? ?]]]]]; try done.
  change (read_string ((lit "\u" ++ map hex_digit [d1; d2; d3; d4]) ++ t))
    with (d ← mapM hex_value (map hex_digit [d1; d2; d3; d4]); '(s, rest) ← read_string t; Some (of_digits 16 d :: s, rest)).
  rewrite Hv. cbn [mbind option_bind]. by rewrite Hof.
Qed.

Lemma read_unit (c : Z) (t : jstring) :
  is_unit c -> read_string (quote_unit c ++ t) = '(s, rest) ← read_string t; Some (c :: s, rest).
Proof.
  intros Hc. unfold quote_unit.
  repeat match goal with |- context [c =? ?k] => destruct (Z.eqb_spec c k) as [->|]; [reflexivity|] end.
  cbn [orb]. destruct ((c <? 32) || is_lead c || is_trail c) eqn:E; [by apply read_unicode|].
  apply orb_false_iff in E as [[E _]%orb_false_iff _]. apply Z.ltb_ge in E. by apply read_plain.
Qed.

Lemma lead_range (c : Z) : is_lead c || is_trail c = true -> 0xd800 <= c.
Proof. unfold is_lead, is_trail. lia. Qed.

(** Reading a quoted string gives the string, wherever it stands. *)
Lemma read_quote_units (s rest : jstring) :
  Forall is_unit s -> read_string (quote_units s ++ 34 :: rest) = Some (s, rest).
Proof.
  remember (length s) as n eqn:En. revert s En.
  induction n as [n IH] using lt_wf_ind. intros s -> Hs.
  destruct s as [|c t]; [done|]. apply Forall_cons in Hs as [Hc Ht]. cbn [quote_units].
  destruct t as [|d u].
  { rewrite read_unit by done. done. }
  pose proof (Forall_inv_tail Ht) as Hu.
  destruct (is_lead c && is_trail d) eqn:E.
  - apply andb_true_iff in E as [E1 E2].
    pose proof (lead_range c ltac:(by rewrite E1)). pose proof (lead_range d ltac:(by rewrite E2, orb_true_r)).
    cbn [app]. rewrite !read_plain by lia. rewrite (IH (length u)) by (cbn; (done || lia)). done.
  - rewrite <- app_assoc, read_unit by done. rewrite (IH (length (d :: u))) by (cbn; (done || lia)). done.
Qed.

(** ** Operations return or throw *)

Lemma get_property_cases (v : value) (k : string) : get_property v k = Throw \/ exists w, get_property v k = Val w.
Proof. destruct v; eauto. Qed.

Definition returns_or_throws {A} (m : outcome A) : Prop := m = Throw \/ exists a, m = Val a.

Lemma bind_cases {A B} (m : outcome A) (k : A -> outcome B) :
  returns_or_throws m -> (forall a, m = Val a -> returns_or_throws (k a)) -> returns_or_throws (m ≫= k).
Proof. intros [->|[a ->]] Hk; [by left|]. by apply Hk. Qed.

Lemma to_string_cases (v : value) : returns_or_throws (to_string v).
Proof.
  revert v. fix IH 1. intros v.
  destruct v as [| |b|[z|t]|s|l|ps]; try (by right; eexists).
  - cbn [to_string]. match goal with |- returns_or_throws (?f true l) => enough (forall first, returns_or_throws (f first l)) by done end.
    induction l as [|v l IHl]; intros first; [right; by eexists|].
    pose proof (IH v) as Hv.
    apply bind_cases; [destruct v; (by right; eexists) || exact Hv|]. intros t _.
    apply bind_cases; [apply IHl|]. intros rest _. right. by eexists.
  - cbn [to_string]. destruct (own ps _); [by left|right; by eexists].
Qed.
