(* ===== verification/Faucet.v ===== *)
(** * The faucet server

    src/deploy/faucet/app.js, the server: the rate limiter, the handler of POST /faucet
    with its call to the wallet, and the server as a machine that takes events in any
    order.  A handler is cut at its two [await]s: between them other requests run.

    Express and express-rate-limit are not part of the repository.  Of Express the model
    has what a route gets: the body parsed by [express.json()] or the error it answers
    itself, and the client's address.  The limiter is the class [RateLimit], which says
    what its documentation promises for the options the program gives. *)

From Stdlib Require Import String.
From stdpp Require Import gmap.
From S2P Require Import Prelude JS IntUtil Emission Varint Base58.

#[local] Open Scope Z_scope.

(** ** Requests and answers *)

Inductive reply_body :=
  | Html
  | Json (v : value)
  | Express_error.

Inductive response := Reply (status : Z) (body : reply_body).

(** [fetch(url, {method, headers, body})]. *)
Record http_request := {
  h_url : jstring;
  h_method : jstring;
  h_headers : list (jstring * jstring);
  h_body : option jstring;
}.

(** [{ error: text }] and [{ message: text }]. *)
Definition error_object (text : jstring) : value := Obj [(lit "error", Str text)].
Definition message_object (text : jstring) : value := Obj [(lit "message", Str text)].

(** ** The rate limiter *)

Record limit_options := {
  windowMs : Z;
  max : Z;
  message : value;
}.

Definition limiter : limit_options := {|
  windowMs := 24 * 60 * 60 * 1000;
  max := 1;
  message := error_object (lit "You have already requested LODE today. Please try again tomorrow.");
|}.

Definition ip := jstring.

(** The store of a limiter: the requests counted for a client in its current window,
    the middleware's decision on a request, and the end of a client's window. *)
Class RateLimit (S : Type) := {
  rl_init : limit_options -> S;
  rl_hits : S -> ip -> Z;
  rl_request : limit_options -> S -> ip -> S * bool;
  rl_expire : S -> ip -> S;
}.

(** Every request is counted; it passes when no more than [max] are counted. *)
Class RateLimitLaws (S : Type) `{RateLimit S} := {
  hits_nonneg (s : S) (a : ip) : 0 <= rl_hits s a;
  init_hits (o : limit_options) (a : ip) : rl_hits (rl_init o) a = 0;
  request_hits (o : limit_options) (s : S) (a b : ip) :
    rl_hits (rl_request o s a).1 b = rl_hits s b + (if decide (a = b) then 1 else 0);
  request_passes (o : limit_options) (s : S) (a : ip) :
    (rl_request o s a).2 = (rl_hits s a + 1 <=? max o);
  expire_hits (s : S) (a b : ip) : rl_hits (rl_expire s a) b = if decide (a = b) then 0 else rl_hits s b;
}.

(** ** The handler *)

Definition RPC_URL : jstring := lit "http://127.0.0.1:38083/json_rpc".

(** 10 LODE. *)
Definition amount : Z := 1000000000.

(** The object of the JSON-RPC request. *)
Definition rpc_object (address : jstring) : value :=
  Obj [(lit "jsonrpc", Str (lit "2.0"));
       (lit "id", Str (lit "0"));
       (lit "method", Str (lit "transfer"));
       (lit "params",
         Obj [(lit "destinations",
                Arr [Obj [(lit "amount", Num (Int amount)); (lit "address", Str address)]]);
              (lit "ring_size", Num (Int 16))])].

Definition rpc_call (address : jstring) : http_request := {|
  h_url := RPC_URL;
  h_method := lit "POST";
  h_headers := [(lit "Content-Type", lit "application/json")];
  h_body := stringify (rpc_object address);
|}.

(** The two guards on the address. *)
Definition plausible (address : jstring) : bool :=
  negb (negb (startsWith address (lit "M")) || (Z.of_nat (length address) <? 90)).

(** The handler up to its first [await]: an answer, or the call to the wallet.  The
    destructuring of the body throws when the body is null or undefined. *)
Definition faucet_begin (body : value) : outcome (response + http_request) :=
  address ← get_property body "address";
  match truthy address, address with
  | true, Str address =>
      if plausible address then Val (inr (rpc_call address))
      else Val (inl (Reply 400 (Json (error_object (lit "Invalid Testnet address. (Must start with M)")))))
  | _, _ => Val (inl (Reply 400 (Json (error_object (lit "Address is required.")))))
  end.

(** The [catch] clause. *)
Definition faucet_catch : response :=
  Reply 500 (Json (error_object (lit "Failed to connect to Faucet Wallet RPC."))).

(** The handler after its second [await], within the [try]. *)
Definition faucet_finish (data : value) : outcome response :=
  try_catch
    (error ← get_property data "error";
     if truthy error then
       message ← get_property error "message";
       text ← to_string message;
       Val (Reply 500 (Json (error_object (lit "Internal Faucet Wallet Error: " ++ text))))
     else
       result ← get_property data "result";
       tx_hash ← get_property result "tx_hash";
       text ← to_string tx_hash;
       Val (Reply 200 (Json (message_object (lit "Success! 10 LODE sent. TX Hash: " ++ text)))))
    (Val faucet_catch).

(** ** The server *)

Inductive parsed :=
  | Parsed (body : value)
  | Malformed (status : Z).

Inductive target :=
  | Get_root
  | Post_faucet
  | Elsewhere.

Record request := {
  r_target : target;
  r_ip : ip;
  r_body : parsed;
}.

(** Where a handler is suspended. *)
Inductive stage :=
  | Await_response
  | Await_json.

Inductive event :=
  | Arrive (r : request)
  | Expire (a : ip)
  | Rejected (id : nat)              (** the awaited promise is rejected *)
  | Responded (id : nat)             (** [fetch] has a response *)
  | Data (id : nat) (data : value).  (** [response.json()] has the data *)

Inductive output :=
  | Send (id : nat) (r : response)
  | Call (id : nat) (c : http_request)
  | Unhandled (id : nat).

Section server.
Context {S : Type} `{RateLimit S}.

Record server := {
  store : S;
  fresh : nat;
  waiting : gmap nat stage;
}.

Definition boot : server := {| store := rl_init limiter; fresh := 0; waiting := ∅ |}.

(** The answer to a request, or the call it waits for. *)
Definition post_faucet (s : server) (id : nat) (a : ip) (body : value) : server * list output :=
  let '(st, pass) := rl_request limiter (store s) a in
  if pass then
    match faucet_begin body with
    | Val (inl r) => ({| store := st; fresh := fresh s; waiting := waiting s |}, [Send id r])
    | Val (inr c) =>
        ({| store := st; fresh := fresh s; waiting := <[id := Await_response]> (waiting s) |}, [Call id c])
    | _ => ({| store := st; fresh := fresh s; waiting := waiting s |}, [Unhandled id])
    end
  else ({| store := st; fresh := fresh s; waiting := waiting s |}, [Send id (Reply 429 (Json (message limiter)))]).

Definition arrive (s : server) (r : request) : server * list output :=
  let id := fresh s in
  let s := {| store := store s; fresh := Datatypes.S id; waiting := waiting s |} in
  match r_body r with
  | Malformed status => (s, [Send id (Reply status Express_error)])
  | Parsed body =>
      match r_target r with
      | Get_root => (s, [Send id (Reply 200 Html)])
      | Post_faucet => post_faucet s id (r_ip r) body
      | Elsewhere => (s, [Send id (Reply 404 Express_error)])
      end
  end.

Definition with_waiting (s : server) (w : gmap nat stage) : server :=
  {| store := store s; fresh := fresh s; waiting := w |}.

Definition step (s : server) (e : event) : server * list output :=
  match e with
  | Arrive r => arrive s r
  | Expire a => ({| store := rl_expire (store s) a; fresh := fresh s; waiting := waiting s |}, [])
  | Rejected id =>
      match waiting s !! id with
      | Some _ => (with_waiting s (delete id (waiting s)), [Send id faucet_catch])
      | None => (s, [])
      end
  | Responded id =>
      match waiting s !! id with
      | Some Await_response => (with_waiting s (<[id := Await_json]> (waiting s)), [])
      | _ => (s, [])
      end
  | Data id data =>
      match waiting s !! id with
      | Some Await_json =>
          (with_waiting s (delete id (waiting s)),
           match faucet_finish data with Val r => [Send id r] | _ => [Unhandled id] end)
      | _ => (s, [])
      end
  end.

(** The log of a run: each event with what it made the server do. *)
Fixpoint run (s : server) (es : list event) : server * list (event * list output) :=
  match es with
  | [] => (s, [])
  | e :: es =>
      let '(s1, outs) := step s e in
      let '(s2, log) := run s1 es in
      (s2, (e, outs) :: log)
  end.
End server.

(** ** A limiter with the promised behaviour

    A counter for each client; it shows that the laws can hold. *)

#[global] Instance memory_store : RateLimit (gmap ip Z) := {|
  rl_init _ := ∅;
  rl_hits s a := Z.max 0 (default 0 (s !! a));
  rl_request o s a :=
    let n := Z.max 0 (default 0 (s !! a)) + 1 in (<[a := n]> s, n <=? max o);
  rl_expire s a := delete a s;
|}.

#[global] Instance memory_store_laws : RateLimitLaws (gmap ip Z).
Proof.
  split.
  - intros s a. cbn. lia.
  - intros o a. cbn. by rewrite lookup_empty.
  - intros o s a b. cbn. case_decide as E.
    + subst. rewrite lookup_insert_eq. cbn. lia.
    + rewrite lookup_insert_ne by done. lia.
  - intros o s a. done.
  - intros s a b. cbn. case_decide as E.
    + subst. by rewrite lookup_delete_eq.
    + by rewrite lookup_delete_ne.
Qed.

(** ** The handler *)

(** A body of [express.json()], which is strict: an object or an array. *)
Definition strict_body (body : value) : Prop :=
  match body with Obj _ | Arr _ => True | _ => False end.

Lemma begin_returns (body : value) : strict_body body -> exists r, faucet_begin body = Val r.
Proof.
  intros Hb. unfold faucet_begin.
  assert (exists a, get_property body "address" = Val a) as [a ->] by (destruct body; eauto; done).
  rewrite bind_val. destruct (truthy a), a; eauto. destruct (plausible _); eauto.
Qed.

Lemma finish_returns (data : value) : exists r, faucet_finish data = Val r.
Proof.
  unfold faucet_finish.
  match goal with |- context [try_catch ?m _] => assert (returns_or_throws m) as [->|[r ->]]; [|by eexists..] end.
  apply bind_cases; [apply get_property_cases|]. intros error _. destruct (truthy error).
  - apply bind_cases; [apply get_property_cases|]. intros m _. apply bind_cases; [apply to_string_cases|].
    intros t _. right. by eexists.
  - apply bind_cases; [apply get_property_cases|]. intros m _. apply bind_cases; [apply get_property_cases|]. intros h _.
    apply bind_cases; [apply to_string_cases|]. intros t _. right. by eexists.
Qed.

(** ** What the server does *)

Definition is_call (o : output) : bool := match o with Call _ _ => true | _ => false end.

(** An entry of the log that has the wallet send coins for the client [a]. *)
Definition is_transfer (a : ip) (entry : event * list output) : bool :=
  match entry with
  | (Arrive r, outs) => bool_decide (r_ip r = a) && existsb is_call outs
  | _ => false
  end.

Definition transfers (a : ip) (log : list (event * list output)) : nat :=
  length (List.filter (is_transfer a) log).

(** A request that reaches the limiter, from the client [a]. *)
Definition counted (a : ip) (e : event) : bool :=
  match e with
  | Arrive {| r_target := Post_faucet; r_ip := b; r_body := Parsed _ |} => bool_decide (b = a)
  | _ => false
  end.

Section theorems.
Context {S : Type} `{RateLimitLaws S}.
Implicit Types (s : server (S := S)) (e : event) (es : list event).

Lemma post_faucet_store s (id : nat) (a : ip) (body : value) :
  store (post_faucet s id a body).1 = (rl_request limiter (store s) a).1.
Proof.
  unfold post_faucet. destruct (rl_request limiter (store s) a) as [st []]; [|done].
  by destruct (faucet_begin body) as [[]| | | |].
Qed.

Lemma step_hits s e (a : ip) :
  e <> Expire a ->
  rl_hits (store (step s e).1) a = rl_hits (store s) a + (if counted a e then 1 else 0).
Proof.
  intros Hne. destruct e as [[t b pb]|b|id|id|id v]; cbn.
  - unfold arrive. cbn. destruct pb as [body|]; [|cbn; destruct t; lia].
    destruct t; cbn; [lia| |lia]. rewrite post_faucet_store. cbn. rewrite request_hits.
    by rewrite decide_bool_decide.
  - rewrite expire_hits. rewrite decide_False by congruence. lia.
  - destruct (waiting s !! id); cbn; lia.
  - destruct (waiting s !! id) as [[]|]; cbn; lia.
  - destruct (waiting s !! id) as [[]|]; cbn; lia.
Qed.

(** The one way to a call of the wallet. *)
Lemma step_call s e (id : nat) (c : http_request) :
  Call id c ∈ (step s e).2 ->
  exists a body, e = Arrive {| r_target := Post_faucet; r_ip := a; r_body := Parsed body |} /\
    id = fresh s /\ faucet_begin body = Val (inr c) /\ rl_hits (store s) a = 0.
Proof.
  destruct e as [[t a pb]|b|i|i|i v]; cbn.
  - unfold arrive. cbn. destruct pb as [body|]; [|intros ?%list_elem_of_singleton; done].
    destruct t; [intros ?%list_elem_of_singleton; done| |intros ?%list_elem_of_singleton; done].
    unfold post_faucet. cbn. pose proof (request_passes limiter (store s) a) as Hp.
    pose proof (hits_nonneg (store s) a). destruct (rl_request limiter (store s) a) as [st []]; cbn in *.
    2: { intros ?%list_elem_of_singleton; done. }
    symmetry in Hp. apply Z.leb_le in Hp.
    destruct (faucet_begin body) as [[]| | | |] eqn:E; cbn; intros Hin%list_elem_of_singleton; try done.
    injection Hin as -> ->. exists a, body. split_and!; try done. lia.
  - intros ?%elem_of_nil; done.
  - destruct (waiting s !! i); cbn; [intros ?%list_elem_of_singleton|intros ?%elem_of_nil]; done.
  - destruct (waiting s !! i) as [[]|]; cbn; intros ?%elem_of_nil; done.
  - destruct (waiting s !! i) as [[]|]; cbn; try (intros ?%elem_of_nil; done).
    destruct (faucet_finish v); intros ?%list_elem_of_singleton; done.
Qed.

Lemma is_transfer_inv s e (a : ip) :
  is_transfer a (e, (step s e).2) = true -> counted a e = true /\ rl_hits (store s) a = 0.
Proof.
  destruct e as [r| | | |]; try done. cbn [is_transfer]. intros [Ha Hc]%andb_true_iff.
  apply existsb_exists in Hc as (o & Hin%list_elem_of_In & Ho). destruct o as [|id c|]; try done.
  apply step_call in Hin as (b & body & [= ->] & _ & _ & Hh). apply bool_decide_eq_true in Ha. cbn in Ha. subst b.
  split; [by apply bool_decide_eq_true|done].
Qed.

(** The end state and the log of a run of one more event. *)
Lemma run_cons s e es : run s (e :: es) = ((run (step s e).1 es).1, (e, (step s e).2) :: (run (step s e).1 es).2).
Proof. cbn. destruct (step s e) as [s1 outs]. cbn. by destruct (run s1 es). Qed.

Lemma run_app s es1 es2 :
  run s (es1 ++ es2) = ((run (run s es1).1 es2).1, (run s es1).2 ++ (run (run s es1).1 es2).2).
Proof.
  revert s. induction es1 as [|e es IH]; intros s; [cbn; by destruct (run s es2)|].
  cbn [app]. by rewrite !run_cons, IH.
Qed.

(** Without the end of its window, the count of a client only grows. *)
Lemma run_hits s es (a : ip) :
  Expire a ∉ es -> rl_hits (store s) a <= rl_hits (store (run s es).1) a.
Proof.
  revert s. induction es as [|e es IH]; intros s Hn; [done|]. apply not_elem_of_cons in Hn as [He Hn].
  rewrite run_cons. cbn [fst]. pose proof (step_hits s e a ltac:(congruence)) as Hs. specialize (IH (step s e).1 Hn).
  destruct (counted a e); lia.
Qed.

Lemma transfers_bound s es (a : ip) :
  Expire a ∉ es ->
  Z.of_nat (transfers a (run s es).2) <= if decide (rl_hits (store s) a = 0) then 1 else 0.
Proof.
  revert s. induction es as [|e es IH]; intros s Hn; [cbn; case_decide; lia|].
  apply not_elem_of_cons in Hn as [He Hn]. rewrite run_cons. cbn [snd].
  unfold transfers in *. cbn [List.filter]. specialize (IH (step s e).1 Hn).
  pose proof (step_hits s e a ltac:(congruence)) as Hs. pose proof (hits_nonneg (store s) a).
  destruct (is_transfer a (e, (step s e).2)) eqn:E; cbn [length].
  - apply is_transfer_inv in E as [Hc E]. rewrite Hc in Hs.
    rewrite decide_False in IH by lia. rewrite decide_True by done. lia.
  - destruct (decide (rl_hits (store (step s e).1) a = 0)).
    + rewrite decide_True; [done|]. destruct (counted a e); lia.
    + case_decide; lia.
Qed.

(** ** Answers *)

Definition sends_to (id : nat) (o : output) : bool :=
  match o with Send i _ => bool_decide (i = id) | _ => false end.

(** How often the log answers the request [id]. *)
Definition answers (id : nat) (log : list (event * list output)) : Z :=
  Z.of_nat (length (List.filter (sends_to id) (concat (map snd log)))).

Definition pending s (id : nat) : Z := if decide (is_Some (waiting s !! id)) then 1 else 0.
Definition arrived s (id : nat) : Z := if decide (id < fresh s)%nat then 1 else 0.

(** A handler that waits belongs to a request that has arrived. *)
Definition server_ok s : Prop := forall id, is_Some (waiting s !! id) -> (id < fresh s)%nat.

(** A body of [express.json()], which is strict: an object or an array. *)
Definition strict_event e : Prop :=
  match e with Arrive {| r_body := Parsed body |} => strict_body body | _ => True end.

Definition died (outs : list output) : Prop := exists id, Unhandled id ∈ outs.

Lemma answers_cons (id : nat) e (outs : list output) log :
  answers id ((e, outs) :: log) = Z.of_nat (length (List.filter (sends_to id) outs)) + answers id log.
Proof. unfold answers. cbn. rewrite List.filter_app, length_app. lia. Qed.

(** The four kinds of step: a request is answered at once or begins to wait, a waiting
    one is answered, or nothing visible happens. *)
Inductive moves s : server (S := S) -> list output -> Prop :=
  | moves_reply s' (r : response) :
      waiting s' = waiting s -> fresh s' = Datatypes.S (fresh s) -> moves s s' [Send (fresh s) r]
  | moves_wait s' (c : http_request) (st : stage) :
      waiting s' = <[fresh s := st]> (waiting s) -> fresh s' = Datatypes.S (fresh s) -> moves s s' [Call (fresh s) c]
  | moves_answer s' (id : nat) (r : response) :
      is_Some (waiting s !! id) -> waiting s' = delete id (waiting s) -> fresh s' = fresh s -> moves s s' [Send id r]
  | moves_silent s' :
      (forall id, is_Some (waiting s' !! id) <-> is_Some (waiting s !! id)) -> fresh s' = fresh s -> moves s s' [].

Lemma step_moves s e : strict_event e -> moves s (step s e).1 (step s e).2.
Proof.
  intros Hst. destruct e as [[t a pb]|b|id|id|id v]; cbn.
  - unfold arrive. cbn. destruct pb as [body|]; [|by apply moves_reply].
    destruct t; [by apply moves_reply| |by apply moves_reply].
    unfold post_faucet. cbn. destruct (begin_returns body Hst) as [x ->].
    destruct (rl_request limiter (store s) a) as [st []]; [|by apply moves_reply].
    destruct x as [r|c]; [by apply moves_reply|]. by eapply moves_wait.
  - by apply moves_silent.
  - destruct (waiting s !! id) eqn:E; [|by apply moves_silent]. apply moves_answer; [by eexists|done..].
  - destruct (waiting s !! id) as [[]|] eqn:E; try by apply moves_silent.
    apply moves_silent; [|done]. intros i. cbn. destruct (decide (id = i)) as [<-|].
    + rewrite lookup_insert_eq, E. by split; eexists.
    + by rewrite lookup_insert_ne.
  - destruct (waiting s !! id) as [[]|] eqn:E; try by apply moves_silent.
    destruct (finish_returns v) as [r ->]. apply moves_answer; [by eexists|done..].
Qed.

Lemma decide_one (P : Prop) `{Decision P} : P -> (if decide P then 1 else 0) = 1.
Proof. intros. by rewrite decide_True. Qed.

Lemma decide_zero (P : Prop) `{Decision P} : ~ P -> (if decide P then 1 else 0) = 0.
Proof. intros. by rewrite decide_False. Qed.

Lemma decide_iff (P Q : Prop) `{Decision P, Decision Q} :
  (P <-> Q) -> (if decide P then 1 else 0) = (if decide Q then 1 else 0).
Proof. intros. repeat case_decide; tauto. Qed.

Lemma sends_one (id i : nat) (r : response) :
  Z.of_nat (length (List.filter (sends_to id) [Send i r])) = if decide (i = id) then 1 else 0.
Proof. cbn. by case_bool_decide; case_decide. Qed.

(** What was left waiting, what is answered and what has arrived add up. *)
Lemma moves_answers s s' (outs : list output) :
  server_ok s -> moves s s' outs ->
  server_ok s' /\ ~ died outs /\
  forall id, Z.of_nat (length (List.filter (sends_to id) outs)) + pending s' id + arrived s id
        = pending s id + arrived s' id.
Proof.
  intros Hok Hm. unfold server_ok, pending, arrived in *.
  assert (is_Some (waiting s !! fresh s) -> False) as Hfr by (intros ?%Hok; lia).
  destruct Hm as [s' r Hw Hf|s' c st Hw Hf|s' i r Hi Hw Hf|s' Hw Hf]; rewrite ?Hf; rewrite ?Hw.
  - split; [intros j Hj%Hok; lia|]. split; [intros [j ?%list_elem_of_singleton]; done|].
    intros j. rewrite sends_one. repeat case_decide; subst; try lia; exfalso; eauto.
  - split; [intros j Hj; destruct (decide (fresh s = j)); [lia|]; rewrite lookup_insert_ne in Hj by done; apply Hok in Hj; lia|].
    split; [intros [j ?%list_elem_of_singleton]; done|]. intros j. cbn [List.filter sends_to length].
    destruct (decide (fresh s = j)) as [<-|].
    + rewrite lookup_insert_eq, (decide_one (is_Some (Some st))) by done.
      repeat case_decide; (lia || tauto).
    + rewrite lookup_insert_ne by done. repeat case_decide; lia.
  - split; [intros j Hj; destruct (decide (i = j)) as [<-|]; [by apply Hok|]; rewrite lookup_delete_ne in Hj by done; by apply Hok|].
    split; [intros [j ?%list_elem_of_singleton]; done|]. intros j. rewrite sends_one.
    destruct (decide (i = j)) as [<-|].
    + rewrite lookup_delete_eq, (decide_one _ Hi), (decide_zero (is_Some None)) by (by intros []). lia.
    + rewrite lookup_delete_ne by done. lia.
  - split; [intros j Hj%Hw; by apply Hok|]. split; [intros [j ?%elem_of_nil]; done|].
    intros j. cbn [List.filter length]. rewrite (decide_iff _ _ (Hw j)). lia.
Qed.

Lemma run_answers s es :
  server_ok s -> Forall strict_event es ->
  server_ok (run s es).1 /\ Forall (fun entry => ~ died entry.2) (run s es).2 /\
  forall id, answers id (run s es).2 + pending (run s es).1 id + arrived s id
        = pending s id + arrived (run s es).1 id.
Proof.
  revert s. induction es as [|e es IH]; intros s Hok Hes.
  { split_and!; [done|constructor|]. intros id. cbn. unfold answers. cbn. lia. }
  apply Forall_cons in Hes as [He Hes]. rewrite run_cons. cbn [fst snd].
  destruct (moves_answers s _ _ Hok (step_moves s e He)) as (Hok1 & Hd & Ha).
  destruct (IH _ Hok1 Hes) as (Hok2 & Hds & Has). split_and!; [done|by constructor|].
  intros id. rewrite answers_cons. specialize (Ha id). specialize (Has id). lia.
Qed.

(** ** Correctness *)

(** C7. In any stretch of events without the end of a client's window, whatever happened
    before it and however requests and answers of the wallet interleave, the server
    has the wallet send coins for that client at most once. *)
Theorem once_per_window (before es : list event) (a : ip) :
  Expire a ∉ es -> (transfers a (run (S := S) (run boot before).1 es).2 <= 1)%nat.
Proof.
  intros Hn. pose proof (transfers_bound (run boot before).1 es a Hn) as Hb.
  destruct (decide _) in Hb; lia.
Qed.

(** A request that reaches the limiter uses up the client's allowance, whether or not
    it led to a transfer: until the window ends, every further one of the client is
    answered at once with status 429 and the limiter's message. *)
Theorem second_request_refused s e es (a : ip) (body : value) :
  counted a e = true -> Expire a ∉ es ->
  let s' := (run (step s e).1 es).1 in
  (step s' (Arrive {| r_target := Post_faucet; r_ip := a; r_body := Parsed body |})).2
  = [Send (fresh s') (Reply 429 (Json (message limiter)))].
Proof.
  intros Hc Hn s'. assert (1 <= rl_hits (store s') a) as Hh.
  { pose proof (run_hits (step s e).1 es a Hn) as Hr. fold s' in Hr.
    assert (e <> Expire a) as He by (by intros ->). pose proof (step_hits s e a He) as Hs. rewrite Hc in Hs.
    pose proof (hits_nonneg (store s) a). lia. }
  cbn. unfold arrive, post_faucet. cbn. pose proof (request_passes limiter (store s') a) as Hp.
  rewrite (proj2 (Z.leb_gt _ _)) in Hp by (cbn; lia).
  destruct (rl_request limiter (store s') a) as [st b]. cbn in Hp. by subst b.
Qed.

(** C10. Every request that has arrived is waiting for the wallet or has been answered
    exactly once, and nothing else is answered; no handler ends with an exception that
    nobody handles.  The bodies are what [express.json()] lets through. *)
Theorem answered_once es (id : nat) :
  Forall strict_event es ->
  let '(s, log) := run (S := S) boot es in
  answers id log + pending s id = arrived s id /\ Forall (fun entry => ~ died entry.2) log.
Proof.
  intros Hes. destruct (run_answers boot es) as (_ & Hd & Ha); [intros i [x Hx]; done|done|].
  specialize (Ha id). destruct (run boot es) as [s log]. cbn [fst snd] in *. split; [|done].
  change (pending boot id) with 0 in Ha. unfold arrived in Ha at 1. cbn in Ha. rewrite decide_False in Ha; lia.
Qed.

(** A request that waits is answered as soon as the promises it awaits are settled:
    by the error of the [catch] clause when one is rejected, otherwise by what the
    handler makes of the data, whatever they are. *)
Theorem settled_answered s (id : nat) (st : stage) (data : value) :
  waiting s !! id = Some st ->
  (step s (Rejected id)).2 = [Send id faucet_catch] /\
  exists r, faucet_finish data = Val r /\
    match st with
    | Await_response => (step (step s (Responded id)).1 (Data id data)).2
    | Await_json => (step s (Data id data)).2
    end = [Send id r].
Proof.
  intros E. cbn. rewrite E. split; [done|]. destruct (finish_returns data) as [r Hr]. exists r. split; [done|].
  destruct st; cbn; rewrite ?lookup_insert_eq; cbn; by rewrite Hr.
Qed.
End theorems.

(** ** The text of the call *)

(** A literal, with an apostrophe for each double quote. *)
Definition qlit (s : string) : jstring := map (fun c => if c =? 39 then 34 else c) (lit s).

Definition rpc_head : jstring :=
  qlit "{'jsonrpc':'2.0','id':'0','method':'transfer','params':{'destinations':[{'amount':"
  ++ decimal (10 * COIN) ++ qlit ",'address':".
Definition rpc_tail : jstring := qlit "}],'ring_size':16}}".

Lemma rpc_text (address : jstring) :
  stringify (rpc_object address) = Some (rpc_head ++ quote address ++ rpc_tail).
Proof.
  cbn [stringify rpc_object map]. generalize (quote address) as q. intros q. f_equal.
  cbv -[app]. rewrite <- !app_assoc. cbn [app]. reflexivity.
Qed.

Lemma begin_call (body : value) (c : http_request) :
  faucet_begin body = Val (inr c) ->
  exists address, get_property body "address" = Val (Str address) /\ plausible address = true /\ c = rpc_call address.
Proof.
  unfold faucet_begin. destruct (get_property body "address") as [v| | | |]; try done. rewrite bind_val.
  destruct (truthy v), v as [| | | |address| |]; try done. destruct (plausible address) eqn:E; [|done].
  intros [= <-]. by exists address.
Qed.

Lemma plausible_inv (address : jstring) :
  plausible address = true <-> head address = Some 77 /\ (90 <= length address)%nat.
Proof.
  unfold plausible, startsWith. change (lit "M") with [77]. rewrite negb_true_iff, orb_false_iff, negb_false_iff.
  rewrite bool_decide_eq_true, Z.ltb_ge. destruct address as [|c address]; [cbn; split; [intros [? _]|intros [? _]]; done|].
  cbn [take length head]. split; intros [E ?]; (split; [|lia]).
  - by injection E as ->.
  - by injection E as ->.
Qed.

(** C9. Whatever the server calls the wallet for, it is a request from some client whose
    body has an address that starts with M and has 90 characters or more; the call is
    the transfer of exactly 10 LODE to it, and reading the string literal in its text
    gives that address back, whatever characters are in it. *)
Theorem transfer_genuine {S : Type} `{RateLimitLaws S} (s : server (S := S)) (e : event) (id : nat) (c : http_request) :
  Call id c ∈ (step s e).2 ->
  exists a body address,
    e = Arrive {| r_target := Post_faucet; r_ip := a; r_body := Parsed body |} /\
    get_property body "address" = Val (Str address) /\ head address = Some 77 /\ (90 <= length address)%nat /\
    h_url c = RPC_URL /\ h_body c = Some (rpc_head ++ quote address ++ rpc_tail) /\
    (Forall is_unit address ->
     read_string (drop (length rpc_head + 1) (rpc_head ++ quote address ++ rpc_tail)) = Some (address, rpc_tail)).
Proof.
  intros Hin. apply step_call in Hin as (a & body & He & _ & Hb & _).
  apply begin_call in Hb as (address & Hg & [Hh Hl]%plausible_inv & ->). exists a, body, address.
  split_and!; try done; [apply rpc_text|]. intros Hu. rewrite <- drop_drop, drop_app_length. unfold quote.
  rewrite <- !app_assoc. cbn [app drop]. by apply read_quote_units.
Qed.

(** ** Which addresses it serves *)

(** CRYPTONOTE_PUBLIC_ADDRESS_BASE58_PREFIX, its integrated and its subaddress
    variant, for each network. *)
Definition mainnet_tags : list Z := [110; 111; 112].
Definition testnet_tags : list Z := [120; 121; 122].
Definition stagenet_tags : list Z := [130; 131; 132].

(** The first letter, from the first byte. *)
Lemma first_letter (f : Z) (rest : list Z) :
  is_byte f -> Forall is_byte rest -> (7 <= length rest)%nat ->
  letter (of_digits 256 (take 8 (f :: rest)) / 58 ^ 10 mod 58) = 77 <->
  of_digits 256 (take 8 (f :: rest)) / 58 ^ 10 = 20.
Proof.
  intros Hf Hr Hl. set (n := of_digits 256 (take 8 (f :: rest))).
  assert (0 <= n < 256 ^ 8) as Hn.
  { pose proof (of_digits_range 256 (take 8 (f :: rest)) ltac:(lia) ltac:(by apply Forall_take; constructor)) as Hn.
    rewrite length_take in Hn. cbn [length] in Hn. rewrite Nat.min_l in Hn by lia. exact Hn. }
  assert (0 <= n / 58 ^ 10 < 58) as Hq by (split; [apply Z.div_pos|apply Z.div_lt_upper_bound]; lia).
  rewrite (Z.mod_small (n / 58 ^ 10) 58) by done. split.
  - intros E. change 77 with (letter 20) in E. apply (f_equal reverse_alphabet) in E.
    rewrite !letter_reverse in E; (done || unfold is_digit; lia).
  - by intros ->.
Qed.

Lemma first_quotient (f : Z) (rest : list Z) :
  Forall is_byte rest -> (7 <= length rest)%nat ->
  f * 256 ^ 7 / 58 ^ 10 <= of_digits 256 (take 8 (f :: rest)) / 58 ^ 10 <= (f * 256 ^ 7 + 256 ^ 7 - 1) / 58 ^ 10.
Proof.
  intros Hr Hl. cbn [take]. rewrite of_digits_cons.
  pose proof (of_digits_range 256 (take 7 rest) ltac:(lia) ltac:(by apply Forall_take)) as Hn.
  rewrite length_take, Nat.min_l in * by lia. change (Z.of_nat 7) with 7 in *.
  split; apply Z.div_le_mono; lia.
Qed.

Lemma tag_first_byte (tag : Z) :
  tag ∈ mainnet_tags ++ testnet_tags ++ stagenet_tags ->
  in_u64 tag /\ exists t, get_varint_data tag = Val (tag :: t) /\ Forall is_byte (tag :: t) /\
    (bool_decide (tag ∈ testnet_tags) = true /\ tag * 256 ^ 7 / 58 ^ 10 = 20 /\ (tag * 256 ^ 7 + 256 ^ 7 - 1) / 58 ^ 10 = 20 \/
     bool_decide (tag ∈ testnet_tags) = false /\ ((tag * 256 ^ 7 + 256 ^ 7 - 1) / 58 ^ 10 < 20 \/ 20 < tag * 256 ^ 7 / 58 ^ 10)).
Proof.
  intros Hin.
  repeat (apply elem_of_cons in Hin as [->|Hin]; [
    split; [unfold in_u64; lia|]; eexists; split; [vm_compute; reflexivity|];
    split; [repeat constructor; unfold is_byte, is_digit; lia|];
    first [ left; split_and!; vm_compute; reflexivity
          | right; split; [vm_compute; reflexivity|]; first [left; vm_compute; reflexivity | right; vm_compute; reflexivity] ] |]).
  by apply elem_of_nil in Hin.
Qed.

(** C35. The check of the faucet accepts every address of the testnet (standard, integrated
    and subaddresses, from 64 bytes of keys on) and none of the other networks. *)
Theorem faucet_serves_testnet (cn_fast_hash : list Z -> list Z) (ndebug : bool) (tag : Z) (data : list Z) :
  hash_ok cn_fast_hash -> tag ∈ mainnet_tags ++ testnet_tags ++ stagenet_tags ->
  Forall is_byte data -> (64 <= length data)%nat ->
  exists addr, encode_addr cn_fast_hash ndebug tag data = Val addr /\
    plausible addr = bool_decide (tag ∈ testnet_tags).
Proof.
  intros Hh Hin Hd Hl. apply tag_first_byte in Hin as (_ & t & Ev & Ht & Hq).
  pose proof (addr_payload_ok cn_fast_hash (tag :: t) data Hh Ht Hd) as Hp.
  destruct (encode_decode ndebug _ Hp) as (addr & Ee & _). exists addr.
  split; [unfold encode_addr; by rewrite Ev|].
  set (rest := (t ++ data) ++ take 4 (cn_fast_hash (tag :: t ++ data))).
  assert (addr_payload cn_fast_hash (tag :: t) data = tag :: rest) as Ep by done. rewrite Ep in *.
  assert (68 <= length rest)%nat as Hr.
  { unfold rest. rewrite !length_app, length_take. destruct (Hh (tag :: t ++ data)) as [_ ->]. lia. }
  apply Forall_cons in Hp as [Hp1 Hp2].
  destruct (encode_shape ndebug (tag :: rest) addr) as [Hhead Hlen]; [by constructor|cbn [length]; lia|done|].
  pose proof (first_letter tag rest Hp1 Hp2 ltac:(lia)) as Hlet.
  pose proof (first_quotient tag rest Hp2 ltac:(lia)) as Hquo.
  destruct Hq as [(-> & Q1 & Q2)|[-> Q]].
  - apply plausible_inv. split; [rewrite Hhead; f_equal; apply Hlet; lia|].
    pose proof (Nat.div_mod_eq (length (tag :: rest)) 8). pose proof (Nat.mod_upper_bound (length (tag :: rest)) 8 ltac:(lia)).
    cbn [length] in *. lia.
  - apply not_true_iff_false. intros [Hc _]%plausible_inv. rewrite Hhead in Hc. injection Hc as Hc.
    apply Hlet in Hc. destruct Q; lia.
Qed.

(** ** Examples *)

Definition example_ip : ip := lit "203.0.113.7".
Definition example_address : jstring := [77] ++ replicate 94 49.
Definition example_post : event :=
  Arrive {| r_target := Post_faucet; r_ip := example_ip;
            r_body := Parsed (Obj [(lit "address", Str example_address)]) |}.

Lemma faucet_serves_testnet_witness : exists addr,
  encode_addr (fun _ => replicate 32 7) false 120 (replicate 64 1) = Val addr /\ plausible addr = true.
Proof.
  apply (faucet_serves_testnet (fun _ => replicate 32 7) false 120 (replicate 64 1)).
  - intros l. split; [apply Forall_replicate; unfold is_byte, is_digit; lia | reflexivity].
  - apply (proj1 (bool_decide_eq_true _)). vm_compute. reflexivity.
  - apply Forall_replicate. unfold is_byte, is_digit. lia.
  - rewrite length_replicate. lia.
Defined.

Lemma once_per_window_witness :
  (transfers example_ip (run (S := gmap ip Z) (run boot []).1 [example_post; example_post]).2 <= 1)%nat /\
  transfers example_ip (run (S := gmap ip Z) boot [example_post; example_post]).2 = 1%nat.
Proof.
  split; [|vm_compute; reflexivity].
  apply (once_per_window (S := gmap ip Z) [] [example_post; example_post] example_ip).
  intros Hin. repeat (apply elem_of_cons in Hin as [Hin|Hin]; [discriminate Hin|]). by apply elem_of_nil in Hin.
Defined.

Lemma second_request_refused_witness :
  (step (S := gmap ip Z) (run (step boot example_post).1 []).1 example_post).2
  = [Send (fresh (run (S := gmap ip Z) (step boot example_post).1 []).1) (Reply 429 (Json (message limiter)))].
Proof.
  apply (second_request_refused (S := gmap ip Z) boot example_post [] example_ip
           (Obj [(lit "address", Str example_address)])); [vm_compute; reflexivity|].
  intros Hin. by apply elem_of_nil in Hin.
Defined.

Lemma answered_once_witness :
  let '(s, log) := run (S := gmap ip Z) boot [example_post; Rejected 0] in
  answers 0 log + pending s 0 = arrived s 0 /\ Forall (fun entry => ~ died entry.2) log.
Proof. apply (answered_once (S := gmap ip Z) [example_post; Rejected 0] 0). repeat constructor. Defined.

Lemma settled_answered_witness :
  let s := (step (S := gmap ip Z) boot example_post).1 in
  (step s (Rejected 0)).2 = [Send 0 faucet_catch] /\
  exists r, faucet_finish Null = Val r /\ (step (step s (Responded 0)).1 (Data 0 Null)).2 = [Send 0 r].
Proof.
  intros s. apply (settled_answered (S := gmap ip Z) s 0 Await_response Null). vm_compute. reflexivity.
Defined.

Lemma transfer_genuine_witness :
  exists a body address,
    example_post = Arrive {| r_target := Post_faucet; r_ip := a; r_body := Parsed body |} /\
    get_property body "address" = Val (Str address) /\ head address = Some 77 /\ (90 <= length address)%nat /\
    h_url (rpc_call example_address) = RPC_URL /\
    h_body (rpc_call example_address) = Some (rpc_head ++ quote address ++ rpc_tail) /\
    (Forall is_unit address ->
     read_string (drop (length rpc_head + 1) (rpc_head ++ quote address ++ rpc_tail)) = Some (address, rpc_tail)).
Proof.
  apply (transfer_genuine (S := gmap ip Z) boot example_post 0). apply list_elem_of_singleton. vm_compute. reflexivity.
Defined.
