(* ===== verification/FaucetPage.v ===== *)
(** * The faucet's page

    src/deploy/faucet/app.js, the form that GET / serves: its elements and the function
    [requestLODE] behind the button, cut at its two [await]s.  An element reference is
    its position in the document; [fetch] and the user are events. *)

From Stdlib Require Import String.
From stdpp Require Import gmap.
From S2P Require Import Prelude JS IntUtil Emission Varint Base58 Faucet.

#[local] Open Scope Z_scope.

(** ** The document *)

(** An element: its tag, the attributes written in the page, the text it has of its
    own, and the properties [value] and [disabled]. *)
Record element := {
  tag : jstring;
  attributes : list (jstring * jstring);
  innerText : jstring;
  input_value : jstring;
  disabled : bool;
}.

Definition attrs (l : list (string * string)) : list (jstring * jstring) := map (fun '(k, v) => (lit k, lit v)) l.

Definition elem (t : string) (l : list (string * string)) (text : jstring) : element :=
  {| tag := lit t; attributes := attrs l; innerText := text; input_value := []; disabled := false |}.

(** The elements of the body, in document order. *)
Definition body : list element := [
  elem "canvas" [("id", "networkCanvas")] [];
  elem "div" [("class", "bg-fx")] [];
  elem "div" [("class", "container")] [];
  elem "a" [("href", "https://lodechain.org"); ("class", "logo")] (lit "LODE");
  elem "h1" [] (lit "Testnet Faucet");
  elem "p" [] (lit "Enter your LODE Testnet address (starting with M) to receive 10 free LODE for testing the network.");
  elem "div" [("class", "input-group")] [];
  elem "input" [("type", "text"); ("id", "address"); ("placeholder", "Enter your Testnet wallet address...");
                ("autocomplete", "off"); ("spellcheck", "false")] [];
  elem "button" [("id", "submitBtn"); ("class", "btn"); ("onclick", "requestLODE()")] (lit "Get LODE");
  elem "div" [("id", "result"); ("class", "message")] [];
  elem "a" [("href", "https://lodechain.org"); ("class", "back-link")] ((8592 :: lit " Back to Home")%Z%list)]%string.

Fixpoint attribute (l : list (jstring * jstring)) (key : jstring) : option jstring :=
  match l with
  | [] => None
  | (k, v) :: l => if decide (k = key) then Some v else attribute l key
  end.

Definition set_attribute (key v : jstring) (l : list (jstring * jstring)) : list (jstring * jstring) :=
  map (fun '(k, w) => if decide (k = key) then (k, v) else (k, w)) l.

(** [document.getElementById]: [None] is null. *)
Definition getElementById (dom : list element) (id : string) : option nat :=
  fst <$> list_find (fun e => attribute (attributes e) (lit "id") = Some (lit id)) dom.

(** A property of null cannot be read or set. *)
Definition deref (r : option nat) : outcome nat := match r with Some n => Val n | None => Throw end.

Definition set_className (n : nat) (c : jstring) (dom : list element) : list element :=
  alter (fun e => {| tag := tag e; attributes := set_attribute (lit "class") c (attributes e);
                     innerText := innerText e; input_value := input_value e; disabled := disabled e |}) n dom.

Definition set_innerText (n : nat) (t : jstring) (dom : list element) : list element :=
  alter (fun e => {| tag := tag e; attributes := attributes e; innerText := t;
                     input_value := input_value e; disabled := disabled e |}) n dom.

Definition set_value (n : nat) (v : jstring) (dom : list element) : list element :=
  alter (fun e => {| tag := tag e; attributes := attributes e; innerText := innerText e;
                     input_value := v; disabled := disabled e |}) n dom.

Definition set_disabled (n : nat) (d : bool) (dom : list element) : list element :=
  alter (fun e => {| tag := tag e; attributes := attributes e; innerText := innerText e;
                     input_value := input_value e; disabled := d |}) n dom.

(** ** [requestLODE] *)

(** The elements that a call of the function has looked up. *)
Record refs := {
  addrInput : nat;
  resultDiv : nat;
  btn : nat;
}.

Definition client_call (addr : jstring) : http_request := {|
  h_url := lit "/faucet";
  h_method := lit "POST";
  h_headers := [(lit "Content-Type", lit "application/json")];
  h_body := stringify (Obj [(lit "address", Str addr)]);
|}.

(** Up to the first [await]: the document, and the request if there is one. *)
Definition request_begin (dom : list element) : outcome (list element * option (refs * http_request)) :=
  addrInput ← deref (getElementById dom "address");
  let addr := trim (default [] (input_value <$> dom !! addrInput)) in
  let resultDiv := getElementById dom "result" in
  let btn := getElementById dom "submitBtn" in
  if bool_decide (addr = []) then
    resultDiv ← deref resultDiv;
    let dom := set_className resultDiv (lit "message error") dom in
    let dom := set_innerText resultDiv (lit "Please enter a wallet address.") dom in
    Val (dom, None)
  else
    btn ← deref btn;
    let dom := set_disabled btn true dom in
    let dom := set_innerText btn (lit "Processing...") dom in
    resultDiv ← deref resultDiv;
    let dom := set_className resultDiv (lit "message") dom in
    let dom := set_innerText resultDiv [] dom in
    Val (dom, Some ({| addrInput := addrInput; resultDiv := resultDiv; btn := btn |}, client_call addr)).

(** [res.ok && data.message] as a condition. *)
Definition reply_good (ok : bool) (data : value) : outcome bool :=
  if ok then message ← get_property data "message"; Val (truthy message) else Val false.

(** [data.error || '...'], as a text. *)
Definition reply_error (data : value) : outcome jstring :=
  error ← get_property data "error";
  if truthy error then to_string error else Val (lit "An error occurred. Please try again later.").

(** The [try] block after the second [await]. *)
Definition request_show (r : refs) (ok : bool) (data : value) (dom : list element) : outcome (list element) :=
  good ← reply_good ok data;
  if (good : bool) then
    let dom := set_className (resultDiv r) (lit "message success") dom in
    message ← get_property data "message";
    text ← to_string message;
    let dom := set_innerText (resultDiv r) text dom in
    Val (set_value (addrInput r) [] dom)
  else
    let dom := set_className (resultDiv r) (lit "message error") dom in
    text ← reply_error data;
    Val (set_innerText (resultDiv r) text dom).

(** The [catch] block.  What the [try] block may have set before it threw is the class
    that is set here again. *)
Definition request_catch (r : refs) (dom : list element) : list element :=
  let dom := set_className (resultDiv r) (lit "message error") dom in
  set_innerText (resultDiv r) (lit "Connection error to the Faucet server.") dom.

(** The [finally] block. *)
Definition request_finally (r : refs) (dom : list element) : list element :=
  let dom := set_disabled (btn r) false dom in
  set_innerText (btn r) (lit "Get LODE") dom.

(** ** The page *)

(** A call of [requestLODE] that waits for the response, or for its data with the
    [ok] of the response. *)
Inductive flight :=
  | Fetching (r : refs)
  | Reading (r : refs) (ok : bool).

Record page := {
  dom : list element;
  flights : gmap nat flight;
  next : nat;
}.

Definition open_page : page := {| dom := body; flights := ∅; next := 0 |}.

Inductive page_event :=
  | Edit (text : jstring)
  | Click
  | Failed (id : nat)
  | Response (id : nat) (status : Z)
  | Received (id : nat) (data : value).

(** [Response.ok]. *)
Definition res_ok (status : Z) : bool := (200 <=? status) && (status <=? 299).

Definition landed (p : page) (id : nat) (d : list element) : page :=
  {| dom := d; flights := delete id (flights p); next := next p |}.

(** A disabled button gets no clicks.  The second component is what is sent, and
    [None] when the function ends with an exception. *)
Definition page_step (p : page) (e : page_event) : page * option (list http_request) :=
  match e with
  | Edit text =>
      match getElementById (dom p) "address" with
      | Some n => ({| dom := set_value n text (dom p); flights := flights p; next := next p |}, Some [])
      | None => (p, Some [])
      end
  | Click =>
      match getElementById (dom p) "submitBtn" with
      | Some n =>
          if default true (disabled <$> dom p !! n) then (p, Some [])
          else
            match request_begin (dom p) with
            | Val (d, None) => ({| dom := d; flights := flights p; next := next p |}, Some [])
            | Val (d, Some (r, c)) =>
                ({| dom := d; flights := <[next p := Fetching r]> (flights p); next := S (next p) |}, Some [c])
            | _ => (p, None)
            end
      | None => (p, Some [])
      end
  | Failed id =>
      match flights p !! id with
      | Some (Fetching r | Reading r _) => (landed p id (request_finally r (request_catch r (dom p))), Some [])
      | None => (p, Some [])
      end
  | Response id status =>
      match flights p !! id with
      | Some (Fetching r) =>
          ({| dom := dom p; flights := <[id := Reading r (res_ok status)]> (flights p); next := next p |}, Some [])
      | _ => (p, Some [])
      end
  | Received id data =>
      match flights p !! id with
      | Some (Reading r ok) =>
          match try_catch (request_show r ok data (dom p)) (Val (request_catch r (dom p))) with
          | Val d => (landed p id (request_finally r d), Some [])
          | _ => (p, None)
          end
      | _ => (p, Some [])
      end
  end.

Inductive reachable : page -> Prop :=
  | reachable_open : reachable open_page
  | reachable_step (p : page) (e : page_event) : reachable p -> reachable (page_step p e).1.

(** ** The states of the form *)

Definition page_refs : refs := {| addrInput := 7; resultDiv := 9; btn := 8 |}.

(** The document with a text in the field, the button's state and label, and the class
    and text of the result. *)
Definition render (v : jstring) (d : bool) (label c t : jstring) : list element :=
  set_value 7 v (set_disabled 8 d (set_innerText 8 label (set_className 9 c (set_innerText 9 t body)))).

Lemma body_render : body = render [] false (lit "Get LODE") (lit "message") [].
Proof. vm_compute. reflexivity. Qed.

Section render.
Context (v : jstring) (d : bool) (label c t : jstring).
Lemma render_value w : set_value 7 w (render v d label c t) = render w d label c t.
Proof. reflexivity. Qed.
Lemma render_disabled b : set_disabled 8 b (render v d label c t) = render v b label c t.
Proof. reflexivity. Qed.
Lemma render_label x : set_innerText 8 x (render v d label c t) = render v d x c t.
Proof. reflexivity. Qed.
Lemma render_class x : set_className 9 x (render v d label c t) = render v d label x t.
Proof. reflexivity. Qed.
Lemma render_text x : set_innerText 9 x (render v d label c t) = render v d label c x.
Proof. reflexivity. Qed.
Lemma render_input : getElementById (render v d label c t) "address" = Some 7%nat.
Proof. reflexivity. Qed.
Lemma render_result : getElementById (render v d label c t) "result" = Some 9%nat.
Proof. reflexivity. Qed.
Lemma render_button : getElementById (render v d label c t) "submitBtn" = Some 8%nat.
Proof. reflexivity. Qed.
Lemma render_get_value : default [] (input_value <$> render v d label c t !! 7%nat) = v.
Proof. reflexivity. Qed.
Lemma render_get_disabled : default true (disabled <$> render v d label c t !! 8%nat) = d.
Proof. reflexivity. Qed.
End render.

#[local] Opaque render.
Create Rewrite HintDb page.
#[local] Hint Rewrite render_value render_disabled render_label render_class render_text render_input
  render_result render_button render_get_value render_get_disabled : page.

(** The function on a document in one of these states. *)
Lemma begin_render (v : jstring) (d : bool) (label c t : jstring) :
  request_begin (render v d label c t) =
  if bool_decide (trim v = []) then
    Val (render v d label (lit "message error") (lit "Please enter a wallet address."), None)
  else Val (render v true (lit "Processing...") (lit "message") [], Some (page_refs, client_call (trim v))).
Proof.
  unfold request_begin. autorewrite with page. cbn [deref]. run. autorewrite with page.
  case_bool_decide; cbn [deref]; run; autorewrite with page; [done|]. run. by autorewrite with page.
Qed.

Definition finished (v : jstring) (success : bool) (text : jstring) : list element :=
  render v false (lit "Get LODE") (lit (if success then "message success" else "message error")) text.

Lemma catch_render (v : jstring) (d : bool) (label c t : jstring) :
  request_finally page_refs (request_catch page_refs (render v d label c t))
  = finished v false (lit "Connection error to the Faucet server.").
Proof. unfold request_finally, request_catch. cbn [page_refs btn resultDiv]. by autorewrite with page. Qed.

(** The end of a call: the field, and the outcome that is shown. *)
Lemma show_render (v : jstring) (d ok : bool) (label c t : jstring) (data : value) :
  exists d' v' success text,
    try_catch (request_show page_refs ok data (render v d label c t))
      (Val (request_catch page_refs (render v d label c t))) = Val d' /\
    request_finally page_refs d' = finished v' success text.
Proof.
  pose proof (catch_render v d label c t) as Hcatch.
  assert (returns_or_throws (request_show page_refs ok data (render v d label c t)) /\
    forall d', request_show page_refs ok data (render v d label c t) = Val d' ->
    exists v' success text, request_finally page_refs d' = finished v' success text) as [[->|[d' E]] Hd].
  2: { cbn. eauto 10. }
  2: { destruct (Hd d' E) as (v' & b & text & Hf). rewrite E. cbn. eauto 10. }
  unfold request_show, request_finally. cbn [page_refs btn resultDiv addrInput].
  assert (returns_or_throws (reply_good ok data)) as Hg.
  { unfold reply_good. destruct ok; [|right; by eexists]. apply bind_cases; [apply get_property_cases|].
    intros a _. right. by eexists. }
  assert (returns_or_throws (reply_error data)) as He.
  { unfold reply_error. apply bind_cases; [apply get_property_cases|]. intros a _.
    destruct (truthy a); [apply to_string_cases|right; by eexists]. }
  destruct Hg as [->|[[] ->]]; [split; [by left|done]|..]; run.
  - destruct (get_property_cases data "message") as [->|[m ->]]; [split; [by left|done]|]. run.
    destruct (to_string_cases m) as [->|[text ->]]; [split; [by left|done]|]. run. autorewrite with page.
    split; [right; by eexists|]. intros d' [= <-]. autorewrite with page. by exists [], true, text.
  - destruct He as [->|[text ->]]; [split; [by left|done]|]. run. autorewrite with page.
    split; [right; by eexists|]. intros d' [= <-]. autorewrite with page. by exists v, false, text.
Qed.

Definition flight_refs (f : flight) : refs := match f with Fetching r | Reading r _ => r end.

(** The class and the text of the result: nothing, or an outcome. *)
Inductive result_ok : jstring -> jstring -> Prop :=
  | result_none : result_ok (lit "message") []
  | result_some (success : bool) (text : jstring) :
      result_ok (lit (if success then "message success" else "message error")) text.

(** The form is idle with its button enabled and nothing in flight, or it is busy with
    one request, its button disabled and no result. *)
Inductive page_ok : page -> Prop :=
  | page_idle (v c t : jstring) (n : nat) :
      result_ok c t ->
      page_ok {| dom := render v false (lit "Get LODE") c t; flights := ∅; next := n |}
  | page_busy (v : jstring) (n id : nat) (f : flight) :
      flight_refs f = page_refs ->
      page_ok {| dom := render v true (lit "Processing...") (lit "message") []; flights := {[id := f]}; next := n |}.

Lemma finished_ok (p : page) (id : nat) (f : flight) (v : jstring) (success : bool) (text : jstring) :
  flights p = {[id := f]} -> page_ok (landed p id (finished v success text)).
Proof. intros E. unfold landed, finished. rewrite E, delete_singleton_eq. apply page_idle, result_some. Qed.

(** A flight of such a page is its only one. *)
Lemma page_ok_flight (p : page) (id : nat) (f : flight) :
  page_ok p -> flights p !! id = Some f ->
  exists v, dom p = render v true (lit "Processing...") (lit "message") [] /\
    flights p = {[id := f]} /\ flight_refs f = page_refs.
Proof.
  intros [v c t n Hc|v n i g Hg]; cbn; [by rewrite lookup_empty|].
  intros [<- <-]%lookup_singleton_Some. by exists v.
Qed.

Lemma page_step_ok (p : page) (e : page_event) :
  page_ok p -> page_ok (page_step p e).1 /\ is_Some (page_step p e).2.
Proof.
  intros Hp. destruct e as [text| |id|id status|id data]; cbn [page_step].
  - destruct Hp; cbn [dom flights next]; autorewrite with page; (split; [by constructor|by eexists]).
  - destruct Hp; cbn [dom flights next]; autorewrite with page; [|split; [by constructor|by eexists]].
    rewrite begin_render. case_bool_decide; cbn; (split; [|by eexists]); [by apply page_idle, (result_some false)|].
    rewrite insert_empty. by constructor.
  - destruct (flights p !! id) as [f|] eqn:E; [|by split].
    destruct (page_ok_flight p id f Hp E) as (v & Hd & Hf & Hr). rewrite Hd.
    destruct f; cbn in Hr; subst; rewrite catch_render; (split; [by eapply finished_ok|by eexists]).
  - destruct (flights p !! id) as [[r|r ok]|] eqn:E; try by split.
    destruct (page_ok_flight p id _ Hp E) as (v & Hd & Hf & Hr). split; [|by eexists]. cbn [fst].
    rewrite Hd, Hf, insert_singleton_eq. by constructor.
  - destruct (flights p !! id) as [[r|r ok]|] eqn:E; try by split.
    destruct (page_ok_flight p id _ Hp E) as (v & Hd & Hf & Hr). cbn in Hr. subst r. rewrite Hd.
    destruct (show_render v true ok (lit "Processing...") (lit "message") [] data) as (d' & v' & b & text & -> & ->).
    split; [by eapply finished_ok|by eexists].
Qed.

Lemma reachable_ok (p : page) : reachable p -> page_ok p.
Proof.
  induction 1 as [|p e _ IH].
  - unfold open_page. rewrite body_render. apply page_idle, result_none.
  - by apply page_step_ok.
Qed.

(** ** What the server's answers look like *)

Lemma finish_shape (data : value) (r : response) :
  faucet_finish data = Val r ->
  (exists t, r = Reply 200 (Json (message_object (lit "Success! 10 LODE sent. TX Hash: " ++ t)))) \/
  (exists t, r = Reply 500 (Json (error_object t)) /\ t <> []).
Proof.
  unfold faucet_finish. destruct (get_property_cases data "error") as [->|[e ->]]; [intros [= <-]; right; by eexists|].
  rewrite bind_val. destruct (truthy e).
  - destruct (get_property_cases e "message") as [->|[m ->]]; [intros [= <-]; right; by eexists|]. rewrite bind_val.
    destruct (to_string_cases m) as [->|[t ->]]; intros [= <-]; right; by eexists.
  - destruct (get_property_cases data "result") as [->|[m ->]]; [intros [= <-]; right; by eexists|]. rewrite bind_val.
    destruct (get_property_cases m "tx_hash") as [->|[h ->]]; [intros [= <-]; right; by eexists|]. rewrite bind_val.
    destruct (to_string_cases h) as [->|[t ->]]; intros [= <-]; [right; by eexists|left; by eexists].
Qed.

Lemma begin_shape (b : value) (r : response) :
  faucet_begin b = Val (inl r) -> exists t, r = Reply 400 (Json (error_object t)) /\ t <> [].
Proof.
  unfold faucet_begin. destruct (get_property b "address") as [a| | | |]; try done. rewrite bind_val.
  destruct (truthy a), a as [| | | |address| |]; try (intros [= <-]; by eexists).
  destruct (plausible address); [done|]. intros [= <-]. by eexists.
Qed.

(** A JSON answer of the server, with the text for the user. *)
Definition answer_text (status : Z) (v : value) (text : jstring) : Prop :=
  text <> [] /\ (status = 200 /\ v = message_object text \/ status ∈ [400; 429; 500] /\ v = error_object text).

Lemma server_answer {S : Type} `{RateLimit S} (s : server (S := S)) (e : event) (id : nat) (status : Z) (v : value) :
  Send id (Reply status (Json v)) ∈ (step s e).2 -> exists text, answer_text status v text.
Proof.
  assert (forall t : jstring, t <> [] -> status ∈ [400; 429; 500] -> v = error_object t -> exists text, answer_text status v text)
    as Herr by (intros t ???; exists t; split; [done|by right]).
  destruct e as [[t a pb]|a|i|i|i data]; cbn.
  - unfold arrive. cbn. destruct pb as [b|]; [|by intros [= ]%list_elem_of_singleton].
    destruct t; [by intros [= ]%list_elem_of_singleton| |by intros [= ]%list_elem_of_singleton].
    unfold post_faucet. cbn. destruct (rl_request limiter (store s) a) as [st []].
    2: { intros [= -> -> ->]%list_elem_of_singleton. eapply Herr; [|set_solver|done]; done. }
    destruct (faucet_begin b) as [[r|c]| | | |] eqn:E; cbn; intros Hin%list_elem_of_singleton; try done.
    injection Hin as -> <-. apply begin_shape in E as (t & [= -> ->] & Ht). eapply Herr; [done|set_solver|done].
  - by intros ?%elem_of_nil.
  - destruct (waiting s !! i); cbn; [|by intros ?%elem_of_nil].
    intros [= -> -> ->]%list_elem_of_singleton. eapply Herr; [|set_solver|done]; done.
  - destruct (waiting s !! i) as [[]|]; cbn; by intros ?%elem_of_nil.
  - destruct (waiting s !! i) as [[]|]; cbn; try by intros ?%elem_of_nil.
    destruct (faucet_finish data) as [r| | | |] eqn:E; intros Hin%list_elem_of_singleton; try done.
    injection Hin as -> <-. apply finish_shape in E as [[t [= -> ->]]|(t & [= -> ->] & Ht)].
    + eexists. split; [|by left]. done.
    + eapply Herr; [done|set_solver|done].
Qed.

(** The page on such an answer. *)
Lemma show_answer (v : jstring) (status : Z) (data : value) (text : jstring) :
  answer_text status data text ->
  exists d', request_show page_refs (res_ok status) data (render v true (lit "Processing...") (lit "message") []) = Val d' /\
    request_finally page_refs d' = finished (if status =? 200 then [] else v) (status =? 200) text.
Proof.
  intros (Ht & [[-> ->]|[Hst ->]]).
  - unfold request_show, message_object. change (res_ok 200) with true.
    change (reply_good true (Obj [(lit "message", Str text)])) with (Val (bool_decide (text <> []))).
    rewrite bool_decide_true by done. run. change (get_property (Obj [(lit "message", Str text)]) "message") with (Val (Str text)).
    run. cbn [to_string]. run. cbn [page_refs resultDiv addrInput]. autorewrite with page. eexists. split; [done|].
    unfold request_finally. cbn [page_refs btn]. by autorewrite with page.
  - assert (res_ok status = false /\ (status =? 200) = false) as [-> ->].
    { unfold res_ok. repeat (apply elem_of_cons in Hst as [->|Hst]; [done|]). by apply elem_of_nil in Hst. }
    unfold request_show, error_object. cbn [reply_good]. run.
    assert (reply_error (Obj [(lit "error", Str text)]) = Val text) as ->.
    { unfold reply_error. change (get_property (Obj [(lit "error", Str text)]) "error") with (Val (Str text)). run.
      cbn [truthy]. by rewrite bool_decide_true. }
    run. cbn [page_refs resultDiv addrInput]. autorewrite with page. eexists. split; [done|].
    unfold request_finally. cbn [page_refs btn]. by autorewrite with page.
Qed.

(** ** Correctness *)

(** The element with an id. *)
Definition the (p : page) (id : string) : option element := n ← getElementById (dom p) id; dom p !! n.

Lemma the_field (p : page) (v : jstring) (d : bool) (label c t : jstring) (field : element) :
  dom p = render v d label c t -> the p "address" = Some field -> input_value field = v.
Proof.
  intros Hd Hf. assert (input_value <$> the p "address" = Some v) as Hv by (unfold the; rewrite Hd; reflexivity).
  rewrite Hf in Hv. by injection Hv.
Qed.

(** In every state that user and network can bring the page to, either nothing is in
    flight and the button is enabled and says Get LODE, or exactly one request is in
    flight and the button is disabled and says Processing...; and no event makes the
    code of the page fail. *)
Theorem form_invariant (p : page) :
  reachable p ->
  exists b, the p "submitBtn" = Some b /\
    (flights p = ∅ /\ disabled b = false /\ innerText b = lit "Get LODE" \/
     exists id f, flights p = {[id := f]} /\ disabled b = true /\ innerText b = lit "Processing...") /\
    forall e, is_Some (page_step p e).2.
Proof.
  intros Hp%reachable_ok. pose proof (fun e => proj2 (page_step_ok p e Hp)) as Hs. revert Hs.
  destruct Hp as [v c t n Hc|v n id f Hf]; intros Hs; eexists; (split; [reflexivity|split; [|exact Hs]]).
  - left. done.
  - right. by exists id, f.
Qed.

(** However a request ends, by a failure of the network or of the answer's text or
    with whatever data, nothing is in flight afterwards. *)
Theorem form_recovers (p : page) (id : nat) (f : flight) (status : Z) (data : value) :
  reachable p -> flights p !! id = Some f ->
  flights (page_step p (Failed id)).1 = ∅ /\
  match f with
  | Fetching _ => flights (page_step (page_step p (Response id status)).1 (Received id data)).1 = ∅
  | Reading _ _ => flights (page_step p (Received id data)).1 = ∅
  end.
Proof.
  intros Hp%reachable_ok E. destruct (page_ok_flight p id f Hp E) as (v & Hd & Hf & Hr). cbn [page_step].
  rewrite E, Hd. destruct f as [r|r ok]; cbn in Hr; subst r; cbn [fst flights dom].
  - split; [cbn; by rewrite Hf, delete_singleton_eq|]. rewrite Hf, insert_singleton_eq, lookup_singleton_eq.
    destruct (show_render v true (res_ok status) (lit "Processing...") (lit "message") [] data) as (d' & v' & b & t & -> & ->).
    cbn. by rewrite delete_singleton_eq.
  - split; [cbn; by rewrite Hf, delete_singleton_eq|].
    destruct (show_render v true ok (lit "Processing...") (lit "message") [] data) as (d' & v' & b & t & -> & ->).
    cbn. by rewrite Hf, delete_singleton_eq.
Qed.

(** C11. What the server answers is what the user reads: when the page has received an
    answer that the server sends in whatever state and for whatever event, it shows
    the text of that answer, as a success exactly when the status is 200, and then
    the field is cleared; the button is enabled again. *)
Theorem page_shows_answer {S : Type} `{RateLimit S} (s : server (S := S)) (e : event) (i : nat)
    (p : page) (id : nat) (r : refs) (status : Z) (data : value) (field : element) :
  Send i (Reply status (Json data)) ∈ (step s e).2 ->
  reachable p -> flights p !! id = Some (Fetching r) -> the p "address" = Some field ->
  let p' := (page_step (page_step p (Response id status)).1 (Received id data)).1 in
  exists text, (data = message_object text \/ data = error_object text) /\
    flights p' = ∅ /\
    innerText <$> the p' "result" = Some text /\
    (the p' "result" ≫= fun d => attribute (attributes d) (lit "class"))
      = Some (lit (if status =? 200 then "message success" else "message error")) /\
    input_value <$> the p' "address" = Some (if status =? 200 then [] else input_value field) /\
    disabled <$> the p' "submitBtn" = Some false.
Proof.
  intros [text Ht]%server_answer Hp%reachable_ok E Hfield p'.
  destruct (page_ok_flight p id _ Hp E) as (v & Hd & Hf & Hr). cbn in Hr. subst r.
  destruct (show_answer v status data text Ht) as (d' & Es & Ef).
  pose proof (the_field p v _ _ _ _ field Hd Hfield) as Hv.
  assert (p' = {| dom := finished (if status =? 200 then [] else v) (status =? 200) text; flights := ∅; next := next p |}) as ->.
  { unfold p'. cbn [page_step]. rewrite E. cbn [fst flights dom]. rewrite lookup_insert_eq, Hd, Es. cbn [try_catch].
    rewrite Ef. unfold landed. cbn [flights next fst]. by rewrite Hf, insert_singleton_eq, delete_singleton_eq. }
  exists text. rewrite Hv. split; [destruct Ht as (_ & [[_ ->]|[_ ->]]); auto|].
  destruct (status =? 200); split_and!; reflexivity.
Qed.

Lemma client_text (addr : jstring) :
  stringify (Obj [(lit "address", Str addr)]) = Some (qlit "{'address':" ++ quote addr ++ qlit "}").
Proof.
  cbn [stringify]. generalize (quote addr) as q. intros q. f_equal.
Qed.

(** A click on the enabled button sends nothing when the field holds nothing but white
    space, and asks for an address; otherwise it sends one request, a POST of the
    trimmed address to /faucet, from whose text the address can be read back whatever
    characters are in it. *)
Theorem click_sends (p : page) (b field : element) :
  reachable p -> the p "submitBtn" = Some b -> disabled b = false -> the p "address" = Some field ->
  let addr := trim (input_value field) in
  let '(p', sent) := page_step p Click in
  if decide (addr = []) then
    sent = Some [] /\ innerText <$> the p' "result" = Some (lit "Please enter a wallet address.") /\ flights p' = flights p
  else exists c, sent = Some [c] /\ h_method c = lit "POST" /\ h_url c = lit "/faucet" /\
    h_body c = Some (qlit "{'address':" ++ quote addr ++ qlit "}") /\
    (Forall is_unit addr -> read_string (drop 12 (qlit "{'address':" ++ quote addr ++ qlit "}")) = Some (addr, qlit "}")) /\
    innerText <$> the p' "result" = Some [].
Proof.
  intros Hp%reachable_ok Hb Hd Hfield addr.
  destruct Hp as [v c t n Hc|v n id f Hf]; [|vm_compute in Hb; injection Hb as <-; done].
  assert (input_value field = v) as Hv by (by eapply the_field; [|exact Hfield]).
  unfold addr. rewrite Hv. cbn [page_step dom]. autorewrite with page.
  rewrite begin_render. destruct (decide (trim v = [])) as [Et|Et].
  - rewrite bool_decide_true by done. done.
  - rewrite bool_decide_false by done. exists (client_call (trim v)). split_and!; try done; try apply client_text.
    intros Hu. unfold quote. rewrite <- !app_assoc. by apply read_quote_units.
Qed.

(** ** Examples *)

Definition typed_page : page := (page_step open_page (Edit (32 :: example_address))).1.
Definition sent_page : page := (page_step typed_page Click).1.

Lemma typed_reachable : reachable typed_page.
Proof. apply reachable_step, reachable_open. Qed.

Lemma sent_reachable : reachable sent_page.
Proof. apply reachable_step, typed_reachable. Qed.

Lemma form_invariant_witness :
  exists b, the sent_page "submitBtn" = Some b /\
    (flights sent_page = ∅ /\ disabled b = false /\ innerText b = lit "Get LODE" \/
     exists id f, flights sent_page = {[id := f]} /\ disabled b = true /\ innerText b = lit "Processing...") /\
    forall e, is_Some (page_step sent_page e).2.
Proof. apply (form_invariant sent_page), sent_reachable. Defined.

Lemma form_recovers_witness :
  flights (page_step sent_page (Failed 0)).1 = ∅ /\
  flights (page_step (page_step sent_page (Response 0 200)).1 (Received 0 Null)).1 = ∅.
Proof.
  apply (form_recovers sent_page 0 (Fetching page_refs) 200 Null); [apply sent_reachable|vm_compute; reflexivity].
Defined.

Lemma page_shows_answer_witness :
  let p' := (page_step (page_step sent_page (Response 0 500)).1
               (Received 0 (error_object (lit "Failed to connect to Faucet Wallet RPC.")))).1 in
  exists text, (error_object (lit "Failed to connect to Faucet Wallet RPC.") = message_object text \/
                error_object (lit "Failed to connect to Faucet Wallet RPC.") = error_object text) /\
    flights p' = ∅ /\
    innerText <$> the p' "result" = Some text /\
    (the p' "result" ≫= fun d => attribute (attributes d) (lit "class")) = Some (lit "message error") /\
    input_value <$> the p' "address" = Some (32 :: example_address) /\
    disabled <$> the p' "submitBtn" = Some false.
Proof.
  apply (page_shows_answer (S := gmap ip Z) (step boot example_post).1 (Rejected 0) 0 sent_page 0 page_refs 500
           (error_object (lit "Failed to connect to Faucet Wallet RPC."))
           (default (elem "input" [] []) (the sent_page "address"))).
  - apply list_elem_of_singleton. vm_compute. reflexivity.
  - apply sent_reachable.
  - vm_compute. reflexivity.
  - vm_compute. reflexivity.
Defined.

Lemma click_sends_witness :
  let '(p', sent) := page_step typed_page Click in
  if decide (trim (32 :: example_address) = []) then
    sent = Some [] /\ innerText <$> the p' "result" = Some (lit "Please enter a wallet address.") /\
    flights p' = flights typed_page
  else exists c, sent = Some [c] /\ h_method c = lit "POST" /\ h_url c = lit "/faucet" /\
    h_body c = Some (qlit "{'address':" ++ quote (trim (32 :: example_address)) ++ qlit "}") /\
    (Forall is_unit (trim (32 :: example_address)) ->
     read_string (drop 12 (qlit "{'address':" ++ quote (trim (32 :: example_address)) ++ qlit "}"))
     = Some (trim (32 :: example_address), qlit "}")) /\
    innerText <$> the p' "result" = Some [].
Proof.
  apply (click_sends typed_page (default (elem "button" [] []) (the typed_page "submitBtn"))
           (default (elem "input" [] []) (the typed_page "address"))).
  - apply typed_reachable.
  - vm_compute. reflexivity.
  - vm_compute. reflexivity.
  - vm_compute. reflexivity.
Defined.
