(* ===== verification/FaucetStyle.v ===== *)
(** * The look of the faucet's page

    src/deploy/faucet/app.js, the head of the page that GET / serves: its style sheet,
    rule by rule, and the cascade that decides which declaration an element gets.  What
    the script of FaucetPage sets, a class or [disabled], shows through these rules.

    The browser's own style sheet is the class [UserAgent]. *)

From Stdlib Require Import String Ascii.
From stdpp Require Import gmap.
From S2P Require Import Prelude JS IntUtil Emission Varint Base58 Faucet FaucetPage.

#[local] Open Scope Z_scope.

(** ** Style sheets *)

Inductive pseudo_class := Root | Hover | Focus | Disabled.

Inductive simple :=
  | Universal
  | Type_selector (name : string)
  | Id_selector (id : string)
  | Class_selector (name : string)
  | Pseudo_class (c : pseudo_class)
  | Pseudo_element (name : string).

Definition declaration : Type := string * string.

(** A rule: a compound selector and its declarations. *)
Record rule := {
  selector : list simple;
  declarations : list declaration;
}.

Inductive statement :=
  | Style (r : rule)
  | Keyframes (name : string) (frames : list (string * list declaration)).

(** ** The sheet of the page *)

Section sheet.
#[local] Open Scope string_scope.

Definition root_rule : rule := {|
  selector := [Pseudo_class Root];
  declarations := [
    ("--bg-base", "#050505");
    ("--bg-surface", "rgba(17, 17, 17, 0.85)");
    ("--bg-surface-hover", "rgba(26, 26, 26, 0.95)");
    ("--text-primary", "#f0f0f0");
    ("--text-secondary", "#a0a0a0");
    ("--accent", "#d4af37");
    ("--accent-glow", "rgba(212, 175, 55, 0.15)");
    ("--border-color", "#222");
    ("--success", "#4ade80");
    ("--error", "#f87171")];
|}.

Definition universal_rule : rule := {|
  selector := [Universal];
  declarations := [("box-sizing", "border-box"); ("margin", "0"); ("padding", "0")];
|}.

Definition body_rule : rule := {|
  selector := [Type_selector "body"];
  declarations := [
    ("background-color", "var(--bg-base)");
    ("color", "var(--text-primary)");
    ("font-family", "'Inter', sans-serif");
    ("min-height", "100vh");
    ("display", "flex");
    ("flex-direction", "column");
    ("align-items", "center");
    ("justify-content", "center");
    ("-webkit-font-smoothing", "antialiased")];
|}.

Definition canvas_rule : rule := {|
  selector := [Id_selector "networkCanvas"];
  declarations := [
    ("position", "fixed");
    ("top", "0");
    ("left", "0");
    ("width", "100vw");
    ("height", "100vh");
    ("z-index", "-2")];
|}.

Definition bg_fx_rule : rule := {|
  selector := [Class_selector "bg-fx"];
  declarations := [
    ("position", "fixed");
    ("top", "0");
    ("left", "0");
    ("width", "100vw");
    ("height", "100vh");
    ("z-index", "-1");
    ("background", "radial-gradient(circle at 50% 0%, var(--accent-glow) 0%, transparent 60%)");
    ("opacity", "0.8");
    ("pointer-events", "none")];
|}.

Definition container_rule : rule := {|
  selector := [Class_selector "container"];
  declarations := [
    ("width", "100%");
    ("max-width", "600px");
    ("padding", "40px");
    ("background", "var(--bg-surface)");
    ("backdrop-filter", "blur(10px)");
    ("-webkit-backdrop-filter", "blur(10px)");
    ("border", "1px solid var(--border-color)");
    ("border-radius", "16px");
    ("box-shadow", "0 20px 40px rgba(0,0,0,0.6)");
    ("text-align", "center");
    ("animation", "fadeIn 0.8s ease-out");
    ("position", "relative");
    ("z-index", "1")];
|}.

Definition logo_rule : rule := {|
  selector := [Class_selector "logo"];
  declarations := [
    ("font-family", "'JetBrains Mono', monospace");
    ("font-size", "2.5rem");
    ("font-weight", "700");
    ("letter-spacing", "4px");
    ("color", "var(--accent)");
    ("margin-bottom", "8px");
    ("text-decoration", "none");
    ("text-shadow", "0 0 15px var(--accent-glow)")];
|}.

Definition h1_rule : rule := {|
  selector := [Type_selector "h1"];
  declarations := [("font-size", "1.8rem"); ("font-weight", "600"); ("margin-bottom", "16px")];
|}.

Definition p_rule : rule := {|
  selector := [Type_selector "p"];
  declarations := [("color", "var(--text-secondary)"); ("margin-bottom", "32px"); ("font-size", "1.05rem")];
|}.

Definition input_group_rule : rule := {|
  selector := [Class_selector "input-group"];
  declarations := [("position", "relative"); ("margin-bottom", "24px")];
|}.

Definition input_rule : rule := {|
  selector := [Type_selector "input"];
  declarations := [
    ("width", "100%");
    ("padding", "16px 20px");
    ("background", "var(--bg-base)");
    ("border", "1px solid var(--border-color)");
    ("border-radius", "8px");
    ("color", "var(--text-primary)");
    ("font-family", "'JetBrains Mono', monospace");
    ("font-size", "1rem");
    ("transition", "all 0.2s ease")];
|}.

Definition input_focus_rule : rule := {|
  selector := [Type_selector "input"; Pseudo_class Focus];
  declarations := [
    ("outline", "none");
    ("border-color", "var(--accent)");
    ("box-shadow", "0 0 10px var(--accent-glow)")];
|}.

Definition placeholder_rule : rule := {|
  selector := [Type_selector "input"; Pseudo_element "placeholder"];
  declarations := [("color", "#444")];
|}.

Definition btn_rule : rule := {|
  selector := [Class_selector "btn"];
  declarations := [
    ("width", "100%");
    ("padding", "16px");
    ("background", "var(--accent)");
    ("color", "#000");
    ("border", "none");
    ("border-radius", "8px");
    ("font-weight", "700");
    ("font-size", "1.1rem");
    ("cursor", "pointer");
    ("transition", "all 0.2s ease");
    ("font-family", "'Inter', sans-serif")];
|}.

Definition btn_hover_rule : rule := {|
  selector := [Class_selector "btn"; Pseudo_class Hover];
  declarations := [("background", "#e6c55c"); ("box-shadow", "0 0 20px rgba(212, 175, 55, 0.5)")];
|}.

Definition btn_disabled_rule : rule := {|
  selector := [Class_selector "btn"; Pseudo_class Disabled];
  declarations := [
    ("background", "#555");
    ("color", "#888");
    ("cursor", "not-allowed");
    ("box-shadow", "none")];
|}.

Definition message_rule : rule := {|
  selector := [Class_selector "message"];
  declarations := [
    ("margin-top", "24px");
    ("padding", "16px");
    ("border-radius", "8px");
    ("display", "none");
    ("font-family", "'JetBrains Mono', monospace");
    ("font-size", "0.9rem");
    ("word-break", "break-all")];
|}.

Definition message_success_rule : rule := {|
  selector := [Class_selector "message"; Class_selector "success"];
  declarations := [
    ("display", "block");
    ("background", "rgba(74, 222, 128, 0.1)");
    ("color", "var(--success)");
    ("border", "1px solid rgba(74, 222, 128, 0.2)")];
|}.

Definition message_error_rule : rule := {|
  selector := [Class_selector "message"; Class_selector "error"];
  declarations := [
    ("display", "block");
    ("background", "rgba(248, 113, 113, 0.1)");
    ("color", "var(--error)");
    ("border", "1px solid rgba(248, 113, 113, 0.2)")];
|}.

Definition fadeIn : statement :=
  Keyframes "fadeIn" [
    ("from", [("opacity", "0"); ("transform", "translateY(-20px)")]);
    ("to", [("opacity", "1"); ("transform", "translateY(0)")])].

Definition back_link_rule : rule := {|
  selector := [Class_selector "back-link"];
  declarations := [
    ("display", "inline-block");
    ("margin-top", "30px");
    ("color", "var(--text-secondary)");
    ("text-decoration", "none");
    ("font-size", "0.9rem");
    ("transition", "color 0.2s")];
|}.

Definition back_link_hover_rule : rule := {|
  selector := [Class_selector "back-link"; Pseudo_class Hover];
  declarations := [("color", "var(--accent)")];
|}.

(** The statements in their order in the page. *)
Definition sheet : list statement :=
  map Style [root_rule; universal_rule; body_rule; canvas_rule; bg_fx_rule; container_rule; logo_rule; h1_rule;
             p_rule; input_group_rule; input_rule; input_focus_rule; placeholder_rule; btn_rule; btn_hover_rule;
             btn_disabled_rule; message_rule; message_success_rule; message_error_rule]
  ++ fadeIn :: map Style [back_link_rule; back_link_hover_rule].

(** The other elements of the head. *)
Definition head_elements : list element := [
  elem "meta" [("charset", "UTF-8")] [];
  elem "meta" [("name", "viewport"); ("content", "width=device-width, initial-scale=1.0")] [];
  elem "title" [] (lit "LODE Testnet Faucet");
  elem "link" [("rel", "preconnect"); ("href", "https://fonts.googleapis.com")] [];
  elem "link" [("rel", "preconnect"); ("href", "https://fonts.gstatic.com"); ("crossorigin", EmptyString)] [];
  elem "link" [("href", "https://fonts.googleapis.com/css2?family=Inter:wght@300;400;500;600;700&family=JetBrains+Mono:wght@400;700&display=swap");
               ("rel", "stylesheet")] []].
End sheet.

(** ** The document tree *)

(** The nodes: the root, the body, and the elements of the body by their position. *)
Inductive node :=
  | Html
  | Body
  | Inner (n : nat).

Definition html_element : element := elem "html" [("lang", "en")]%string [].
Definition body_element : element := elem "body" [] [].

(** The parent of an element of [body] when it is one of them. *)
Definition parent (n : nat) : option nat :=
  match n with
  | 7 => Some 6
  | 3 | 4 | 5 | 6 | 8 | 9 | 10 => Some 2
  | _ => None
  end%nat.

(** Where the pointer and the focus are. *)
Record pointer := {
  hovers : node -> bool;
  focuses : node -> bool;
}.

(** An element as a selector sees it. *)
Record subject := {
  el : element;
  hovered : bool;
  focused : bool;
}.

Definition see (u : pointer) (k : node) (e : element) : subject :=
  {| el := e; hovered := hovers u k; focused := focuses u k |}.

Definition inner (u : pointer) (dom : list element) (n : nat) : list subject :=
  match dom !! n with Some e => [see u (Inner n) e] | None => [] end.

(** The subjects from an element up to the root; the tree has depth two in the body. *)
Definition path (u : pointer) (dom : list element) (k : node) : list subject :=
  match k with
  | Html => []
  | Body => [see u Body body_element]
  | Inner n =>
      inner u dom n ++
      match parent n with
      | Some m => inner u dom m ++ match parent m with Some l => inner u dom l | None => [] end
      | None => []
      end ++ [see u Body body_element]
  end ++ [see u Html html_element].

(** ** Selectors *)

Definition css_space (c : Z) : bool := bool_decide (c ∈ [9; 10; 12; 13; 32]).

(** The words of a text. *)
Fixpoint words (word : jstring) (s : jstring) : list jstring :=
  match s with
  | [] => match word with [] => [] | _ => [word] end
  | c :: s =>
      if css_space c then match word with [] => words [] s | _ => word :: words [] s end
      else words (word ++ [c]) s
  end.

Definition classes (e : element) : list jstring :=
  match attribute (attributes e) (lit "class") with Some c => words [] c | None => [] end.

(** A pseudo-element is not the element it belongs to. *)
Definition matches_simple (x : subject) (s : simple) : bool :=
  match s with
  | Universal => true
  | Type_selector t => bool_decide (tag (el x) = lit t)
  | Id_selector i => bool_decide (attribute (attributes (el x)) (lit "id") = Some (lit i))
  | Class_selector c => bool_decide (lit c ∈ classes (el x))
  | Pseudo_class Root => bool_decide (tag (el x) = lit "html")
  | Pseudo_class Hover => hovered x
  | Pseudo_class Focus => focused x
  | Pseudo_class Disabled => disabled (el x)
  | Pseudo_element _ => false
  end.

Definition matches (x : subject) (sel : list simple) : bool := forallb (matches_simple x) sel.

(** Specificity: ids, then classes and pseudo-classes, then types and pseudo-elements. *)
Definition specificity (sel : list simple) : nat * nat * nat :=
  fold_right (fun s '(a, b, c) =>
    match s with
    | Universal => (a, b, c)
    | Id_selector _ => (S a, b, c)
    | Class_selector _ | Pseudo_class _ => (a, S b, c)
    | Type_selector _ | Pseudo_element _ => (a, b, S c)
    end) (0, 0, 0)%nat sel.

Definition spec_leb (x y : nat * nat * nat) : bool :=
  let '(a, b, c) := x in
  let '(a', b', c') := y in
  (a <? a')%nat || (a =? a')%nat && ((b <? b')%nat || (b =? b')%nat && (c <=? c')%nat).

(** ** The cascade *)

(** The properties that a shorthand sets with others. *)
Definition longhands (p : string) : list string :=
  (if p =? "margin" then ["margin-top"; "margin-right"; "margin-bottom"; "margin-left"]
   else if p =? "padding" then ["padding-top"; "padding-right"; "padding-bottom"; "padding-left"]
   else if p =? "border" then ["border-width"; "border-style"; "border-color"]
   else if p =? "background" then ["background-color"; "background-image"]
   else [])%string.

Definition sets (d : declaration) (p : string) : bool := (d.1 =? p)%string || bool_decide (p ∈ longhands d.1).

(** The declarations of the rules, in order. *)
Definition declared (s : list statement) : list (list simple * declaration) :=
  flat_map (fun st => match st with
    | Style r => map (pair (selector r)) (declarations r)
    | Keyframes _ _ => []
    end) s.

Definition candidates (x : subject) (p : string) : list (list simple * declaration) :=
  List.filter (fun '(sel, d) => sets d p && matches x sel) (declared sheet).

(** The most specific one wins, and of these the last. *)
Fixpoint winner (best : option (list simple * declaration)) (l : list (list simple * declaration))
  : option (list simple * declaration) :=
  match l with
  | [] => best
  | c :: l =>
      winner (match best with
              | Some b => if spec_leb (specificity b.1) (specificity c.1) then Some c else best
              | None => Some c
              end) l
  end.

Definition cascaded (x : subject) (p : string) : option declaration := snd <$> winner None (candidates x p).

(** ** Values *)

(** A custom property is the one of the nearest subject that has it. *)
Fixpoint custom (up : list subject) (name : string) : option string :=
  match up with
  | [] => None
  | x :: up => match cascaded x name with Some d => Some d.2 | None => custom up name end
  end.

(** A value with each [var(name)] replaced; [None] when a name has no value. *)
Fixpoint expand (env : string -> option string) (name : option string) (s : string) : option string :=
  match name, s with
  | None, EmptyString => Some EmptyString
  | Some _, EmptyString => None
  | None, String c s =>
      if String.prefix "var(" (String c s) then
        match s with
        | String _ (String _ (String _ s)) => expand env (Some EmptyString) s
        | _ => None
        end
      else t ← expand env None s; Some (String c t)
  | Some n, String c s =>
      if (c =? ")")%char then v ← env n; t ← expand env None s; Some (v ++ t)%string
      else expand env (Some (n ++ String c EmptyString)%string) s
  end.

(** The browser's own sheet: the value a property of an element gets when the page
    declares none.  It makes blocks of the elements that hold others. *)
Class UserAgent := {
  ua : element -> string -> option string;
  ua_block (e : element) : tag e ∈ [lit "html"; lit "body"; lit "div"] -> ua e "display" = Some "block"%string;
}.

(** The inherited properties of the sheet. *)
Definition inherits (p : string) : bool :=
  bool_decide (p ∈ ["color"; "font-family"; "font-size"; "font-weight"; "letter-spacing"; "text-align"; "text-shadow";
                    "word-break"; "cursor"; "pointer-events"; "-webkit-font-smoothing"]%string).

Section looks.
Context `{UserAgent}.

(** The value of a property for the first subject of a path; [None] is the initial
    value. *)
Fixpoint style (up : list subject) (p : string) : option string :=
  match up with
  | [] => None
  | x :: rest =>
      match cascaded x p with
      | Some d => expand (custom up) None d.2
      | None =>
          match ua (el x) p with
          | Some v => Some v
          | None => if inherits p then style rest p else None
          end
      end
  end.

(** An element is displayed when neither it nor one above it has [display: none]. *)
Fixpoint displayed (up : list subject) : bool :=
  match up with
  | [] => true
  | _ :: rest => bool_decide (style up "display" <> Some "none"%string) && displayed rest
  end.

(** The element of a page with an id. *)
Definition style_of (u : pointer) (p : page) (id p' : string) : option string :=
  n ← getElementById (dom p) id; style (path u (dom p) (Inner n)) p'.

Definition visible (u : pointer) (p : page) (id : string) : bool :=
  match getElementById (dom p) id with
  | Some n => displayed (path u (dom p) (Inner n))
  | None => false
  end.
End looks.

(** ** The cascade chooses as it should *)

Lemma spec_leb_refl (x : nat * nat * nat) : spec_leb x x = true.
Proof. destruct x as [[a b] c]. unfold spec_leb. rewrite !Nat.eqb_refl, Nat.leb_refl. by rewrite !orb_true_r. Qed.

Lemma spec_leb_trans (x y z : nat * nat * nat) : spec_leb x y = true -> spec_leb y z = true -> spec_leb x z = true.
Proof.
  destruct x as [[a b] c], y as [[a' b'] c'], z as [[a'' b''] c'']. unfold spec_leb.
  rewrite !orb_true_iff, !andb_true_iff, !orb_true_iff, !andb_true_iff, !Nat.ltb_lt, !Nat.eqb_eq, !Nat.leb_le. lia.
Qed.

Lemma spec_leb_total (x y : nat * nat * nat) : spec_leb x y = false -> spec_leb y x = true.
Proof.
  destruct x as [[a b] c], y as [[a' b'] c']. unfold spec_leb.
  rewrite !orb_false_iff, !andb_false_iff, !orb_false_iff, !andb_false_iff, !Nat.ltb_ge, !Nat.eqb_neq, !Nat.leb_gt.
  rewrite !orb_true_iff, !andb_true_iff, !orb_true_iff, !andb_true_iff, !Nat.ltb_lt, !Nat.eqb_eq, !Nat.leb_le. lia.
Qed.

(** [c] is in the list, nothing before it is more specific and everything after it is
    less specific. *)
Definition wins (c : list simple * declaration) (l : list (list simple * declaration)) : Prop :=
  exists l1 l2, l = l1 ++ c :: l2 /\
    Forall (fun b => spec_leb (specificity b.1) (specificity c.1) = true) l1 /\
    Forall (fun b => spec_leb (specificity c.1) (specificity b.1) = false) l2.

Lemma winner_wins (l dn : list (list simple * declaration)) (b : list simple * declaration) :
  wins b dn -> exists c, winner (Some b) l = Some c /\ wins c (dn ++ l).
Proof.
  revert dn b. induction l as [|c l IH]; intros dn b Hb; cbn.
  { exists b. by rewrite app_nil_r. }
  replace (dn ++ c :: l) with ((dn ++ [c]) ++ l) by (by rewrite <- app_assoc).
  destruct Hb as (l1 & l2 & -> & H1 & H2). destruct (spec_leb (specificity b.1) (specificity c.1)) eqn:E; apply IH.
  - exists (l1 ++ b :: l2), []. split_and!; [done| |done]. apply Forall_app. split; [|constructor; [done|]].
    + eapply Forall_impl; [exact H1|]. intros x Hx. exact (spec_leb_trans _ _ _ Hx E).
    + eapply Forall_impl; [exact H2|]. intros x Hx%spec_leb_total. exact (spec_leb_trans _ _ _ Hx E).
  - exists l1, (l2 ++ [c]). rewrite <- app_assoc. split_and!; [done..|]. apply Forall_app. split; [done|]. by constructor.
Qed.

(** What an element gets of the sheet: the declaration that wins among those that set
    the property in a rule that selects the element, if there is one. *)
Theorem cascaded_wins (x : subject) (p : string) :
  match cascaded x p with
  | Some d => exists sel, wins (sel, d) (candidates x p)
  | None => candidates x p = []
  end.
Proof.
  unfold cascaded. destruct (candidates x p) as [|c l]; [done|]. cbn.
  destruct (winner_wins l [c] c) as ([sel d] & -> & Hw); [|by exists sel]. by exists [], [].
Qed.

(** ** The names of the sheet are defined *)

Definition names_defined (env : string -> option string) (d : declaration) : Prop := is_Some (expand env None d.2).

Definition all_declarations : list declaration :=
  flat_map (fun st => match st with
    | Style r => declarations r
    | Keyframes _ frames => flat_map snd frames
    end) sheet.

(** The declarations of a property, whoever they are for. *)
Definition declarers (p : string) : list (list simple * declaration) :=
  List.filter (fun '(_, d) => sets d p) (declared sheet).

Lemma candidates_declarers (x : subject) (p : string) :
  candidates x p = List.filter (fun '(sel, _) => matches x sel) (declarers p).
Proof.
  unfold candidates, declarers. induction (declared sheet) as [|[sel d] l IH]; [done|]. cbn [List.filter].
  destruct (sets d p); cbn [andb List.filter]; [|done]. destruct (matches x sel); by rewrite IH.
Qed.

Lemma custom_declarers :
  Forall (fun d => declarers d.1 = [([Pseudo_class Root], d)]) (declarations root_rule).
Proof. repeat constructor. Qed.

(** The custom properties do not depend on where they are asked for. *)
Lemma cascaded_custom (x : subject) (d : declaration) :
  d ∈ declarations root_rule ->
  cascaded x d.1 = if bool_decide (tag (el x) = lit "html") then Some d else None.
Proof.
  intros Hin. unfold cascaded. rewrite candidates_declarers.
  rewrite (proj1 (Forall_forall _ _) custom_declarers d Hin). cbn [List.filter]. unfold matches.
  cbn [forallb matches_simple]. rewrite andb_true_r. by case_bool_decide.
Qed.

Lemma custom_root (u : pointer) (up : list subject) (d : declaration) :
  d ∈ declarations root_rule -> custom (up ++ [see u Html html_element]) d.1 = Some d.2.
Proof.
  intros Hd. induction up as [|x up IH]; cbn [custom app]; rewrite cascaded_custom by done;
    [by rewrite bool_decide_true|].
  by case_bool_decide.
Qed.

Lemma path_root (u : pointer) (dom : list element) (k : node) :
  exists up, path u dom k = up ++ [see u Html html_element].
Proof. by eexists. Qed.

Lemma expand_mono (env env' : string -> option string) (name : option string) (s t : string) :
  (forall n v, env n = Some v -> env' n = Some v) -> expand env name s = Some t -> expand env' name s = Some t.
Proof.
  intros He. remember (String.length s) as k eqn:Hk. revert s name t Hk.
  induction k as [k IH] using lt_wf_ind. intros [|c s] name t ->; [by destruct name|].
  destruct name as [n|]; cbn -[String.prefix].
  - destruct (c =? ")")%char.
    + destruct (env n) as [v|] eqn:E; [|done]. rewrite (He _ _ E). cbn.
      destruct (expand env None s) as [r|] eqn:Er; [|done]. by rewrite (IH _ (Nat.lt_succ_diag_r _) s None r eq_refl Er).
    + by apply (IH _ (Nat.lt_succ_diag_r _)).
  - destruct (String.prefix _ _).
    + destruct s as [|? [|? [|? s]]]; [done..|]. apply (IH (String.length s)); cbn; [lia|done].
    + destruct (expand env None s) as [r|] eqn:Er; [|done]. by rewrite (IH _ (Nat.lt_succ_diag_r _) s None r eq_refl Er).
Qed.

Fixpoint assoc (l : list declaration) (name : string) : option string :=
  match l with
  | [] => None
  | (k, v) :: l => if (k =? name)%string then Some v else assoc l name
  end.

Lemma assoc_in (l : list declaration) (name v : string) : assoc l name = Some v -> (name, v) ∈ l.
Proof.
  induction l as [|[k w] l IH]; cbn; [done|]. destruct (String.eqb_spec k name) as [->|_].
  - intros [= ->]. left.
  - intros E. right. by apply IH.
Qed.

(** A text without [var(...)]. *)
Definition plain (s : string) : bool := bool_decide (expand (fun _ => None) None s = Some s).

(** Every name in a value of the sheet has a value, which is the same everywhere in
    the document, and nothing is left to replace after it. *)
Theorem sheet_resolves (u : pointer) (dom : list element) (k : node) (d : declaration) :
  d ∈ all_declarations ->
  exists t, expand (custom (path u dom k)) None d.2 = Some t /\
    expand (assoc (declarations root_rule)) None d.2 = Some t /\ plain t = true.
Proof.
  intros Hd. assert (forallb (fun d => match expand (assoc (declarations root_rule)) None d.2 with
    | Some t => plain t | None => false end) all_declarations = true) as Hall by (vm_compute; reflexivity).
  rewrite forallb_forall in Hall. specialize (Hall d (proj1 (list_elem_of_In _ _) Hd)).
  destruct (expand (assoc _) None d.2) as [t|] eqn:E; [|done]. exists t. split; [|done].
  revert E. apply expand_mono. intros n v Hn%assoc_in. destruct (path_root u dom k) as [up ->].
  by apply (custom_root u up (n, v)).
Qed.

(** ** What the user sees *)

Section appearance.
Context `{UserAgent} (u : pointer).

(** The button that cannot be clicked, whether or not the pointer is on it. *)
Definition looks_disabled (p : page) : Prop :=
  style_of u p "submitBtn" "background-color" = Some "#555"%string /\
  style_of u p "submitBtn" "color" = Some "#888"%string /\
  style_of u p "submitBtn" "cursor" = Some "not-allowed"%string /\
  style_of u p "submitBtn" "box-shadow" = Some "none"%string.

Definition looks_enabled (p : page) : Prop :=
  style_of u p "submitBtn" "background-color"
    = Some (if hovers u (Inner 8) then "#e6c55c" else "#d4af37")%string /\
  style_of u p "submitBtn" "color" = Some "#000"%string /\
  style_of u p "submitBtn" "cursor" = Some "pointer"%string.

Lemma path_button (v label c t : jstring) (d : bool) :
  path u (render v d label c t) (Inner 8) =
  [{| el := {| tag := lit "button";
               attributes := attrs [("id", "submitBtn"); ("class", "btn"); ("onclick", "requestLODE()")]%string;
               innerText := label; input_value := []; disabled := d |};
      hovered := hovers u (Inner 8); focused := focuses u (Inner 8) |};
   see u (Inner 2) (elem "div" [("class", "container")]%string []); see u Body body_element; see u Html html_element].
Proof. reflexivity. Qed.

Lemma button_looks (v label c t : jstring) (d : bool) (fl : gmap nat flight) (n : nat) :
  let p := {| dom := render v d label c t; flights := fl; next := n |} in
  if d then looks_disabled p else looks_enabled p.
Proof.
  unfold looks_disabled, looks_enabled, style_of. cbn [dom]. rewrite render_button. cbn [mbind option_bind].
  rewrite path_button. generalize (hovers u (Inner 8)) as h.
  destruct d, h; split_and!; vm_compute; reflexivity.
Qed.
Lemma path_result (v label c t : jstring) (d : bool) :
  path u (render v d label c t) (Inner 9) =
  [see u (Inner 9) {| tag := lit "div"; attributes := [(lit "id", lit "result"); (lit "class", c)];
                      innerText := t; input_value := []; disabled := false |};
   see u (Inner 2) (elem "div" [("class", "container")]%string []); see u Body body_element; see u Html html_element].
Proof. reflexivity. Qed.

(** The parts of the page around the result are displayed. *)
Lemma around_displayed :
  displayed [see u (Inner 2) (elem "div" [("class", "container")]%string []); see u Body body_element;
             see u Html html_element] = true.
Proof.
  cbn [displayed]. rewrite !andb_true_iff. split_and!; [..|done]; apply bool_decide_eq_true.
  - assert (forall x, el x = elem "div" [("class", "container")]%string [] -> cascaded x "display" = None) as Hx.
    { intros [e h f] E. cbn in E. subst e. vm_compute. reflexivity. }
    cbn [style]. rewrite Hx by done. rewrite ua_block by (apply (bool_decide_unpack _); vm_compute; exact I). done.
  - vm_compute. discriminate.
  - assert (forall x, el x = html_element -> cascaded x "display" = None) as Hx.
    { intros [e h f] E. cbn in E. subst e. vm_compute. reflexivity. }
    cbn [style]. rewrite Hx by done. rewrite ua_block by (apply (bool_decide_unpack _); vm_compute; exact I). done.
Qed.

(** The result by its class. *)
Lemma result_hidden (v label t : jstring) (d : bool) (fl : gmap nat flight) (n : nat) :
  visible u {| dom := render v d label (lit "message") t; flights := fl; next := n |} "result" = false.
Proof. unfold visible. cbn [dom]. rewrite render_result, path_result. apply andb_false_iff. left. vm_compute. reflexivity. Qed.

Lemma result_looks (v label t : jstring) (d success : bool) (fl : gmap nat flight) (n : nat) :
  let p := {| dom := render v d label (lit (if success then "message success" else "message error")) t;
              flights := fl; next := n |} in
  visible u p "result" = true /\
  style_of u p "result" "color" = Some (if success then "#4ade80" else "#f87171")%string.
Proof.
  intros p. unfold p, visible, style_of. cbn [dom]. rewrite render_result. cbn [mbind option_bind].
  rewrite path_result. split; [|destruct success; vm_compute; reflexivity].
  apply andb_true_iff. split; [|apply around_displayed]. apply bool_decide_eq_true. destruct success; vm_compute; discriminate.
Qed.
End appearance.

(** C12. What the user sees is the state of the form, in every state that user and
    network can bring the page to, for every browser and wherever the pointer is.
    Either exactly one request is in flight, and the button is disabled, says
    Processing..., looks disabled even under the pointer, and no result is displayed;
    or nothing is in flight, and the button is enabled, says Get LODE and looks
    enabled, and the result is hidden and empty or is displayed with the colour of its
    outcome.  So no text of a result is ever hidden; and no event makes the code of
    the page fail. *)
Theorem page_appearance `{UserAgent} (u : pointer) (p : page) :
  reachable p ->
  (forall e, is_Some (page_step p e).2) /\
  exists b r, the p "submitBtn" = Some b /\ the p "result" = Some r /\
    ((exists id f, flights p = {[id := f]}) /\ disabled b = true /\ innerText b = lit "Processing..." /\
       looks_disabled u p /\ innerText r = [] /\ visible u p "result" = false \/
     flights p = ∅ /\ disabled b = false /\ innerText b = lit "Get LODE" /\ looks_enabled u p /\
       (innerText r = [] /\ visible u p "result" = false \/
        exists success : bool,
          classes r = [lit "message"; lit (if success then "success" else "error")] /\
          visible u p "result" = true /\
          style_of u p "result" "color" = Some (if success then "#4ade80" else "#f87171")%string)).
Proof.
  intros Hp%reachable_ok. split; [intros e; by apply page_step_ok|].
  destruct Hp as [v c t n Hc|v n id f Hf]; do 2 eexists; (split; [reflexivity|split; [reflexivity|]]).
  - right. do 3 (split; [reflexivity|]). split; [apply (button_looks u v _ c t false)|].
    destruct Hc as [|success text]; [left|right].
    + split; [reflexivity|]. apply result_hidden.
    + exists success. split; [by destruct success|]. apply result_looks.
  - left. split; [by exists id, f|]. do 2 (split; [reflexivity|]). split; [apply (button_looks u v _ _ [] true)|].
    split; [reflexivity|]. apply result_hidden.
Qed.

(** The names that the sheet uses besides: the animation and the fonts. *)
Fixpoint quoted (inside : option string) (s : string) : list string :=
  match s with
  | EmptyString => []
  | String c s =>
      match inside with
      | None => quoted (if (c =? "'")%char then Some EmptyString else None) s
      | Some w => if (c =? "'")%char then w :: quoted None s else quoted (Some (w ++ String c EmptyString)%string) s
      end
  end.

Fixpoint split_at (sep : ascii) (word s : string) : list string :=
  match s with
  | EmptyString => [word]
  | String c s =>
      if (c =? sep)%char then word :: split_at sep EmptyString s
      else split_at sep (word ++ String c EmptyString)%string s
  end.

(** The texts [key=value] of the query of an address, and a family as it is written there. *)
Definition query (href : string) : list string :=
  match split_at "?" EmptyString href with [_; q] => split_at "&" EmptyString q | _ => [] end.

Fixpoint plus (s : string) : string :=
  match s with
  | EmptyString => EmptyString
  | String c s => String (if (c =? " ")%char then "+" else c)%char (plus s)
  end.

Definition requests_family (href family : string) : bool :=
  existsb (String.prefix ("family=" ++ plus family ++ ":")%string) (query href).

Definition font_links : list jstring :=
  omap (fun e => if decide (attribute (attributes e) (lit "rel") = Some (lit "stylesheet"))
                 then attribute (attributes e) (lit "href") else None) head_elements.

(** Every font that the sheet names is asked for by the link of the head, and every
    animation that it names has its keyframes. *)
Theorem sheet_closed (d : declaration) :
  d ∈ all_declarations ->
  (d.1 = "font-family"%string -> exists href, lit href ∈ font_links /\
     forallb (requests_family href) (quoted None d.2) = true /\ quoted None d.2 <> []) /\
  (d.1 = "animation"%string -> exists name frames rest,
     split_at " " EmptyString d.2 = name :: rest /\ Keyframes name frames ∈ sheet).
Proof.
  set (href := "https://fonts.googleapis.com/css2?family=Inter:wght@300;400;500;600;700&family=JetBrains+Mono:wght@400;700&display=swap"%string).
  intros Hd. split; intros E.
  - exists href. split; [apply (bool_decide_unpack _); vm_compute; exact I|].
    assert (forallb (fun d => negb (d.1 =? "font-family")%string ||
      forallb (requests_family href) (quoted None d.2) && negb (bool_decide (quoted None d.2 = []))) all_declarations = true)
      as Hall by (vm_compute; reflexivity).
    rewrite forallb_forall in Hall. specialize (Hall d (proj1 (list_elem_of_In _ _) Hd)). rewrite E in Hall.
    apply andb_true_iff in Hall as [Hr Hq]. split; [exact Hr|]. by apply negb_true_iff, bool_decide_eq_false in Hq.
  - assert (forallb (fun d => negb (d.1 =? "animation")%string || (d.2 =? "fadeIn 0.8s ease-out")%string)
      all_declarations = true) as Hall by (vm_compute; reflexivity).
    rewrite forallb_forall in Hall. specialize (Hall d (proj1 (list_elem_of_In _ _) Hd)). rewrite E in Hall.
    apply String.eqb_eq in Hall. rewrite Hall. do 3 eexists. split; [vm_compute; reflexivity|].
    apply elem_of_app. right. left.
Qed.

(** ** Examples *)

(** The part of the suggested sheet of HTML that the law is about. *)
#[global] Instance html_agent : UserAgent.
Proof.
  refine {| ua e p := if bool_decide (tag e ∈ [lit "html"; lit "body"; lit "div"; lit "h1"; lit "p"]) &&
                         (p =? "display")%string then Some "block"%string else None |}.
  intros e He. rewrite bool_decide_true; [done|]. set_solver.
Defined.

Definition on_button : pointer := {| hovers k := match k with Inner 8 => true | _ => false end; focuses _ := false |}.

Lemma page_appearance_witness :
  (forall e, is_Some (page_step sent_page e).2) /\
  exists b r, the sent_page "submitBtn" = Some b /\ the sent_page "result" = Some r /\
    ((exists id f, flights sent_page = {[id := f]}) /\ disabled b = true /\ innerText b = lit "Processing..." /\
       looks_disabled on_button sent_page /\ innerText r = [] /\ visible on_button sent_page "result" = false \/
     flights sent_page = ∅ /\ disabled b = false /\ innerText b = lit "Get LODE" /\ looks_enabled on_button sent_page /\
       (innerText r = [] /\ visible on_button sent_page "result" = false \/
        exists success : bool,
          classes r = [lit "message"; lit (if success then "success" else "error")] /\
          visible on_button sent_page "result" = true /\
          style_of on_button sent_page "result" "color" = Some (if success then "#4ade80" else "#f87171")%string)).
Proof. apply (page_appearance on_button sent_page), sent_reachable. Defined.
