(* ===== verification/FaucetProxy.v ===== *)
(** * The way to the faucet

    How a request from outside gets to the server of Faucet and which address the
    limiter counts it for: src/deploy/firewall.sh lets the ports of nginx through,
    src/deploy/nginx/faucet.conf sends the request on with the peer's address added to
    the header X-Forwarded-For, and src/deploy/faucet/app.js has Express trust one
    proxy.

    nginx and Express are the class [Forwarding], which says what their documentation
    promises of the header. *)

From Stdlib Require Import String.
From stdpp Require Import gmap.
From S2P Require Import Prelude JS IntUtil Emission Varint Base58 Faucet.

#[local] Open Scope Z_scope.

(** ** The parts *)

(** A request as it comes over a connection: the address of the peer, the port, the
    header X-Forwarded-For if there is one, and what a route gets. *)
Record wire := {
  w_peer : ip;
  w_port : Z;
  w_forwarded : option jstring;
  w_target : target;
  w_body : parsed;
}.

(** The text of an address has no comma and no space. *)
Definition plain_ip (a : ip) : Prop := a <> [] /\ Forall (fun c => c <> 44 /\ c <> 32) a.

(** [$proxy_add_x_forwarded_for] of nginx, the addresses that Express reads in the
    header, and [req.ip] for a number of trusted proxies: the peer, then the header
    from its end, is the list in which the last trusted hop is taken. *)
Class Forwarding := {
  proxy_add_x_forwarded_for : option jstring -> ip -> jstring;
  addresses : option jstring -> list ip;
  req_ip : nat -> ip -> list ip -> ip;
  add_addresses (h : option jstring) (a : ip) :
    plain_ip a -> addresses (Some (proxy_add_x_forwarded_for h a)) = addresses h ++ [a];
  req_ip_hop (n : nat) (peer : ip) (l : list ip) :
    Some (req_ip n peer l) = (peer :: rev l) !! Nat.min n (length l);
}.

Definition loopback : ip := lit "127.0.0.1".

(** [app.set('trust proxy', 1)] and [app.listen(PORT)]. *)
Definition trust_proxy : nat := 1.
Definition PORT : Z := 3000.

(** The ports that are not denied: ssh, http, https and the node's. *)
Definition firewall (port : Z) : bool := bool_decide (port ∈ [22; 80; 443; 38080]).

Section way.
Context `{Forwarding}.

(** [location /] of the site, which listens on port 80. *)
Definition nginx_faucet (w : wire) : wire := {|
  w_peer := loopback;
  w_port := 3000;
  w_forwarded := Some (proxy_add_x_forwarded_for (w_forwarded w) (w_peer w));
  w_target := w_target w;
  w_body := w_body w;
|}.

(** What Express makes of a request. *)
Definition express_request (w : wire) : request := {|
  r_target := w_target w;
  r_ip := req_ip trust_proxy (w_peer w) (addresses (w_forwarded w));
  r_body := w_body w;
|}.

Definition listens (w : wire) : option request :=
  if w_port w =? PORT then Some (express_request w) else None.

(** A request from outside, past the firewall. *)
Definition deliver (w : wire) : option request :=
  if firewall (w_port w) then
    if w_port w =? 80 then listens (nginx_faucet w) else listens w
  else None.

(** ** The faucet in its place *)

Inductive net_event :=
  | Client (w : wire)
  | Inside (e : event).  (** not an arrival *)

Definition net_events (e : net_event) : list event :=
  match e with
  | Client w => match deliver w with Some r => [Arrive r] | None => [] end
  | Inside (Arrive _) => []
  | Inside e => [e]
  end.

Context {S : Type} `{RateLimit S}.

(** The log of a run: each event with what it made the server do. *)
Fixpoint net_run (s : server (S := S)) (es : list net_event) : server (S := S) * list (net_event * list output) :=
  match es with
  | [] => (s, [])
  | e :: es =>
      let '(s1, log) := run s (net_events e) in
      let '(s2, rest) := net_run s1 es in
      (s2, (e, flat_map snd log) :: rest)
  end.

(** The transfers for requests over the connections of a peer. *)
Definition peer_transfers (a : ip) (log : list (net_event * list output)) : nat :=
  length (List.filter (fun entry => match entry.1 with
    | Client w => bool_decide (w_peer w = a) && existsb is_call entry.2
    | Inside _ => false
    end) log).
End way.

(** ** Correctness *)

Section theorems.
Context `{Forwarding}.

(** Express takes the address that the trusted proxy has added. *)
Lemma one_hop (peer a : ip) (h : option jstring) :
  plain_ip a -> req_ip trust_proxy peer (addresses (Some (proxy_add_x_forwarded_for h a))) = a.
Proof.
  intros Ha. rewrite add_addresses by done. pose proof (req_ip_hop trust_proxy peer (addresses h ++ [a])) as Hr.
  rewrite rev_app_distr, length_app in Hr. cbn [length] in Hr.
  replace (Nat.min trust_proxy _) with 1%nat in Hr by (unfold trust_proxy; lia). by injection Hr.
Qed.

(** What reaches the server came through nginx, and is counted for the peer that nginx
    saw, whatever the header said. *)
Lemma deliver_ip (w : wire) (r : request) :
  plain_ip (w_peer w) -> deliver w = Some r ->
  r = {| r_target := w_target w; r_ip := w_peer w; r_body := w_body w |} /\ w_port w = 80.
Proof.
  intros Hw. unfold deliver. destruct (firewall (w_port w)) eqn:Hf; [|done]. zcase.
  - unfold listens, express_request. cbn [nginx_faucet w_peer w_port w_forwarded w_target w_body].
    change (3000 =? PORT) with true. intros [= <-]. split; [|lia]. f_equal.
    by apply one_hop.
  - unfold listens. zcase; [|done]. assert (w_port w = PORT) as E by lia. rewrite E in Hf. done.
Qed.

Context {S : Type} `{RateLimitLaws S}.

(** The run of the faucet in its place is a run of the server, and each peer is the
    client of its own requests. *)
Lemma net_run_run (s : server (S := S)) (es : list net_event) (a : ip) :
  Forall (fun e => match e with Client w => plain_ip (w_peer w) | Inside _ => True end) es ->
  (net_run s es).1 = (run s (flat_map net_events es)).1 /\
  peer_transfers a (net_run s es).2 = transfers a (run s (flat_map net_events es)).2.
Proof.
  intros Hes. revert s. induction Hes as [|e es He _ IH]; intros s; [done|].
  cbn [net_run flat_map]. rewrite run_app. specialize (IH (run s (net_events e)).1) as [IH1 IH2].
  destruct (run s (net_events e)) as [s1 log] eqn:E. cbn [fst snd] in *.
  destruct (net_run s1 es) as [s2 rest]. cbn [fst snd] in *. split; [done|].
  unfold transfers in *. rewrite List.filter_app, length_app, <- IH2. unfold peer_transfers. cbn [List.filter fst snd].
  destruct e as [w|e].
  - cbn [net_events] in E. destruct (deliver w) as [r|] eqn:Ed.
    + apply deliver_ip in Ed as [-> _]; [|done]. cbn in E. destruct (arrive s _) as [s' outs].
      injection E as <- <-. cbn. rewrite app_nil_r. by destruct (bool_decide _ && _).
    + cbn in E. injection E as <- <-. cbn. by rewrite andb_false_r.
  - destruct e; cbn [net_events] in E; try (rewrite run_cons in E; cbn in E; injection E as <- <-; done).
    cbn in E. by injection E as <- <-.
Qed.

Definition plain_clients (es : list net_event) : Prop :=
  Forall (fun e => match e with Client w => plain_ip (w_peer w) | Inside _ => True end) es.

Lemma expire_outside (es : list net_event) (a : ip) :
  Inside (Expire a) ∉ es -> Expire a ∉ flat_map net_events es.
Proof.
  intros Hn Hin. apply list_elem_of_In, in_flat_map in Hin as (e & He & Hin).
  apply list_elem_of_In in He. destruct e as [w|[]]; cbn in Hin; try destruct (deliver w); cbn in Hin;
    repeat destruct Hin as [Hin|Hin]; try done. by injection Hin as ->.
Qed.

(** C8. In any stretch of events without the end of its window, whatever happened
    before, a host outside gets at most one transfer through its connections to the
    machine, whatever ports it tries, whatever X-Forwarded-For it sends and whatever
    other hosts send: a header cannot buy a second transfer. *)
Theorem once_per_peer (before es : list net_event) (a : ip) :
  plain_clients es -> Inside (Expire a) ∉ es ->
  (peer_transfers a (net_run (S := S) (net_run boot before).1 es).2 <= 1)%nat.
Proof.
  intros Hes Hn. destruct (net_run_run (net_run boot before).1 es a Hes) as [_ ->].
  pose proof (transfers_bound (net_run boot before).1 _ a (expire_outside es a Hn)) as Hle.
  destruct (decide _) in Hle; lia.
Qed.

(** A proxy in front of nginx, such as a content network: it adds the client to the
    header and connects from its own address. *)
Definition front_proxy (edge : ip) (w : wire) : wire := {|
  w_peer := edge;
  w_port := 80;
  w_forwarded := Some (proxy_add_x_forwarded_for (w_forwarded w) (w_peer w));
  w_target := w_target w;
  w_body := w_body w;
|}.

(** With such a proxy its clients share one allowance: once the request of one of them
    has been counted, the requests of all others through the same edge are refused. *)
Theorem front_proxy_shared (s : server (S := S)) (es : list event) (edge : ip) (w1 w2 : wire) (b1 b2 : value) (r1 r2 : request) :
  plain_ip edge -> Expire edge ∉ es ->
  w_target w1 = Post_faucet -> w_body w1 = Parsed b1 -> deliver (front_proxy edge w1) = Some r1 ->
  w_target w2 = Post_faucet -> w_body w2 = Parsed b2 -> deliver (front_proxy edge w2) = Some r2 ->
  let s' := (run (step s (Arrive r1)).1 es).1 in
  (step s' (Arrive r2)).2 = [Send (fresh s') (Reply 429 (Json (message limiter)))].
Proof.
  intros He Hn Ht1 Hb1 [-> _]%deliver_ip Ht2 Hb2 [-> _]%deliver_ip; [|done..].
  cbn [front_proxy w_target w_body w_peer]. rewrite Ht1, Hb1, Ht2, Hb2.
  apply second_request_refused; [|done]. cbn. by apply bool_decide_eq_true.
Qed.
End theorems.

(** Without nginx in between a host names any address it likes: the firewall's denial
    of the port is needed. *)
Theorem direct_forged `{Forwarding} (w : wire) (a : ip) :
  plain_ip a -> w_port w = PORT ->
  listens {| w_peer := w_peer w; w_port := w_port w; w_forwarded := Some (proxy_add_x_forwarded_for (w_forwarded w) a);
             w_target := w_target w; w_body := w_body w |}
  = Some {| r_target := w_target w; r_ip := a; r_body := w_body w |} /\
  deliver w = None.
Proof.
  intros Ha Hp. split; [|unfold deliver; by rewrite Hp].
  unfold listens, express_request. cbn [w_peer w_port w_forwarded w_target w_body]. rewrite Hp, Z.eqb_refl. do 2 f_equal.
  by apply one_hop.
Qed.

(** ** A pair with the documented behaviour *)

(** The addresses of a header: the texts between commas without their spaces. *)
Fixpoint header_addresses (word : jstring) (s : jstring) : list ip :=
  match s with
  | [] => [word]
  | c :: s =>
      if c =? 44 then word :: header_addresses [] s
      else header_addresses (if c =? 32 then word else word ++ [c]) s
  end.

Lemma header_plain (word a : jstring) :
  Forall (fun c => c <> 44 /\ c <> 32) a -> header_addresses word a = [word ++ a].
Proof.
  intros Ha. revert word. induction Ha as [|c a [H1 H2] _ IH]; intros word; cbn; [by rewrite app_nil_r|].
  rewrite (proj2 (Z.eqb_neq c 44)), (proj2 (Z.eqb_neq c 32)), IH by done. by rewrite <- app_assoc.
Qed.

Lemma header_app (word h a : jstring) :
  Forall (fun c => c <> 44 /\ c <> 32) a ->
  header_addresses word (h ++ [44; 32] ++ a) = header_addresses word h ++ [a].
Proof.
  intros Ha. revert word. induction h as [|c h IH]; intros word; cbn; [by rewrite header_plain|].
  destruct (c =? 44); cbn; [f_equal|]; apply IH.
Qed.

#[global] Instance documented : Forwarding.
Proof.
  refine {| proxy_add_x_forwarded_for h a := match h with Some h => h ++ [44; 32] ++ a | None => a end;
            addresses h := match h with Some h => header_addresses [] h | None => [] end;
            req_ip n peer l := default peer ((peer :: rev l) !! Nat.min n (length l)) |}.
  - intros [h|] a [_ Ha]; [by apply header_app|by apply header_plain].
  - intros n peer l. destruct (lookup_lt_is_Some_2 (peer :: rev l) (Nat.min n (length l))) as [x ->]; [|done].
    cbn. rewrite length_rev. lia.
Defined.

(** ** Examples *)

Definition forged (header : string) : wire :=
  {| w_peer := example_ip; w_port := 80; w_forwarded := Some (lit header); w_target := Post_faucet;
     w_body := Parsed (Obj [(lit "address", Str example_address)]) |}.

Lemma forged_plain (header : string) : plain_ip (w_peer (forged header)).
Proof.
  split; [discriminate|]. apply (bool_decide_unpack (Forall (fun c => c <> 44 /\ c <> 32) example_ip)).
  vm_compute. exact I.
Qed.

Lemma once_per_peer_witness :
  (peer_transfers example_ip (net_run (S := gmap ip Z) (net_run boot []).1
     [Client (forged "1.2.3.4"); Client (forged "1.2.3.5")]).2 <= 1)%nat /\
  peer_transfers example_ip (net_run (S := gmap ip Z) boot
     [Client (forged "1.2.3.4"); Client (forged "1.2.3.5")]).2 = 1%nat.
Proof.
  split; [|vm_compute; reflexivity].
  apply (once_per_peer (S := gmap ip Z) [] [Client (forged "1.2.3.4"); Client (forged "1.2.3.5")] example_ip).
  - repeat (constructor; [apply forged_plain|]). constructor.
  - intros Hin. repeat (apply elem_of_cons in Hin as [Hin|Hin]; [discriminate Hin|]). by apply elem_of_nil in Hin.
Defined.
