(* ===== verification/Doubles.v ===== *)
(** * Doubles

    The IEEE doubles of JavaScript, as the executable floats of the Standard Library, and
    facts about exact results and about rounding a quotient. *)

From Stdlib Require Import SpecFloat.
From S2P Require Import Prelude.

#[local] Open Scope Z_scope.

Definition double := spec_float.

Definition fadd : double -> double -> double := SFadd 53 1024.
Definition fsub : double -> double -> double := SFsub 53 1024.
Definition fmul : double -> double -> double := SFmul 53 1024.
Definition fdiv : double -> double -> double := SFdiv 53 1024.
Definition fsqrt : double -> double := SFsqrt 53 1024.
Definition fopp : double -> double := SFopp.
Definition flt : double -> double -> bool := SFltb.

Definition of_int (n : Z) : double := binary_normalize 53 1024 n 0 false.

Lemma fopp_involutive (v : double) : fopp (fopp v) = v.
Proof. by destruct v as [[]|[]| |[] m e]. Qed.

(** ** Digits and shifts *)

Lemma digits_log2 (p : positive) : Z.pos (digits2_pos p) = Z.log2 (Z.pos p) + 1.
Proof.
  induction p as [p IH|p IH|]; [| |done]; cbn [digits2_pos]; rewrite Pos2Z.inj_succ, IH.
  - rewrite Pos2Z.inj_xI, Z.log2_succ_double by lia. lia.
  - rewrite Pos2Z.inj_xO, Z.log2_double by lia. lia.
Qed.

Lemma Zdigits_log2 (m : Z) : 0 < m -> Zdigits2 m = Z.log2 m + 1.
Proof. intros Hm. destruct m; try lia. apply digits_log2. Qed.

Lemma log2_mul_pow2 (m k : Z) : 0 < m -> 0 <= k -> Z.log2 (m * 2 ^ k) = k + Z.log2 m.
Proof. intros Hm Hk. rewrite <- Z.shiftl_mul_pow2 by done. rewrite Z.log2_shiftl by lia. lia. Qed.

Lemma iter_xO (p d : positive) : Z.pos (Pos.iter xO p d) = Z.pos p * 2 ^ Z.pos d.
Proof.
  induction d as [|d IH] using Pos.peano_ind; [cbn; lia|].
  rewrite Pos.iter_succ, Pos2Z.inj_xO, IH, Pos2Z.inj_succ, Z.pow_succ_r by lia. lia.
Qed.

Lemma shr_1_spec (m : Z) (r s : bool) :
  0 <= m -> shr_1 {| shr_m := m; shr_r := r; shr_s := s |} = {| shr_m := m / 2; shr_r := Z.odd m; shr_s := r || s |}.
Proof.
  intros Hm. destruct m as [|[p|p|]|]; try done.
  - cbn. f_equal. rewrite Pos2Z.inj_xI. apply (Z.div_unique _ _ _ 1); lia.
  - cbn. f_equal. rewrite Pos2Z.inj_xO. apply (Z.div_unique _ _ _ 0); lia.
Qed.

Lemma iter_pos_nat {A} (f : A -> A) (p : positive) (a : A) : SpecFloat.iter_pos f p a = Nat.iter (Pos.to_nat p) f a.
Proof.
  revert a. induction p as [p IH|p IH|]; intros a; cbn [SpecFloat.iter_pos]; [| |done].
  - rewrite !IH, <- Nat.iter_add, Pos2Nat.inj_xI. rewrite <- Nat.iter_succ_r. f_equal. lia.
  - rewrite !IH, <- Nat.iter_add, Pos2Nat.inj_xO. f_equal. lia.
Qed.

Lemma shr_exact (m e k : Z) :
  0 <= m -> 0 <= k ->
  shr {| shr_m := m * 2 ^ k; shr_r := false; shr_s := false |} e k
  = ({| shr_m := m; shr_r := false; shr_s := false |}, e + k).
Proof.
  intros Hm Hk. destruct k as [|p|p]; [|clear Hk|lia]; cbn [shr].
  { by rewrite Z.pow_0_r, Z.mul_1_r, Z.add_0_r. }
  f_equal. rewrite iter_pos_nat, <- (positive_nat_Z p). generalize (Pos.to_nat p) as n. clear p. intros n.
  revert m Hm. induction n as [|n IH]; intros m Hm; [by rewrite Z.mul_1_r|].
  rewrite Nat.iter_succ, Nat2Z.inj_succ, Z.pow_succ_r, Z.mul_assoc, IH by lia.
  rewrite shr_1_spec by lia. by rewrite Z.div_mul, Z.odd_mul, andb_false_r by lia.
Qed.

(** ** Exact results *)

(** A mantissa of 53 bits with zeros after it is not rounded. *)
Lemma round_exact (m e k : Z) :
  2 ^ 52 <= m < 2 ^ 53 -> -1074 <= e <= 971 -> 0 <= k ->
  binary_round_aux 53 1024 false (m * 2 ^ k) (e - k) loc_Exact = S754_finite false (Z.to_pos m) e.
Proof.
  intros Hm He Hk. assert (Z.log2 m = 52) as Hlog by (apply Z.log2_unique; lia).
  unfold binary_round_aux, shr_fexp. cbn [shr_record_of_loc].
  assert (fexp 53 1024 (Zdigits2 (m * 2 ^ k) + (e - k)) - (e - k) = k) as ->.
  { assert (0 < m * 2 ^ k) by (apply Z.mul_pos_pos; [lia|apply Z.pow_pos_nonneg; lia]).
    rewrite Zdigits_log2, log2_mul_pow2, Hlog by lia. unfold fexp, emin. lia. }
  rewrite shr_exact by lia. cbn [shr_m loc_of_shr_record round_nearest_even].
  assert (fexp 53 1024 (Zdigits2 m + (e - k + k)) - (e - k + k) = 0) as ->.
  { rewrite Zdigits_log2, Hlog by lia. unfold fexp, emin. lia. }
  cbn [shr shr_m]. destruct m as [|m|m]; try lia. replace (e - k + k) with e by lia.
  by rewrite (proj2 (Z.leb_le _ _)) by lia.
Qed.

(** The double of a number, from its binary logarithm. *)
Definition exact (n : Z) : double := S754_finite false (Z.to_pos (n * 2 ^ (52 - Z.log2 n))) (Z.log2 n - 52).

Lemma exact_mantissa (n : Z) : 0 < n < 2 ^ 53 -> 0 <= Z.log2 n <= 52 /\ 2 ^ 52 <= n * 2 ^ (52 - Z.log2 n) < 2 ^ 53.
Proof.
  intros Hn. pose proof (Z.log2_nonneg n). assert (Z.log2 n < 53) by (apply Z.log2_lt_pow2; lia).
  pose proof (Z.log2_spec n ltac:(lia)) as [H1 H2]. split; [lia|].
  replace (2 ^ 52) with (2 ^ Z.log2 n * 2 ^ (52 - Z.log2 n)) by (rewrite <- Z.pow_add_r by lia; f_equal; lia).
  replace (2 ^ 53) with (2 ^ Z.succ (Z.log2 n) * 2 ^ (52 - Z.log2 n)) by (rewrite <- Z.pow_add_r by lia; f_equal; lia).
  assert (0 < 2 ^ (52 - Z.log2 n)) by (apply Z.pow_pos_nonneg; lia). nia.
Qed.

Lemma of_int_exact (n : Z) : 0 < n < 2 ^ 53 -> of_int n = exact n.
Proof.
  intros Hn. destruct (exact_mantissa n Hn) as [Hl Hm]. unfold of_int, binary_normalize. destruct n as [|p|p]; try lia.
  unfold binary_round. rewrite digits_log2.
  assert (fexp 53 1024 (Z.log2 (Z.pos p) + 1 + 0) = Z.log2 (Z.pos p) - 52) as -> by (unfold fexp, emin; lia).
  assert (shl_align p 0 (Z.log2 (Z.pos p) - 52)
          = (Z.to_pos (Z.pos p * 2 ^ (52 - Z.log2 (Z.pos p))), Z.log2 (Z.pos p) - 52)) as ->.
  { unfold shl_align. rewrite Z.sub_0_r. destruct (Z.log2 (Z.pos p) - 52) as [|d|d] eqn:Ed; [|lia|].
    - replace (52 - Z.log2 (Z.pos p)) with 0 by lia. by rewrite Z.pow_0_r, Z.mul_1_r.
    - replace (52 - Z.log2 (Z.pos p)) with (Z.pos d) by lia. rewrite <- iter_xO. done. }
  rewrite Z2Pos.id by lia.
  pose proof (round_exact (Z.pos p * 2 ^ (52 - Z.log2 (Z.pos p))) (Z.log2 (Z.pos p) - 52) 0 Hm ltac:(lia) ltac:(lia)) as E.
  rewrite Z.pow_0_r, Z.mul_1_r, Z.sub_0_r in E. exact E.
Qed.

(** Products of positive integers are exact below 2^53. *)
Lemma fmul_exact (a b : Z) : 0 < a -> 0 < b -> a * b < 2 ^ 53 -> fmul (of_int a) (of_int b) = of_int (a * b).
Proof.
  intros Ha Hb Hab. assert (0 < a < 2 ^ 53) as Ra by nia. assert (0 < b < 2 ^ 53) as Rb by nia.
  assert (0 < a * b < 2 ^ 53) as Rab by nia. rewrite !of_int_exact by done.
  destruct (exact_mantissa a Ra) as [La Ma]. destruct (exact_mantissa b Rb) as [Lb Mb].
  destruct (exact_mantissa _ Rab) as [Lc Mc]. unfold exact at 1 2, fmul. cbn [SFmul xorb].
  rewrite Pos2Z.inj_mul, !Z2Pos.id by lia.
  set (k := 52 - Z.log2 a + (52 - Z.log2 b) - (52 - Z.log2 (a * b))).
  assert (0 <= k) as Hk by (pose proof (Z.log2_mul_below a b); pose proof (Z.log2_mul_above a b); lia).
  replace (a * 2 ^ (52 - Z.log2 a) * (b * 2 ^ (52 - Z.log2 b)))
    with (a * b * 2 ^ (52 - Z.log2 (a * b)) * 2 ^ k).
  2: { rewrite <- Z.mul_assoc, <- Z.pow_add_r by lia.
       replace (52 - Z.log2 (a * b) + k) with (52 - Z.log2 a + (52 - Z.log2 b)) by lia.
       rewrite Z.pow_add_r by lia. lia. }
  replace (Z.log2 a - 52 + (Z.log2 b - 52)) with (Z.log2 (a * b) - 52 - k) by lia.
  apply round_exact; lia.
Qed.

(** ** The floor of a quotient *)

(** A remainder located at the middle or above is at least half of the divisor. *)
Lemma new_location_half (m r : Z) :
  0 <= r < m -> new_location m r = loc_Inexact Eq \/ new_location m r = loc_Inexact Gt -> m <= 2 * r.
Proof.
  intros Hr. unfold new_location, new_location_even, new_location_odd.
  destruct (Z.even m), (r =? 0); intros [H|H]; try done; injection H as H.
  - apply Z.compare_eq in H. lia.
  - apply Z.compare_gt_iff in H. lia.
  - by destruct (2 * r + 1 ?= m).
  - destruct (2 * r + 1 ?= m) eqn:E; try done. apply Z.compare_gt_iff in E. lia.
Qed.

Lemma round_up (q : Z) (l : location) :
  round_nearest_even q l = q \/
  round_nearest_even q l = q + 1 /\ (l = loc_Inexact Eq \/ l = loc_Inexact Gt).
Proof. destruct l as [|[]]; cbn; auto. destruct (Z.even q); auto. Qed.

(** Rounding a quotient [q] with remainder [r]: the mantissa is [q], or [q] without its
    last bit, or the next one; the next one only from the middle on. *)
Definition rounded (q m r k M : Z) : Prop :=
  (k = 0 \/ k = 1) /\ 2 ^ 52 <= M <= 2 ^ 53 /\
  (M = q / 2 ^ k \/ M = q / 2 ^ k + 1 /\ (2 * (q / 2 ^ k) + 1) * 2 ^ k * m <= 2 * (q * m + r)).

Lemma first_shift (q e m r : Z) :
  2 ^ 52 <= q < 2 ^ 54 -> 0 <= r < m -> -1074 <= e ->
  exists k M, rounded q m r k M /\
    let '(mrs, e') := shr_fexp 53 1024 q e (new_location m r) in
    e' = e + k /\ round_nearest_even (shr_m mrs) (loc_of_shr_record mrs) = M.
Proof.
  intros Hq Hr He. pose proof (new_location_half m r Hr) as Hhalf. unfold shr_fexp.
  set (l := new_location m r) in *. destruct (Z.ltb_spec q (2 ^ 53)) as [Hs|Hs].
  - assert (fexp 53 1024 (Zdigits2 q + e) - e = 0) as ->.
    { assert (Z.log2 q = 52) as Hlog by (apply Z.log2_unique; lia).
      rewrite Zdigits_log2, Hlog by lia. unfold fexp, emin. lia. }
    exists 0, (round_nearest_even q l). cbn [shr]. split.
    + unfold rounded. rewrite Z.pow_0_r, Z.div_1_r.
      destruct (round_up q l) as [->|[-> Hl]]; [lia|]. specialize (Hhalf Hl). split_and!; [lia..|]. right. split; nia.
    + split; [lia|]. by destruct l as [|[]].
  - assert (fexp 53 1024 (Zdigits2 q + e) - e = 1) as ->.
    { assert (Z.log2 q = 53) as Hlog by (apply Z.log2_unique; lia).
      rewrite Zdigits_log2, Hlog by lia. unfold fexp, emin. lia. }
    pose proof (Z.div_mod q 2 ltac:(lia)) as Hdm. pose proof (Z.mod_pos_bound q 2 ltac:(lia)) as Hmb.
    rewrite (Zmod_odd q) in *.
    assert (exists s, shr_1 (shr_record_of_loc q l) = {| shr_m := q / 2; shr_r := Z.odd q; shr_s := s |}) as [s Es].
    { destruct l as [|[]]; cbn [shr_record_of_loc]; rewrite shr_1_spec by lia; eauto. }
    cbn [shr SpecFloat.iter_pos]. rewrite Es. cbn [shr_m].
    set (l' := loc_of_shr_record _). exists 1, (round_nearest_even (q / 2) l'). split; [|done].
    unfold rounded. change (2 ^ 1) with 2. destruct (round_up (q / 2) l') as [->|[-> Hl]].
    + destruct (Z.odd q); lia.
    + assert (Z.odd q = true) as Ho by (destruct (Z.odd q), s; cbn in l'; unfold l' in Hl; destruct Hl; done).
      rewrite Ho in *. split_and!; [lia..|]. right. split; [done|]. nia.
Qed.

Lemma round_quotient (q e m r : Z) :
  2 ^ 52 <= q < 2 ^ 54 -> 0 <= r < m -> -1074 <= e <= 900 ->
  exists k M, rounded q m r k M /\
    binary_round_aux 53 1024 false q e (new_location m r)
    = if M <? 2 ^ 53 then S754_finite false (Z.to_pos M) (e + k) else S754_finite false (Z.to_pos (2 ^ 52)) (e + k + 1).
Proof.
  intros Hq Hr He. destruct (first_shift q e m r Hq Hr ltac:(lia)) as (k & M & HM & Hs). exists k, M. split; [done|].
  unfold binary_round_aux. destruct (shr_fexp 53 1024 q e (new_location m r)) as [mrs e']. destruct Hs as [-> ->].
  destruct HM as (Hk & HM & _).
  unfold shr_fexp. cbn [shr_record_of_loc]. rewrite Zdigits_log2 by lia. destruct (Z.ltb_spec M (2 ^ 53)) as [Hlt|Hge].
  - assert (Z.log2 M = 52) as -> by (apply Z.log2_unique; lia).
    assert (fexp 53 1024 (52 + 1 + (e + k)) - (e + k) = 0) as -> by (unfold fexp, emin; lia).
    cbn [shr shr_m]. destruct M as [|M|M]; try lia. by rewrite (proj2 (Z.leb_le _ _)) by lia.
  - assert (M = 2 ^ 53) as -> by lia. change (Z.log2 (2 ^ 53)) with 53.
    assert (fexp 53 1024 (53 + 1 + (e + k)) - (e + k) = 1) as -> by (unfold fexp, emin; lia).
    change (2 ^ 53) with (2 ^ 52 * 2 ^ 1). rewrite shr_exact by lia. cbn [shr_m].
    change (2 ^ 52) with (Z.pos 4503599627370496). by rewrite (proj2 (Z.leb_le _ _)) by lia.
Qed.

(** A mantissa rounded at [k] bits after the point has the floor of the quotient, when
    half a unit is less than the distance of a fraction to the next integer. *)
Lemma floor_rounded (n c k Q M : Z) :
  0 < c -> 0 <= k -> Q * c <= n * 2 ^ k < (Q + 1) * c -> c < 2 ^ (k + 1) ->
  M = Q \/ M = Q + 1 /\ (2 * Q + 1) * c <= 2 * (n * 2 ^ k) -> M / 2 ^ k = n / c.
Proof.
  intros Hc Hk HQ Hlt HM. rewrite Z.pow_add_r in Hlt by lia. assert (0 < 2 ^ k) as Hp by (apply Z.pow_pos_nonneg; lia).
  set (T := 2 ^ k) in *. pose proof (Z.div_mod n c ltac:(lia)) as Hn. pose proof (Z.mod_pos_bound n c Hc) as Hm.
  set (N := n / c) in *. set (u := n mod c) in *.
  assert (N * T <= Q < (N + 1) * T) as HN.
  { split.
    - apply Z.lt_succ_r. apply (Z.mul_lt_mono_pos_r c); [done|]. nia.
    - apply (Z.mul_lt_mono_pos_r c); [done|]. nia. }
  symmetry. destruct HM as [->|[-> HM]].
  - apply (Z.div_unique _ _ _ (Q - N * T)); lia.
  - assert (Q + 1 <> (N + 1) * T); [|apply (Z.div_unique _ _ _ (Q + 1 - N * T)); lia].
    intros E. assert ((2 * ((N + 1) * T) - 1) * c <= 2 * (n * T)) as Hh by (replace (2 * ((N + 1) * T) - 1) with (2 * Q + 1) by lia; done).
    assert (2 * T * ((N + 1) * c - n) <= c) by lia. nia.
Qed.

(** The quotient of two mantissas and the quotient of the numbers. *)
Lemma scaled_quotient (n c T A k q r Q : Z) :
  0 < c -> 0 < T -> 0 < A -> 0 < k -> n * (A * k) * T = q * (c * T) + r -> 0 <= r < c * T -> Q = q / k ->
  Q * c <= n * A < (Q + 1) * c /\
  ((2 * Q + 1) * k * (c * T) <= 2 * (q * (c * T) + r) -> (2 * Q + 1) * c <= 2 * (n * A)).
Proof.
  intros Hc HT HA Hk E Hr ->. pose proof (Z.div_mod q k ltac:(lia)) as Hq. pose proof (Z.mod_pos_bound q k Hk) as Hm.
  set (Q := q / k) in *. set (u := q mod k) in *.
  assert (q * c <= n * (A * k)) as H1 by (apply (Z.mul_le_mono_pos_r _ _ T); [done|lia]).
  assert (n * (A * k) < (q + 1) * c) as H2 by (apply (Z.mul_lt_mono_pos_r T); [done|lia]).
  split; [split|].
  - apply (Z.mul_le_mono_pos_r _ _ k); [done|]. nia.
  - apply (Z.mul_lt_mono_pos_r k); [done|]. nia.
  - intros H. rewrite <- E in H. apply (Z.mul_le_mono_pos_r _ _ (k * T)); [nia|]. nia.
Qed.

(** The floor of a quotient of doubles is the quotient of the integers, below 2^53. *)
Lemma floor_fdiv (n c : Z) :
  0 < n < 2 ^ 53 -> 0 < c < 2 ^ 53 ->
  exists m e, fdiv (of_int n) (of_int c) = S754_finite false m e /\ Z.shiftl (Z.pos m) e = n / c.
Proof.
  intros Hn Hc. rewrite !of_int_exact by done. destruct (exact_mantissa n Hn) as [Ln Mn].
  destruct (exact_mantissa c Hc) as [Lc Mc]. pose proof (Z.log2_spec c ltac:(lia)) as Hlog.
  unfold exact, fdiv. cbn [SFdiv xorb]. set (d := Z.log2 n) in *. set (lc := Z.log2 c) in *.
  set (m1 := n * 2 ^ (52 - d)) in *. set (m2 := c * 2 ^ (52 - lc)) in *.
  unfold SFdiv_core_binary. rewrite !Z2Pos.id, !Zdigits_log2 by lia.
  assert (Z.log2 m1 = 52) as -> by (apply Z.log2_unique; lia). assert (Z.log2 m2 = 52) as -> by (apply Z.log2_unique; lia).
  assert (Z.min (fexp 53 1024 (52 + 1 + (d - 52) - (52 + 1 + (lc - 52)))) (d - 52 - (lc - 52)) = d - lc - 53) as ->
    by (unfold fexp, emin; lia).
  replace (d - 52 - (lc - 52) - (d - lc - 53)) with 53 by lia. cbv beta iota zeta. rewrite Z.shiftl_mul_pow2 by lia.
  destruct (Z.div_eucl (m1 * 2 ^ 53) m2) as [q r] eqn:Eq.
  pose proof (Z_div_mod (m1 * 2 ^ 53) m2 ltac:(lia)) as Hdm. rewrite Eq in Hdm. destruct Hdm as [Hdm Hr].
  assert (2 ^ 52 <= q < 2 ^ 54) as Hq by (split; [apply Z.lt_succ_r; apply (Z.mul_lt_mono_pos_r m2); nia | apply (Z.mul_lt_mono_pos_r m2); nia]).
  destruct (round_quotient q (d - lc - 53) m2 r Hq Hr ltac:(lia)) as (k & M & (Hk & HM & HM2) & ->).
  set (K := lc + 53 - d - k).
  assert (M / 2 ^ K = n / c) as Hfloor.
  { destruct (scaled_quotient n c (2 ^ (52 - lc)) (2 ^ K) (2 ^ k) q r (q / 2 ^ k)) as [HQ HQ2]; try done.
    - lia.
    - apply Z.pow_pos_nonneg; lia.
    - apply Z.pow_pos_nonneg; lia.
    - apply Z.pow_pos_nonneg; lia.
    - fold m2. rewrite (Z.mul_comm q m2), <- Hdm. unfold m1. rewrite <- !Z.mul_assoc, <- !Z.pow_add_r by lia.
      do 2 f_equal. lia.
    - eapply (floor_rounded n c K (q / 2 ^ k)); [lia|lia|done| |].
      + eapply Z.lt_le_trans; [apply Hlog|]. apply Z.pow_le_mono_r; lia.
      + destruct HM2 as [->|[-> HM2]]; [by left|right]. split; [done|]. by apply HQ2. }
  destruct (Z.ltb_spec M (2 ^ 53)) as [Hlt|Hge].
  - eexists _, _. split; [done|]. rewrite Z2Pos.id by lia.
    replace (d - lc - 53 + k) with (- K) by lia. rewrite Z.shiftl_opp_r, Z.shiftr_div_pow2 by lia. done.
  - eexists _, _. split; [done|]. rewrite Z2Pos.id by lia. assert (M = 2 ^ 52 * 2) as -> by lia.
    replace (d - lc - 53 + k + 1) with (- (K - 1)) by lia. rewrite <- Hfloor.
    destruct (decide (K = 0)) as [->|]; [done|].
    rewrite Z.shiftl_opp_r, Z.shiftr_div_pow2 by lia.
    replace (2 ^ K) with (2 ^ (K - 1) * 2) by (rewrite Z.mul_comm, <- Z.pow_succ_r by lia; f_equal; lia).
    by rewrite Z.div_mul_cancel_r by (lia || apply Z.pow_nonzero; lia).
Qed.
