(* ===== verification/FaucetAnimation.v ===== *)
(** * The background of the faucet's page

    src/deploy/faucet/app.js, the script of the canvas: particles that move, bounce at
    the borders and are joined by lines.  [Math.random] is a sequence of doubles of which
    each use takes the next; drawing is the list of calls on the context. *)

From Stdlib Require Import SpecFloat String.
From stdpp Require Import gmap.
From S2P Require Import Prelude Doubles.

#[local] Open Scope Z_scope.

(** ** Numbers of the source *)

(** The doubles nearest to the literals of the source. *)
Definition c0_5 : double := S754_finite false 4503599627370496 (-53).
Definition c0_6 : double := S754_finite false 5404319552844595 (-53).
Definition c1_5 : double := S754_finite false 6755399441055744 (-52).
Definition c0_2 : double := S754_finite false 7205759403792794 (-55).
Definition PI : double := S754_finite false 7074237752028440 (-51).

(** How often the body of [for(let i = 0; i < Math.floor(x); i++)] is run. *)
Definition floor_loop (x : double) : outcome nat :=
  match x with
  | S754_finite s m e => Val (Z.to_nat (Z.shiftl (if s then Z.neg m else Z.pos m) e))
  | S754_infinity false => Diverge
  | _ => Val O
  end.

(** ** Particles *)

Record particle := {
  x : double;
  y : double;
  vx : double;
  vy : double;
  radius : double;
}.

(** Calls on the canvas context and settings of its properties.  The stroke style is
    the colour of the source with the given opacity. *)
Inductive canvas_op :=
  | clearRect (x0 y0 w h : double)
  | beginPath
  | arc (x0 y0 r from to : double)
  | fillStyle (style : string)
  | fill
  | moveTo (x0 y0 : double)
  | lineTo (x0 y0 : double)
  | strokeStyle (opacity : double)
  | lineWidth (w : double)
  | stroke.

(** The initial velocity and the radius for a random number. *)
Definition velocity (r : double) : double := fmul (fsub r c0_5) c0_6.
Definition radius_of (r : double) : double := fadd (fmul r c1_5) c0_5.

(** [this.x < 0 || this.x > width]. *)
Definition outside (limit v : double) : bool := flt v (of_int 0) || flt limit v.

Definition update (width height : double) (p : particle) : particle :=
  let x' := fadd (x p) (vx p) in
  let y' := fadd (y p) (vy p) in
  {| x := x'; y := y';
     vx := if outside width x' then fopp (vx p) else vx p;
     vy := if outside height y' then fopp (vy p) else vy p;
     radius := radius p |}.

Definition draw (p : particle) : list canvas_op :=
  [beginPath; arc (x p) (y p) (radius p) (of_int 0) (fmul PI (of_int 2));
   fillStyle "rgba(212, 175, 55, 0.4)"; fill].

(** ** The script *)

(** The body of the inner loop, for two particles. *)
Definition link (p q : particle) : list canvas_op :=
  let dx := fsub (x p) (x q) in
  let dy := fsub (y p) (y q) in
  let dist := fsqrt (fadd (fmul dx dx) (fmul dy dy)) in
  if flt dist (of_int 140) then
    [beginPath; moveTo (x p) (y p); lineTo (x q) (y q);
     strokeStyle (fmul c0_2 (fsub (of_int 1) (fdiv dist (of_int 140))));
     lineWidth (of_int 1); stroke]
  else [].

(** The inner loop from [j] on, with [n] rounds left. *)
Fixpoint inner_loop (particles : list particle) (i j n : nat) : list canvas_op :=
  match n with
  | O => []
  | S n =>
      match particles !! i, particles !! j with
      | Some p, Some q => link p q
      | _, _ => []
      end ++ inner_loop particles i (S j) n
  end.

(** The outer loop from [i] on: the array is changed in place. *)
Fixpoint outer_loop (width height : double) (particles : list particle) (i n : nat) : list particle * list canvas_op :=
  match n with
  | O => (particles, [])
  | S n =>
      match particles !! i with
      | None => (particles, [])
      | Some p =>
          let p := update width height p in
          let particles := <[i := p]> particles in
          let ops := draw p ++ inner_loop particles i (i + 1) (length particles - (i + 1)) in
          let '(particles, rest) := outer_loop width height particles (i + 1) n in
          (particles, ops ++ rest)
      end
  end.

(** The canvas, the variables of the script, the random numbers used so far, and the
    calls of [animate] that the browser has been asked for. *)
Record script := {
  canvas_width : Z;
  canvas_height : Z;
  width : double;
  height : double;
  particles : list particle;
  used : nat;
  scheduled : nat;
}.

Definition animate (s : script) : script * list canvas_op :=
  let '(ps, ops) := outer_loop (width s) (height s) (particles s) 0 (length (particles s)) in
  ({| canvas_width := canvas_width s; canvas_height := canvas_height s; width := width s; height := height s;
      particles := ps; used := used s; scheduled := S (scheduled s) |},
   clearRect (of_int 0) (of_int 0) (width s) (height s) :: ops).

Section random.
Context (random : nat -> double).

(** [new Particle()], with the random numbers from the [k]th on. *)
Definition new_particle (width height : double) (k : nat) : particle :=
  {| x := fmul (random k) width;
     y := fmul (random (k + 1)) height;
     vx := velocity (random (k + 2));
     vy := velocity (random (k + 3));
     radius := radius_of (random (k + 4)) |}.

Fixpoint push_particles (width height : double) (k n : nat) : list particle :=
  match n with
  | O => []
  | S n => new_particle width height k :: push_particles width height (k + 5) n
  end.

(** [init()] with the window's inner size. *)
Definition init (innerWidth innerHeight : Z) (s : script) : outcome script :=
  let width := of_int innerWidth in
  let height := of_int innerHeight in
  particleCount ← floor_loop (fdiv (fmul width height) (of_int 12000));
  Val {| canvas_width := innerWidth; canvas_height := innerHeight; width := width; height := height;
         particles := push_particles width height (used s) particleCount;
         used := used s + 5 * particleCount; scheduled := scheduled s |}.

(** Before the script has run. *)
Definition blank : script :=
  {| canvas_width := 300; canvas_height := 150; width := S754_nan; height := S754_nan;
     particles := []; used := 0; scheduled := 0 |}.

(** The script is run; later the window is resized, or the browser makes a call of
    [animate] that it was asked for. *)
Inductive runs : script -> Prop :=
  | runs_start (w h : Z) (s : script) :
      init w h blank = Val s -> runs (animate s).1
  | runs_resize (w h : Z) (s s' : script) :
      runs s -> init w h s = Val s' -> runs s'
  | runs_frame (s : script) (n : nat) :
      runs s -> scheduled s = S n ->
      runs (animate {| canvas_width := canvas_width s; canvas_height := canvas_height s; width := width s;
                       height := height s; particles := particles s; used := used s; scheduled := n |}).1.
End random.

(** ** A frame, said at once

    Every particle moves once; it is drawn where it has moved to, and joined from there
    to where the later ones are before they move. *)

Fixpoint frame_ops (width height : double) (ps : list particle) : list canvas_op :=
  match ps with
  | [] => []
  | p :: ps =>
      let p := update width height p in
      draw p ++ concat (map (link p) ps) ++ frame_ops width height ps
  end.

Lemma inner_loop_spec (pre : list particle) (p : particle) (mid rest : list particle) :
  inner_loop (pre ++ p :: mid ++ rest) (length pre) (length pre + 1 + length mid) (length rest)
  = concat (map (link p) rest).
Proof.
  revert mid. induction rest as [|q rest IH]; intros mid; [done|]. cbn [inner_loop length].
  rewrite list_lookup_middle by done.
  replace (pre ++ p :: mid ++ q :: rest) with ((pre ++ p :: mid) ++ q :: rest) by (by rewrite <- app_assoc).
  rewrite list_lookup_middle by (rewrite length_app; cbn; lia).
  cbn [map concat]. f_equal. rewrite <- (IH (mid ++ [q])).
  rewrite <- !app_assoc, length_app. cbn. f_equal. lia.
Qed.

Lemma outer_loop_spec (w h : double) (pre ps : list particle) :
  outer_loop w h (pre ++ ps) (length pre) (length ps) = (pre ++ map (update w h) ps, frame_ops w h ps).
Proof.
  revert pre. induction ps as [|p ps IH]; intros pre; [done|]. cbn [outer_loop length].
  rewrite list_lookup_middle by done. rewrite insert_app_r_alt, Nat.sub_diag by lia. cbn [insert list_insert].
  set (p' := update w h p). specialize (IH (pre ++ [p'])). rewrite <- app_assoc, length_app in IH. cbn in IH.
  rewrite IH. rewrite <- app_assoc. cbn [app map frame_ops]. fold p'.
  pose proof (inner_loop_spec pre p' [] ps) as Hi. cbn in Hi. rewrite Nat.add_0_r in Hi. rewrite <- Hi.
  rewrite length_app. cbn [length]. rewrite <- app_assoc.
  by replace (length pre + S (length ps) - (length pre + 1))%nat with (length ps) by lia.
Qed.

(** ** What stays true *)

(** A velocity is some initial one or its opposite, and a radius is an initial one. *)
Definition launched (random : nat -> double) (p : particle) : Prop :=
  (exists k, vx p = velocity (random k) \/ vx p = fopp (velocity (random k))) /\
  (exists k, vy p = velocity (random k) \/ vy p = fopp (velocity (random k))) /\
  (exists k, radius p = radius_of (random k)).

Lemma bounce (random : nat -> double) (v : double) (b : bool) :
  (exists k, v = velocity (random k) \/ v = fopp (velocity (random k))) ->
  exists k, (if b then fopp v else v) = velocity (random k) \/ (if b then fopp v else v) = fopp (velocity (random k)).
Proof. intros [k [->| ->]]; exists k; destruct b; rewrite ?fopp_involutive; auto. Qed.

Lemma update_launched (random : nat -> double) (w h : double) (p : particle) :
  launched random p -> launched random (update w h p).
Proof. intros (Hx & Hy & Hr). split_and!; [by apply bounce|by apply bounce|done]. Qed.

Lemma push_particles_spec (random : nat -> double) (w h : double) (k n : nat) :
  length (push_particles random w h k n) = n /\ Forall (launched random) (push_particles random w h k n).
Proof.
  revert k. induction n as [|n IH]; intros k; [by split|]. cbn. destruct (IH (k + 5)%nat) as [Hl Hf].
  split; [by rewrite Hl|]. constructor; [|done]. split_and!; eauto.
Qed.

(** The particles that a canvas of this size has. *)
Definition particle_count (w h : Z) : outcome nat :=
  floor_loop (fdiv (fmul (of_int w) (of_int h)) (of_int 12000)).

Record script_ok (random : nat -> double) (s : script) : Prop := {
  ok_width : width s = of_int (canvas_width s);
  ok_height : height s = of_int (canvas_height s);
  ok_count : particle_count (canvas_width s) (canvas_height s) = Val (length (particles s));
  ok_launched : Forall (launched random) (particles s);
}.

Lemma init_ok (random : nat -> double) (w h : Z) (s s' : script) :
  init random w h s = Val s' -> script_ok random s' /\ scheduled s' = scheduled s.
Proof.
  unfold init. fold (particle_count w h). destruct (particle_count w h) as [n| | | |] eqn:E; try done.
  rewrite bind_val. intros [= <-]. split; [|done].
  destruct (push_particles_spec random (of_int w) (of_int h) (used s) n) as [Hl Hf].
  split; cbn [canvas_width canvas_height width height particles]; try done. by rewrite Hl.
Qed.

Lemma animate_eq (s : script) :
  animate s =
  ({| canvas_width := canvas_width s; canvas_height := canvas_height s; width := width s; height := height s;
      particles := map (update (width s) (height s)) (particles s); used := used s; scheduled := S (scheduled s) |},
   clearRect (of_int 0) (of_int 0) (width s) (height s) :: frame_ops (width s) (height s) (particles s)).
Proof.
  unfold animate. pose proof (outer_loop_spec (width s) (height s) [] (particles s)) as E.
  cbn [app length] in E. by rewrite E.
Qed.

Lemma animate_ok (random : nat -> double) (s : script) :
  script_ok random s -> script_ok random (animate s).1.
Proof.
  intros [Hw Hh Hc Hl]. rewrite animate_eq. split; cbn [fst canvas_width canvas_height width height particles]; try done.
  - by rewrite length_map.
  - apply Forall_map. eapply Forall_impl; [done|]. intros p. apply update_launched.
Qed.

(** ** Correctness *)

(** A call of [animate] moves every particle exactly once and clears and redraws the
    canvas: each particle where it has moved to, with a line to every later particle
    closer than 140, which at that point has not moved yet.  It asks for exactly one
    further call. *)
Theorem animate_correct (s : script) :
  let '(s', ops) := animate s in
  particles s' = map (update (width s) (height s)) (particles s) /\
  ops = clearRect (of_int 0) (of_int 0) (width s) (height s) :: frame_ops (width s) (height s) (particles s) /\
  scheduled s' = S (scheduled s).
Proof. by rewrite animate_eq. Qed.

(** As long as the page is open, through any resizing and any number of frames, exactly
    one call of [animate] is due, so the animation neither stops nor speeds up; the
    script's size is the canvas's and the number of particles is the one for it; no
    particle gets a speed or a radius other than one it could have started with. *)
Theorem animation_invariant (random : nat -> double) (s : script) :
  runs random s -> scheduled s = 1%nat /\ script_ok random s.
Proof.
  induction 1 as [w h s E|w h s s' _ [IH _] E|s n _ [IH Hok] Hs].
  - apply init_ok in E as [Hok Hn]. split; [rewrite animate_eq; cbn; by rewrite Hn|by apply animate_ok].
  - apply init_ok in E as [Hok Hn]. by rewrite Hn.
  - rewrite Hs in IH. injection IH as ->. split; [by rewrite animate_eq|]. apply animate_ok.
    destruct Hok as [Hw Hh Hc Hl]. by split.
Qed.

(** An empty window has no particles. *)
Lemma zero_area (v : double) :
  floor_loop (fdiv (fmul (of_int 0) v) (of_int 12000)) = Val O /\
  floor_loop (fdiv (fmul v (of_int 0)) (of_int 12000)) = Val O.
Proof. destruct v as [[]|[]| |[] m e]; done. Qed.

Lemma particle_count_exact (w h : Z) :
  0 <= w -> 0 <= h -> w * h < 2 ^ 53 -> particle_count w h = Val (Z.to_nat (w * h / 12000)).
Proof.
  intros Hw Hh Hwh. unfold particle_count.
  destruct (decide (w = 0)) as [->|]; [by rewrite (proj1 (zero_area _))|].
  destruct (decide (h = 0)) as [->|]; [by rewrite (proj2 (zero_area _)), Z.mul_0_r|].
  rewrite fmul_exact by lia. destruct (floor_fdiv (w * h) 12000) as (m & e & -> & Hf); [nia|lia|].
  cbn [floor_loop]. by rewrite Hf.
Qed.

(** C36. [init] ends for every window whose area is below 2^53, and although it divides and
    rounds doubles, it makes exactly as many particles as the integer quotient of the
    area by 12000. *)
Theorem init_terminates (random : nat -> double) (w h : Z) (s : script) :
  0 <= w -> 0 <= h -> w * h < 2 ^ 53 ->
  exists s', init random w h s = Val s' /\ length (particles s') = Z.to_nat (w * h / 12000) /\
    canvas_width s' = w /\ canvas_height s' = h.
Proof.
  intros Hw Hh Hwh. unfold init. fold (particle_count w h). rewrite particle_count_exact, bind_val by done.
  eexists. split; [done|]. split; [|done]. apply push_particles_spec.
Qed.

Lemma init_terminates_witness :
  exists s', init (fun _ => c0_5) 1920 1080 blank = Val s' /\ length (particles s') = 172%nat /\
    canvas_width s' = 1920 /\ canvas_height s' = 1080.
Proof. apply (init_terminates (fun _ => c0_5) 1920 1080 blank); lia. Defined.

Definition half (_ : nat) : double := c0_5.

(** A window of 400 by 300 has ten particles. *)
Lemma animation_invariant_witness :
  exists s, init half 400 300 blank = Val s /\ length (particles s) = 10%nat /\
    scheduled (animate s).1 = 1%nat /\ script_ok half (animate s).1.
Proof.
  destruct (init half 400 300 blank) as [s| | | |] eqn:E; try (exfalso; vm_compute in E; discriminate E).
  exists s. split; [reflexivity|]. split; [vm_compute in E; injection E as <-; reflexivity|].
  apply (animation_invariant half (animate s).1). exact (runs_start half 400 300 s E).
Defined.
