(* ===== verification/TreeHash.v ===== *)
(** * The Merkle tree of hashes

    src/src/crypto/tree-hash.c: the root over a list of hashes ([tree_hash]), the
    position of a leaf ([tree_path]), the proof that a hash is below a root
    ([tree_branch]) and its check ([tree_branch_hash], [is_branch_in_tree]).  The
    hash of two hashes is an argument.  Arrays are lists, and every access is checked:
    one out of bounds is [Undef]. *)

From S2P Require Import Prelude.

(** ** Sizes *)

(** [while(pow < count) pow <<= 1], on 64-bit sizes. *)
Fixpoint cnt_loop (fuel : nat) (pow count : Z) : outcome Z :=
  if pow <? count then
    match fuel with
    | O => Diverge
    | S fuel => cnt_loop fuel (shl64 pow 1) count
    end
  else Val pow.

Definition tree_hash_cnt (ndebug : bool) (count : Z) : outcome Z :=
  _ ← c_assert ndebug (3 <=? count);
  _ ← c_assert ndebug (count <=? 0x10000000);
  pow ← cnt_loop 64 2 count;
  Val (Z.shiftr pow 1).

Section tree.
Context {hash : Type} `{EqDecision hash} (cn_fast_hash : hash -> hash -> hash) (zero : hash) (ndebug : bool).

(** [memcpy(ints, hashes, n * HASH_SIZE)] into a fresh array of [cnt] hashes. *)
Definition copy_hashes (hashes : list hash) (n cnt : Z) : outcome (list hash) :=
  if decide (0 <= n <= Z.of_nat (length hashes) /\ n <= cnt)
  then Val (take (Z.to_nat n) hashes ++ replicate (Z.to_nat (cnt - n)) zero)
  else Undef.

(** The loop from [i] and [j] on, with [n] rounds left until [j] is [cnt]: pairs of
    [hashes] are hashed into [ints]. *)
Fixpoint first_loop (n : nat) (hashes ints : list hash) (i j : Z) : outcome (list hash * Z) :=
  match n with
  | O => Val (ints, i)
  | S n =>
      a ← c_index hashes i;
      b ← c_index hashes (i + 1);
      ints ← c_update ints j (cn_fast_hash a b);
      first_loop n hashes ints (i + 2) (j + 1)
  end.

(** The same within [ints]. *)
Fixpoint level_loop (n : nat) (ints : list hash) (i j : Z) : outcome (list hash) :=
  match n with
  | O => Val ints
  | S n =>
      a ← c_index ints i;
      b ← c_index ints (i + 1);
      ints ← c_update ints j (cn_fast_hash a b);
      level_loop n ints (i + 2) (j + 1)
  end.

(** [while (cnt > 2)]. *)
Fixpoint levels (fuel : nat) (ints : list hash) (cnt : Z) : outcome (list hash) :=
  if 2 <? cnt then
    match fuel with
    | O => Diverge
    | S fuel =>
        let cnt := Z.shiftr cnt 1 in
        ints ← level_loop (Z.to_nat cnt) ints 0 0;
        levels fuel ints cnt
    end
  else Val ints.

Definition tree_hash (hashes : list hash) : outcome hash :=
  let count := Z.of_nat (length hashes) in
  _ ← c_assert ndebug (0 <? count);
  if count =? 1 then c_index hashes 0
  else if count =? 2 then
    a ← c_index hashes 0;
    b ← c_index hashes 1;
    Val (cn_fast_hash a b)
  else
    cnt ← tree_hash_cnt ndebug count;
    let start := u64 (2 * cnt - count) in
    ints ← copy_hashes hashes start cnt;
    '(ints, i) ← first_loop (Z.to_nat (cnt - start)) hashes ints start start;
    _ ← c_assert ndebug (i =? count);
    ints ← levels 64 ints cnt;
    a ← c_index ints 0;
    b ← c_index ints 1;
    Val (cn_fast_hash a b).

(** ** Paths *)

(** A path with one more bit, in 32 bits. *)
Definition push_bit (path : Z) (bit : bool) : Z := Z.lor (u32 (Z.shiftl path 1)) (if bit then 1 else 0).

(** A loop of [tree_path]: [n] rounds from [i] and [j] on. *)
Fixpoint path_loop (n : nat) (i j idx path : Z) : Z * Z * Z :=
  match n with
  | O => (i, idx, path)
  | S n =>
      if (idx =? i) || (idx =? i + 1)
      then path_loop n (i + 2) (j + 1) j (push_bit path (negb (idx =? i)))
      else path_loop n (i + 2) (j + 1) idx path
  end.

Fixpoint path_levels (fuel : nat) (cnt idx path : Z) : outcome (Z * Z) :=
  if 2 <? cnt then
    match fuel with
    | O => Diverge
    | S fuel =>
        let cnt := Z.shiftr cnt 1 in
        let '(_, idx, path) := path_loop (Z.to_nat cnt) 0 0 idx path in
        path_levels fuel cnt idx path
    end
  else Val (idx, path).

(** The path, or [None] for the result false. *)
Definition tree_path (count idx : Z) : outcome (option Z) :=
  if count =? 0 then Val None
  else if count =? 1 then Val (Some 0)
  else if count =? 2 then Val (Some (if idx =? 0 then 0 else 1))
  else
    cnt ← tree_hash_cnt ndebug count;
    let start := u64 (2 * cnt - count) in
    let '(i, idx, path) := path_loop (Z.to_nat (cnt - start)) start start idx 0 in
    _ ← c_assert ndebug (i =? count);
    '(idx, path) ← path_levels 64 cnt idx path;
    Val (Some (if (idx =? 0) || (idx =? 1) then push_bit path (negb (idx =? 0)) else path)).

(** ** Branches *)

(** [(path >> k) & 1] of 32 bits. *)
Definition c_bit32 (path k : Z) : outcome bool :=
  if decide (0 <= k < 32) then Val (Z.testbit path k) else Undef.

(** What [tree_branch] has written so far; the depth is the length of the branch. *)
Record branch_state := {
  at_idx : Z;
  branch : list hash;
  path : Z;
}.

(** The step at the pair [i] when the leaf is below it, with the other one of the pair. *)
Definition climb (s : branch_state) (i j : Z) (other : hash) : branch_state :=
  {| at_idx := j; branch := branch s ++ [other]; path := push_bit (path s) (negb (at_idx s =? i)) |}.

Definition sibling (s : branch_state) (i : Z) : Z := if at_idx s =? i then i + 1 else i.

Definition below (s : branch_state) (i : Z) : bool := (at_idx s =? i) || (at_idx s =? i + 1).

(** The part of a round that follows the leaf, with the array of the pairs. *)
Definition branch_step (src : list hash) (s : branch_state) (i j : Z) : outcome branch_state :=
  if below s i then o ← c_index src (sibling s i); Val (climb s i j o) else Val s.

Fixpoint branch_first_loop (n : nat) (hashes ints : list hash) (i j : Z) (s : branch_state) :
    outcome (list hash * Z * branch_state) :=
  match n with
  | O => Val (ints, i, s)
  | S n =>
      s ← branch_step hashes s i j;
      a ← c_index hashes i;
      b ← c_index hashes (i + 1);
      ints ← c_update ints j (cn_fast_hash a b);
      branch_first_loop n hashes ints (i + 2) (j + 1) s
  end.

Fixpoint branch_level_loop (n : nat) (ints : list hash) (i j : Z) (s : branch_state) :
    outcome (list hash * branch_state) :=
  match n with
  | O => Val (ints, s)
  | S n =>
      s ← branch_step ints s i j;
      a ← c_index ints i;
      b ← c_index ints (i + 1);
      ints ← c_update ints j (cn_fast_hash a b);
      branch_level_loop n ints (i + 2) (j + 1) s
  end.

Fixpoint branch_levels (fuel : nat) (ints : list hash) (cnt : Z) (s : branch_state) :
    outcome (list hash * branch_state) :=
  if 2 <? cnt then
    match fuel with
    | O => Diverge
    | S fuel =>
        let cnt := Z.shiftr cnt 1 in
        '(ints, s) ← branch_level_loop (Z.to_nat cnt) ints 0 0 s;
        branch_levels fuel ints cnt s
    end
  else Val (ints, s).

(** The search for the hash. *)
Definition find_hash (hashes : list hash) (h : hash) : option Z :=
  Z.of_nat ∘ fst <$> list_find (fun x => h = x) hashes.

(** The branch and the path, or [None] for the result false. *)
Definition tree_branch (hashes : list hash) (h : hash) : outcome (option (list hash * Z)) :=
  let count := Z.of_nat (length hashes) in
  match find_hash hashes h with
  | None => Val None
  | Some idx =>
      if count =? 1 then Val (Some ([], 0))
      else if count =? 2 then
        o ← c_index hashes (Z.lxor idx 1);
        Val (Some ([o], if idx =? 0 then 0 else 1))
      else
        cnt ← tree_hash_cnt ndebug count;
        let start := u64 (2 * cnt - count) in
        ints ← copy_hashes hashes start cnt;
        '(ints, i, s) ← branch_first_loop (Z.to_nat (cnt - start)) hashes ints start start
                          {| at_idx := idx; branch := []; path := 0 |};
        _ ← c_assert ndebug (i =? count);
        '(ints, s) ← branch_levels 64 ints cnt s;
        s ← branch_step ints s 0 0;
        Val (Some (branch s, path s))
  end.

(** The hash of the two halves of the buffer, the branch's first when the bit is set. *)
Definition join (bit : bool) (b partial : hash) : hash :=
  if bit then cn_fast_hash b partial else cn_fast_hash partial b.

(** The loop of [tree_branch_hash] from [d] on: the branch that is left, and [depth]. A shift
    of the 32 bits of [path] by 32 or more is undefined. *)
Fixpoint branch_hash_loop (br : list hash) (d depth path : Z) (partial : hash) : outcome hash :=
  match br with
  | [] => Val partial
  | b :: br =>
      bit ← c_bit32 path (depth - d - 1);
      branch_hash_loop br (d + 1) depth path (join bit b partial)
  end.

Definition tree_branch_hash (h : hash) (br : list hash) (path : Z) : outcome hash :=
  branch_hash_loop br 0 (Z.of_nat (length br)) path h.

Definition is_branch_in_tree (h root : hash) (br : list hash) (path : Z) : outcome bool :=
  res ← tree_branch_hash h br path;
  Val (bool_decide (res = root)).
End tree.

(** ** Trees

    What the algorithm computes, said with trees: the hashes are the leaves from left
    to right, and the root is the hash of the two roots below it. *)

Inductive mtree (hash : Type) :=
  | Leaf (h : hash)
  | Node (l r : mtree hash).
Arguments Leaf {hash} h.
Arguments Node {hash} l r.

Fixpoint leaves {hash} (t : mtree hash) : list hash :=
  match t with
  | Leaf h => [h]
  | Node l r => leaves l ++ leaves r
  end.

(** How deep each leaf is, from left to right. *)
Fixpoint leaf_depths {hash} (t : mtree hash) : list nat :=
  match t with
  | Leaf _ => [O]
  | Node l r => S <$> leaf_depths l ++ leaf_depths r
  end.

Lemma leaf_depths_first {hash} (t : mtree hash) : exists d ds, leaf_depths t = d :: ds.
Proof.
  induction t as [h|l [d [ds E]] r _]; [by exists O, []|]. cbn. rewrite E. by eexists _, _.
Qed.

Section spec.
Context {hash : Type} `{EqDecision hash} (H : hash -> hash -> hash) (zero : hash) (ndebug : bool).

Fixpoint root (t : mtree hash) : hash :=
  match t with
  | Leaf h => h
  | Node l r => H (root l) (root r)
  end.

Lemma halves (x m : nat) :
  (x = 2 * m -> x / 2 = m /\ Nat.odd x = false)%nat /\ (x = S (2 * m) -> x / 2 = m /\ Nat.odd x = true)%nat.
Proof.
  split; intros ->; (split; [symmetry|]).
  - apply (Nat.div_unique _ _ _ 0); lia.
  - rewrite <- Nat.negb_even, Nat.even_mul. done.
  - apply (Nat.div_unique _ _ _ 1); lia.
  - rewrite Nat.odd_succ, Nat.even_mul. done.
Qed.

(** Which one of the pair [m] after [k] a position is. *)
Lemma side_bit (idx k m : nat) :
  (k + 2 * m <= idx < k + 2 * S m)%nat ->
  ((idx - k) / 2 = m)%nat /\ bool_decide (idx = S (k + 2 * m)) = Nat.odd (idx - k).
Proof.
  intros Hi. destruct (halves (idx - k) m) as [He Ho]. destruct (decide (idx = S (k + 2 * m))) as [E|E].
  - destruct Ho as [-> ->]; [lia|]. by rewrite bool_decide_true.
  - destruct He as [-> ->]; [lia|]. by rewrite bool_decide_false.
Qed.

(** One level up. *)
Fixpoint pairs {A} (f : A -> A -> A) (l : list A) : list A :=
  match l with
  | a :: b :: l => f a b :: pairs f l
  | _ => []
  end.

Lemma pairs_length {A} (f : A -> A -> A) (n : nat) (l : list A) :
  length l = (2 * n)%nat -> length (pairs f l) = n.
Proof.
  revert l. induction n as [|n IH]; intros l Hl; [by destruct l|].
  destruct l as [|a [|b l]]; cbn in Hl; try lia. cbn. rewrite IH; lia.
Qed.

Lemma pairs_lookup {A} (f : A -> A -> A) (j : nat) (l : list A) (a b : A) :
  l !! (2 * j)%nat = Some a -> l !! (2 * j + 1)%nat = Some b -> pairs f l !! j = Some (f a b).
Proof.
  revert l. induction j as [|j IH]; intros l Ha Hb.
  - destruct l as [|x [|y l]]; cbn in *; try done. by injection Ha as ->; injection Hb as ->.
  - replace (2 * S j)%nat with (S (S (2 * j))) in * by lia. destruct l as [|x [|y l]]; try done. cbn in *. by apply IH.
Qed.

(** The in-place loop has written the first [m] of the pairs. *)
Definition partly (m : nat) (P M : list hash) : list hash := take m P ++ drop m M.

Lemma partly_lookup (m k : nat) (P M : list hash) :
  (m <= length P)%nat -> (m <= k)%nat -> partly m P M !! k = M !! k.
Proof.
  intros Hm Hk. unfold partly. rewrite lookup_app_r by (rewrite length_take; lia).
  rewrite lookup_drop, length_take. f_equal. lia.
Qed.

Lemma partly_update (m : nat) (P M : list hash) (x : hash) :
  P !! m = Some x -> (m < length M)%nat -> <[m := x]> (partly m P M) = partly (S m) P M.
Proof.
  intros Hx Hm. unfold partly. pose proof (lookup_lt_Some _ _ _ Hx).
  rewrite insert_app_r_alt by (rewrite length_take; lia). rewrite length_take, Nat.min_l, Nat.sub_diag by lia.
  destruct (lookup_lt_is_Some_2 M m Hm) as [y Hy]. rewrite (drop_S M y m) by done. cbn [insert list_insert].
  rewrite (take_S_r P m x Hx), <- app_assoc. done.
Qed.

Lemma partly_length (m : nat) (P M : list hash) :
  (m <= length P)%nat -> (m <= length M)%nat -> length (partly m P M) = length M.
Proof. intros. unfold partly. rewrite length_app, length_take, length_drop. lia. Qed.

(** ** Steps of a proof *)

(** A step up: whether the other hash is on the left, and that hash. *)
Local Abbreviation step := (bool * hash)%type.

Definition apply_step (h : hash) (st : step) : hash := join H st.1 st.2 h.

Definition ascend (h : hash) (steps : list step) : hash := foldl apply_step h steps.

Definition bit (b : bool) : Z := if b then 1 else 0.

Definition bits (steps : list step) : list Z := map (fun st => bit st.1) steps.

Lemma ascend_snoc (h : hash) (steps : list step) (st : step) :
  ascend h (steps ++ [st]) = apply_step (ascend h steps) st.
Proof. unfold ascend. by rewrite foldl_app. Qed.

Lemma bits_digits (steps : list step) : Forall (is_digit 2) (bits steps).
Proof. apply Forall_map, Forall_true. intros [[] h]; unfold is_digit; cbn; lia. Qed.

Lemma bits_bound (steps : list step) : 0 <= of_digits 2 (bits steps) < 2 ^ Z.of_nat (length steps).
Proof.
  pose proof (of_digits_range 2 (bits steps) ltac:(lia) (bits_digits steps)) as Hb.
  assert (length (bits steps) = length steps) as E by apply length_map. by rewrite E in Hb.
Qed.

Lemma push_bit_spec (p : Z) (b : bool) : 0 <= p < 2 ^ 31 -> push_bit p b = p * 2 + bit b.
Proof.
  intros Hp. unfold push_bit. rewrite Z.shiftl_mul_pow2 by lia. unfold u32. rewrite Z.mod_small by lia.
  rewrite <- Z.shiftl_mul_pow2, lor_shiftl_add by (destruct b; lia). by destruct b.
Qed.

Lemma push_bit_bits (steps : list step) (b : bool) (o : hash) :
  (length steps <= 31)%nat -> push_bit (of_digits 2 (bits steps)) b = of_digits 2 (bits (steps ++ [(b, o)])).
Proof.
  intros Hl. pose proof (bits_bound steps) as Hb. rewrite push_bit_spec.
  - unfold bits. rewrite map_app. cbn [map]. by rewrite of_digits_snoc.
  - split; [lia|]. eapply Z.lt_le_trans; [apply Hb|]. apply Z.pow_le_mono_r; lia.
Qed.

(** The state of [tree_branch] at the position [idx] after [steps]. *)
Definition repr (s : branch_state) (idx : nat) (steps : list step) : Prop :=
  at_idx s = Z.of_nat idx /\ branch s = map snd steps /\ path s = of_digits 2 (bits steps).

Lemma repr_below (s : branch_state) (idx i : nat) (steps : list step) :
  repr s idx steps -> below s (Z.of_nat i) = bool_decide (idx = i \/ idx = S i).
Proof.
  intros (E & _). unfold below. rewrite E. case_bool_decide as Hd.
  - destruct Hd as [->| ->]; [rewrite Z.eqb_refl; done|].
    apply orb_true_iff. right. apply Z.eqb_eq. lia.
  - apply orb_false_iff. split; apply Z.eqb_neq; lia.
Qed.

Lemma step_skip (src : list hash) (s : branch_state) (idx i j : nat) (steps : list step) :
  repr s idx steps -> ~ (idx = i \/ idx = S i) -> branch_step src s (Z.of_nat i) (Z.of_nat j) = Val s.
Proof. intros Hr Hn. unfold branch_step. rewrite (repr_below s idx i steps Hr). by rewrite bool_decide_false. Qed.

(** A round at the pair that the leaf is below. *)
Lemma step_climb (src : list hash) (s : branch_state) (idx i j : nat) (steps : list step) (h a b : hash) :
  repr s idx steps -> idx = i \/ idx = S i -> (length steps <= 31)%nat ->
  src !! i = Some a -> src !! S i = Some b -> src !! idx = Some (ascend h steps) ->
  exists s' o, branch_step src s (Z.of_nat i) (Z.of_nat j) = Val s' /\
    repr s' j (steps ++ [(bool_decide (idx = S i), o)]) /\
    ascend h (steps ++ [(bool_decide (idx = S i), o)]) = H a b.
Proof.
  intros Hr Hi Hl Ha Hb Hx. unfold branch_step. rewrite (repr_below s idx i steps Hr), bool_decide_true by done.
  destruct Hr as (E & Eb & Ep). unfold sibling. rewrite E.
  assert (negb (Z.of_nat idx =? Z.of_nat i) = bool_decide (idx = S i)) as Hbit.
  { case_bool_decide; [apply negb_true_iff, Z.eqb_neq; lia|]. apply negb_false_iff, Z.eqb_eq. lia. }
  exists (climb s (Z.of_nat i) (Z.of_nat j) (if bool_decide (idx = S i) then a else b)),
    (if bool_decide (idx = S i) then a else b).
  assert (c_index src (if Z.of_nat idx =? Z.of_nat i then Z.of_nat i + 1 else Z.of_nat i)
          = Val (if bool_decide (idx = S i) then a else b)) as ->.
  { rewrite <- Hbit. destruct (Z.of_nat idx =? Z.of_nat i); cbn [negb]; [|by apply c_index_nat].
    replace (Z.of_nat i + 1) with (Z.of_nat (S i)) by lia. by apply c_index_nat. }
  run. split; [done|]. split.
  - split; [done|]. cbn [climb branch path]. rewrite E, Eb, Ep, map_app, Hbit. split; [done|].
    by apply push_bit_bits.
  - rewrite ascend_snoc. unfold apply_step. cbn [fst snd]. case_bool_decide as Hd.
    + subst idx. rewrite Hb in Hx. injection Hx as <-. done.
    + assert (idx = i) as -> by lia. rewrite Ha in Hx. injection Hx as <-. done.
Qed.

(** ** Loops *)

(** A round of a loop in place, at the pair [m] of [L]. *)
Lemma pair_at (L G : list hash) (c m : nat) :
  length L = (2 * c)%nat -> (m < c)%nat ->
  exists a b, (L ++ G) !! (2 * m)%nat = Some a /\ (L ++ G) !! S (2 * m) = Some b /\ pairs H L !! m = Some (H a b) /\
    partly m (pairs H L) (L ++ G) !! (2 * m)%nat = Some a /\ partly m (pairs H L) (L ++ G) !! S (2 * m) = Some b.
Proof.
  intros Hl Hm. destruct (lookup_lt_is_Some_2 L (2 * m)) as [a Ha]; [lia|].
  destruct (lookup_lt_is_Some_2 L (S (2 * m))) as [b Hb]; [lia|]. exists a, b.
  pose proof (pairs_length H c L Hl). rewrite !partly_lookup by lia. rewrite !lookup_app_l by lia.
  split_and!; try done. apply pairs_lookup; [done|]. by replace (2 * m + 1)%nat with (S (2 * m)) by lia.
Qed.

Lemma pair_write (L G : list hash) (c m : nat) (x : hash) :
  length L = (2 * c)%nat -> (m < c)%nat -> pairs H L !! m = Some x ->
  c_update (partly m (pairs H L) (L ++ G)) (Z.of_nat m) x = Val (partly (S m) (pairs H L) (L ++ G)).
Proof.
  intros Hl Hm Hx. pose proof (pairs_length H c L Hl). rewrite c_update_nat.
  - rewrite partly_update by (done || rewrite length_app; lia). done.
  - rewrite partly_length by (rewrite ?length_app; lia). rewrite length_app. lia.
Qed.

Lemma partly_all (L G : list hash) (c : nat) :
  length L = (2 * c)%nat -> partly c (pairs H L) (L ++ G) = pairs H L ++ drop c (L ++ G).
Proof. intros Hl. unfold partly. rewrite take_ge; [done|]. by rewrite (pairs_length H c L Hl). Qed.

Ltac next_pair m :=
  replace (Z.of_nat (2 * m) + 1) with (Z.of_nat (S (2 * m))) by lia;
  replace (Z.of_nat (2 * m) + 2) with (Z.of_nat (2 * S m)) by lia;
  replace (Z.of_nat m + 1) with (Z.of_nat (S m)) by lia.

Lemma level_loop_spec (L G : list hash) (c n m : nat) :
  length L = (2 * c)%nat -> (m + n = c)%nat ->
  level_loop H n (partly m (pairs H L) (L ++ G)) (Z.of_nat (2 * m)) (Z.of_nat m) = Val (pairs H L ++ drop c (L ++ G)).
Proof.
  intros Hl. revert m. induction n as [|n IH]; intros m Hm; cbn [level_loop].
  - replace m with c by lia. by rewrite partly_all.
  - destruct (pair_at L G c m Hl ltac:(lia)) as (a & b & _ & _ & Hp & Ha & Hb). next_pair m.
    rewrite (c_index_nat _ _ _ Ha). run. rewrite (c_index_nat _ _ _ Hb). run.
    rewrite (pair_write L G c m _ Hl ltac:(lia) Hp). run. apply IH. lia.
Qed.

(** Past the pair of the leaf, its state does not change. *)
Lemma branch_level_after (L G : list hash) (c n m idx : nat) (s : branch_state) (steps : list step) :
  length L = (2 * c)%nat -> (m + n = c)%nat -> repr s idx steps -> (idx < 2 * m)%nat ->
  branch_level_loop H n (partly m (pairs H L) (L ++ G)) (Z.of_nat (2 * m)) (Z.of_nat m) s
  = Val (pairs H L ++ drop c (L ++ G), s).
Proof.
  intros Hl. revert m. induction n as [|n IH]; intros m Hm Hr Hi; cbn [branch_level_loop].
  - replace m with c by lia. by rewrite partly_all.
  - destruct (pair_at L G c m Hl ltac:(lia)) as (a & b & _ & _ & Hp & Ha & Hb).
    rewrite (step_skip _ s idx (2 * m) m steps Hr) by lia. run. next_pair m.
    rewrite (c_index_nat _ _ _ Ha). run. rewrite (c_index_nat _ _ _ Hb). run.
    rewrite (pair_write L G c m _ Hl ltac:(lia) Hp). run. apply IH; (done || lia).
Qed.

(** A level follows the leaf to half its position. *)
Lemma branch_level_spec (L G : list hash) (c n m idx : nat) (s : branch_state) (steps : list step) (h : hash) :
  length L = (2 * c)%nat -> (m + n = c)%nat -> repr s idx steps -> (2 * m <= idx < 2 * c)%nat ->
  (length steps <= 31)%nat -> L !! idx = Some (ascend h steps) ->
  exists s' o, branch_level_loop H n (partly m (pairs H L) (L ++ G)) (Z.of_nat (2 * m)) (Z.of_nat m) s
      = Val (pairs H L ++ drop c (L ++ G), s') /\
    repr s' (idx / 2) (steps ++ [(Nat.odd idx, o)]) /\
    pairs H L !! (idx / 2)%nat = Some (ascend h (steps ++ [(Nat.odd idx, o)])).
Proof.
  intros Hl. revert m. induction n as [|n IH]; intros m Hm Hr Hi Hs Hx; [lia|]. cbn [branch_level_loop].
  destruct (pair_at L G c m Hl ltac:(lia)) as (a & b & Ha0 & Hb0 & Hp & Ha & Hb).
  destruct (decide (idx < 2 * S m)%nat) as [Hin|Hout].
  - assert (partly m (pairs H L) (L ++ G) !! idx = Some (ascend h steps)) as Hx'.
    { rewrite partly_lookup; [by rewrite lookup_app_l by lia| |lia]. rewrite (pairs_length H c L Hl). lia. }
    destruct (step_climb _ s idx (2 * m) m steps h a b Hr ltac:(lia) Hs Ha Hb Hx') as (s' & o & -> & Hr' & Hasc).
    destruct (side_bit idx 0 m ltac:(lia)) as [Hdiv Hodd]. rewrite Nat.sub_0_r in Hdiv, Hodd. cbn [Nat.add] in Hodd.
    rewrite Hodd in *. exists s', o. rewrite Hdiv. run. next_pair m.
    rewrite (c_index_nat _ _ _ Ha). run. rewrite (c_index_nat _ _ _ Hb). run.
    rewrite (pair_write L G c m _ Hl ltac:(lia) Hp). run.
    rewrite (branch_level_after L G c n (S m) m s' _ Hl ltac:(lia) Hr' ltac:(lia)).
    split; [done|]. split; [done|]. rewrite Hp. by rewrite Hasc.
  - rewrite (step_skip _ s idx (2 * m) m steps Hr) by lia. run. next_pair m.
    rewrite (c_index_nat _ _ _ Ha). run. rewrite (c_index_nat _ _ _ Hb). run.
    rewrite (pair_write L G c m _ Hl ltac:(lia) Hp). run. apply IH; (done || lia).
Qed.

(** [tree_path] follows a position through a loop that starts at [k]. *)
Lemma path_loop_spec (k c n m idx : nat) (p : Z) :
  (m + n = c)%nat ->
  path_loop n (Z.of_nat (k + 2 * m)) (Z.of_nat (k + m)) (Z.of_nat idx) p =
  if decide (k + 2 * m <= idx < k + 2 * c)%nat
  then (Z.of_nat (k + 2 * c), Z.of_nat (k + (idx - k) / 2), push_bit p (Nat.odd (idx - k)))
  else (Z.of_nat (k + 2 * c), Z.of_nat idx, p).
Proof.
  revert m idx p. induction n as [|n IH]; intros m idx p Hm; cbn [path_loop].
  { rewrite decide_False by lia. by replace m with c by lia. }
  replace (Z.of_nat (k + 2 * m) + 2) with (Z.of_nat (k + 2 * S m)) by lia.
  replace (Z.of_nat (k + m) + 1) with (Z.of_nat (k + S m)) by lia.
  destruct (Z.eqb_spec (Z.of_nat idx) (Z.of_nat (k + 2 * m))) as [E|E]; cbn [orb negb].
  { assert (idx - k = 2 * m)%nat as Ei by lia. rewrite IH by lia. rewrite decide_False by lia. rewrite decide_True by lia.
    by destruct (halves (idx - k) m) as [[-> ->] _]. }
  destruct (Z.eqb_spec (Z.of_nat idx) (Z.of_nat (k + 2 * m) + 1)) as [E'|E'].
  { assert (idx - k = S (2 * m))%nat as Ei by lia. rewrite IH by lia. rewrite decide_False by lia. rewrite decide_True by lia.
    by destruct (halves (idx - k) m) as [_ [-> ->]]. }
  rewrite IH by lia. apply decide_ext. lia.
Qed.

(** ** The first loop: the leaves [A] are kept, those of [B] are paired. *)

Lemma first_pair (A B : list hash) (c m : nat) :
  length B = (2 * c)%nat -> (m < c)%nat ->
  exists a b, (A ++ B) !! (length A + 2 * m)%nat = Some a /\ (A ++ B) !! S (length A + 2 * m) = Some b /\
    pairs H B !! m = Some (H a b).
Proof.
  intros Hl Hm. destruct (pair_at B [] c m Hl Hm) as (a & b & Ha & Hb & Hp & _). rewrite app_nil_r in *.
  exists a, b. rewrite <- Nat.add_succ_r, !lookup_app_r by lia.
  replace (length A + 2 * m - length A)%nat with (2 * m)%nat by lia.
  by replace (length A + S (2 * m) - length A)%nat with (S (2 * m)) by lia.
Qed.

Lemma first_write (A B : list hash) (c m : nat) (x : hash) :
  length B = (2 * c)%nat -> (m < c)%nat -> pairs H B !! m = Some x ->
  c_update (A ++ partly m (pairs H B) (replicate c zero)) (Z.of_nat (length A + m)) x
  = Val (A ++ partly (S m) (pairs H B) (replicate c zero)).
Proof.
  intros Hl Hm Hx. pose proof (pairs_length H c B Hl). rewrite c_update_nat.
  - rewrite insert_app_r_alt by lia. replace (length A + m - length A)%nat with m by lia.
    by rewrite partly_update by (done || rewrite length_replicate; lia).
  - rewrite length_app, partly_length by (rewrite ?length_replicate; lia). rewrite length_replicate. lia.
Qed.

Lemma first_all (A B : list hash) (c : nat) :
  length B = (2 * c)%nat -> A ++ partly c (pairs H B) (replicate c zero) = A ++ pairs H B.
Proof.
  intros Hl. unfold partly. rewrite take_ge by (rewrite (pairs_length H c B Hl); lia).
  by rewrite drop_ge, app_nil_r by (rewrite length_replicate; lia).
Qed.

Ltac next_first A m :=
  replace (Z.of_nat (length A + 2 * m) + 1) with (Z.of_nat (S (length A + 2 * m))) by lia;
  replace (Z.of_nat (length A + 2 * m) + 2) with (Z.of_nat (length A + 2 * S m)) by lia;
  replace (Z.of_nat (length A + m) + 1) with (Z.of_nat (length A + S m)) by lia.

Lemma first_loop_spec (A B : list hash) (c n m : nat) :
  length B = (2 * c)%nat -> (m + n = c)%nat ->
  first_loop H n (A ++ B) (A ++ partly m (pairs H B) (replicate c zero)) (Z.of_nat (length A + 2 * m)) (Z.of_nat (length A + m))
  = Val (A ++ pairs H B, Z.of_nat (length A + 2 * c)).
Proof.
  intros Hl. revert m. induction n as [|n IH]; intros m Hm; cbn [first_loop].
  - replace m with c by lia. by rewrite first_all.
  - destruct (first_pair A B c m Hl ltac:(lia)) as (a & b & Ha & Hb & Hp). next_first A m.
    rewrite (c_index_nat _ _ _ Ha). run. rewrite (c_index_nat _ _ _ Hb). run.
    rewrite (first_write A B c m _ Hl ltac:(lia) Hp). run. apply IH. lia.
Qed.

Lemma branch_first_after (A B : list hash) (c n m idx : nat) (s : branch_state) (steps : list step) :
  length B = (2 * c)%nat -> (m + n = c)%nat -> repr s idx steps -> (idx < length A + 2 * m)%nat ->
  branch_first_loop H n (A ++ B) (A ++ partly m (pairs H B) (replicate c zero))
    (Z.of_nat (length A + 2 * m)) (Z.of_nat (length A + m)) s
  = Val (A ++ pairs H B, Z.of_nat (length A + 2 * c), s).
Proof.
  intros Hl. revert m. induction n as [|n IH]; intros m Hm Hr Hi; cbn [branch_first_loop].
  - replace m with c by lia. by rewrite first_all.
  - destruct (first_pair A B c m Hl ltac:(lia)) as (a & b & Ha & Hb & Hp).
    rewrite (step_skip _ s idx (length A + 2 * m) (length A + m) steps Hr) by lia. run. next_first A m.
    rewrite (c_index_nat _ _ _ Ha). run. rewrite (c_index_nat _ _ _ Hb). run.
    rewrite (first_write A B c m _ Hl ltac:(lia) Hp). run. apply IH; (done || lia).
Qed.

(** The first loop follows a leaf that is paired; others are before it. *)
Lemma branch_first_spec (A B : list hash) (c n m idx : nat) (s : branch_state) (h : hash) :
  length B = (2 * c)%nat -> (m + n = c)%nat -> repr s idx [] -> (length A + 2 * m <= idx < length A + 2 * c)%nat ->
  (A ++ B) !! idx = Some h ->
  exists s' o, branch_first_loop H n (A ++ B) (A ++ partly m (pairs H B) (replicate c zero))
      (Z.of_nat (length A + 2 * m)) (Z.of_nat (length A + m)) s
      = Val (A ++ pairs H B, Z.of_nat (length A + 2 * c), s') /\
    repr s' (length A + (idx - length A) / 2) [(Nat.odd (idx - length A), o)] /\
    (A ++ pairs H B) !! (length A + (idx - length A) / 2)%nat = Some (ascend h [(Nat.odd (idx - length A), o)]).
Proof.
  intros Hl. revert m. induction n as [|n IH]; intros m Hm Hr Hi Hx; [lia|]. cbn [branch_first_loop].
  destruct (first_pair A B c m Hl ltac:(lia)) as (a & b & Ha & Hb & Hp).
  destruct (decide (idx < length A + 2 * S m)%nat) as [Hin|Hout].
  - destruct (step_climb (A ++ B) s idx (length A + 2 * m) (length A + m) [] h a b Hr ltac:(lia) ltac:(cbn; lia) Ha Hb Hx)
      as (s' & o & -> & Hr' & Hasc). cbn [app] in Hr', Hasc.
    destruct (side_bit idx (length A) m ltac:(lia)) as [Hdiv Hodd].
    rewrite Hodd in *. exists s', o. rewrite Hdiv. run. next_first A m.
    rewrite (c_index_nat _ _ _ Ha). run. rewrite (c_index_nat _ _ _ Hb). run.
    rewrite (first_write A B c m _ Hl ltac:(lia) Hp). run.
    rewrite (branch_first_after A B c n (S m) (length A + m) s' _ Hl ltac:(lia) Hr' ltac:(lia)).
    split; [done|]. split; [done|]. rewrite lookup_app_r by lia.
    replace (length A + m - length A)%nat with m by lia. rewrite Hp. by rewrite Hasc.
  - rewrite (step_skip _ s idx (length A + 2 * m) (length A + m) [] Hr) by lia. run. next_first A m.
    rewrite (c_index_nat _ _ _ Ha). run. rewrite (c_index_nat _ _ _ Hb). run.
    rewrite (first_write A B c m _ Hl ltac:(lia) Hp). run. apply IH; (done || lia).
Qed.

(** ** Levels *)

(** The one element left after [k] levels. *)
Fixpoint top {A} (f : A -> A -> A) (k : nat) (l : list A) : option A :=
  match k with
  | O => head l
  | S k => top f k (pairs f l)
  end.

Lemma pow2_S (k : nat) : (2 ^ S k = 2 * 2 ^ k)%nat.
Proof. cbn. lia. Qed.

Lemma pow2_half (k : nat) : (1 <= k)%nat -> Z.shiftr (2 ^ Z.of_nat (S k)) 1 = 2 ^ Z.of_nat k.
Proof.
  intros Hk. rewrite Z.shiftr_div_pow2, Nat2Z.inj_succ, Z.pow_succ_r by lia.
  by rewrite Z.mul_comm, Z.pow_1_r, Z.div_mul by lia.
Qed.

Lemma pow2_Z (k : nat) : Z.to_nat (2 ^ Z.of_nat k) = (2 ^ k)%nat.
Proof. rewrite <- (Nat2Z.id (2 ^ k)). f_equal. by rewrite Nat2Z.inj_pow. Qed.

Lemma pow2_gt (k : nat) : (2 <? 2 ^ Z.of_nat (S k)) = bool_decide (k <> O).
Proof.
  rewrite Nat2Z.inj_succ, Z.pow_succ_r by lia. destruct k as [|k]; [done|].
  rewrite Nat2Z.inj_succ, Z.pow_succ_r by lia. rewrite bool_decide_true by done.
  assert (0 < 2 ^ Z.of_nat k) by (apply Z.pow_pos_nonneg; lia). apply Z.ltb_lt. lia.
Qed.

Lemma levels_spec (k fuel : nat) (L G : list hash) :
  (k <= fuel)%nat -> length L = (2 ^ S k)%nat ->
  exists L' G', levels H fuel (L ++ G) (2 ^ Z.of_nat (S k)) = Val (L' ++ G') /\
    length L' = 2%nat /\ top H 1 L' = top H (S k) L.
Proof.
  revert fuel L G. induction k as [|k IH]; intros fuel L G Hk Hl.
  { exists L, G. split; [|done]. by destruct fuel. }
  destruct fuel as [|fuel]; [lia|]. cbn [levels]. rewrite pow2_gt, bool_decide_true by done. cbv zeta.
  rewrite pow2_half, pow2_Z by lia. rewrite pow2_S in Hl.
  pose proof (level_loop_spec L G (2 ^ S k) (2 ^ S k) 0 Hl ltac:(lia)) as E.
  change (partly 0 (pairs H L) (L ++ G)) with (L ++ G) in E. change (Z.of_nat (2 * 0)) with 0 in E. change (Z.of_nat 0) with 0 in E. rewrite E. run.
  apply IH; [lia|]. by apply pairs_length.
Qed.

(** [branch_levels] and [path_levels] follow the leaf to the last pair. *)
Lemma branch_levels_spec (k fuel idx : nat) (L G : list hash) (s : branch_state) (steps : list step) (h : hash) :
  (k <= fuel)%nat -> length L = (2 ^ S k)%nat -> repr s idx steps -> (length steps + k <= 31)%nat ->
  L !! idx = Some (ascend h steps) ->
  exists L' G' s' idx' steps',
    branch_levels H fuel (L ++ G) (2 ^ Z.of_nat (S k)) s = Val (L' ++ G', s') /\
    path_levels fuel (2 ^ Z.of_nat (S k)) (Z.of_nat idx) (path s) = Val (Z.of_nat idx', path s') /\
    length L' = 2%nat /\ top H 1 L' = top H (S k) L /\
    repr s' idx' steps' /\ length steps' = (length steps + k)%nat /\ L' !! idx' = Some (ascend h steps').
Proof.
  revert fuel idx L G s steps. induction k as [|k IH]; intros fuel idx L G s steps Hk Hl Hr Hs Hx.
  { exists L, G, s, idx, steps. rewrite Nat.add_0_r. by destruct fuel. }
  destruct fuel as [|fuel]; [lia|]. cbn [branch_levels path_levels]. rewrite pow2_gt, bool_decide_true by done. cbv zeta.
  rewrite pow2_half, pow2_Z by lia. rewrite pow2_S in Hl. pose proof (lookup_lt_Some _ _ _ Hx) as Hi.
  destruct (branch_level_spec L G (2 ^ S k) (2 ^ S k) 0 idx s steps h Hl ltac:(lia) Hr ltac:(lia) ltac:(lia) Hx)
    as (s' & o & E & Hr' & Hx').
  change (partly 0 (pairs H L) (L ++ G)) with (L ++ G) in E. change (Z.of_nat (2 * 0)) with 0 in E. change (Z.of_nat 0) with 0 in E. rewrite E. run.
  pose proof (path_loop_spec 0 (2 ^ S k) (2 ^ S k) 0 idx (path s) ltac:(lia)) as Ep.
  rewrite decide_True in Ep by lia. change (Z.of_nat (0 + 2 * 0)) with 0 in Ep. change (Z.of_nat (0 + 0)) with 0 in Ep.
  rewrite Nat.sub_0_r in Ep. rewrite Ep. change (0 + idx / 2)%nat with (idx / 2)%nat.
  assert (push_bit (path s) (Nat.odd idx) = path s') as ->.
  { destruct Hr as (_ & _ & ->), Hr' as (_ & _ & ->). apply push_bit_bits. lia. }
  destruct (IH fuel (idx / 2)%nat (pairs H L) (drop (2 ^ S k) (L ++ G)) s' (steps ++ [(Nat.odd idx, o)]))
    as (L' & G' & s2 & idx' & steps' & E1 & E2 & H1 & H2 & H3 & H4 & H5);
    [lia | by apply pairs_length | done | rewrite length_app; cbn; lia | done |].
  exists L', G', s2, idx', steps'. split_and!; try done. rewrite H4, length_app. cbn. lia.
Qed.

(** ** The shape of the tree *)

Lemma cnt_loop_spec (fuel : nat) (a count : Z) :
  1 <= a -> 2 ^ (a - 1) < count -> count <= 2 ^ 28 -> 28 - a <= Z.of_nat fuel ->
  exists b, cnt_loop fuel (2 ^ a) count = Val (2 ^ b) /\ a <= b <= 28 /\ 2 ^ (b - 1) < count <= 2 ^ b.
Proof.
  revert a. induction fuel as [|fuel IH]; intros a Ha Hlo Hhi Hf; cbn [cnt_loop].
  - assert (a - 1 < 28) by (apply (Z.pow_lt_mono_r_iff 2); lia). assert (a = 28) as -> by lia.
    rewrite (proj2 (Z.ltb_ge _ _)) by lia. exists 28. done.
  - assert (a - 1 < 28) by (apply (Z.pow_lt_mono_r_iff 2); lia). destruct (Z.ltb_spec (2 ^ a) count) as [Hlt|Hge].
    + assert (a < 28) by (apply (Z.pow_lt_mono_r_iff 2); lia).
      assert (shl64 (2 ^ a) 1 = 2 ^ (a + 1)) as ->.
      { assert (2 ^ (a + 1) < 2 ^ 64) by (apply Z.pow_lt_mono_r; lia). assert (0 < 2 ^ (a + 1)) by (apply Z.pow_pos_nonneg; lia).
        unfold shl64, u64. rewrite Z.shiftl_mul_pow2, <- Z.pow_add_r by lia. apply Z.mod_small. lia. }
      destruct (IH (a + 1)) as (b & E & Hb & Hc); [lia|by replace (a + 1 - 1) with a by lia|lia|lia|].
      exists b. split; [done|]. split; [lia|done].
    + exists a. split; [done|]. split; [lia|done].
Qed.

(** [tree_hash_cnt] is the largest power of two below the count. *)
Lemma cnt_spec (count : Z) :
  3 <= count <= 2 ^ 28 ->
  exists k : nat, tree_hash_cnt ndebug count = Val (2 ^ Z.of_nat (S k)) /\ (k <= 26)%nat /\
    2 ^ Z.of_nat (S k) < count <= 2 * 2 ^ Z.of_nat (S k).
Proof.
  intros Hc. unfold tree_hash_cnt. rewrite !c_assert_true by lia. run. run.
  destruct (cnt_loop_spec 64 1 count) as (b & E & Hb & Hlo & Hhi); [lia|cbn; lia|lia|lia|].
  change (2 ^ 1) with 2 in E. rewrite E. run.
  assert (1 < b) by (apply (Z.pow_lt_mono_r_iff 2); [lia..|]; change (2 ^ 1) with 2; lia).
  exists (Z.to_nat (b - 2)). replace (Z.of_nat (S (Z.to_nat (b - 2)))) with (b - 1) by lia.
  rewrite Z.shiftr_div_pow2 by lia. replace (2 ^ b) with (2 * 2 ^ (b - 1)) in * by (rewrite <- Z.pow_succ_r by lia; f_equal; lia).
  rewrite Z.mul_comm, Z.pow_1_r, Z.div_mul by lia. split; [done|]. split; [lia|]. lia.
Qed.

(** The leaves [A] that stay, the leaves [B] that are paired first, and their sizes. *)
Record layout (hashes A B : list hash) (c k : nat) : Prop := {
  lay_split : hashes = A ++ B;
  lay_B : length B = (2 * c)%nat;
  lay_cnt : (length A + c = 2 ^ S k)%nat;
  lay_k : (k <= 26)%nat;
  lay_hash_cnt : tree_hash_cnt ndebug (Z.of_nat (length hashes)) = Val (2 ^ Z.of_nat (S k));
  lay_start : u64 (2 * 2 ^ Z.of_nat (S k) - Z.of_nat (length hashes)) = Z.of_nat (length A);
}.

Lemma layout_exists (hashes : list hash) :
  3 <= Z.of_nat (length hashes) <= 2 ^ 28 -> exists A B c k, layout hashes A B c k.
Proof.
  intros Hl. destruct (cnt_spec _ Hl) as (k & E & Hk & Hlo & Hhi).
  assert (2 ^ Z.of_nat (S k) = Z.of_nat (2 ^ S k)) as Ep by (rewrite Nat2Z.inj_pow; done). rewrite Ep in *.
  set (start := (2 * 2 ^ S k - length hashes)%nat).
  exists (take start hashes), (drop start hashes), (length hashes - 2 ^ S k)%nat, k.
  assert (length (take start hashes) = start) as Hs by (rewrite length_take; lia). split.
  - by rewrite take_drop.
  - rewrite length_drop. lia.
  - rewrite Hs. lia.
  - done.
  - by rewrite E, Ep.
  - rewrite Hs, Ep. rewrite u64_small; [lia|]. unfold in_u64. lia.
Qed.

(** The array before the first loop. *)
Lemma layout_copy (hashes A B : list hash) (c k : nat) :
  layout hashes A B c k ->
  copy_hashes zero hashes (Z.of_nat (length A)) (2 ^ Z.of_nat (S k))
  = Val (A ++ partly 0 (pairs H B) (replicate c zero)).
Proof.
  intros [Hs HB Hc Hk _ _]. unfold copy_hashes. subst hashes.
  assert (2 ^ Z.of_nat (S k) = Z.of_nat (length A + c)) as -> by (rewrite Hc, Nat2Z.inj_pow; done).
  clear Hc. rewrite decide_True by (rewrite length_app; lia). rewrite Nat2Z.id, take_app_length.
  by replace (Z.to_nat (Z.of_nat (length A + c) - Z.of_nat (length A))) with c by lia.
Qed.

Lemma layout_rounds (hashes A B : list hash) (c k : nat) :
  layout hashes A B c k -> Z.to_nat (2 ^ Z.of_nat (S k) - Z.of_nat (length A)) = c.
Proof.
  intros [_ _ Hc _ _ _]. assert (2 ^ Z.of_nat (S k) = Z.of_nat (length A + c)) as -> by (rewrite Hc, Nat2Z.inj_pow; done). lia.
Qed.

Lemma layout_count (hashes A B : list hash) (c k : nat) :
  layout hashes A B c k -> Z.of_nat (length A + 2 * c) = Z.of_nat (length hashes).
Proof. intros [-> HB _ _ _ _]. rewrite length_app, HB. done. Qed.

Lemma top_last (L G : list hash) :
  length L = 2%nat ->
  exists a b, L = [a; b] /\ c_index (L ++ G) 0 = Val a /\ c_index (L ++ G) 1 = Val b /\ top H 1 L = Some (H a b).
Proof. intros Hl. destruct L as [|a [|b [|? ?]]]; try done. by exists a, b. Qed.

Lemma tree_hash_big (hashes A B : list hash) (c k : nat) :
  3 <= Z.of_nat (length hashes) -> layout hashes A B c k ->
  exists r, tree_hash H zero ndebug hashes = Val r /\ top H (S k) (A ++ pairs H B) = Some r.
Proof.
  intros Hl Hlay. unfold tree_hash. cbv zeta. rewrite c_assert_true by lia. run.
  rewrite (proj2 (Z.eqb_neq _ 1)), (proj2 (Z.eqb_neq _ 2)) by lia. rewrite (lay_hash_cnt _ _ _ _ _ Hlay). run.
  rewrite (lay_start _ _ _ _ _ Hlay), (layout_copy _ _ _ _ _ Hlay). run. rewrite (layout_rounds _ _ _ _ _ Hlay).
  pose proof (first_loop_spec A B c c 0 (lay_B _ _ _ _ _ Hlay) ltac:(lia)) as E.
  rewrite <- (lay_split _ _ _ _ _ Hlay), !Nat.add_0_r in E. rewrite E. run.
  rewrite (layout_count _ _ _ _ _ Hlay), c_assert_true by lia. run.
  destruct (levels_spec k 64 (A ++ pairs H B) []) as (L & G & EL & HL & Ht).
  { pose proof (lay_k _ _ _ _ _ Hlay). lia. }
  { rewrite length_app, (pairs_length H c B (lay_B _ _ _ _ _ Hlay)). apply Hlay. }
  rewrite app_nil_r in EL. rewrite EL. run. destruct (top_last L G HL) as (a & b & -> & Ha & Hb & Et).
  rewrite Ha. run. rewrite Hb. run. exists (H a b). by rewrite <- Ht.
Qed.

(** The first round of [tree_branch] and of [tree_path]. *)
Lemma first_round (hashes A B : list hash) (c k idx : nat) (h : hash) :
  layout hashes A B c k -> hashes !! idx = Some h ->
  exists s idx' steps,
    branch_first_loop H c hashes (A ++ partly 0 (pairs H B) (replicate c zero)) (Z.of_nat (length A)) (Z.of_nat (length A))
      {| at_idx := Z.of_nat idx; branch := []; path := 0 |} = Val (A ++ pairs H B, Z.of_nat (length hashes), s) /\
    path_loop c (Z.of_nat (length A)) (Z.of_nat (length A)) (Z.of_nat idx) 0
      = (Z.of_nat (length hashes), Z.of_nat idx', path s) /\
    repr s idx' steps /\ (length steps <= 1)%nat /\ (A ++ pairs H B) !! idx' = Some (ascend h steps).
Proof.
  intros Hlay Hidx. pose proof (layout_count _ _ _ _ _ Hlay) as Hlen. destruct Hlay as [Hs HB _ _ _ _]. subst hashes.
  set (s0 := {| at_idx := Z.of_nat idx; branch := []; path := 0 |}). assert (repr s0 idx []) as Hr0 by done.
  pose proof (lookup_lt_Some _ _ _ Hidx) as Hi.
  pose proof (path_loop_spec (length A) c c 0 idx 0 ltac:(lia)) as Ep. rewrite !Nat.add_0_r in Ep. rewrite Ep, <- Hlen.
  case_decide as Hd.
  - destruct (branch_first_spec A B c c 0 idx s0 h HB ltac:(lia) Hr0 ltac:(lia) Hidx) as (s1 & o & E & Hr & Hx).
    rewrite !Nat.add_0_r in E. exists s1, (length A + (idx - length A) / 2)%nat, [(Nat.odd (idx - length A), o)].
    split_and!; try done. destruct Hr as (_ & _ & ->). by destruct (Nat.odd _).
  - pose proof (branch_first_after A B c c 0 idx s0 [] HB ltac:(lia) Hr0) as E. rewrite !Nat.add_0_r in E.
    exists s0, idx, []. split_and!; try done; [apply E; lia|cbn; lia|].
    rewrite lookup_app_l in Hidx by lia. by rewrite lookup_app_l by lia.
Qed.

(** What [tree_branch] finds of a leaf, and [tree_path] of its position. *)
Lemma tree_branch_big (hashes A B : list hash) (c k idx : nat) (h : hash) :
  3 <= Z.of_nat (length hashes) -> layout hashes A B c k ->
  find_hash hashes h = Some (Z.of_nat idx) -> hashes !! idx = Some h ->
  exists steps, tree_branch H zero ndebug hashes h = Val (Some (map snd steps, of_digits 2 (bits steps))) /\
    tree_path ndebug (Z.of_nat (length hashes)) (Z.of_nat idx) = Val (Some (of_digits 2 (bits steps))) /\
    tree_hash H zero ndebug hashes = Val (ascend h steps) /\ (length steps <= k + 2)%nat.
Proof.
  intros Hl Hlay Hfind Hidx. pose proof (lay_k _ _ _ _ _ Hlay) as Hk.
  destruct (tree_hash_big hashes A B c k Hl Hlay) as (r & Er & Htop).
  destruct (first_round hashes A B c k idx h Hlay Hidx) as (s1 & idx1 & st1 & E1 & P1 & Hr1 & Hs1 & Hx1).
  destruct (branch_levels_spec k 64 idx1 (A ++ pairs H B) [] s1 st1 h)
    as (L & G & s2 & idx2 & st2 & E2 & P2 & HL & Ht & Hr2 & Hs2 & Hx2); [lia| |done|lia|done|].
  { rewrite length_app, (pairs_length H c B (lay_B _ _ _ _ _ Hlay)). apply Hlay. }
  rewrite app_nil_r in E2. pose proof (lookup_lt_Some _ _ _ Hx2) as Hi2.
  destruct (top_last L G HL) as (a & b & -> & _ & _ & Et).
  destruct (step_climb ([a; b] ++ G) s2 idx2 0 0 st2 h a b Hr2 ltac:(lia) ltac:(lia) eq_refl eq_refl
    ltac:(by apply lookup_app_l_Some)) as (s3 & o & E3 & Hr3 & Hx3).
  exists (st2 ++ [(bool_decide (idx2 = 1%nat), o)]).
  assert (forall x, x <= 2 -> (Z.of_nat (length hashes) =? x) = false) as Hne by (intros; apply Z.eqb_neq; lia).
  split_and!.
  - unfold tree_branch. cbv zeta. rewrite Hfind, !Hne by lia. rewrite (lay_hash_cnt _ _ _ _ _ Hlay). run.
    rewrite (lay_start _ _ _ _ _ Hlay), (layout_copy _ _ _ _ _ Hlay). run. rewrite (layout_rounds _ _ _ _ _ Hlay), E1.
    run. rewrite c_assert_true by lia. run. rewrite E2. run. change (Z.of_nat 0) with 0 in E3. rewrite E3. run.
    by destruct Hr3 as (_ & -> & ->).
  - unfold tree_path. cbv zeta. rewrite !Hne by lia. rewrite (lay_hash_cnt _ _ _ _ _ Hlay). run.
    rewrite (lay_start _ _ _ _ _ Hlay), (layout_rounds _ _ _ _ _ Hlay), P1.
    rewrite c_assert_true by lia. run. rewrite P2. run. do 2 f_equal. destruct Hr2 as (_ & _ & ->).
    rewrite <- push_bit_bits by lia. destruct idx2 as [|[|idx2]]; [done|done|cbn in HL, Hi2; lia].
  - rewrite Er. f_equal. congruence.
  - rewrite length_app. cbn [length]. lia.
Qed.

(** ** The check of a branch *)

Lemma bits_testbit (st1 st2 : list step) (b : bool) (o : hash) :
  Z.testbit (of_digits 2 (bits (st1 ++ (b, o) :: st2))) (Z.of_nat (length st2)) = b.
Proof.
  unfold bits. rewrite map_app. cbn [map fst]. rewrite of_digits_app, of_digits_cons. cbn [length]. rewrite !length_map.
  fold (bits st1) (bits st2). pose proof (bits_bound st2) as H2.
  rewrite Nat2Z.inj_succ, Z.pow_succ_r by lia. set (p := 2 ^ _) in *. set (x := of_digits _ _). set (y := of_digits _ _) in *.
  rewrite Z.testbit_eqb by lia. fold p.
  replace (x * (2 * p) + (bit b * p + y)) with (y + (bit b + x * 2) * p) by lia.
  rewrite Z.div_add, Z.div_small, Z.add_0_l, Z.mod_add by lia. by destruct b.
Qed.

Lemma branch_hash_loop_spec (st2 st1 : list step) (h : hash) :
  (length (st1 ++ st2) <= 32)%nat ->
  branch_hash_loop H (map snd st2) (Z.of_nat (length st1)) (Z.of_nat (length (st1 ++ st2)))
    (of_digits 2 (bits (st1 ++ st2))) (ascend h st1) = Val (ascend h (st1 ++ st2)).
Proof.
  revert st1. induction st2 as [|[b o] st2 IH]; intros st1 Hl; [by rewrite app_nil_r|]. cbn [map branch_hash_loop snd].
  unfold c_bit32. rewrite length_app in *. cbn [length] in *. rewrite decide_True by lia.
  replace (Z.of_nat (length st1 + S (length st2)) - Z.of_nat (length st1) - 1) with (Z.of_nat (length st2)) by lia.
  rewrite bits_testbit. run. specialize (IH (st1 ++ [(b, o)])). rewrite <- app_assoc, ascend_snoc in IH. cbn [app] in IH.
  rewrite !length_app in IH. cbn [length] in IH.
  replace (Z.of_nat (length st1 + 1)) with (Z.of_nat (length st1) + 1) in IH by lia. apply IH. lia.
Qed.

Lemma tree_branch_hash_spec (steps : list step) (h : hash) :
  (length steps <= 32)%nat ->
  tree_branch_hash H h (map snd steps) (of_digits 2 (bits steps)) = Val (ascend h steps).
Proof. intros Hl. unfold tree_branch_hash. rewrite length_map. by apply (branch_hash_loop_spec steps []). Qed.

(** The steps of a branch. *)
Definition steps_of (br : list hash) (p : Z) : list step := zip (Z.eqb 1 <$> to_digits 2 (length br) p) br.

Lemma steps_of_branch (br : list hash) (p : Z) :
  0 <= p < 2 ^ Z.of_nat (length br) -> map snd (steps_of br p) = br /\ of_digits 2 (bits (steps_of br p)) = p.
Proof.
  intros Hp. pose proof (to_digits_range 2 (length br) p ltac:(lia)) as Hd.
  pose proof (to_digits_length 2 (length br) p) as Hl. unfold steps_of. split.
  - by rewrite snd_zip by (rewrite length_fmap; lia).
  - rewrite <- (of_to_digits 2 (length br) p) at 2 by lia. f_equal. set (ds := to_digits 2 (length br) p) in *. clearbody ds.
    clear Hp. revert br Hl. induction Hd as [|d ds Hd Hds IH]; intros [|x br] Hl; try done. cbn.
    f_equal; [|apply IH; cbn in Hl; lia]. unfold is_digit in Hd. destruct d as [|[]|]; cbn; lia.
Qed.

Lemma steps_of_steps (steps : list step) : steps_of (map snd steps) (of_digits 2 (bits steps)) = steps.
Proof.
  unfold steps_of. rewrite length_map. assert (length steps = length (bits steps)) as -> by (unfold bits; by rewrite length_map).
  rewrite to_of_digits by (lia || apply bits_digits).
  induction steps as [|[b o] steps IH]; [done|]. cbn. f_equal; [by destruct b|apply IH].
Qed.

Lemma bits_inj (steps steps' : list step) :
  length steps = length steps' -> of_digits 2 (bits steps) = of_digits 2 (bits steps') -> bits steps = bits steps'.
Proof.
  intros Hl E. assert (length (bits steps) = length (bits steps')) as Hb by (unfold bits; by rewrite !length_map).
  rewrite <- (to_of_digits 2 (bits steps)), <- (to_of_digits 2 (bits steps')) by (lia || apply bits_digits).
  by rewrite Hb, E.
Qed.

(** What is hashed on the way up. *)
Fixpoint inputs (h : hash) (steps : list step) : list (hash * hash) :=
  match steps with
  | [] => []
  | st :: steps => (if st.1 then (st.2, h) else (h, st.2)) :: inputs (apply_step h st) steps
  end.

Lemma ascend_collision (steps steps' : list step) (h h' : hash) :
  bits steps = bits steps' -> ascend h steps = ascend h' steps' -> h <> h' ->
  exists x y, In x (inputs h steps) /\ In y (inputs h' steps') /\ x <> y /\ H x.1 x.2 = H y.1 y.2.
Proof.
  revert steps' h h'. induction steps as [|[b o] st IH]; intros [|[b' o'] st'] h h' Hb Ha Hn; try done.
  cbn in Hb. injection Hb as Hbb Hb. assert (b = b') as <- by (by destruct b, b').
  destruct (decide (apply_step h (b, o) = apply_step h' (b, o'))) as [E|E].
  - exists (if b then (o, h) else (h, o)), (if b then (o', h') else (h', o')). cbn [inputs fst snd].
    split_and!; [by left|by left|destruct b; congruence|]. by destruct b.
  - destruct (IH st' _ _ Hb Ha E) as (x & y & Hx & Hy & Hxy). exists x, y. cbn [inputs]. split_and!; [by right|by right|apply Hxy|apply Hxy].
Qed.

(** A branch that is accepted for two hashes. *)
Lemma moved_branch (steps : list step) (h h' : hash) (br' : list hash) :
  let p := of_digits 2 (bits steps) in
  (length steps <= 32)%nat -> length br' = length steps ->
  is_branch_in_tree H h' (ascend h steps) br' p = Val true -> h' <> h ->
  exists x y, In x (inputs h steps) /\ In y (inputs h' (steps_of br' p)) /\ x <> y /\ H x.1 x.2 = H y.1 y.2.
Proof.
  cbv zeta. intros E4 Hlen Hacc Hne. pose proof (bits_bound steps) as Hp. rewrite <- Hlen in Hp.
  destruct (steps_of_branch br' _ Hp) as [Eb Ep]. set (steps' := steps_of br' _) in *.
  assert (length steps' = length steps) as Hs by (by rewrite <- Hlen, <- Eb, length_map).
  unfold is_branch_in_tree in Hacc. rewrite <- Eb, <- Ep, tree_branch_hash_spec in Hacc by lia. cbn in Hacc.
  apply ascend_collision; [by apply bits_inj| |done]. injection Hacc as Ha. by apply bool_decide_eq_true in Ha.
Qed.

(** ** The tree *)

Lemma pairs_map {A B} (f : A -> A -> A) (g : B -> B -> B) (r : A -> B) (l : list A) :
  (forall a b, r (f a b) = g (r a) (r b)) -> r <$> pairs f l = pairs g (r <$> l).
Proof.
  intros Hr. cut (forall n l, (length l <= n)%nat -> r <$> pairs f l = pairs g (r <$> l)); [intros Hc; by eapply Hc|].
  intros n. induction n as [|n IH]; intros [|a [|b m]] Hm; try done; cbn in *; [lia|].
  rewrite Hr. f_equal. apply IH. lia.
Qed.

Lemma pairs_collect {A B} (f : A -> A -> A) (r : A -> list B) (g : B -> B) (n : nat) (l : list A) :
  (forall a b, r (f a b) = g <$> r a ++ r b) -> length l = (2 * n)%nat ->
  mbind r (pairs f l) = g <$> mbind r l.
Proof.
  intros Hr. revert l. induction n as [|n IH]; intros l Hl; [by destruct l|].
  destruct l as [|a [|b l]]; cbn in Hl; try lia. cbn. rewrite IH, Hr by lia.
  rewrite app_assoc, !fmap_app. done.
Qed.

Lemma pairs_leaves (n : nat) (l : list (mtree hash)) :
  length l = (2 * n)%nat -> mbind leaves (pairs Node l) = mbind leaves l.
Proof.
  intros Hl. rewrite (pairs_collect Node leaves id n l); [apply list_fmap_id| |done].
  intros a b. by rewrite list_fmap_id.
Qed.

Lemma pairs_depths (n : nat) (l : list (mtree hash)) :
  length l = (2 * n)%nat -> mbind leaf_depths (pairs Node l) = S <$> mbind leaf_depths l.
Proof. intros Hl. by apply (pairs_collect Node leaf_depths S n). Qed.

Lemma top_map {A B} (f : A -> A -> A) (g : B -> B -> B) (r : A -> B) (k : nat) (l : list A) :
  (forall a b, r (f a b) = g (r a) (r b)) -> r <$> top f k l = top g k (r <$> l).
Proof.
  intros Hr. revert l. induction k as [|k IH]; intros l; cbn [top]; [by destruct l|].
  by rewrite IH, (pairs_map f g).
Qed.

Lemma top_collect (k : nat) (l : list (mtree hash)) :
  length l = (2 ^ k)%nat ->
  exists t, top Node k l = Some t /\ leaves t = mbind leaves l /\ leaf_depths t = Nat.add k <$> mbind leaf_depths l.
Proof.
  revert l. induction k as [|k IH]; intros l Hl; cbn [top].
  - destruct l as [|t [|? ?]]; try done. exists t. cbn. rewrite !app_nil_r. split_and!; try done. by rewrite list_fmap_id.
  - rewrite pow2_S in Hl. destruct (IH (pairs Node l)) as (t & Et & E1 & E2); [by apply pairs_length|].
    exists t. split; [done|]. rewrite E1, E2, (pairs_leaves _ _ Hl), (pairs_depths _ _ Hl). split; [done|].
    rewrite <- list_fmap_compose. apply list_fmap_ext. intros ? x _. cbn. lia.
Qed.

Lemma leaf_bind (l : list hash) : mbind leaves (Leaf <$> l) = l /\ mbind leaf_depths (Leaf <$> l) = replicate (length l) O.
Proof. induction l as [|a l [E1 E2]]; [done|]. cbn. by rewrite E1, E2. Qed.

Lemma tree_hash_small (a b : hash) :
  tree_hash H zero ndebug [a] = Val a /\ tree_hash H zero ndebug [a; b] = Val (H a b).
Proof. unfold tree_hash. rewrite !c_assert_true by done. done. Qed.

Lemma tree_hash_returns (hashes : list hash) :
  1 <= Z.of_nat (length hashes) <= 2 ^ 28 -> exists r, tree_hash H zero ndebug hashes = Val r.
Proof.
  intros Hl. destruct hashes as [|a [|b [|c' rest]]] eqn:E; [cbn in Hl; lia| | |].
  { exists a. apply (tree_hash_small a a). }
  { exists (H a b). apply tree_hash_small. }
  rewrite <- E in *. assert (3 <= Z.of_nat (length hashes)) as Hl3 by (rewrite E; cbn [length]; lia).
  destruct (layout_exists hashes ltac:(lia)) as (A & B & c & k & Hlay).
  destruct (tree_hash_big hashes A B c k Hl3 Hlay) as (r & Er & _). by exists r.
Qed.

(** A leaf's branch and path, for every number of hashes. *)
Lemma tree_branch_steps (hashes : list hash) (h : hash) (idx : nat) :
  Z.of_nat (length hashes) <= 2 ^ 28 -> find_hash hashes h = Some (Z.of_nat idx) ->
  exists steps, tree_branch H zero ndebug hashes h = Val (Some (map snd steps, of_digits 2 (bits steps))) /\
    tree_path ndebug (Z.of_nat (length hashes)) (Z.of_nat idx) = Val (Some (of_digits 2 (bits steps))) /\
    tree_hash H zero ndebug hashes = Val (ascend h steps) /\ (length steps <= 32)%nat.
Proof.
  intros Hl Hf. assert (hashes !! idx = Some h) as Hi.
  { unfold find_hash in Hf. destruct (list_find _ hashes) as [[i x]|] eqn:E; [|done]. cbn in Hf.
    apply list_find_Some in E as (E & <- & _). assert (i = idx) as -> by (injection Hf as Hf; lia). done. }
  destruct hashes as [|a [|b [|c' rest]]] eqn:E.
  - done.
  - exists []. destruct idx; [|done]. injection Hi as ->. unfold tree_branch. rewrite Hf.
    rewrite (proj1 (tree_hash_small h h)). split_and!; (done || cbn; lia).
  - unfold tree_branch. rewrite Hf. destruct idx as [|[|]]; [| |done]; cbn in Hi; injection Hi as ->.
    + exists [(false, b)]. rewrite (proj2 (tree_hash_small h b)). split_and!; (done || cbn; lia).
    + exists [(true, a)]. rewrite (proj2 (tree_hash_small a h)). split_and!; (done || cbn; lia).
  - rewrite <- E in *. assert (3 <= Z.of_nat (length hashes)) as Hl3 by (rewrite E; cbn [length]; lia). clear E a b c' rest.
    destruct (layout_exists hashes ltac:(lia)) as (A & B & c & k & Hlay).
    destruct (tree_branch_big hashes A B c k idx h Hl3 Hlay Hf Hi) as (steps & E1 & E2 & E3 & E4).
    exists steps. pose proof (lay_k _ _ _ _ _ Hlay). split_and!; (done || lia).
Qed.
Lemma find_hash_none (hashes : list hash) (h : hash) : ~ In h hashes -> find_hash hashes h = None.
Proof.
  intros Hn. unfold find_hash. replace (list_find _ hashes) with (@None (nat * hash)); [done|]. symmetry.
  apply list_find_None, Forall_forall. intros x Hx ->. by apply Hn, list_elem_of_In.
Qed.

Lemma find_hash_some (hashes : list hash) (h : hash) :
  In h hashes -> exists idx : nat, find_hash hashes h = Some (Z.of_nat idx).
Proof.
  intros Hi. apply list_elem_of_In in Hi. unfold find_hash.
  destruct (list_find_elem_of (fun x => h = x) hashes h Hi eq_refl) as [[i x] E]. exists i. by rewrite E.
Qed.

(** The search finds the first position. *)
Lemma find_hash_lookup (hashes : list hash) (h : hash) (idx : nat) :
  NoDup hashes -> hashes !! idx = Some h -> find_hash hashes h = Some (Z.of_nat idx).
Proof.
  intros Hd Hi. destruct (find_hash_some hashes h) as [i E]; [by apply list_elem_of_In, (list_elem_of_lookup_2 _ idx)|].
  rewrite E. unfold find_hash in E. destruct (list_find _ hashes) as [[i' x]|] eqn:Ef; [|done]. cbn in E.
  apply list_find_Some in Ef as (Ef & <- & _). assert (i = i') as -> by (injection E as E; lia).
  by rewrite (NoDup_lookup hashes i' idx h Hd Ef Hi).
Qed.

(** ** The tree of the algorithm *)

Lemma tree_hash_shape (hashes : list hash) :
  1 <= Z.of_nat (length hashes) <= 2 ^ 28 ->
  exists t m, tree_hash H zero ndebug hashes = Val (root t) /\ leaves t = hashes /\
    (2 ^ m <= length hashes <= 2 ^ S m)%nat /\
    leaf_depths t = replicate (2 ^ S m - length hashes) m ++ replicate (2 * (length hashes - 2 ^ m)) (S m).
Proof.
  intros Hl. destruct hashes as [|a [|b [|c' rest]]] eqn:E; [cbn in Hl; lia| | |].
  { exists (Leaf a), 0%nat. rewrite (proj1 (tree_hash_small a a)). split_and!; (done || cbn; lia). }
  { exists (Node (Leaf a) (Leaf b)), 0%nat. rewrite (proj2 (tree_hash_small a b)). split_and!; (done || cbn; lia). }
  rewrite <- E in *.
  assert (3 <= Z.of_nat (length hashes)) as Hl3 by (rewrite E; cbn [length]; lia). clear E a b c' rest.
  destruct (layout_exists hashes ltac:(lia)) as (A & B & c & k & Hlay).
  destruct (tree_hash_big hashes A B c k Hl3 Hlay) as (r & Er & Ht). pose proof (layout_count _ _ _ _ _ Hlay) as Hc.
  destruct Hlay as [Hs HB HA _ _ _].
  set (ts := (Leaf <$> A) ++ pairs Node (Leaf <$> B)).
  assert (length ts = (2 ^ S k)%nat) as Hts.
  { unfold ts. rewrite length_app, length_fmap, (pairs_length Node c) by (by rewrite length_fmap). done. }
  destruct (top_collect (S k) ts Hts) as (t & Et & E1 & E2). exists t, (S k). split_and!.
  - rewrite Er. pose proof (top_map Node H root (S k) ts ltac:(done)) as Em. rewrite Et in Em. f_equal.
    assert (root <$> ts = A ++ pairs H B) as Ets; [|rewrite Ets in Em; cbn [fmap option_fmap option_map] in Em; congruence].
    unfold ts. rewrite fmap_app, (pairs_map Node H root) by done. rewrite <- !list_fmap_compose.
    f_equal; [|f_equal]; apply list_fmap_id.
  - rewrite E1, Hs. unfold ts. rewrite bind_app, (pairs_leaves c) by (by rewrite length_fmap).
    by rewrite !(proj1 (leaf_bind _)).
  - lia.
  - rewrite (pow2_S (S k)). lia.
  - rewrite E2. unfold ts. rewrite bind_app, (pairs_depths c) by (by rewrite length_fmap).
    rewrite !(proj2 (leaf_bind _)), fmap_app, !fmap_replicate, HB.
    f_equal; f_equal; rewrite ?(pow2_S (S k)); lia.
Qed.

(** Trees with their leaves at the same depths have the same shape. *)
Fixpoint same_shape (t u : mtree hash) : Prop :=
  match t, u with
  | Leaf _, Leaf _ => True
  | Node l r, Node l' r' => same_shape l l' /\ same_shape r r'
  | _, _ => False
  end.

Lemma depths_shape (t u : mtree hash) (k : nat) (x y : list nat) :
  (Nat.add k <$> leaf_depths t) ++ x = (Nat.add k <$> leaf_depths u) ++ y -> same_shape t u /\ x = y.
Proof.
  revert u k x y. induction t as [h|l IHl r IHr]; intros [h'|l' r'] k x y.
  - cbn. by intros [= ->].
  - intros E. cbn [leaf_depths] in *.
    destruct (leaf_depths_first l') as (d' & ds' & Ed'). rewrite Ed' in *. cbn in E. injection E as E _. lia.
  - intros E. cbn [leaf_depths] in *.
    destruct (leaf_depths_first l) as (d' & ds' & Ed'). rewrite Ed' in *. cbn in E. injection E as E _. lia.
  - cbn [leaf_depths]. rewrite !fmap_app, <- !app_assoc, <- !list_fmap_compose. intros E.
    assert (forall m : list nat, Nat.add k ∘ S <$> m = Nat.add (S k) <$> m) as Hm
      by (intros m; apply list_fmap_ext; intros ???; cbn; lia).
    rewrite !Hm in E. apply IHl in E as [Hl E]. by apply IHr in E as [Hr ->].
Qed.

(** What is hashed for the root of a tree. *)
Fixpoint node_inputs (t : mtree hash) : list (hash * hash) :=
  match t with
  | Leaf _ => []
  | Node l r => (root l, root r) :: node_inputs l ++ node_inputs r
  end.

Lemma root_domain (P : hash -> Prop) (t : mtree hash) : (forall a b, P (H a b)) -> Forall P (leaves t) -> P (root t).
Proof. intros HP. destruct t as [h|l r]; [by intros []%Forall_cons|by intros _; apply HP]. Qed.

Lemma node_inputs_domain (P : hash -> Prop) (t : mtree hash) :
  (forall a b, P (H a b)) -> Forall P (leaves t) -> Forall (fun x => P x.1 /\ P x.2) (node_inputs t).
Proof.
  intros HP. induction t as [h|l IHl r IHr]; intros Hl; cbn in *; [constructor|]. apply Forall_app in Hl as [Hl Hr].
  constructor; [split; by apply (root_domain P)|]. apply Forall_app. auto.
Qed.

(** Two trees of one shape with the same root have the same leaves, or among what is
    hashed for the two roots there are two pairs with the same hash. *)
Lemma roots_commit (t u : mtree hash) :
  same_shape t u -> root t = root u ->
  leaves t = leaves u \/
  exists x y, In x (node_inputs t) /\ In y (node_inputs u) /\ x <> y /\ H x.1 x.2 = H y.1 y.2.
Proof.
  revert u. induction t as [h|l IHl r IHr]; intros [h'|l' r'] Hs E; try done; cbn in *; [by left; rewrite E|].
  destruct Hs as [Hl Hr].
  destruct (decide ((root l, root r) = (root l', root r'))) as [Ep|Ep].
  - injection Ep as El Er. destruct (IHl l' Hl El) as [->|(x & y & ? & ? & ? & ?)]; [|right; exists x, y; rewrite !in_app_iff; tauto].
    destruct (IHr r' Hr Er) as [->|(x & y & ? & ? & ? & ?)]; [by left|right; exists x, y; rewrite !in_app_iff; tauto].
  - right. exists (root l, root r), (root l', root r'). tauto.
Qed.

(** The depths do not depend on the choice of [m] for a power of two. *)
Lemma depths_unique (n m m' : nat) :
  (m <= m')%nat -> (2 ^ m <= n <= 2 ^ S m)%nat -> (2 ^ m' <= n <= 2 ^ S m')%nat ->
  replicate (2 ^ S m - n) m ++ replicate (2 * (n - 2 ^ m)) (S m)
  = replicate (2 ^ S m' - n) m' ++ replicate (2 * (n - 2 ^ m')) (S m').
Proof.
  intros Hle Hm Hm'. destruct (decide (m = m')) as [->|Hne]; [done|].
  assert (2 ^ S m <= 2 ^ m')%nat by (apply Nat.pow_le_mono_r; lia).
  assert (m' = S m) as ->. { apply (Nat.pow_inj_r 2); lia. }
  rewrite (pow2_S (S m)), (pow2_S m) in *. assert (n = 2 * 2 ^ m)%nat as -> by lia.
  rewrite Nat.sub_diag. replace (2 * (2 * 2 ^ m - 2 * 2 ^ m))%nat with 0%nat by lia.
  replace (2 * (2 * 2 ^ m - 2 ^ m))%nat with (2 * (2 * 2 ^ m) - 2 * 2 ^ m)%nat by lia. cbn [replicate app].
  by rewrite app_nil_r.
Qed.

Lemma tree_hash_domain (P : hash -> Prop) (hashes : list hash) (r : hash) :
  (forall a b, P (H a b)) -> Forall P hashes -> 1 <= Z.of_nat (length hashes) <= 2 ^ 28 ->
  tree_hash H zero ndebug hashes = Val r -> P r.
Proof.
  intros HP Hh Hl E. destruct (tree_hash_shape hashes Hl) as (t & m & Et & <- & _). rewrite E in Et. injection Et as ->.
  by apply root_domain.
Qed.

(** ** Theorems *)

(** C22. For 1 to 2^28 hashes [tree_hash] returns, without a failed assertion or an access
    outside its arrays, the root of a tree whose leaves are the hashes in their order. The tree
    is as balanced as it can be: with 2^m <= count <= 2^(m+1), the first 2^(m+1) - count leaves
    are at depth m and all the others one deeper. *)
Theorem tree_hash_tree (hashes : list hash) :
  1 <= Z.of_nat (length hashes) <= 2 ^ 28 ->
  exists t m, tree_hash H zero ndebug hashes = Val (root t) /\ leaves t = hashes /\
    (2 ^ m <= length hashes <= 2 ^ S m)%nat /\
    leaf_depths t = replicate (2 ^ S m - length hashes) m ++ replicate (2 * (length hashes - 2 ^ m)) (S m).
Proof. apply tree_hash_shape. Qed.

(** C30. For at most 2^28 hashes [tree_branch] returns false exactly on a hash that is not in
    the list. Of one that is, it returns a branch that [is_branch_in_tree] accepts below the root
    that [tree_hash] computes, and its path is the one that [tree_path] gives for the position. *)
Theorem tree_branch_accepted (hashes : list hash) (h : hash) :
  Z.of_nat (length hashes) <= 2 ^ 28 ->
  (~ In h hashes /\ tree_branch H zero ndebug hashes h = Val None) \/
  exists idx br p r, find_hash hashes h = Some idx /\ tree_branch H zero ndebug hashes h = Val (Some (br, p)) /\
    tree_path ndebug (Z.of_nat (length hashes)) idx = Val (Some p) /\
    tree_hash H zero ndebug hashes = Val r /\ is_branch_in_tree H h r br p = Val true.
Proof.
  intros Hl. destruct (decide (h ∈ hashes)) as [Hi|Hn]; rewrite list_elem_of_In in *.
  - right. destruct (find_hash_some hashes h Hi) as [idx Hf].
    destruct (tree_branch_steps hashes h idx Hl Hf) as (steps & E1 & E2 & E3 & E4).
    exists (Z.of_nat idx), (map snd steps), (of_digits 2 (bits steps)), (ascend h steps). split_and!; try done.
    unfold is_branch_in_tree. rewrite tree_branch_hash_spec by done. run. by rewrite bool_decide_true.
  - left. split; [done|]. unfold tree_branch. by rewrite find_hash_none.
Qed.

(** C31. A branch cannot be moved to another hash: if [is_branch_in_tree] accepts, below the
    root of the hashes and on the path of [h], a branch of the depth of [h] for a hash other than
    [h], then among what the two checks hash there are two different inputs with one hash. *)
Theorem forged_branch_collides (hashes br br' : list hash) (h h' r : hash) (p : Z) :
  Z.of_nat (length hashes) <= 2 ^ 28 ->
  tree_hash H zero ndebug hashes = Val r -> tree_branch H zero ndebug hashes h = Val (Some (br, p)) ->
  length br' = length br -> is_branch_in_tree H h' r br' p = Val true -> h' <> h ->
  exists x y, In x (inputs h (steps_of br p)) /\ In y (inputs h' (steps_of br' p)) /\ x <> y /\ H x.1 x.2 = H y.1 y.2.
Proof.
  intros Hl Hr Hb Hlen Hacc Hne. destruct (decide (h ∈ hashes)) as [Hi|Hn]; rewrite list_elem_of_In in *.
  2:{ unfold tree_branch in Hb. by rewrite find_hash_none in Hb. }
  destruct (find_hash_some hashes h Hi) as [idx Hf].
  destruct (tree_branch_steps hashes h idx Hl Hf) as (steps & E1 & _ & E3 & E4).
  rewrite E1 in Hb. injection Hb as <- <-. rewrite E3 in Hr. injection Hr as <-. rewrite length_map in Hlen.
  rewrite steps_of_steps. by apply moved_branch.
Qed.

(** Nothing to hash: the assertion fails, and without it the copy is past the array. *)
Lemma tree_hash_empty : tree_hash H zero ndebug [] = if ndebug then Undef else Abort.
Proof. by destruct ndebug. Qed.
End spec.

(** ** What is hashed for a root

    The run of [tree_hash] that builds the tree in the place of hashing its nodes. *)

Definition tree_inputs {hash} (H : hash -> hash -> hash) (zero : hash) (ndebug : bool) (hashes : list hash) : list (hash * hash) :=
  match tree_hash Node (Leaf zero) ndebug (Leaf <$> hashes) with Val t => node_inputs H t | _ => [] end.

Lemma same_tree {hash} (t u : mtree hash) : same_shape t u -> leaves t = leaves u -> t = u.
Proof.
  cut (forall x y, same_shape t u -> leaves t ++ x = leaves u ++ y -> t = u /\ x = y).
  { intros Hc Hs E. apply (Hc [] []); [done|]. by rewrite E. }
  revert u. induction t as [h|l IHl r IHr]; intros [h'|l' r'] x y Hs E; try done; cbn in *; [by injection E as -> ->|].
  destruct Hs as [Hl Hr]. rewrite <- !app_assoc in E. apply IHl in E as [-> E]; [|done]. by apply IHr in E as [-> ->].
Qed.

(** A tree of trees whose leaves are single. *)
Lemma root_Node {hash} (T : mtree (mtree hash)) (l : list hash) :
  leaves T = Leaf <$> l -> leaves (root Node T) = l /\ leaf_depths (root Node T) = leaf_depths T.
Proof.
  revert l. induction T as [t|T1 IH1 T2 IH2]; intros l E; cbn in *.
  - destruct l as [|h [|]]; try done. by injection E as ->.
  - destruct (fmap_app_inv _ _ _ _ (eq_sym E)) as (l1 & l2 & E1 & E2 & ->).
    destruct (IH1 l1 E1) as [-> ->], (IH2 l2 E2) as [-> ->]. done.
Qed.

Lemma tree_hash_run {hash} (H : hash -> hash -> hash) (zero : hash) (ndebug : bool) (hashes : list hash) :
  1 <= Z.of_nat (length hashes) <= 2 ^ 28 ->
  exists t m, tree_hash Node (Leaf zero) ndebug (Leaf <$> hashes) = Val t /\
    tree_hash H zero ndebug hashes = Val (root H t) /\ leaves t = hashes /\
    (2 ^ m <= length hashes <= 2 ^ S m)%nat /\
    leaf_depths t = replicate (2 ^ S m - length hashes) m ++ replicate (2 * (length hashes - 2 ^ m)) (S m).
Proof.
  intros Hl. destruct (tree_hash_shape H zero ndebug hashes Hl) as (t & m & Et & Elt & Hm & Hd). exists t, m. split; [|done].
  destruct (tree_hash_shape Node (Leaf zero) ndebug (Leaf <$> hashes)) as (T & m' & ET & EL & Hm' & Hd'); [by rewrite length_fmap|].
  rewrite length_fmap in Hm', Hd'. destruct (root_Node T hashes EL) as [ER ED]. rewrite ET. f_equal.
  apply same_tree; [|congruence]. apply (depths_shape _ _ 0 [] []). rewrite ED, Hd, Hd', !app_nil_r. f_equal.
  destruct (Nat.le_ge_cases m m'); [symmetry|]; by apply depths_unique.
Qed.

(** Two lists of one length with the same root are the same, or among what is hashed for
    the roots there are two pairs with the same hash. *)
Lemma tree_hash_commits {hash} `{EqDecision hash} (H : hash -> hash -> hash) (zero : hash) (ndebug : bool) (hashes hashes' : list hash) (r : hash) :
  length hashes = length hashes' -> 1 <= Z.of_nat (length hashes) <= 2 ^ 28 ->
  tree_hash H zero ndebug hashes = Val r -> tree_hash H zero ndebug hashes' = Val r ->
  hashes = hashes' \/
  exists x y, In x (tree_inputs H zero ndebug hashes) /\ In y (tree_inputs H zero ndebug hashes') /\ x <> y /\
    H x.1 x.2 = H y.1 y.2.
Proof.
  intros Hlen Hl E E'. destruct (tree_hash_run H zero ndebug hashes Hl) as (t & m & ER & Et & Elt & Hm & Hd).
  destruct (tree_hash_run H zero ndebug hashes' ltac:(lia)) as (t' & m' & ER' & Et' & Elt' & Hm' & Hd').
  unfold tree_inputs. rewrite ER, ER', <- Elt, <- Elt'. apply roots_commit; [|congruence].
  apply (depths_shape _ _ 0 [] []). rewrite Hd, Hd', <- Hlen. rewrite <- Hlen in Hm'. do 2 f_equal.
  destruct (Nat.le_ge_cases m m'); [|symmetry]; by apply depths_unique.
Qed.

Lemma tree_inputs_domain {hash} (P : hash -> Prop) (H : hash -> hash -> hash) (zero : hash) (ndebug : bool) (hashes : list hash) :
  (forall a b, P (H a b)) -> Forall P hashes -> 1 <= Z.of_nat (length hashes) <= 2 ^ 28 ->
  Forall (fun x => P x.1 /\ P x.2) (tree_inputs H zero ndebug hashes).
Proof.
  intros HP Hh Hl. destruct (tree_hash_run H zero ndebug hashes Hl) as (t & m & ER & _ & Elt & _).
  unfold tree_inputs. rewrite ER. apply node_inputs_domain; [done|]. by rewrite Elt.
Qed.

(** The loop that the assertion on the upper limit keeps [tree_hash_cnt] out of. *)
Lemma cnt_loop_diverges (fuel : nat) (count : Z) : 2 ^ 63 < count < 2 ^ 64 -> cnt_loop fuel 2 count = Diverge.
Proof.
  intros Hc. cut (forall fuel pow, pow = 0 \/ (exists a, 1 <= a <= 63 /\ pow = 2 ^ a) -> cnt_loop fuel pow count = Diverge).
  { intros Hg. apply Hg. right. by exists 1. }
  clear fuel. intros fuel. induction fuel as [|fuel IH]; intros pow Hp; cbn [cnt_loop].
  - assert (pow <= 2 ^ 63); [|rewrite (proj2 (Z.ltb_lt _ _)) by lia; done].
    destruct Hp as [->|(a & Ha & ->)]; [lia|]. apply Z.pow_le_mono_r; lia.
  - assert (pow <= 2 ^ 63); [destruct Hp as [->|(a & Ha & ->)]; [lia|]; apply Z.pow_le_mono_r; lia|].
    rewrite (proj2 (Z.ltb_lt _ _)) by lia. apply IH. unfold shl64, u64.
    destruct Hp as [->|(a & Ha & ->)]; [by left|]. rewrite Z.shiftl_mul_pow2, <- Z.pow_add_r by lia.
    destruct (decide (a = 63)) as [->|Hn]; [by left|]. right. exists (a + 1). split; [lia|].
    apply Z.mod_small. split; [apply Z.pow_nonneg; lia|]. apply Z.pow_lt_mono_r; lia.
Qed.

(** ** Witnesses *)

Lemma tree_hash_tree_witness :
  exists t m, tree_hash (fun a b => 3 * a + b) 0 false [1; 2; 3; 4; 5] = Val (root (fun a b => 3 * a + b) t) /\
    leaves t = [1; 2; 3; 4; 5] /\ (2 ^ m <= 5 <= 2 ^ S m)%nat /\
    leaf_depths t = replicate (2 ^ S m - 5) m ++ replicate (2 * (5 - 2 ^ m)) (S m).
Proof. apply (tree_hash_tree (fun a b => 3 * a + b) 0 false [1; 2; 3; 4; 5]). vm_compute. by split. Defined.

Lemma tree_branch_accepted_witness :
  (~ In 4 [1; 2; 3; 4; 5] /\ tree_branch (fun a b => 3 * a + b) 0 false [1; 2; 3; 4; 5] 4 = Val None) \/
  exists idx br p r, find_hash [1; 2; 3; 4; 5] 4 = Some idx /\
    tree_branch (fun a b => 3 * a + b) 0 false [1; 2; 3; 4; 5] 4 = Val (Some (br, p)) /\
    tree_path false 5 idx = Val (Some p) /\ tree_hash (fun a b => 3 * a + b) 0 false [1; 2; 3; 4; 5] = Val r /\
    is_branch_in_tree (fun a b => 3 * a + b) 4 r br p = Val true.
Proof. apply (tree_branch_accepted (fun a b => 3 * a + b) 0 false [1; 2; 3; 4; 5] 4). vm_compute. done. Defined.

(** With the sum as the hash function, the proof of 2 below the root of 1, 2 and 3. *)
Lemma forged_branch_collides_witness :
  exists x y, In x (inputs Z.add 1 (steps_of [5] 0)) /\ In y (inputs Z.add 2 (steps_of [4] 0)) /\ x <> y /\ x.1 + x.2 = y.1 + y.2.
Proof.
  apply (forged_branch_collides Z.add 0 false [1; 2; 3] [5] [4] 1 2 6 0); try reflexivity; [vm_compute|]; done.
Defined.
