(* ===== verification/Points.v ===== *)
(** * Encoded points

    src/src/crypto/crypto-ops.c: reading a point of the curve -x^2 + y^2 = 1 + d x^2 y^2
    over the field of p = 2^255 - 19 elements from its 32 bytes.  The limbs that
    [ge_frombytes_vartime] reads from the bytes, its test that they are canonical and its
    carries are those of the code; from there on a field element is its value mod p, so
    that the products of limbs inside [fe_mul] and its like are not modelled.  The code
    throws on what is no point in src/src/ringct/rctOps.cpp, [scalarmultKey]. *)

From S2P Require Import Prelude Archive.

(** ** Field elements *)

Definition p25519 : Z := 2 ^ 255 - 19.

(** The value of the ten limbs of a [fe], of 26 and 25 bits in turn. *)
Definition fe_value (limbs : list Z) : Z :=
  sumZ (zip_with (fun h e => h * 2 ^ e) limbs [0; 26; 51; 77; 102; 128; 153; 179; 204; 230]) mod p25519.

Definition fe_1 : Z := 1.
Definition fe_add (f g : Z) : Z := (f + g) mod p25519.
Definition fe_sub (f g : Z) : Z := (f - g) mod p25519.
Definition fe_mul (f g : Z) : Z := (f * g) mod p25519.
Definition fe_sq (f : Z) : Z := fe_mul f f.
Definition fe_neg (f : Z) : Z := (- f) mod p25519.

(** The first bit of the bytes of [f], and whether they are not all 0. *)
Definition fe_isnegative (f : Z) : Z := Z.land (f mod p25519) 1.
Definition fe_isnonzero (f : Z) : bool := negb (f mod p25519 =? 0).

Definition fe_d : Z :=
  fe_value [-10913610; 13857413; -15372611; 6949391; 114729; -8787816; -6275908; -3247719; -18696448; -12055116].
Definition fe_sqrtm1 : Z :=
  fe_value [-32595792; -7943725; 9377950; 3500415; 12389472; -272473; -25146209; -2005654; 326686; 11406482].

(** [for (i = 0; i < n; ++i) fe_sq(t, t)]. *)
Definition fe_sq_times (n : nat) (t : Z) : Z := Nat.iter n fe_sq t.

Definition fe_divpowm1 (u v : Z) : Z :=
  let v3 := fe_mul (fe_sq v) v in
  let uv7 := fe_mul (fe_mul (fe_sq v3) v) u in
  let t0 := fe_sq uv7 in
  let t1 := fe_sq (fe_sq t0) in
  let t1 := fe_mul uv7 t1 in
  let t0 := fe_mul t0 t1 in
  let t0 := fe_sq t0 in
  let t0 := fe_mul t1 t0 in
  let t1 := fe_sq_times 4 (fe_sq t0) in
  let t0 := fe_mul t1 t0 in
  let t1 := fe_sq_times 9 (fe_sq t0) in
  let t1 := fe_mul t1 t0 in
  let t2 := fe_sq_times 19 (fe_sq t1) in
  let t1 := fe_mul t2 t1 in
  let t1 := fe_sq_times 10 t1 in
  let t0 := fe_mul t1 t0 in
  let t1 := fe_sq_times 49 (fe_sq t0) in
  let t1 := fe_mul t1 t0 in
  let t2 := fe_sq_times 99 (fe_sq t1) in
  let t1 := fe_mul t2 t1 in
  let t1 := fe_sq_times 50 t1 in
  let t0 := fe_mul t1 t0 in
  let t0 := fe_sq (fe_sq t0) in
  let t0 := fe_mul t0 uv7 in
  fe_mul (fe_mul t0 v3) u.

(** ** Reading a point *)

(** The byte at [i]; the callers pass 32 of them. *)
Definition at_ (s : list Z) (i : nat) : Z := nth i s 0.

Definition load_3 (s : list Z) (i : nat) : Z :=
  Z.lor (Z.lor (at_ s i) (Z.shiftl (at_ s (i + 1)) 8)) (Z.shiftl (at_ s (i + 2)) 16).
Definition load_4 (s : list Z) (i : nat) : Z :=
  Z.lor (Z.lor (Z.lor (at_ s i) (Z.shiftl (at_ s (i + 1)) 8)) (Z.shiftl (at_ s (i + 2)) 16))
    (Z.shiftl (at_ s (i + 3)) 24).

Record limbs10 : Type := mk_limbs10 {
  h0 : Z; h1 : Z; h2 : Z; h3 : Z; h4 : Z; h5 : Z; h6 : Z; h7 : Z; h8 : Z; h9 : Z;
}.

Definition limbs_list (l : limbs10) : list Z :=
  [h0 l; h1 l; h2 l; h3 l; h4 l; h5 l; h6 l; h7 l; h8 l; h9 l].

Definition read_limbs (s : list Z) : limbs10 := {|
  h0 := load_4 s 0;
  h1 := Z.shiftl (load_3 s 4) 6;
  h2 := Z.shiftl (load_3 s 7) 5;
  h3 := Z.shiftl (load_3 s 10) 3;
  h4 := Z.shiftl (load_3 s 13) 2;
  h5 := load_4 s 16;
  h6 := Z.shiftl (load_3 s 20) 7;
  h7 := Z.shiftl (load_3 s 23) 5;
  h8 := Z.shiftl (load_3 s 26) 4;
  h9 := Z.shiftl (Z.land (load_3 s 29) 8388607) 2;
|}.

(** The test that refuses a number from p to 2^255 - 1. *)
Definition not_canonical (l : limbs10) : bool :=
  (h9 l =? 33554428) && (h8 l =? 268435440) && (h7 l =? 536870880) && (h6 l =? 2147483520) &&
  (h5 l =? 4294967295) && (h4 l =? 67108860) && (h3 l =? 134217720) && (h2 l =? 536870880) &&
  (h1 l =? 1073741760) && (4294967277 <=? h0 l).

Definition carry_limbs (l : limbs10) : limbs10 :=
  let '(mk_limbs10 h0 h1 h2 h3 h4 h5 h6 h7 h8 h9) := l in
  let carry9 := Z.shiftr (h9 + 2 ^ 24) 25 in let h0 := h0 + carry9 * 19 in let h9 := h9 - carry9 * 2 ^ 25 in
  let carry1 := Z.shiftr (h1 + 2 ^ 24) 25 in let h2 := h2 + carry1 in let h1 := h1 - carry1 * 2 ^ 25 in
  let carry3 := Z.shiftr (h3 + 2 ^ 24) 25 in let h4 := h4 + carry3 in let h3 := h3 - carry3 * 2 ^ 25 in
  let carry5 := Z.shiftr (h5 + 2 ^ 24) 25 in let h6 := h6 + carry5 in let h5 := h5 - carry5 * 2 ^ 25 in
  let carry7 := Z.shiftr (h7 + 2 ^ 24) 25 in let h8 := h8 + carry7 in let h7 := h7 - carry7 * 2 ^ 25 in
  let carry0 := Z.shiftr (h0 + 2 ^ 25) 26 in let h1 := h1 + carry0 in let h0 := h0 - carry0 * 2 ^ 26 in
  let carry2 := Z.shiftr (h2 + 2 ^ 25) 26 in let h3 := h3 + carry2 in let h2 := h2 - carry2 * 2 ^ 26 in
  let carry4 := Z.shiftr (h4 + 2 ^ 25) 26 in let h5 := h5 + carry4 in let h4 := h4 - carry4 * 2 ^ 26 in
  let carry6 := Z.shiftr (h6 + 2 ^ 25) 26 in let h7 := h7 + carry6 in let h6 := h6 - carry6 * 2 ^ 26 in
  let carry8 := Z.shiftr (h8 + 2 ^ 25) 26 in let h9 := h9 + carry8 in let h8 := h8 - carry8 * 2 ^ 26 in
  mk_limbs10 h0 h1 h2 h3 h4 h5 h6 h7 h8 h9.

(** The coordinates of the point, [None] where the code returns -1. *)
Definition ge_frombytes_vartime (s : list Z) : option (Z * Z) :=
  if not_canonical (read_limbs s) then None
  else
    let Y := fe_value (limbs_list (carry_limbs (read_limbs s))) in
    let u := fe_sq Y in
    let v := fe_mul u fe_d in
    let u := fe_sub u fe_1 in
    let v := fe_add v fe_1 in
    let X := fe_divpowm1 u v in
    let vxx := fe_mul (fe_sq X) v in
    X ← (if fe_isnonzero (fe_sub vxx u) then
           if fe_isnonzero (fe_add vxx u) then None else Some (fe_mul X fe_sqrtm1)
         else Some X);
    if negb (fe_isnegative X =? Z.shiftr (at_ s 31) 7) then
      if negb (fe_isnonzero X) then None else Some (fe_neg X, Y)
    else Some (X, Y).

(** Whether [scalarmultKey] of the key goes on, and does not throw. *)
Definition is_point (s : list Z) : bool := bool_decide (is_Some (ge_frombytes_vartime s)).

(** ** The limbs *)

(** The number that the bytes but for the last bit spell. *)
Definition encoded_y (s : list Z) : Z := foldr (fun b y => b + 2 ^ 8 * y) 0 s mod 2 ^ 255.

Lemma lor_low (a b n : Z) : 0 <= n -> 0 <= a < 2 ^ n -> Z.lor a (Z.shiftl b n) = a + b * 2 ^ n.
Proof. intros Hn Ha. rewrite Z.lor_comm, lor_shiftl_add by done. lia. Qed.

Lemma load_3_sum (s : list Z) (i : nat) :
  in_u8 (at_ s i) -> in_u8 (at_ s (i + 1)) ->
  load_3 s i = at_ s i + at_ s (i + 1) * 2 ^ 8 + at_ s (i + 2) * 2 ^ 16.
Proof. unfold load_3, in_u8. intros H0 H1. by rewrite !lor_low by (rewrite ?lor_low by lia; lia). Qed.

Lemma load_4_sum (s : list Z) (i : nat) :
  in_u8 (at_ s i) -> in_u8 (at_ s (i + 1)) -> in_u8 (at_ s (i + 2)) ->
  load_4 s i = at_ s i + at_ s (i + 1) * 2 ^ 8 + at_ s (i + 2) * 2 ^ 16 + at_ s (i + 3) * 2 ^ 24.
Proof.
  intros H0 H1 H2. change (load_4 s i) with (Z.lor (load_3 s i) (Z.shiftl (at_ s (i + 3)) 24)).
  rewrite load_3_sum by done. unfold in_u8 in *. rewrite lor_low by lia. done.
Qed.

(** The bytes of an encoding, one by one. *)
Lemma bytes32 (s : list Z) :
  is_blob 32 s -> exists b0 b1 b2 b3 b4 b5 b6 b7 b8 b9 b10 b11 b12 b13 b14 b15 b16 b17 b18 b19 b20 b21 b22 b23 b24 b25
    b26 b27 b28 b29 b30 b31, s = [b0; b1; b2; b3; b4; b5; b6; b7; b8; b9; b10; b11; b12; b13; b14; b15; b16; b17; b18; b19;
      b20; b21; b22; b23; b24; b25; b26; b27; b28; b29; b30; b31].
Proof. intros [Hl _]. do 32 (destruct s as [|? s]; [done|]). destruct s; [|done]. by repeat eexists. Qed.

(** The limbs read from 32 bytes as sums of these. *)
Ltac spell_limbs Hs :=
  let Hb := fresh "Hb" in pose proof (proj2 Hs) as Hb;
  destruct (bytes32 _ Hs) as (? & ? & ? & ? & ? & ? & ? & ? & ? & ? & ? & ? & ? & ? & ? & ? &
    ? & ? & ? & ? & ? & ? & ? & ? & ? & ? & ? & ? & ? & ? & ? & ? & ->);
  repeat (apply List.Forall_cons_iff in Hb as [? Hb]); clear Hs Hb;
  unfold read_limbs, limbs_list, not_canonical; cbn [h0 h1 h2 h3 h4 h5 h6 h7 h8 h9];
  rewrite !load_3_sum, !load_4_sum by (cbn [at_ nth Nat.add]; done);
  change 8388607 with (2 ^ 23 - 1); rewrite land_ones_mod by lia; rewrite !Z.shiftl_mul_pow2 by lia;
  unfold at_, sumZ; cbn [nth Nat.add zip_with foldr].

(** The value of the limbs that are read is the number that the bytes spell. *)
Lemma read_limbs_value (s : list Z) :
  is_blob 32 s ->
  sumZ (zip_with (fun h e => h * 2 ^ e) (limbs_list (read_limbs s)) [0; 26; 51; 77; 102; 128; 153; 179; 204; 230]) = encoded_y s.
Proof.
  intros Hs. unfold encoded_y. spell_limbs Hs.
  match goal with |- context [?w mod 2 ^ 23] => pose proof (Z.div_mod w (2 ^ 23) ltac:(lia));
    pose proof (Z.mod_pos_bound w (2 ^ 23) ltac:(lia)); apply (Z.mod_unique_pos _ _ (w / 2 ^ 23)) end;
  unfold in_u8 in *; lia.
Qed.

(** The carries leave the value as it is. *)
Lemma carry_limbs_value (l : limbs10) : fe_value (limbs_list (carry_limbs l)) = fe_value (limbs_list l).
Proof.
  destruct l as [a0 a1 a2 a3 a4 a5 a6 a7 a8 a9]. unfold carry_limbs, limbs_list. cbn [h0 h1 h2 h3 h4 h5 h6 h7 h8 h9].
  set (c9 := Z.shiftr (a9 + 2 ^ 24) 25). set (c1 := Z.shiftr (a1 + _) _). set (c3 := Z.shiftr (a3 + _) _).
  set (c5 := Z.shiftr (a5 + _) _). set (c7 := Z.shiftr (a7 + _) _). set (c0 := Z.shiftr (a0 + _ + _) _).
  set (c2 := Z.shiftr (a2 + _ + _) _). set (c4 := Z.shiftr (a4 + _ + _) _). set (c6 := Z.shiftr (a6 + _ + _) _).
  set (c8 := Z.shiftr (a8 + _ + _) _). clearbody c9 c1 c3 c5 c7 c0 c2 c4 c6 c8.
  unfold fe_value, sumZ. cbn [zip_with foldr]. rewrite <- (Z_mod_plus_full _ c9 p25519). f_equal. unfold p25519. lia.
Qed.

(** The ordinate that is read, and the test of the limbs in terms of it. *)
Lemma read_y (s : list Z) :
  is_blob 32 s -> fe_value (limbs_list (carry_limbs (read_limbs s))) = encoded_y s mod p25519.
Proof. intros Hs. rewrite carry_limbs_value. unfold fe_value. by rewrite read_limbs_value. Qed.

(** The test of the limbs refuses just the numbers from p on. *)
Lemma not_canonical_iff (s : list Z) :
  is_blob 32 s -> not_canonical (read_limbs s) = true <-> p25519 <= encoded_y s.
Proof.
  intros Hs. rewrite <- read_limbs_value by done.
  spell_limbs Hs.
  match goal with |- context [?w mod 2 ^ 23] =>
    pose proof (Z.mod_pos_bound w (2 ^ 23) ltac:(lia)); generalize dependent (w mod 2 ^ 23); intros m Hm end.
  rewrite !andb_true_iff, !Z.eqb_eq, Z.leb_le. unfold in_u8, p25519 in *. lia.
Qed.

(** ** The square root *)

Lemma fe_mul_mod (a b : Z) : fe_mul (a mod p25519) (b mod p25519) = (a * b) mod p25519.
Proof. symmetry. apply Zmult_mod. Qed.

(** Powers of one element. *)
Definition fe_pow (x k : Z) : Z := x ^ k mod p25519.

Lemma fe_mul_pow (x a b : Z) : 0 <= a -> 0 <= b -> fe_mul (fe_pow x a) (fe_pow x b) = fe_pow x (a + b).
Proof. intros Ha Hb. unfold fe_pow. by rewrite fe_mul_mod, Z.pow_add_r. Qed.

Lemma fe_sq_pow (x a : Z) : 0 <= a -> fe_sq (fe_pow x a) = fe_pow x (2 * a).
Proof. intros Ha. unfold fe_sq. rewrite fe_mul_pow by done. f_equal. lia. Qed.

Lemma fe_sq_times_pow (n : nat) (x a : Z) : 0 <= a -> fe_sq_times n (fe_pow x a) = fe_pow x (2 ^ Z.of_nat n * a).
Proof.
  intros Ha. induction n as [|n IH]; [cbn; by rewrite Z.mul_1_l|].
  change (fe_sq_times (S n) ?t) with (fe_sq (fe_sq_times n t)).
  rewrite IH, fe_sq_pow by lia. f_equal. rewrite Nat2Z.inj_succ, Z.pow_succ_r by lia. lia.
Qed.

(** The chain of squarings and products computes the power (p - 5) / 8 = 2^252 - 3. *)
Lemma fe_divpowm1_power (u v : Z) :
  fe_divpowm1 u v = (u * v ^ 3 * (u * v ^ 7) ^ (2 ^ 252 - 3)) mod p25519.
Proof.
  unfold fe_divpowm1.
  assert (fe_mul (fe_sq v) v = (v ^ 3) mod p25519) as ->.
  { unfold fe_sq, fe_mul. rewrite Zmult_mod_idemp_l. f_equal. ring. }
  assert (fe_mul (fe_mul (fe_sq (v ^ 3 mod p25519)) v) u = fe_pow (u * v ^ 7) 1) as ->.
  { unfold fe_sq, fe_pow. rewrite fe_mul_mod. unfold fe_mul. rewrite Zmult_mod_idemp_l, <- Z.mul_assoc, Zmult_mod_idemp_l. f_equal. ring. }
  cbv zeta.
  repeat first [rewrite fe_sq_pow by lia | rewrite fe_mul_pow by lia | rewrite fe_sq_times_pow by lia].
  unfold fe_pow. rewrite fe_mul_mod. unfold fe_mul. rewrite Zmult_mod_idemp_l. f_equal.
  match goal with |- ?x ^ ?a * _ * _ = _ => replace a with (2 ^ 252 - 3) by reflexivity end. ring.
Qed.

(** ** What is accepted *)

Definition on_curve (x y : Z) : Prop := (y ^ 2 - x ^ 2) mod p25519 = (1 + fe_d * x ^ 2 * y ^ 2) mod p25519.

(** Congruence mod p. *)
Definition congruent (a b : Z) : Prop := (p25519 | a - b).
#[local] Infix "≡p" := congruent (at level 70).

#[export] Instance congruent_equivalence : Equivalence congruent.
Proof.
  split.
  - intros a. exists 0. lia.
  - intros a b [k Hk]. exists (- k). lia.
  - intros a b c [k Hk] [l Hl]. exists (k + l). lia.
Qed.

#[export] Instance congruent_add : Proper (congruent ==> congruent ==> congruent) Z.add.
Proof. intros a a' [k Hk] b b' [l Hl]. exists (k + l). lia. Qed.

#[export] Instance congruent_opp : Proper (congruent ==> congruent) Z.opp.
Proof. intros a a' [k Hk]. exists (- k). lia. Qed.

#[export] Instance congruent_sub : Proper (congruent ==> congruent ==> congruent) Z.sub.
Proof. intros a a' [k Hk] b b' [l Hl]. exists (k - l). lia. Qed.

#[export] Instance congruent_mul : Proper (congruent ==> congruent ==> congruent) Z.mul.
Proof.
  intros a a' [k Hk] b b' [l Hl]. exists (k * b + a' * l).
  replace (a * b - a' * b') with ((a - a') * b + a' * (b - b')) by ring. rewrite Hk, Hl. ring.
Qed.

Lemma congruent_eq (a b : Z) : a = b -> a ≡p b.
Proof. by intros ->. Qed.

Lemma congruent_mod (a b : Z) : a ≡p b <-> a mod p25519 = b mod p25519.
Proof.
  split.
  - intros [k Hk]. replace a with (b + k * p25519) by lia. apply Z_mod_plus_full.
  - intros E. apply Z.mod_divide; [done|]. by rewrite Zminus_mod, E, Z.sub_diag.
Qed.

Lemma fe_mul_congruent (a b : Z) : fe_mul a b ≡p a * b.
Proof. apply congruent_mod, Zmod_mod. Qed.

Lemma fe_sub_congruent (a b : Z) : fe_sub a b ≡p a - b.
Proof. apply congruent_mod, Zmod_mod. Qed.

Lemma fe_add_congruent (a b : Z) : fe_add a b ≡p a + b.
Proof. apply congruent_mod, Zmod_mod. Qed.

Lemma fe_neg_congruent (a : Z) : fe_neg a ≡p - a.
Proof. apply congruent_mod, Zmod_mod. Qed.

Lemma fe_isnonzero_false (a : Z) : fe_isnonzero a = false <-> a ≡p 0.
Proof. unfold fe_isnonzero. by rewrite negb_false_iff, Z.eqb_eq, congruent_mod. Qed.

(** -1 is the square of [fe_sqrtm1]. *)
Lemma fe_sqrtm1_square : fe_sqrtm1 * fe_sqrtm1 ≡p -1.
Proof. apply congruent_mod. vm_compute. reflexivity. Qed.

(** A root of the equation that the code solves. *)
Definition is_root (u v x : Z) : Prop := x * x * v ≡p u.

(** One of the two tests of the candidate makes it a root. *)
Lemma candidate_root (u v x x' : Z) :
  (if fe_isnonzero (fe_sub (fe_mul (fe_sq x) v) u) then
     if fe_isnonzero (fe_add (fe_mul (fe_sq x) v) u) then None else Some (fe_mul x fe_sqrtm1)
   else Some x) = Some x' -> is_root u v x'.
Proof.
  unfold is_root, fe_sq. destruct (fe_isnonzero (fe_sub _ _)) eqn:E.
  - destruct (fe_isnonzero (fe_add _ _)) eqn:E2; [done|]. intros [= <-].
    apply fe_isnonzero_false in E2. rewrite fe_add_congruent, fe_mul_congruent, fe_mul_congruent in E2. rewrite !fe_mul_congruent.
    transitivity ((fe_sqrtm1 * fe_sqrtm1) * (x * x * v)); [apply congruent_eq; ring|]. rewrite fe_sqrtm1_square.
    transitivity (- (x * x * v + u) + u); [apply congruent_eq; ring|]. rewrite E2. apply congruent_eq. ring.
  - intros [= <-]. apply fe_isnonzero_false in E. rewrite fe_sub_congruent, fe_mul_congruent, fe_mul_congruent in E.
    transitivity ((x * x * v - u) + u); [apply congruent_eq; ring|]. rewrite E. apply congruent_eq. ring.
Qed.

Lemma root_on_curve (x y u v : Z) :
  is_root u v x -> u ≡p y * y - 1 -> v ≡p y * y * fe_d + 1 -> on_curve x y.
Proof.
  unfold is_root. intros Hr Hu Hv. rewrite Hu, Hv in Hr.
  apply congruent_mod.
  transitivity ((y * y - 1) + (1 - x * x)); [apply congruent_eq; ring|]. rewrite <- Hr. apply congruent_eq. ring.
Qed.

(** The parity of the other root. *)
Lemma fe_isnegative_mod (x : Z) : fe_isnegative x = (x mod p25519) mod 2.
Proof. apply (Z.land_ones _ 1). lia. Qed.

Lemma neg_parity (x : Z) :
  fe_isnonzero x = true -> fe_isnegative (fe_neg x) = 1 - fe_isnegative x.
Proof.
  rewrite !fe_isnegative_mod. unfold fe_isnonzero, fe_neg. rewrite negb_true_iff, Z.eqb_neq. intros Hx.
  rewrite Zmod_mod, Z.mod_opp_l_nz by done.
  pose proof (Z.div_mod (x mod p25519) 2 ltac:(done)). pose proof (Z.mod_pos_bound (x mod p25519) 2 ltac:(done)).
  symmetry. apply (Z.mod_unique_pos _ _ (2 ^ 254 - 10 - x mod p25519 / 2)); unfold p25519 in *; lia.
Qed.

(** What is read from 32 bytes is a point of the curve: its ordinate is the number
    that the bytes spell, which is less than p, and the parity of its abscissa is the last bit. *)
Lemma frombytes_on_curve (s : list Z) (x y : Z) :
  is_blob 32 s -> ge_frombytes_vartime s = Some (x, y) ->
  on_curve x y /\ y = encoded_y s /\ y < p25519 /\ fe_isnegative x = Z.shiftr (at_ s 31) 7.
Proof.
  intros Hs. unfold ge_frombytes_vartime. destruct (not_canonical _) eqn:Ec; [done|]. cbv zeta.
  rewrite read_y by done. assert (encoded_y s < p25519) as Hlt.
  { apply Z.nle_gt. intros Hc. apply not_canonical_iff in Hc; [|done]. congruence. }
  assert (0 <= encoded_y s) as Hge by (apply Z.mod_pos_bound; lia).
  rewrite Z.mod_small by done. set (Y := encoded_y s) in *.
  set (u := fe_sub (fe_sq Y) fe_1). set (v := fe_add (fe_mul (fe_sq Y) fe_d) fe_1).
  assert (u ≡p Y * Y - 1) as Hu by (unfold u, fe_sq; by rewrite fe_sub_congruent, fe_mul_congruent).
  assert (v ≡p Y * Y * fe_d + 1) as Hv by (unfold v, fe_sq; by rewrite fe_add_congruent, !fe_mul_congruent).
  destruct (if fe_isnonzero _ then _ else _) as [X|] eqn:EX; [|done]. cbn [mbind option_bind].
  apply candidate_root in EX. clearbody u v.
  destruct (Z.eqb_spec (fe_isnegative X) (Z.shiftr (at_ s 31) 7)) as [Esign|Esign]; cbn [negb].
  { intros [= <- <-]. split_and!; try done. by apply (root_on_curve _ _ u v). }
  destruct (fe_isnonzero X) eqn:Enz; [|done]. intros [= <- <-]. split_and!; try done.
  - apply (root_on_curve _ _ u v); [|done..]. unfold is_root in *. rewrite !fe_neg_congruent, <- EX. apply congruent_eq. ring.
  - rewrite neg_parity by done. rewrite fe_isnegative_mod in Esign |- *.
    assert (in_u8 (at_ s 31)) as H31.
    { destruct Hs as [Hl Hb]. rewrite List.Forall_forall in Hb. apply Hb, nth_In. rewrite Hl. lia. }
    rewrite Z.shiftr_div_pow2 in Esign |- * by done.
    pose proof (Z.mod_pos_bound (X mod p25519) 2 ltac:(lia)). unfold in_u8 in *.
    assert (0 <= at_ s 31 / 2 ^ 7 < 2) by (split; [apply Z.div_pos; lia|apply Z.div_lt_upper_bound; lia]). lia.
Qed.

(** ** Examples *)

(** The neutral point, with ordinate 1, and the two points with ordinate 0. *)
Definition neutral_point : list Z := 1 :: replicate 31 0.

Example small_points :
  ge_frombytes_vartime neutral_point = Some (0, 1) /\
  ge_frombytes_vartime (replicate 32 0) = Some (fe_sqrtm1, 0) /\
  ge_frombytes_vartime (replicate 31 0 ++ [0x80]) = Some (fe_neg fe_sqrtm1, 0).
Proof. vm_compute. done. Qed.

(** The neutral point with the other sign, and p in the place of 0, are refused. *)
Example no_points :
  ge_frombytes_vartime (1 :: replicate 30 0 ++ [0x80]) = None /\
  ge_frombytes_vartime (0xed :: replicate 30 0xff ++ [0x7f]) = None.
Proof. vm_compute. done. Qed.
