(* ===== verification/BlockFormat.v ===== *)
(** * Blobs and ids of transactions and blocks

    src/src/cryptonote_basic/cryptonote_format_utils.cpp: the parsers of transactions
    and blocks, the hash of a transaction, whole or pruned, and the hash of a block,
    on top of the wire format of TxFormat and the trees of TreeHash.  The hash
    function is an argument with results of 32 bytes. *)

From S2P Require Import Prelude Varint Archive TxFormat TxExtra Emission Coinbase TreeHash Points.

#[local] Open Scope codec_scope.

(** ** Parsing *)

Definition tx_to_blob (t : transaction) : option (list Z) := dump_binary transaction_codec t.
Definition block_to_blob (b : block) : option (list Z) := dump_binary block_codec b.

Definition is_coinbase (t : transaction) : bool :=
  match vin (prefix t) with [txin_gen _] => true | _ => false end.

Definition has_output_public_key (o : tx_out) : bool :=
  match target o with to_key _ | to_tagged_key _ _ => true | _ => false end.

Definition is_rct_bulletproof (type : Z) : bool :=
  (type =? RCTTypeBulletproof) || (type =? RCTTypeBulletproof2) || (type =? RCTTypeCLSAG).
Definition is_rct_bulletproof_plus (type : Z) : bool := type =? RCTTypeBulletproofPlus.

(** [1 << n] of an [int]. *)
Definition int_shl1 (n : Z) : outcome Z := if (0 <=? n) && (n <? 31) then Val (Z.shiftl 1 n) else Undef.

(** Whether it succeeds; what it fills in is not part of the model.  The commitments of the
    outputs are multiplied with [scalarmultKey], which throws when one is no point. *)
Definition expand_transaction_1 (t : transaction) (base_only : bool) : outcome bool :=
  let rv := rct_signatures t in
  if (2 <=? version (prefix t)) && negb (is_coinbase t) then
    if rct_type (base rv) =? RCTTypeNull then Val true
    else if negb (length (outPk (base rv)) =? length (vout (prefix t)))%nat then Val false
    else if negb (forallb has_output_public_key (vout (prefix t))) then Val false
    else if base_only then Val true
    else if is_rct_bulletproof_plus (rct_type (base rv)) then
      match bulletproofs_plus (p rv) with
      | [proof] =>
          if (length (bpp_L proof) <? 6)%nat then Val false
          else
            let max_outputs := n_bulletproof_plus_max_amounts proof in
            if max_outputs <? Z.of_nat (length (vout (prefix t))) then Val false
            else _ ← throw_unless (forallb is_point (outPk (base rv))); Val true
      | _ => Val false
      end
    else if is_rct_bulletproof (rct_type (base rv)) then
      match bulletproofs (p rv) with
      | [proof] =>
          if (length (bp_L proof) <? 6)%nat then Val false
          else
            max_outputs ← int_shl1 (Z.of_nat (length (bp_L proof)) - 6);
            if max_outputs <? Z.of_nat (length (vout (prefix t))) then Val false
            else _ ← throw_unless (forallb is_point (outPk (base rv))); Val true
      | _ => Val false
      end
    else Val true
  else Val true.

Definition parse_and_validate_tx_from_blob (blob : list Z) : outcome (option transaction) :=
  match parse_binary transaction_codec blob with
  | Some t => ok ← expand_transaction_1 t false; Val (if (ok : bool) then Some t else None)
  | None => Val None
  end.

Definition parse_and_validate_block_from_blob (blob : list Z) : option block := parse_binary block_codec blob.

(** ** Hashes *)

Section hashes.
Context (cn_fast_hash : list Z -> list Z).

Definition null_hash : list Z := replicate 32 0.

(** The hash of the prunable part, cut out of the blob when its start is known. *)
Definition calculate_transaction_prunable_hash (t : transaction) (blob : list Z) (unprunable_size : Z) : option (list Z) :=
  if version (prefix t) =? 1 then None
  else if negb (unprunable_size =? 0) then
    if unprunable_size <=? Z.of_nat (length blob) then Some (cn_fast_hash (drop (Z.to_nat unprunable_size) blob)) else None
  else
    w ← save (prunable_codec (rct_type (base (rct_signatures t))) (length (vin (prefix t))) (length (vout (prefix t)))
                (get_mixin (vin (prefix t)))) (p (rct_signatures t));
    Some (cn_fast_hash w).

(** The whole hash of a transaction that is not pruned: of the blob for version 1, otherwise of the hashes of its three
    parts, which the sizes found while saving cut out of the blob; without inputs the
    second one stays 0.  [None] is failure; it
    also stands for what the code makes of a transaction that cannot be saved, where it
    does not look at the result and goes on with the bytes written so far. *)
Definition calculate_transaction_hash (t : transaction) : option (list Z) :=
  blob ← tx_to_blob t;
  if version (prefix t) =? 1 then Some (cn_fast_hash blob)
  else
    wp ← save prefix_codec (prefix t);
    let h0 := cn_fast_hash wp in
    let prefix_size := u32 (Z.of_nat (length wp)) in
    unprunable_size ←
      match vin (prefix t) with
      | [] => Some 0
      | _ =>
          wb ← save (base_codec (length (vin (prefix t))) (length (vout (prefix t)))) (base (rct_signatures t));
          Some (u32 (Z.of_nat (length wp + length wb)))
      end;
    if negb ((prefix_size <=? unprunable_size) && (unprunable_size <=? Z.of_nat (length blob))) then None
    else
      let h1 := cn_fast_hash (take (Z.to_nat (unprunable_size - prefix_size)) (drop (Z.to_nat prefix_size) blob)) in
      h2 ←
        (if rct_type (base (rct_signatures t)) =? RCTTypeNull then Some null_hash
         else calculate_transaction_prunable_hash t blob unprunable_size);
      Some (cn_fast_hash (h0 ++ h1 ++ h2)).

(** The hash from what is left of a pruned transaction and the hash of the rest. *)
Definition get_pruned_transaction_hash (t : transaction) (pruned_data_hash : list Z) : outcome (list Z) :=
  _ ← throw_unless (1 <? version (prefix t));
  match save prefix_codec (prefix t),
        save (base_codec (length (vin (prefix t))) (length (vout (prefix t)))) (base (rct_signatures t)) with
  | Some wp, Some wb =>
      let h2 := if rct_type (base (rct_signatures t)) =? RCTTypeNull then null_hash else pruned_data_hash in
      Val (cn_fast_hash (cn_fast_hash wp ++ cn_fast_hash wb ++ h2))
  | _, _ => Throw
  end.

Definition node_hash (a b : list Z) : list Z := cn_fast_hash (a ++ b).

Definition get_tx_tree_hash (ndebug : bool) (b : block) : outcome (list Z) :=
  match calculate_transaction_hash (miner_tx b) with
  | Some h => tree_hash node_hash null_hash ndebug (h :: tx_hashes b)
  | None => Throw
  end.

Definition get_block_hashing_blob (ndebug : bool) (b : block) : outcome (list Z) :=
  match save header_codec (header b) with
  | Some blob =>
      tree_root_hash ← get_tx_tree_hash ndebug b;
      count ← get_varint_data (Z.of_nat (length (tx_hashes b)) + 1);
      Val (blob ++ tree_root_hash ++ count)
  | None => Throw
  end.

(** The hashes of the exception for block 202612. *)
Definition correct_blob_hash_202612 : list Z := [
  0x3a; 0x8a; 0x2b; 0x3a; 0x29; 0xb5; 0x0f; 0xc8; 0x6f; 0xf7; 0x3d; 0xd0; 0x87; 0xea; 0x43; 0xc6;
  0xf0; 0xd6; 0xb8; 0xf9; 0x36; 0xc8; 0x49; 0x19; 0x4d; 0x5c; 0x84; 0xc7; 0x37; 0x90; 0x39; 0x66].
Definition existing_block_id_202612 : list Z := [
  0xbb; 0xd6; 0x04; 0xd2; 0xba; 0x11; 0xba; 0x27; 0x93; 0x5e; 0x00; 0x6e; 0xd3; 0x9c; 0x9b; 0xfd;
  0xd9; 0x9b; 0x76; 0xbf; 0x4a; 0x50; 0x65; 0x4b; 0xc1; 0xe1; 0xe6; 0x12; 0x17; 0x96; 0x26; 0x98].

(** The hash of a block that has the blob [blob]; [None] is failure.  The hashing blob is
    hashed as a serialized string, with its length in front. *)
Definition calculate_block_hash (ndebug : bool) (b : block) (blob : list Z) : outcome (option (list Z)) :=
  hashing ← get_block_hashing_blob ndebug b;
  let res := cn_fast_hash (default [] (save serialize_string hashing)) in
  let exception :=
    if decide (cn_fast_hash blob = correct_blob_hash_202612) then Some existing_block_id_202612
    else if decide (res = existing_block_id_202612) then None
    else Some res in
  Val (match vin (prefix (miner_tx b)) with
       | [txin_gen height] => if negb (height =? 202612) then Some res else exception
       | _ => exception
       end).
End hashes.

(** ** Values *)

Definition header_ok (h : block_header) : Prop :=
  in_u8 (major_version h) /\ in_u8 (minor_version h) /\ in_u64 (timestamp h) /\ is_blob 32 (prev_id h) /\ in_u32 (nonce h).

Definition block_ok (b : block) : Prop :=
  header_ok (header b) /\ transaction_ok (miner_tx b) /\ Forall (is_blob 32) (tx_hashes b) /\
  Z.of_nat (length (tx_hashes b)) <= CRYPTONOTE_MAX_TX_PER_BLOCK.

(** ** Laws of blocks *)

Lemma header_fields_lawful :
  lawful (fun x => in_u8 x.1 /\ in_u8 x.2.1 /\ in_u64 x.2.2.1 /\ is_blob 32 x.2.2.2.1 /\ in_u32 x.2.2.2.2)
    (serialize_varint 8 ▷ serialize_varint 8 ▷ serialize_varint 64 ▷ serialize_blob 32 ▷ serialize_uint 4).
Proof.
  pose proof (varint_lawful 8 ltac:(lia)) as H8. pose proof (varint_lawful 64 ltac:(lia)) as H64.
  pose proof (blob_lawful 32) as Hb. pose proof (uint_lawful 4) as H4.
  exact (then_lawful H8 (then_lawful H8 (then_lawful H64 (then_lawful Hb H4)))).
Qed.

Lemma header_lawful : lawful header_ok header_codec.
Proof.
  eapply lawful_iff; [eapply struct_lawful; [apply header_fields_lawful|by intros []|by intros (?&?&?&?&?)]|done].
Qed.

Lemma header_solid : solid (fun _ => True) header_codec.
Proof.
  apply (struct_solid _ _ header_fields_lawful); [by intros (?&?&?&?&?)|].
  pose proof (varint_lawful 8 ltac:(lia)) as H8. pose proof (varint_lawful 64 ltac:(lia)) as H64.
  assert (solid (fun _ => True) (serialize_blob 32 ▷ serialize_uint 4) /\ hungry (serialize_blob 32 ▷ serialize_uint 4)) as [Hs Hh].
  { split; [|done]. apply (then_solid (blob_lawful 32)); [apply uint_solid|by left]. }
  assert (solid (fun _ => True) (serialize_varint 64 ▷ serialize_blob 32 ▷ serialize_uint 4) /\
          hungry (serialize_varint 64 ▷ serialize_blob 32 ▷ serialize_uint 4)) as [Hs2 Hh2].
  { split; [apply (then_solid H64); [done|by left]|by apply (then_hungry H64)]. }
  apply (then_solid H8); [|left; by apply (then_hungry H8)]. apply (then_solid H8); [done|by left].
Qed.

Lemma block_front_lawful : lawful (fun x => header_ok x.1 /\ transaction_ok x.2) (header_codec ▷ transaction_codec).
Proof. exact (then_lawful header_lawful transaction_lawful). Qed.

Lemma block_front_solid : solid (fun x => has_rct x.2) (header_codec ▷ transaction_codec).
Proof.
  apply (fields_solid header_lawful _ (fun _ => True)); [done|by intros; apply transaction_solid|].
  intros h _ _. right. by apply (solid_weaken (fun _ => True)), header_solid.
Qed.

Lemma block_hashes_lawful : lawful (vec_ok (is_blob 32)) (container (serialize_blob 32)).
Proof. apply (container_lawful (blob_lawful 32)). by apply (hungry_nonempty (blob_lawful 32)). Qed.

Lemma block_lawful : lawful block_ok block_codec.
Proof.
  eapply lawful_iff; [eapply check_lawful, struct_lawful;
    [apply (then_lawful block_front_lawful block_hashes_lawful)|by intros []|by intros [[] ]]|].
  intros b. cbn [fst snd]. unfold block_ok, vec_ok, CRYPTONOTE_MAX_TX_PER_BLOCK. rewrite negb_true_iff, Z.ltb_ge.
  intuition lia.
Qed.

(** ** Sizes *)

(** A header takes at most 66 bytes. *)
Lemma header_length (h : block_header) (w : list Z) :
  header_ok h -> save header_codec h = Some w -> (length w <= 66)%nat.
Proof.
  intros (_ & _ & _ & [Hp _] & Hn).
  unfold header_codec, members, fields, serialize_varint, serialize_blob, serialize_uint. cbn [save fst snd].
  destruct (get_varint_data (major_version h)) as [a| | | |] eqn:Ea; try done. apply varint_length in Ea.
  destruct (get_varint_data (minor_version h)) as [b| | | |] eqn:Eb; try done. apply varint_length in Eb.
  destruct (get_varint_data (timestamp h)) as [c| | | |] eqn:Ec; try done. apply varint_length in Ec.
  cbn [mbind option_bind]. intros [= <-]. rewrite !length_app, (proj1 (le_bytes_spec 4 _ Hn)). lia.
Qed.

(** ** Parsing is safe and exact *)

(** One proof that reaches for the outputs has lists of 6 to 10 elements. *)
Lemma one_proof (b : Bulletproof) (outputs : nat) :
  proofs_ok bulletproof_ok n_bulletproof_max_amounts outputs [b] -> (6 <= length (bp_L b) <= 10)%nat.
Proof.
  intros (_ & _ & Ho & Hs). cbn [length sum_max_amounts] in *.
  assert (n_bulletproof_max_amounts b <> 0) as Hn.
  { intros E. rewrite E, Z.eqb_refl in Hs. destruct (negb _) in Hs; lia. }
  unfold n_bulletproof_max_amounts, max_amounts_base in Hn.
  destruct (Z.leb_spec 6 (Z.of_nat (length (bp_L b)))); [|done].
  destruct (Z.leb_spec (Z.of_nat (length (bp_L b))) (6 + 4)); [lia|].
  by destruct (Z.of_nat (length (bp_L b)) =? _).
Qed.

(** Some commitment of an output is no point. *)
Definition bad_commitment (t : transaction) : Prop :=
  Exists (fun mask => ge_frombytes_vartime mask = None) (outPk (base (rct_signatures t))).

Lemma points_checked (t : transaction) :
  let r := (_ ← throw_unless (forallb is_point (outPk (base (rct_signatures t)))); Val true) in
  r = Throw /\ bad_commitment t \/ r = Val true.
Proof.
  cbv zeta. destruct (forallb _ _) eqn:E; [by right|]. left. split; [done|].
  unfold bad_commitment. induction (outPk _) as [|mask l IH]; [done|]. cbn [forallb] in E.
  apply andb_false_iff in E as [E|E]; [left|right; by apply IH].
  apply bool_decide_eq_false in E. by apply eq_None_not_Some.
Qed.

Lemma expand_safe (t : transaction) (base_only : bool) :
  transaction_ok t ->
  expand_transaction_1 t base_only = Throw /\ bad_commitment t \/ exists ok, expand_transaction_1 t base_only = Val ok.
Proof.
  intros [_ Ht]. unfold expand_transaction_1. destruct (_ && _) eqn:Ev; [|by eauto].
  apply andb_true_iff in Ev as [Ev _]. apply Z.leb_le in Ev. rewrite (proj2 (Z.eqb_neq _ _)) in Ht by lia.
  destruct Ht as [_ Ht]. destruct (_ =? RCTTypeNull) eqn:Enull; [by eauto|].
  destruct (negb (_ =? _)%nat); [by eauto|]. destruct (negb (forallb _ _)); [by eauto|].
  destruct base_only; [by eauto|]. pose proof (points_checked t) as Hp. cbv zeta in Hp.
  destruct (is_rct_bulletproof_plus _) eqn:Eplus.
  { destruct (bulletproofs_plus _) as [|proof []]; [by eauto| |by eauto]. destruct (_ <? _)%nat; [by eauto|].
    cbv zeta. destruct (_ <? _); [by eauto|]. destruct Hp as [Hp| ->]; by eauto. }
  destruct (is_rct_bulletproof _) eqn:Ebp; [|by eauto].
  destruct (bulletproofs _) as [|proof []] eqn:Eproofs; [by eauto| |by eauto].
  destruct (_ <? 6)%nat; [by eauto|].
  assert (proofs_ok bulletproof_ok n_bulletproof_max_amounts (length (vout (prefix t))) [proof]) as Hone%one_proof.
  { destruct (vin (prefix t)) as [|i l]; [by rewrite Ht in Enull|]. destruct Ht as [_ Hx]. rewrite Enull in Hx.
    destruct Hx as (_ & _ & _ & Hr & _). unfold range_proofs_ok in Hr. unfold is_rct_bulletproof_plus in Eplus.
    unfold is_rct_bulletproof in Ebp. rewrite Eplus, Ebp, Eproofs in Hr. apply Hr. }
  unfold int_shl1. rewrite (proj2 (Z.leb_le _ _)), (proj2 (Z.ltb_lt _ _)) by lia. cbn [andb]. run.
  destruct (_ <? _); [by eauto|]. destruct Hp as [Hp| ->]; by eauto.
Qed.

(** C6. For every blob the parser of transactions has no undefined behaviour.  It throws
    only on the blob of a well-formed transaction with an output commitment that is no
    point of the curve, and returns a well-formed transaction or a failure otherwise; and a
    RingCT transaction with an input is only parsed from the one blob that it is saved as, so that nobody
    can change the bytes of a transaction without changing the transaction. *)
Theorem tx_blob_unique (blob : list Z) :
  Forall in_u8 blob ->
  parse_and_validate_tx_from_blob blob = Throw /\
    (exists t, parse_binary transaction_codec blob = Some t /\ transaction_ok t /\ bad_commitment t) \/
  exists r, parse_and_validate_tx_from_blob blob = Val r /\
    forall t, r = Some t -> transaction_ok t /\ (has_rct t -> tx_to_blob t = Some blob).
Proof.
  intros Hb. unfold parse_and_validate_tx_from_blob. destruct (parse_binary _ blob) as [t|] eqn:E; [|right; by eexists].
  pose proof (parse_law transaction_lawful blob t Hb E) as Ht.
  destruct (expand_safe t false Ht) as [[-> Hbad]|[ok ->]]; [left; by eauto|right]. run.
  eexists. split; [done|]. destruct ok; [|done]. intros t' [= <-]. split; [done|]. intros Hr.
  by apply (parse_solid has_rct blob t transaction_solid).
Qed.

(** C26. Every well-formed transaction that passes the expansion, which looks at its outputs,
    its range proof and its commitments, goes through its blob
    unchanged. *)
Theorem tx_roundtrip (t : transaction) :
  transaction_ok t -> expand_transaction_1 t false = Val true ->
  exists blob, tx_to_blob t = Some blob /\ Forall in_u8 blob /\ parse_and_validate_tx_from_blob blob = Val (Some t).
Proof.
  intros Ht He. destruct (parse_dump transaction_lawful t Ht) as (blob & E & Hb & Hp). exists blob.
  split; [done|]. split; [done|]. unfold parse_and_validate_tx_from_blob. by rewrite Hp, He.
Qed.

(** ** The blobs of a block *)

Lemma load_block (s : list Z) (b : block) (rest : list Z) :
  load block_codec s = Some (b, rest) <->
  exists s', load (header_codec ▷ transaction_codec) s = Some ((header b, miner_tx b), s') /\
    load (container (serialize_blob 32)) s' = Some (tx_hashes b, rest) /\
    Z.of_nat (length (tx_hashes b)) <= CRYPTONOTE_MAX_TX_PER_BLOCK.
Proof.
  unfold block_codec, checked, members. cbn [load]. split.
  - destruct (load ((header_codec ▷ transaction_codec) ▷ container (serialize_blob 32)) s) as [[[ht l] r]|] eqn:E; [|done].
    apply load_fields in E as (s' & E1 & E2). cbn [fst snd mbind option_bind header miner_tx tx_hashes] in *.
    destruct (negb _) eqn:Ec; [|done]. intros [= <- <-]. exists s'. cbn [header miner_tx tx_hashes].
    apply negb_true_iff, Z.ltb_ge in Ec. by rewrite <- surjective_pairing.
  - intros (s' & E1 & E2 & Hl). unfold fields at 1. cbn [load]. rewrite E1. cbn [mbind option_bind]. rewrite E2.
    cbn [mbind option_bind fst snd header miner_tx tx_hashes]. rewrite (proj2 (negb_true_iff _)) by (by apply Z.ltb_ge).
    by destruct b.
Qed.

Lemma save_block (b : block) (w : list Z) :
  block_ok b -> save (header_codec ▷ transaction_codec) (header b, miner_tx b) = Some w ->
  exists ws, save (container (serialize_blob 32)) (tx_hashes b) = Some ws /\ block_to_blob b = Some (w ++ ws).
Proof.
  intros (_ & _ & Hl & Hn) E. unfold CRYPTONOTE_MAX_TX_PER_BLOCK in Hn.
  destruct (law_save block_hashes_lawful (tx_hashes b)) as (ws & Ews & _); [split; [done|lia]|].
  exists ws. split; [done|]. unfold block_to_blob, dump_binary, block_codec, checked, members. cbn [save].
  rewrite (proj2 (negb_true_iff _)) by (apply Z.ltb_ge; unfold CRYPTONOTE_MAX_TX_PER_BLOCK; lia).
  unfold fields at 1. cbn [save fst snd]. rewrite E. cbn [mbind option_bind]. by rewrite Ews.
Qed.

(** C27. The blobs that parse to a given block with a RingCT coinbase: the one it is saved
    as, and, when it has no further transactions, the ones in which the last byte, the
    zero that counts them, is cut off or replaced by up to nine bytes 0x80.  A block
    without transactions has exactly eleven blobs, every other one exactly one. *)
Theorem block_blobs (b : block) (blob : list Z) :
  block_ok b -> has_rct (miner_tx b) -> Forall in_u8 blob ->
  (parse_and_validate_block_from_blob blob = Some b <->
   block_to_blob b = Some blob \/
   (tx_hashes b = [] /\ exists w (k : nat), block_to_blob b = Some (w ++ [0]) /\ (k <= 9)%nat /\ blob = w ++ replicate k 0x80)).
Proof.
  intros Hok Hr Hb. pose proof Hok as (Hh & Hm & _ & Hn).
  destruct (law_save block_front_lawful (header b, miner_tx b)) as (w & Ew & Hw & Hlw); [done|].
  destruct (save_block b w Hok Ew) as (ws & Ews & Eb). unfold parse_and_validate_block_from_blob, parse_binary. split.
  - destruct (load block_codec blob) as [[b' rest]|] eqn:E; [|done]. destruct rest; [|done]. intros [= ->].
    apply load_block in E as (s' & E1 & E2 & _).
    destruct (block_front_solid blob _ s' Hb E1 Hr) as (w' & Ew' & ->). rewrite Ew in Ew'. injection Ew' as <-.
    apply Forall_app in Hb as [_ Hs'].
    destruct (container_cut (blob_lawful 32) s' _ [] (blob_solid 32 _) Hs' E2) as [(v & Ev & ->)|(El & _ & k & -> & Hk)].
    + left. rewrite Eb. rewrite Ews in Ev. injection Ev as ->. by rewrite app_nil_r.
    + right. split; [done|]. exists w, k. rewrite El in Ews. assert (ws = [0]) as -> by (vm_compute in Ews; by injection Ews). done.
  - intros [E|(El & w' & k & E & Hk & ->)].
    + destruct (parse_dump block_lawful b Hok) as (v & Ev & _ & Hp). unfold block_to_blob in E. rewrite E in Ev.
      injection Ev as <-. exact Hp.
    + rewrite E in Eb. injection Eb as Eb. rewrite El in Ews.
      assert (ws = [0]) as -> by (vm_compute in Ews; by injection Ews).
      apply app_inj_tail in Eb as [-> _].
      assert (load block_codec (w ++ replicate k 0x80) = Some (b, [])) as ->; [|done].
      apply load_block. exists (replicate k 0x80). split; [apply Hlw|]. split; [|done]. rewrite El. by apply container_of_cut.
Qed.

(** ** Ids *)

Section ids.
Context (H : list Z -> list Z) (Hlen : forall l, length (H l) = 32%nat).

(** A text of each list, two different ones with the same hash. *)
Definition collision (l m : list (list Z)) : Prop := exists x y, In x l /\ In y m /\ x <> y /\ H x = H y.

Lemma same_or_collision (l m : list (list Z)) (x y : list Z) : H x = H y -> In x l -> In y m -> x = y \/ collision l m.
Proof. intros E Hx Hy. destruct (decide (x = y)) as [->|Hne]; [by left|]. right. by exists x, y. Qed.

Lemma collision_incl (l l' m m' : list (list Z)) : collision l m -> incl l l' -> incl m m' -> collision l' m'.
Proof. intros (x & y & Hx & Hy & Hxy) Hl Hm. exists x, y. by auto. Qed.

(** What is saved the same is the same. *)
Lemma save_inj {A} {P : A -> Prop} {c : codec A} (a b : A) (w : list Z) :
  lawful P c -> P a -> P b -> save c a = Some w -> save c b = Some w -> a = b.
Proof.
  intros Hc Ha Hb Ea Eb. destruct (law_save Hc a Ha) as (wa & Ewa & _ & Hla), (law_save Hc b Hb) as (wb & Ewb & _ & Hlb).
  specialize (Hla []). specialize (Hlb []). congruence.
Qed.

(** The three parts of a RingCT transaction. *)
Definition tx_base_codec (t : transaction) : codec rctSigBase := base_codec (length (vin (prefix t))) (length (vout (prefix t))).

Definition tx_prunable_codec (t : transaction) : codec rctSigPrunable :=
  if rct_type (base (rct_signatures t)) =? RCTTypeNull then no_field null_prunable
  else prunable_codec (rct_type (base (rct_signatures t))) (length (vin (prefix t))) (length (vout (prefix t)))
         (get_mixin (vin (prefix t))).

Definition tx_prunable_ok (t : transaction) (x : rctSigPrunable) : Prop :=
  if rct_type (base (rct_signatures t)) =? RCTTypeNull then x = null_prunable
  else prunable_ok (rct_type (base (rct_signatures t))) (length (vin (prefix t))) (length (vout (prefix t)))
         (get_mixin (vin (prefix t))) x.

Lemma tx_prunable_lawful (t : transaction) : lawful (tx_prunable_ok t) (tx_prunable_codec t).
Proof. apply if_lawful; [apply no_field_lawful|apply prunable_lawful]. Qed.

Lemma rct_parts (t : transaction) :
  transaction_ok t -> has_rct t ->
  prefix_ok (prefix t) /\ signatures t = [] /\
  base_ok (length (vin (prefix t))) (length (vout (prefix t))) (base (rct_signatures t)) /\
  tx_prunable_ok t (p (rct_signatures t)).
Proof.
  intros [Hp Ht] [Hv Hi]. rewrite (proj2 (Z.eqb_neq _ _) Hv) in Ht. destruct Ht as [Hs Ht].
  destruct (vin (prefix t)) as [|i l] eqn:E; [done|]. rewrite <- E in *. destruct Ht as [Hb Hr]. done.
Qed.

Lemma save_parts (t : transaction) :
  transaction_ok t -> has_rct t ->
  exists wp wb wr, save prefix_codec (prefix t) = Some wp /\ save (tx_base_codec t) (base (rct_signatures t)) = Some wb /\
    save (tx_prunable_codec t) (p (rct_signatures t)) = Some wr /\ tx_to_blob t = Some (wp ++ wb ++ wr).
Proof.
  intros Ht Hr. destruct (rct_parts t Ht Hr) as (Hp & Hs & Hb & Hx). destruct Hr as [Hv Hi].
  destruct (law_save prefix_lawful _ Hp) as (wp & Ep & _). destruct (law_save (base_lawful _ _) _ Hb) as (wb & Eb & _).
  destruct (law_save (tx_prunable_lawful t) _ Hx) as (wr & Er & _). exists wp, wb, wr. split_and!; try done.
  unfold tx_to_blob, dump_binary, transaction_codec, members, fields. cbn [save fst snd]. rewrite Ep. cbn [mbind option_bind].
  rewrite (proj2 (Z.eqb_neq _ _) Hv). destruct (vin (prefix t)) as [|i l] eqn:E; [done|]. rewrite <- E in *.
  unfold rct_codec, members, fields. cbn [save fst snd no_field mbind option_bind]. rewrite Eb. cbn [mbind option_bind].
  unfold tx_prunable_codec in Er. rewrite Er. cbn [mbind option_bind]. done.
Qed.

(** The hash of a RingCT transaction in terms of its parts, for blobs whose size fits
    the counters of the code. *)
Lemma rct_hash (t : transaction) (blob : list Z) :
  transaction_ok t -> has_rct t -> tx_to_blob t = Some blob -> Z.of_nat (length blob) < 2 ^ 32 ->
  exists wp wb wr, save prefix_codec (prefix t) = Some wp /\ save (tx_base_codec t) (base (rct_signatures t)) = Some wb /\
    save (tx_prunable_codec t) (p (rct_signatures t)) = Some wr /\ blob = wp ++ wb ++ wr /\
    calculate_transaction_hash H t = Some (H (H wp ++ H wb ++
      (if rct_type (base (rct_signatures t)) =? RCTTypeNull then null_hash else H wr))).
Proof.
  intros Ht Hr Eblob Hsz. destruct (save_parts t Ht Hr) as (wp & wb & wr & Ep & Eb & Er & E). rewrite E in Eblob.
  injection Eblob as <-. exists wp, wb, wr. split_and!; try done. unfold calculate_transaction_hash. rewrite E.
  destruct Hr as [Hv Hi]. cbn [mbind option_bind]. rewrite (proj2 (Z.eqb_neq _ _) Hv), Ep. cbn [mbind option_bind].
  destruct (vin (prefix t)) as [|i l] eqn:Ei; [done|]. rewrite <- Ei in *. unfold tx_base_codec in Eb. rewrite Eb.
  cbn [mbind option_bind]. rewrite !length_app in Hsz |- *.
  assert (u32 (Z.of_nat (length wp)) = Z.of_nat (length wp) /\
          u32 (Z.of_nat (length wp + length wb)) = Z.of_nat (length wp + length wb)) as [-> ->]
    by (split; apply Z.mod_small; lia).
  rewrite (proj2 (Z.leb_le (Z.of_nat (length wp)) _)), (proj2 (Z.leb_le _ (Z.of_nat (_ + (_ + _))))) by lia. cbn [andb negb].
  replace (Z.to_nat (Z.of_nat (length wp + length wb) - Z.of_nat (length wp))) with (length wb) by lia.
  rewrite Nat2Z.id, drop_app_length, take_app_length. unfold tx_prunable_codec in Er.
  destruct (rct_type _ =? RCTTypeNull); [done|]. unfold calculate_transaction_prunable_hash.
  rewrite (proj2 (Z.eqb_neq _ _) Hv), Er, !length_app, (proj2 (Z.leb_le _ _)) by lia.
  rewrite Nat2Z.id, (app_assoc wp wb wr), <- length_app, drop_app_length. by destruct (negb _).
Qed.

(** The hash from the pruned part of a RingCT transaction and the hash of what was
    cut off is the hash of the whole. *)
Lemma pruned_hash_agrees (t : transaction) (blob : list Z) :
  transaction_ok t -> has_rct t -> tx_to_blob t = Some blob -> Z.of_nat (length blob) < 2 ^ 32 ->
  exists h kept cut, blob = kept ++ cut /\ calculate_transaction_hash H t = Some h /\
    get_pruned_transaction_hash H t (H cut) = Val h.
Proof.
  intros Ht Hr E Hsz. destruct (rct_hash t blob Ht Hr E Hsz) as (wp & wb & wr & Ep & Eb & _ & -> & Eh).
  eexists _, (wp ++ wb), wr. split; [by rewrite app_assoc|]. split; [exact Eh|]. unfold get_pruned_transaction_hash.
  destruct (rct_parts t Ht Hr) as (((Hv & Hk) & _) & _). destruct Hr as [Hv1 _].
  assert (1 < version (prefix t)) as Hv2.
  { unfold known_version in Hk. destruct (Z.eqb_spec (version (prefix t)) 0); [done|]. unfold in_u64 in Hv. lia. }
  rewrite (proj2 (Z.ltb_lt _ _) Hv2). cbn [throw_unless]. run. unfold tx_base_codec in Eb. by rewrite Ep, Eb.
Qed.

(** The texts that are hashed for the hash of a RingCT transaction. *)
Definition txid_texts (t : transaction) : list (list Z) :=
  match save prefix_codec (prefix t), save (tx_base_codec t) (base (rct_signatures t)),
        save (tx_prunable_codec t) (p (rct_signatures t)) with
  | Some wp, Some wb, Some wr =>
      if rct_type (base (rct_signatures t)) =? RCTTypeNull then [wp; wb; H wp ++ H wb ++ null_hash]
      else [wp; wb; wr; H wp ++ H wb ++ H wr]
  | _, _, _ => []
  end.

(** The hash of a RingCT transaction commits to all of it: two of them with the same
    hash are the same transaction, or two texts hashed for them have the same hash. *)
Lemma txid_commits (t u : transaction) (tb ub h : list Z) :
  transaction_ok t -> transaction_ok u -> has_rct t -> has_rct u ->
  tx_to_blob t = Some tb -> tx_to_blob u = Some ub -> Z.of_nat (length tb) < 2 ^ 32 -> Z.of_nat (length ub) < 2 ^ 32 ->
  calculate_transaction_hash H t = Some h -> calculate_transaction_hash H u = Some h ->
  t = u \/ collision (txid_texts t) (txid_texts u).
Proof using Hlen.
  intros Ht Hu Hrt Hru Et Eu Hst Hsu Eht Ehu.
  destruct (rct_hash t tb Ht Hrt Et Hst) as (wp & wb & wr & Ep & Eb & Er & -> & Eh). rewrite Eht in Eh. injection Eh as ->.
  destruct (rct_hash u ub Hu Hru Eu Hsu) as (wp' & wb' & wr' & Ep' & Eb' & Er' & -> & Eh'). rewrite Ehu in Eh'.
  injection Eh' as Eh. unfold txid_texts. rewrite Ep, Eb, Er, Ep', Eb', Er'.
  match goal with |- _ \/ collision ?l ?m => set (L := l); set (M := m) end.
  assert (In wp L /\ In wb L /\ In wp' M /\ In wb' M) as (Hwp & Hwb & Hwp' & Hwb')
    by (unfold L, M; do 2 destruct (_ =? RCTTypeNull); cbn; tauto).
  destruct (same_or_collision L M _ _ Eh) as [E|];
    [unfold L; destruct (rct_type (base (rct_signatures t)) =? _); [do 2 right|do 3 right]; by left|
     unfold M; destruct (rct_type (base (rct_signatures u)) =? _); [do 2 right|do 3 right]; by left| |by right].
  apply app_inj_1 in E as [E0 E]; [|by rewrite !Hlen]. apply app_inj_1 in E as [E1 E2]; [|by rewrite !Hlen].
  destruct (same_or_collision L M _ _ E0) as [<-|]; [done..| |by right].
  destruct (same_or_collision L M _ _ E1) as [<-|]; [done..| |by right].
  destruct (rct_parts t Ht Hrt) as (Hp & Hs & Hb & Hx), (rct_parts u Hu Hru) as (Hp' & Hs' & Hb' & Hx').
  pose proof (save_inj _ _ wp prefix_lawful Hp Hp' Ep Ep') as EP.
  unfold tx_base_codec, tx_prunable_codec, tx_prunable_ok in *. rewrite <- EP in *.
  pose proof (save_inj _ _ wb (base_lawful _ _) Hb Hb' Eb Eb') as EB. rewrite <- EB in *.
  assert (p (rct_signatures t) = p (rct_signatures u) \/ collision L M) as [EX|]; [|left|by right].
  { subst L M. rewrite <- ?EB. destruct (rct_type _ =? RCTTypeNull); [left; congruence|].
    match goal with |- _ \/ collision ?l ?m => destruct (same_or_collision l m _ _ E2) as [<-|] end;
      [right; right; by left..| |by right].
    left. by eapply (save_inj _ _ wr); [apply prunable_lawful|..]. }
  destruct t as [? ? []], u as [? ? []]. cbn in *. by subst.
Qed.

(** A block whose coinbase is a RingCT transaction with a size that fits the counters of
    the code, and with room for it in the tree. *)
Definition plain_block (b : block) : Prop :=
  block_ok b /\ version (prefix (miner_tx b)) <> 1 /\ (exists height, vin (prefix (miner_tx b)) = [txin_gen height]) /\
  (exists blob, tx_to_blob (miner_tx b) = Some blob /\ Z.of_nat (length blob) < 2 ^ 32) /\
  Z.of_nat (length (tx_hashes b)) < CRYPTONOTE_MAX_TX_PER_BLOCK.

Lemma plain_rct (b : block) : plain_block b -> has_rct (miner_tx b).
Proof. intros (_ & Hv & (h & E) & _). split; [done|]. by rewrite E. Qed.

Lemma node_hash_length (x y : list Z) : length (node_hash H x y) = 32%nat.
Proof using Hlen. apply Hlen. Qed.

(** The leaves of the tree of a block. *)
Lemma plain_leaves (b : block) :
  plain_block b ->
  exists h, calculate_transaction_hash H (miner_tx b) = Some h /\
    Forall (fun x => length x = 32%nat) (h :: tx_hashes b) /\ 1 <= Z.of_nat (length (h :: tx_hashes b)) <= 2 ^ 28.
Proof using Hlen.
  intros Hb. pose proof (plain_rct b Hb) as Hr. destruct Hb as ((_ & Ht & Hh & _) & _ & _ & (blob & E & Hsz) & Hn).
  destruct (rct_hash (miner_tx b) blob Ht Hr E Hsz) as (? & ? & ? & _ & _ & _ & _ & Eh). eexists. split; [exact Eh|].
  split; [|cbn [length]; unfold CRYPTONOTE_MAX_TX_PER_BLOCK in Hn; lia]. constructor; [apply Hlen|].
  eapply Forall_impl; [exact Hh|]. by intros ? [].
Qed.

(** The hashing blob in parts. *)
Lemma hashing_parts (ndebug : bool) (b : block) :
  plain_block b ->
  exists h wh root count, calculate_transaction_hash H (miner_tx b) = Some h /\ save header_codec (header b) = Some wh /\
    tree_hash (node_hash H) null_hash ndebug (h :: tx_hashes b) = Val root /\ length root = 32%nat /\
    get_varint_data (Z.of_nat (length (tx_hashes b)) + 1) = Val count /\
    get_block_hashing_blob H ndebug b = Val (wh ++ root ++ count).
Proof using Hlen.
  intros Hb. destruct (plain_leaves b Hb) as (h & Eh & Hl & Hn). destruct Hb as ((Hhd & _) & _).
  destruct (law_save header_lawful _ Hhd) as (wh & Ewh & _).
  destruct (tree_hash_shape (node_hash H) null_hash ndebug _ Hn) as (t & m & Et & _).
  pose proof (tree_hash_domain (node_hash H) null_hash ndebug _ _ _ node_hash_length Hl Hn Et) as Hroot.
  destruct (get_varint_data_read (Z.of_nat (length (tx_hashes b)) + 1) []) as (count & Ec & _).
  { unfold in_u64. cbn [length] in Hn. lia. }
  exists h, wh, (root (node_hash H) t), count. split_and!; try done.
  unfold get_block_hashing_blob, get_tx_tree_hash. rewrite Ewh, Eh, Et. run. rewrite Ec. by run.
Qed.

(** Whether the code looks at the exception for block 202612, and whether it takes it. *)
Definition maybe_exempt (b : block) : bool :=
  match vin (prefix (miner_tx b)) with [txin_gen height] => height =? 202612 | _ => true end.
Definition exempt (b : block) (blob : list Z) : bool := maybe_exempt b && bool_decide (H blob = correct_blob_hash_202612).

(** The texts that are hashed for the hashing blob of a block, and for its id: these are the texts
    for the hash of the coinbase, the pairs of hashes in the tree, the hashing blob with its length, and in
    a block of height 202612 the blob of the block. *)
Definition hashing_texts (ndebug : bool) (b : block) : list (list Z) :=
  txid_texts (miner_tx b) ++
  match calculate_transaction_hash H (miner_tx b) with
  | Some h => (fun x => x.1 ++ x.2) <$> tree_inputs (node_hash H) null_hash ndebug (h :: tx_hashes b)
  | None => []
  end.

Definition id_texts (ndebug : bool) (b : block) (blob : list Z) : list (list Z) :=
  (if maybe_exempt b then [blob] else []) ++
  match get_block_hashing_blob H ndebug b with Val x => [default [] (save serialize_string x)] | _ => [] end ++
  hashing_texts ndebug b.

Lemma hashing_commits (ndebug : bool) (b c : block) (blob : list Z) :
  plain_block b -> plain_block c ->
  get_block_hashing_blob H ndebug b = Val blob -> get_block_hashing_blob H ndebug c = Val blob ->
  b = c \/ collision (hashing_texts ndebug b) (hashing_texts ndebug c).
Proof using Hlen.
  intros Hb Hc Eb Ec. pose proof (plain_rct b Hb) as Hrb. pose proof (plain_rct c Hc) as Hrc.
  destruct (plain_leaves b Hb) as (h & Eh & Hl & Hn), (plain_leaves c Hc) as (h' & Eh' & Hl' & Hn').
  destruct (hashing_parts ndebug b Hb) as (h0 & wh & root & count & E0 & Ewh & Et & Hroot & Ecnt & E). rewrite Eh in E0.
  injection E0 as <-. rewrite Eb in E. injection E as ->.
  destruct (hashing_parts ndebug c Hc) as (h0 & wh' & root' & count' & E0 & Ewh' & Et' & Hroot' & Ecnt' & E). rewrite Eh' in E0.
  injection E0 as <-. rewrite Ec in E. injection E as E.
  destruct Hb as ((Hhd & Htx & _) & _ & _ & (tb & Etb & Htb) & _), Hc as ((Hhd' & Htx' & _) & _ & _ & (tc & Etc & Htc) & _).
  destruct (law_save header_lawful _ Hhd) as (w & Ew & _ & Hw), (law_save header_lawful _ Hhd') as (w' & Ew' & _ & Hw').
  rewrite Ewh in Ew. injection Ew as <-. rewrite Ewh' in Ew'. injection Ew' as <-.
  pose proof (Hw (root ++ count)) as Hload. rewrite E, Hw' in Hload. injection Hload as EH Er.
  apply app_inj_1 in Er as [-> ->]; [|congruence].
  destruct (write_varint_prefix 9 (Z.of_nat (length (tx_hashes b)) + 1) (Z.of_nat (length (tx_hashes c)) + 1) count count [] [])
    as [EN _]; [lia..|done|done|done|]. unfold hashing_texts. rewrite Eh, Eh'.
  destruct (tree_hash_commits (node_hash H) null_hash ndebug (h :: tx_hashes b) (h' :: tx_hashes c) root ltac:(cbn; lia) Hn Et Et')
    as [[= <- EL]|(x & y & Hx & Hy & Hne & Exy)].
  - destruct (txid_commits _ _ tb tc h Htx Htx' Hrb Hrc Etb Etc Htb Htc Eh Eh') as [EM|Hcol]; [left|right].
    + destruct b, c. cbn in *. by subst.
    + by apply (collision_incl _ _ _ _ Hcol); apply incl_appl, incl_refl.
  - right. exists (x.1 ++ x.2), (y.1 ++ y.2). split; [apply in_or_app; right; by apply (in_map (fun x => x.1 ++ x.2))|].
    split; [apply in_or_app; right; by apply (in_map (fun x => x.1 ++ x.2))|]. split; [|exact Exy].
    pose proof (tree_inputs_domain _ _ null_hash ndebug _ node_hash_length Hl Hn) as Dx. rewrite List.Forall_forall in Dx.
    pose proof (tree_inputs_domain _ _ null_hash ndebug _ node_hash_length Hl' Hn') as Dy. rewrite List.Forall_forall in Dy.
    destruct (Dx x Hx), (Dy y Hy). destruct x, y. cbn in *. intros Ea. apply app_inj_1 in Ea as [-> ->]; [done|congruence].
Qed.

(** The length that is hashed in front of the hashing blob, and the id. *)
Lemma block_id (ndebug : bool) (b : block) (blob : list Z) :
  plain_block b ->
  exists x n, get_block_hashing_blob H ndebug b = Val x /\ get_varint_data (Z.of_nat (length x)) = Val n /\
    save serialize_string x = Some (n ++ x) /\
    calculate_block_hash H ndebug b blob =
      Val (if exempt b blob then Some existing_block_id_202612
           else if maybe_exempt b && bool_decide (H (n ++ x) = existing_block_id_202612) then None else Some (H (n ++ x))).
Proof using Hlen.
  intros Hb. destruct (hashing_parts ndebug b Hb) as (h & wh & root & count & _ & Ewh & _ & Hroot & Ecnt & E).
  exists (wh ++ root ++ count). destruct (get_varint_data_read (Z.of_nat (length (wh ++ root ++ count))) []) as (n & En & _).
  { rewrite !length_app, Hroot. pose proof (header_length _ _ (proj1 (proj1 Hb)) Ewh).
    pose proof (varint_length _ _ Ecnt). unfold in_u64. lia. }
  assert (save serialize_string (wh ++ root ++ count) = Some (n ++ wh ++ root ++ count)) as Es.
  { unfold serialize_string, serialize_varint. cbn [save]. by rewrite En. }
  exists n. split; [done|]. split; [done|]. split; [done|]. unfold calculate_block_hash. rewrite E. run. rewrite Es.
  cbn [default]. unfold exempt, maybe_exempt. destruct Hb as (_ & _ & (height & ->) & _).
  destruct (height =? 202612); cbn [negb andb]; [|done]. repeat case_bool_decide; repeat case_decide; done.
Qed.

(** A block that is read from its blob. *)
Definition ringct_coinbase (b : block) : Prop :=
  version (prefix (miner_tx b)) <> 1 /\ exists height, vin (prefix (miner_tx b)) = [txin_gen height].

Lemma save_all_blobs (n : nat) (l : list (list Z)) : save_all (serialize_blob n) l = Some (mjoin l).
Proof. induction l as [|x l IH]; [done|]. cbn. by rewrite IH. Qed.

Lemma mjoin_length (n : nat) (l : list (list Z)) : Forall (is_blob n) l -> length (mjoin l) = (n * length l)%nat.
Proof.
  induction 1 as [|x l [Hx _] _ IH]; [cbn; lia|].
  change (mjoin (x :: l)) with (x ++ mjoin l). rewrite length_app, Hx, IH. cbn [length]. lia.
Qed.

Lemma parsed_block (b : block) (blob : list Z) :
  Forall in_u8 blob -> Z.of_nat (length blob) < 2 ^ 32 -> parse_and_validate_block_from_blob blob = Some b ->
  ringct_coinbase b -> plain_block b.
Proof.
  intros Hb Hsz E [Hv Hgen]. pose proof (parse_law block_lawful blob b Hb E) as Hok. pose proof Hok as (_ & _ & Hl & _).
  assert (has_rct (miner_tx b)) as Hr by (split; [done|]; by destruct Hgen as [? ->]).
  unfold parse_and_validate_block_from_blob, parse_binary in E.
  destruct (load block_codec blob) as [[b' rest]|] eqn:El; [|done]. destruct rest; [|done]. injection E as ->.
  apply load_block in El as (s' & E1 & E2 & _). destruct (block_front_solid blob _ s' Hb E1 Hr) as (w & Ew & ->).
  unfold fields in Ew. cbn [save fst snd] in Ew. destruct (save header_codec (header b)) as [wh|]; [|done]. cbn [mbind option_bind] in Ew.
  destruct (save transaction_codec (miner_tx b)) as [wt|] eqn:Et; [|done]. cbn [mbind option_bind] in Ew. injection Ew as <-.
  rewrite !length_app in Hsz. split; [done|]. split; [done|]. split; [done|]. split; [exists wt; split; [done|lia]|].
  apply Forall_app in Hb as [_ Hs']. unfold CRYPTONOTE_MAX_TX_PER_BLOCK in *.
  destruct (container_cut (blob_lawful 32) s' _ [] (blob_solid 32 _) Hs' E2) as [(v & Ev & ->)|(-> & _)]; [|cbn; lia].
  unfold container in Ev. cbn [save] in Ev. destruct (save (serialize_varint 64) _) as [wc|]; [|done]. cbn [mbind option_bind] in Ev.
  rewrite save_all_blobs in Ev. cbn [mbind option_bind] in Ev. injection Ev as <-.
  rewrite !length_app, (mjoin_length 32 _ Hl) in Hsz. lia.
Qed.

(** C5. The id of a block commits to all of it.  Take two blocks with RingCT coinbases that are read from blobs of
    less than 2^32 bytes.  Their ids are computed, where failure is only possible at height
    202612; and when they are equal, the blocks are the same, header, coinbase and list
    of transactions, or among the texts that are hashed for the two ids there are two different ones
    with the same hash, or just one of the two blocks takes the exception for block
    202612, which replaces its id by a constant. *)
Theorem block_id_commits (ndebug : bool) (b c : block) (bblob cblob : list Z) :
  Forall in_u8 bblob -> Forall in_u8 cblob -> Z.of_nat (length bblob) < 2 ^ 32 -> Z.of_nat (length cblob) < 2 ^ 32 ->
  parse_and_validate_block_from_blob bblob = Some b -> parse_and_validate_block_from_blob cblob = Some c ->
  ringct_coinbase b -> ringct_coinbase c ->
  exists rb rc, calculate_block_hash H ndebug b bblob = Val rb /\ calculate_block_hash H ndebug c cblob = Val rc /\
    (rb = None -> maybe_exempt b = true) /\ (rc = None -> maybe_exempt c = true) /\
    forall id, rb = Some id -> rc = Some id ->
      b = c \/ collision (id_texts ndebug b bblob) (id_texts ndebug c cblob) \/
      id = existing_block_id_202612 /\ exempt b bblob <> exempt c cblob.
Proof using Hlen.
  intros Hbb Hcb Hbl Hcl Ebp Ecp Hbr Hcr. pose proof (parsed_block b bblob Hbb Hbl Ebp Hbr) as Hb.
  pose proof (parsed_block c cblob Hcb Hcl Ecp Hcr) as Hc.
  destruct (block_id ndebug b bblob Hb) as (x & nx & Ex & Enx & Sx & ->).
  destruct (block_id ndebug c cblob Hc) as (y & ny & Ey & Eny & Sy & ->). eexists _, _. split; [done|]. split; [done|].
  split; [by destruct (exempt b bblob), (maybe_exempt b)|]. split; [by destruct (exempt c cblob), (maybe_exempt c)|].
  intros id. unfold id_texts. rewrite Ex, Ey, Sx, Sy. cbn [default].
  destruct (exempt b bblob) eqn:Xb, (exempt c cblob) eqn:Xc.
  - intros _ _. unfold exempt in Xb, Xc. apply andb_true_iff in Xb as [-> Xb%bool_decide_eq_true], Xc as [-> Xc%bool_decide_eq_true].
    destruct (same_or_collision ([bblob] ++ [nx ++ x] ++ hashing_texts ndebug b) ([cblob] ++ [ny ++ y] ++ hashing_texts ndebug c)
      bblob cblob) as [->|]; [congruence|by left|by left| |by right; left]. left. congruence.
  - intros [= <-] _. by right; right.
  - intros _ [= <-]. by right; right.
  - destruct (_ && _); [done|]. intros [= <-]. destruct (_ && _); [done|]. intros [= E].
    match goal with |- _ \/ collision ?l ?m \/ _ => destruct (same_or_collision l m _ _ (eq_sym E)) as [Eo|] end;
      [apply in_or_app; right; by left|apply in_or_app; right; by left| |by right; left].
    destruct (write_varint_prefix 9 (Z.of_nat (length x)) (Z.of_nat (length y)) nx ny x y) as [_ <-]; [lia..|done|done|done|].
    destruct (hashing_commits ndebug b c x Hb Hc Ex Ey) as [|Hcol]; [by left|]. right; left.
    apply (collision_incl _ _ _ _ Hcol); apply incl_appr, incl_appr, incl_refl.
Qed.
End ids.

(** ** The coinbase of a template *)

Lemma null_rct_ok (inputs outputs : nat) (mixin : Z) : rct_ok inputs outputs mixin null_rct.
Proof. split; [|done]. split; [split; [by split|done]|done]. Qed.

(** C4. The coinbase that a miner builds for a block template, with an extra nonce of up to
    127 bytes, goes over the wire unchanged and passes both coinbase checks of the block
    mined from it with the full base reward, and its extra field holds the key of the
    transaction, for every version the chain uses from 4 on. *)
Theorem template_relayed (derive_out : Z -> option (list Z * list Z)) (k nonce : list Z) (ndebug : bool)
    (height median_w agc w fee max_outs hf base cumul : Z) (last : list Z)
    (Hderive : forall no, exists key tag, derive_out no = Some (key, tag) /\ is_blob 32 key /\ is_blob 1 tag)
    (Hk : is_blob 32 k) (Hnonce : Forall in_u8 nonce) (Hlen : Z.of_nat (length nonce) <= 127)
    (Hheight : in_u64 height) (Hmax : 1 <= max_outs < 2 ^ 64) (Hhf : 4 <= hf)
    (Hreward : get_block_reward ndebug median_w w agc hf height = Val (Some base))
    (Hbase : in_u64 base) (Hfee : 0 <= fee) (Hsum : base + fee < 2 ^ 64)
    (Hmedian : (if HF_VERSION_EFFECTIVE_SHORT_TERM_MEDIAN_IN_PENALTY <=? hf
                then mret cumul else median last) = Val median_w) :
  exists tx blob,
    construct_miner_tx derive_out k ndebug height median_w agc w fee null_transaction nonce max_outs hf = Val (Some tx) /\
    tx_to_blob tx = Some blob /\ parse_and_validate_tx_from_blob blob = Val (Some tx) /\
    prevalidate_miner_transaction tx height hf = true /\
    validate_miner_transaction ndebug tx w fee agc hf cumul last = Val (Some (base, false)) /\
    get_tx_pub_key_from_extra (extra (prefix tx)) 0 = k.
Proof.
  destruct (miner_extra_short k nonce Hk Hnonce Hlen) as (ex & Eex & Hex & Hexl & Eparse).
  assert (forall no, is_Some (derive_out no)) as Hd by (intros no; destruct (Hderive no) as (? & ? & -> & _); by eexists).
  destruct (template_validates derive_out k nonce ex ndebug height median_w agc w fee max_outs hf base cumul last null_transaction)
    as (tx & Etx & Hpre & Hval); try done; [lia|by left|].
  destruct (construct_miner_tx_spec derive_out k nonce ex ndebug height median_w agc w fee max_outs hf base null_transaction)
    as (outs & Etx' & Es & Hnn & Hlo & Ht); try done; [lia|by left|].
  rewrite Etx in Etx'. injection Etx' as ->. rewrite (proj2 (Z.leb_le 4 hf) Hhf) in *.
  match type of Etx with _ = Val (Some ?x) => set (tx := x) in * end.
  assert (transaction_ok tx) as Hok.
  { assert (Forall (fun o => in_u64 (amount o)) outs) as Ham
      by (apply (Forall_map amount in_u64), Forall_u64_of_sum; [done|lia]).
    split; [|split; [done|apply null_rct_ok]]. cbn [tx prefix].
    split; [by split|]. split; [apply u64_range|]. split; [split; [by apply List.Forall_cons|done]|].
    split; [|cbn [extra]; split; [done|lia]]. cbn [vout]. split; [|lia].
    apply Forall_forall. intros o Ho. rewrite Forall_forall in Ht. rewrite Forall_forall in Ham.
    split; [by apply Ham|]. destruct (Ht o Ho) as (no & key & tag & Eno & ->).
    destruct (Hderive no) as (? & ? & Ed & ? & ?). rewrite Ed in Eno. injection Eno as -> ->.
    by destruct (HF_VERSION_VIEW_TAGS <=? hf). }
  destruct (parse_dump transaction_lawful tx Hok) as (blob & E & _ & Hp). exists tx, blob. split_and!; try done.
  - unfold parse_and_validate_tx_from_blob. by rewrite Hp.
  - unfold get_tx_pub_key_from_extra. cbn [tx prefix extra]. by rewrite Eparse.
Qed.

(** ** A full block

    As many hashes as the parser of blocks allows do not fit into the tree together with
    the coinbase. *)
Lemma full_block_aborts (H : list Z -> list Z) (b : block) (h : list Z) :
  calculate_transaction_hash H (miner_tx b) = Some h ->
  Z.of_nat (length (tx_hashes b)) = CRYPTONOTE_MAX_TX_PER_BLOCK -> get_tx_tree_hash H false b = Abort.
Proof.
  intros E Hn. unfold get_tx_tree_hash. rewrite E. unfold tree_hash. cbn [length]. rewrite Nat2Z.inj_succ, Hn.
  unfold CRYPTONOTE_MAX_TX_PER_BLOCK. by vm_compute.
Qed.

(** ** Examples *)

(** A spend of one input from a ring of two to two outputs, and a coinbase. *)
Definition example_key (n : Z) : list Z := replicate 32 n.

Definition example_spend : transaction := {|
  prefix := {|
    version := 2; unlock_time := 0; vin := [txin_to_key 0 [1000; 5] (example_key 1)];
    vout := [{| amount := 0; target := to_tagged_key (example_key 2) [9] |};
             {| amount := 0; target := to_tagged_key (example_key 3) [8] |}];
    extra := [1; 2; 3] |};
  signatures := [];
  rct_signatures := {|
    base := {|
      rct_type := RCTTypeBulletproofPlus; txnFee := 30720000; pseudoOuts := [];
      ecdhInfo := (fun n => {| e_mask := replicate 32 0; e_amount := replicate 8 n ++ replicate 24 0 |}) <$> [4; 5];
      outPk := [neutral_point; replicate 32 0] |};
    p := {|
      rangeSigs := []; bulletproofs := [];
      bulletproofs_plus := [{|
        bpp_A := example_key 10; bpp_A1 := example_key 11; bpp_B := example_key 12; bpp_r1 := example_key 13;
        bpp_s1 := example_key 14; bpp_d1 := example_key 15; bpp_L := replicate 7 (example_key 16);
        bpp_R := replicate 7 (example_key 17) |}];
      MGs := []; CLSAGs := [{| c_s := [example_key 18; example_key 19]; c_c1 := example_key 20; c_D := example_key 21 |}];
      p_pseudoOuts := [example_key 22] |} |} |}.

Definition example_block (height : Z) (hashes : list (list Z)) : block := {|
  header := {| major_version := 16; minor_version := 16; timestamp := 1700000000; prev_id := example_key 1; nonce := 77 |};
  miner_tx := {|
    prefix := {|
      version := 2; unlock_time := height + 60; vin := [txin_gen height];
      vout := [{| amount := 600000000000; target := to_tagged_key (example_key 2) [9] |}]; extra := [1; 2; 3] |};
    signatures := []; rct_signatures := null_rct |};
  tx_hashes := hashes |}.

(** What a blob parses to is well-formed, and a list of bytes is one that passes a test. *)
Definition all_bytes (l : list Z) : bool := forallb (fun x => (0 <=? x) && (x <? 256)) l.

Lemma all_bytes_spec (l : list Z) : all_bytes l = true -> Forall in_u8 l.
Proof.
  intros E. apply List.Forall_forall. intros x Hx. unfold all_bytes in E. rewrite forallb_forall in E. apply E in Hx.
  apply andb_true_iff in Hx as [?%Z.leb_le ?%Z.ltb_lt]. unfold in_u8. lia.
Qed.

Lemma example_ok {A} {P : A -> Prop} {c : codec A} (a : A) :
  lawful P c -> all_bytes (default [] (save c a)) = true -> parse_binary c (default [] (save c a)) = Some a -> P a.
Proof. intros Hc Hb E. by apply (parse_law Hc (default [] (save c a))); [apply all_bytes_spec|]. Qed.

Lemma tx_blob_unique_witness :
  let blob := default [] (tx_to_blob example_spend) in
  parse_and_validate_tx_from_blob blob = Throw /\
    (exists t, parse_binary transaction_codec blob = Some t /\ transaction_ok t /\ bad_commitment t) \/
  exists r, parse_and_validate_tx_from_blob blob = Val r /\
    forall t, r = Some t -> transaction_ok t /\ (has_rct t -> tx_to_blob t = Some blob).
Proof. apply tx_blob_unique. apply all_bytes_spec. by vm_compute. Defined.

Lemma tx_roundtrip_witness :
  exists blob, tx_to_blob example_spend = Some blob /\ Forall in_u8 blob /\
    parse_and_validate_tx_from_blob blob = Val (Some example_spend).
Proof. apply tx_roundtrip; [apply (example_ok _ transaction_lawful); by vm_compute|by vm_compute]. Defined.

Lemma block_blobs_witness :
  parse_and_validate_block_from_blob (default [] (block_to_blob (example_block 5 []))) = Some (example_block 5 []) <->
  block_to_blob (example_block 5 []) = Some (default [] (block_to_blob (example_block 5 []))) \/
  (tx_hashes (example_block 5 []) = [] /\
   exists w (k : nat), block_to_blob (example_block 5 []) = Some (w ++ [0]) /\ (k <= 9)%nat /\
     default [] (block_to_blob (example_block 5 [])) = w ++ replicate k 0x80).
Proof.
  apply block_blobs; [apply (example_ok _ block_lawful); by vm_compute|by split|apply all_bytes_spec; by vm_compute].
Defined.

Lemma block_id_commits_witness :
  let H l := replicate 32 (Z.of_nat (length l) mod 256) in
  let b := example_block 5 [example_key 3] in let c := example_block 6 [] in
  let bblob := default [] (block_to_blob b) in let cblob := default [] (block_to_blob c) in
  exists rb rc, calculate_block_hash H true b bblob = Val rb /\ calculate_block_hash H true c cblob = Val rc /\
    (rb = None -> maybe_exempt b = true) /\ (rc = None -> maybe_exempt c = true) /\
    forall id, rb = Some id -> rc = Some id ->
      b = c \/ collision H (id_texts H true b bblob) (id_texts H true c cblob) \/
      id = existing_block_id_202612 /\ exempt H b bblob <> exempt H c cblob.
Proof.
  intros H b c bblob cblob. apply (block_id_commits H); [done| | | | | | | | ]; [..|by split; [|eexists]|by split; [|eexists]].
  1,2: apply all_bytes_spec; by vm_compute.
  all: by vm_compute.
Defined.

Lemma template_relayed_witness :
  exists tx blob,
    construct_miner_tx (fun no => Some (example_key (no mod 256), [7])) (example_key 9) true 600000 300000 5000000 450000 1234
      null_transaction (replicate 60 0) 1 16 = Val (Some tx) /\
    tx_to_blob tx = Some blob /\ parse_and_validate_tx_from_blob blob = Val (Some tx) /\
    prevalidate_miner_transaction tx 600000 16 = true /\
    validate_miner_transaction true tx 450000 1234 5000000 16 300000 [] = Val (Some (3750000000, false)) /\
    get_tx_pub_key_from_extra (extra (prefix tx)) 0 = example_key 9.
Proof.
  apply (template_relayed (fun no => Some (example_key (no mod 256), [7])) (example_key 9) (replicate 60 0) true 600000 300000 5000000
    450000 1234 1 16 3750000000 300000 []); try (vm_compute; reflexivity).
  - intros no. eexists _, _. split; [done|]. split; (split; [done|]); [|by repeat constructor].
    apply Forall_replicate. unfold in_u8. apply Z.mod_pos_bound. lia.
  - split; [done|]. by apply Forall_replicate.
  - by apply Forall_replicate.
  - by vm_compute.
  - by vm_compute.
  - by vm_compute.
  - by vm_compute.
  - by vm_compute.
  - by vm_compute.
Defined.
