(* ===== verification/TxWeight.v ===== *)
(** * The weight of a transaction

    src/src/cryptonote_basic/cryptonote_format_utils.cpp: the weight of a transaction,
    from its blob or from what pruning leaves of it, and the parser of the part that
    pruning leaves ([transaction::serialize_base]). *)

From S2P Require Import Prelude Varint Archive TxFormat BlockFormat.

#[local] Open Scope codec_scope.
#[local] Open Scope word_scope.

(** ** What pruning leaves *)

Definition pruned (t : transaction) : transaction := {|
  prefix := prefix t; signatures := [];
  rct_signatures := {| base := base (rct_signatures t); p := null_prunable |} |}.

(** The prefix and the base of the signatures.  It is also how a transaction with the flag
    [pruned] is serialized. *)
Definition serialize_base : codec transaction :=
  members (fun x => {| prefix := x.1; signatures := []; rct_signatures := {| base := x.2; p := null_prunable |} |})
    (fun t => (prefix t, base (rct_signatures t)))
    (fields prefix_codec (fun t =>
      if version t =? 1 then no_field null_base
      else match vin t with [] => no_field null_base | _ => base_codec (length (vin t)) (length (vout t)) end)).

(** Bytes after it are not looked at. *)
Definition parse_and_validate_tx_base_from_blob (blob : list Z) : outcome (option transaction) :=
  match load serialize_base blob with
  | Some (t, _) => ok ← expand_transaction_1 t true; Val (if (ok : bool) then Some t else None)
  | None => Val None
  end.

(** ** Weights *)

(** [while ((1u << nlr) < n) ++nlr], from [nlr] on. *)
Fixpoint log2_loop (fuel : nat) (nlr n : Z) : outcome Z :=
  if 32 <=? nlr then Undef
  else if Z.shiftl 1 nlr <? n then
    match fuel with
    | O => Diverge
    | S fuel => log2_loop fuel (nlr + 1) n
    end
  else Val nlr.

Definition get_transaction_weight_clawback (t : transaction) (n_padded_outputs : Z) : outcome Z :=
  let plus := rct_type (base (rct_signatures t)) =? RCTTypeBulletproofPlus in
  let bp_base := 32 * ((if plus then 6 else 9) + 7 * 2) / 2 in
  let n_outputs := Z.of_nat (length (vout (prefix t))) in
  if n_padded_outputs <=? 2 then Val 0
  else
    nlr ← log2_loop 32 0 n_padded_outputs;
    let nlr := nlr + 6 in
    let bp_size := 32 * ((if plus then 6 else 9) + 2 * nlr) in
    _ ← throw_unless (n_outputs <=? BULLETPROOF_MAX_OUTPUTS);
    _ ← throw_unless (bp_size <=? bp_base ⊠ n_padded_outputs);
    Val ((bp_base ⊠ n_padded_outputs ⊟ bp_size) ⊠ 4 / 5).

Definition uint64_max : Z := 2 ^ 64 - 1.

(** [is_pruned] is the flag of the transaction. *)
Definition get_transaction_weight (t : transaction) (is_pruned : bool) (blob_size : Z) : outcome Z :=
  if is_pruned then Val uint64_max
  else if version (prefix t) <? 2 then Val blob_size
  else
    let rv := rct_signatures t in
    let bulletproof := is_rct_bulletproof (rct_type (base rv)) in
    let bulletproof_plus := is_rct_bulletproof_plus (rct_type (base rv)) in
    if negb bulletproof && negb bulletproof_plus then Val blob_size
    else
      let n_padded_outputs :=
        if bulletproof_plus then sum_max_amounts n_bulletproof_plus_max_amounts 0 (bulletproofs_plus (p rv))
        else sum_max_amounts n_bulletproof_max_amounts 0 (bulletproofs (p rv)) in
      bp_clawback ← get_transaction_weight_clawback t n_padded_outputs;
      _ ← throw_unless (bp_clawback <=? uint64_max ⊟ blob_size);
      Val (blob_size ⊞ bp_clawback).

Definition is_rct_clsag (type : Z) : bool := (type =? RCTTypeCLSAG) || (type =? RCTTypeBulletproofPlus).

(** The number of bytes that a transaction with the flag [pruned] is saved as; the code
    does not look at whether it can be saved. *)
Definition pruned_size (t : transaction) : Z := Z.of_nat (length (default [] (save serialize_base t))).

Definition get_pruned_transaction_weight (t : transaction) (is_pruned : bool) : outcome Z :=
  let type := rct_type (base (rct_signatures t)) in
  let inputs := Z.of_nat (length (vin (prefix t))) in
  if negb is_pruned then Val uint64_max
  else if negb (2 <=? version (prefix t)) then Val uint64_max
  else if negb ((type =? RCTTypeBulletproof2) || (type =? RCTTypeCLSAG) || (type =? RCTTypeBulletproofPlus)) then Val uint64_max
  else
    match vin (prefix t) with
    | txin_to_key _ key_offsets _ :: _ =>
        let weight := pruned_size t in
        let weight := weight ⊞ 1 in
        nrl ← log2_loop 32 0 (Z.of_nat (length (vout (prefix t))));
        let n_padded_outputs := Z.shiftl 1 nrl in
        let nrl := nrl + 6 in
        let weight := weight ⊞ (32 * ((if is_rct_bulletproof_plus type then 6 else 9) + 2 * nrl) + 2) in
        let ring_size := Z.of_nat (length key_offsets) in
        let extra :=
          if is_rct_clsag type then inputs ⊠ (ring_size ⊞ 2) ⊠ 32
          else inputs ⊠ (ring_size ⊠ (1 + 1) ⊠ 32 ⊞ 32) in
        let weight := weight ⊞ extra in
        let weight := weight ⊞ (32 ⊠ inputs) in
        bp_clawback ← get_transaction_weight_clawback t n_padded_outputs;
        _ ← throw_unless (bp_clawback <=? uint64_max ⊟ weight);
        Val (weight ⊞ bp_clawback)
    | _ => Val uint64_max
    end.

(** ** The parser of the base *)

Lemma serialize_base_save (t : transaction) :
  has_rct t ->
  save serialize_base t =
    (w ← save prefix_codec (prefix t);
     ws ← save (base_codec (length (vin (prefix t))) (length (vout (prefix t)))) (base (rct_signatures t)); Some (w ++ ws)).
Proof.
  intros [Hv Hi]. unfold serialize_base, members, fields. cbn [save fst snd]. rewrite (proj2 (Z.eqb_neq _ _) Hv).
  by destruct (vin (prefix t)).
Qed.

(** The base of a transaction is parsed from its whole blob. *)
Lemma parse_base (t : transaction) (blob : list Z) :
  transaction_ok t -> has_rct t -> tx_to_blob t = Some blob ->
  exists kept cut, blob = kept ++ cut /\ save serialize_base (pruned t) = Some kept /\
    save (tx_prunable_codec t) (p (rct_signatures t)) = Some cut /\
    load serialize_base blob = Some (pruned t, cut).
Proof.
  intros Ht Hr E. destruct (rct_parts t Ht Hr) as (Hp & _ & Hb & _).
  destruct (save_parts t Ht Hr) as (wp & wb & wr & Ep & Eb & Er & E'). rewrite E in E'. injection E' as ->.
  exists (wp ++ wb), wr. split; [by rewrite app_assoc|]. rewrite (serialize_base_save (pruned t)) by done.
  unfold pruned at 1 2 3 4. cbn [prefix rct_signatures base]. unfold tx_base_codec in Eb. rewrite Ep. cbn [mbind option_bind]. rewrite Eb.
  split; [done|]. split; [done|].
  destruct (law_save prefix_lawful _ Hp) as (w & Ew & _ & Hlw). rewrite Ep in Ew. injection Ew as <-.
  destruct (law_save (base_lawful _ _) _ Hb) as (w & Ew & _ & Hlb). rewrite Eb in Ew. injection Ew as <-.
  unfold serialize_base, members, fields. cbn [load]. rewrite Hlw. cbn [mbind option_bind]. destruct Hr as [Hv Hi].
  rewrite (proj2 (Z.eqb_neq _ _) Hv). destruct (vin (prefix t)) as [|i l] eqn:Ei; [done|]. by rewrite Hlb.
Qed.

(** ** Sizes *)

(** The values with [P] are all saved as [k] bytes. *)
Definition sized {A} (P : A -> Prop) (c : codec A) (k : nat) : Prop := forall a w, P a -> save c a = Some w -> length w = k.

Lemma blob_sized (n : nat) : sized (is_blob n) (serialize_blob n) n.
Proof. by intros b w [Hb _] [= <-]. Qed.

Lemma save_all_sized {A} (P : A -> Prop) (c : codec A) (k : nat) (l : list A) (w : list Z) :
  sized P c k -> Forall P l -> save_all c l = Some w -> length w = (length l * k)%nat.
Proof.
  intros Hc Hl. revert w. induction Hl as [|a l Ha _ IH]; intros w; cbn; [by intros [= <-]|].
  destruct (save c a) as [v|] eqn:E; [|done]. cbn. destruct (save_all c l) as [vs|]; [|done]. intros [= <-].
  by rewrite length_app, (Hc a v Ha E), (IH vs).
Qed.

Lemma custom_vector_sized {A} (P : A -> Prop) (c : codec A) (k n : nat) :
  sized P c k -> sized (fixed_ok P n) (custom_vector c n) (n * k).
Proof.
  intros Hc l w [Hl Hn]. unfold custom_vector. cbn [save]. destruct (length l =? n)%nat; [|done]. intros E.
  rewrite (save_all_sized P c k l w Hc Hl E). by rewrite Hn.
Qed.

Lemma then_sized {A B} (P : A -> Prop) (R : B -> Prop) (c : codec A) (d : codec B) (j k : nat) :
  sized P c j -> sized R d k -> sized (fun ab => P ab.1 /\ R ab.2) (c ▷ d) (j + k).
Proof.
  intros Hc Hd [a b] w [Ha Hb]. unfold fields. cbn [save fst snd]. destruct (save c a) as [v|] eqn:E; [|done]. cbn.
  destruct (save d b) as [vs|] eqn:E'; [|done]. intros [= <-]. by rewrite length_app, (Hc a v Ha E), (Hd b vs Hb E').
Qed.

Lemma short_varint (n : Z) : 0 <= n < 128 -> save (serialize_varint 64) n = Some [n].
Proof.
  intros Hn. unfold serialize_varint, get_varint_data. cbn [save write_varint].
  rewrite (proj2 (Z.leb_gt _ _)) by lia. unfold u8. by rewrite Z.mod_small by lia.
Qed.

Lemma keys_sized (n : nat) :
  (n < 128)%nat -> sized (fun l => Forall (is_blob 32) l /\ length l = n) (container key) (1 + n * 32).
Proof.
  intros Hn l w [Hl Hlen]. unfold container. cbn [save]. rewrite short_varint by lia. cbn [mbind option_bind].
  destruct (save_all key l) as [ws|] eqn:E; [|done]. intros [= <-]. cbn [app length].
  by rewrite (save_all_sized _ _ 32 _ _ (blob_sized 32) Hl E), Hlen.
Qed.

Lemma bulletproof_plus_sized (n : nat) :
  (n < 128)%nat ->
  sized (fun b => bulletproof_plus_ok b /\ length (bpp_L b) = n) bulletproof_plus_codec (32 * (6 + 2 * n) + 2).
Proof.
  intros Hn b w [[(H1 & H2 & H3 & H4 & H5 & H6 & [HL _] & [HR _]) Hs] Hl].
  unfold same_sizes in Hs. apply negb_true_iff, orb_false_iff in Hs as [_ Hs%negb_false_iff%Nat.eqb_eq].
  unfold bulletproof_plus_codec, checked, members. cbn [save]. destruct (same_sizes _ _); [|done].
  pose proof (blob_sized 32) as Hk. pose proof (keys_sized n Hn) as Hv. fold key in Hk. intros E.
  apply (then_sized _ _ _ _ _ _ Hk (then_sized _ _ _ _ _ _ Hk (then_sized _ _ _ _ _ _ Hk (then_sized _ _ _ _ _ _ Hk
    (then_sized _ _ _ _ _ _ Hk (then_sized _ _ _ _ _ _ Hk (then_sized _ _ _ _ _ _ Hv Hv))))))) in E; [lia|].
  cbn [fst snd]. split_and!; try done. congruence.
Qed.

Lemma bulletproof_sized (n : nat) :
  (n < 128)%nat -> sized (fun b => bulletproof_ok b /\ length (bp_L b) = n) bulletproof_codec (32 * (9 + 2 * n) + 2).
Proof.
  intros Hn b w [[(H1 & H2 & H3 & H4 & H5 & H6 & [HL _] & [HR _] & H7 & H8 & H9) Hs] Hl].
  unfold same_sizes in Hs. apply negb_true_iff, orb_false_iff in Hs as [_ Hs%negb_false_iff%Nat.eqb_eq].
  unfold bulletproof_codec, checked, members. cbn [save]. destruct (same_sizes _ _); [|done].
  pose proof (blob_sized 32) as Hk. pose proof (keys_sized n Hn) as Hv. fold key in Hk. intros E.
  apply (then_sized _ _ _ _ _ _ Hk (then_sized _ _ _ _ _ _ Hk (then_sized _ _ _ _ _ _ Hk (then_sized _ _ _ _ _ _ Hk
    (then_sized _ _ _ _ _ _ Hk (then_sized _ _ _ _ _ _ Hk (then_sized _ _ _ _ _ _ Hv (then_sized _ _ _ _ _ _ Hv
      (then_sized _ _ _ _ _ _ Hk (then_sized _ _ _ _ _ _ Hk Hk)))))))))) in E; [lia|].
  cbn [fst snd]. split_and!; try done. congruence.
Qed.

(** One proof with its number. *)
Lemma proofs_sized {A} (P : A -> Prop) (c : codec A) (max : A -> Z) (outputs k : nat) (proof : A) (w : list Z) :
  sized P c k -> P proof -> save (proofs_codec (serialize_varint 32) c max outputs) [proof] = Some w -> length w = (1 + k)%nat.
Proof.
  intros Hc Hp. unfold proofs_codec, checked, members, fields. cbn [save]. destruct (negb _); [|done].
  change (u32 (Z.of_nat (length [proof]))) with 1. cbn [fst snd]. destruct (negb _); [|done].
  change (save (serialize_varint 32) 1) with (Some [1]). cbn [mbind option_bind].
  destruct (save (custom_vector c (Z.to_nat 1)) _) as [ws|] eqn:E; [|done]. intros [= <-]. cbn [app length]. f_equal.
  apply (custom_vector_sized P c k 1 Hc) in E; [lia|]. split; [by constructor|done].
Qed.

Lemma clsag_sized (mixin : Z) : sized (clsag_ok mixin) (clsag_codec mixin) (Z.to_nat (mixin + 1) * 32 + (32 + 32)).
Proof.
  intros x w Hx. unfold clsag_codec, members. cbn [save]. pose proof (blob_sized 32) as Hk. fold key in Hk.
  apply (then_sized _ _ _ _ _ _ (custom_vector_sized _ _ _ _ Hk) (then_sized _ _ _ _ _ _ Hk Hk)). exact Hx.
Qed.

Lemma mg_sized (mixin : Z) (n : nat) : sized (mg_ok mixin n) (mg_codec mixin n) (Z.to_nat (mixin + 1) * (n * 32) + 32).
Proof.
  intros x w Hx. unfold mg_codec, members. cbn [save]. pose proof (blob_sized 32) as Hk. fold key in Hk.
  apply (then_sized _ _ _ _ _ _ (custom_vector_sized _ _ _ _ (custom_vector_sized _ _ _ _ Hk)) Hk). exact Hx.
Qed.

(** The rounds of the one proof that an expanded transaction has. *)
Definition proof_rounds (type : Z) (x : rctSigPrunable) : option nat :=
  if type =? RCTTypeBulletproofPlus then
    match bulletproofs_plus x with [proof] => Some (length (bpp_L proof)) | _ => None end
  else match bulletproofs x with [proof] => Some (length (bp_L proof)) | _ => None end.

Definition weighed_type (type : Z) : Prop :=
  type = RCTTypeBulletproof2 \/ type = RCTTypeCLSAG \/ type = RCTTypeBulletproofPlus.

Lemma range_proofs_size (type : Z) (outputs n : nat) (x : rctSigPrunable) (w : list Z) :
  weighed_type type -> (n < 128)%nat -> proof_rounds type x = Some n ->
  range_proofs_ok type outputs (rangeSigs x, bulletproofs x, bulletproofs_plus x) ->
  save (range_proofs_codec type outputs) (rangeSigs x, bulletproofs x, bulletproofs_plus x) = Some w ->
  length w = (1 + (32 * ((if is_rct_bulletproof_plus type then 6 else 9) + 2 * n) + 2))%nat.
Proof.
  intros Ht Hn Hr Hok E. unfold proof_rounds in Hr. unfold range_proofs_ok in Hok. unfold range_proofs_codec in E.
  destruct Ht as [->|[->| ->]]; cbn -[proofs_codec] in *.
  - destruct (bulletproofs x) as [|proof []]; try done. injection Hr as Hr. destruct Hok as (_ & _ & [Hp _]%Forall_cons & _).
    by apply (proofs_sized _ _ _ _ _ _ _ (bulletproof_sized n Hn)) in E.
  - destruct (bulletproofs x) as [|proof []]; try done. injection Hr as Hr. destruct Hok as (_ & _ & [Hp _]%Forall_cons & _).
    by apply (proofs_sized _ _ _ _ _ _ _ (bulletproof_sized n Hn)) in E.
  - destruct (bulletproofs_plus x) as [|proof []]; try done. injection Hr as Hr. destruct Hok as (_ & _ & [Hp _]%Forall_cons & _).
    by apply (proofs_sized _ _ _ _ _ _ _ (bulletproof_plus_sized n Hn)) in E.
Qed.

Lemma ring_signatures_size (type : Z) (inputs : nat) (mixin : Z) (x : rctSigPrunable) (w : list Z) :
  weighed_type type -> ring_signatures_ok type inputs mixin (MGs x, CLSAGs x) ->
  save (ring_signatures_codec type inputs mixin) (MGs x, CLSAGs x) = Some w ->
  length w = (inputs * (if is_rct_clsag type then Z.to_nat (mixin + 1) * 32 + (32 + 32)
                        else Z.to_nat (mixin + 1) * (2 * 32) + 32))%nat.
Proof.
  intros Ht Hok E. unfold ring_signatures_ok in Hok. unfold ring_signatures_codec in E.
  destruct Ht as [->|[->| ->]]; cbn -[custom_vector clsag_codec mg_codec Nat.mul] in *; destruct Hok as [_ Hok].
  - by apply (custom_vector_sized _ _ _ _ (mg_sized mixin 2)) in E.
  - by apply (custom_vector_sized _ _ _ _ (clsag_sized mixin)) in E.
  - by apply (custom_vector_sized _ _ _ _ (clsag_sized mixin)) in E.
Qed.

Lemma prunable_size (type : Z) (inputs outputs n : nat) (mixin : Z) (x : rctSigPrunable) (w : list Z) :
  weighed_type type -> (n < 128)%nat -> proof_rounds type x = Some n -> prunable_ok type inputs outputs mixin x ->
  save (prunable_codec type inputs outputs mixin) x = Some w ->
  length w = (1 + (32 * ((if is_rct_bulletproof_plus type then 6 else 9) + 2 * n) + 2) +
    (inputs * (if is_rct_clsag type then Z.to_nat (mixin + 1) * 32 + (32 + 32) else Z.to_nat (mixin + 1) * (2 * 32) + 32) +
     inputs * 32))%nat.
Proof.
  intros Ht Hn Hr (H1 & H2 & H3 & Hrange & Hring & Hps) E. unfold prunable_codec in E. rewrite !(proj2 (Z.leb_gt _ _)) in E by lia.
  cbn [orb] in E. unfold members, fields in E. cbn [save fst snd] in E.
  destruct (save (range_proofs_codec type outputs) _) as [w1|] eqn:E1; [|done]. cbn [mbind option_bind] in E.
  destruct (save (ring_signatures_codec type inputs mixin) _) as [w2|] eqn:E2; [|done]. cbn [mbind option_bind] in E.
  match type of E with context [save ?c (p_pseudoOuts x)] => destruct (save c (p_pseudoOuts x)) as [w3|] eqn:E3; [|done] end.
  injection E as <-. rewrite !length_app, (range_proofs_size type outputs n x w1), (ring_signatures_size type inputs mixin x w2) by done.
  f_equal. f_equal. replace (_ || _) with true in E3, Hps by (by destruct Ht as [->|[->| ->]]).
  pose proof (blob_sized 32) as Hk. fold key in Hk. by apply (custom_vector_sized _ _ _ _ Hk) in E3.
Qed.

(** ** Weights *)

Lemma log2_loop_spec (fuel : nat) (nlr m n : Z) :
  0 <= nlr <= m -> m < 32 -> m - nlr <= Z.of_nat fuel -> n <= 2 ^ m -> (nlr < m -> 2 ^ (m - 1) < n) ->
  log2_loop fuel nlr n = Val m.
Proof.
  revert nlr. induction fuel as [|fuel IH]; intros nlr Hm H32 Hf Hn Hlow; cbn [log2_loop];
    rewrite (proj2 (Z.leb_gt _ _)) by lia; rewrite Z.shiftl_1_l.
  - assert (nlr = m) as -> by lia. by rewrite (proj2 (Z.ltb_ge _ _)) by lia.
  - destruct (decide (nlr = m)) as [->|Hne]; [by rewrite (proj2 (Z.ltb_ge _ _)) by lia|].
    assert (2 ^ nlr <= 2 ^ (m - 1)) by (apply Z.pow_le_mono_r; lia).
    rewrite (proj2 (Z.ltb_lt _ _)) by lia. apply IH; lia.
Qed.

Lemma clawback_value (t : transaction) (m : Z) :
  0 <= m <= 4 -> Z.of_nat (length (vout (prefix t))) <= 16 ->
  exists c, get_transaction_weight_clawback t (2 ^ m) = Val c /\ 0 <= c < 2 ^ 16.
Proof.
  intros Hm Ho. unfold get_transaction_weight_clawback, BULLETPROOF_MAX_OUTPUTS. rewrite (proj2 (Z.leb_le _ _) Ho).
  assert (m = 0 \/ m = 1 \/ m = 2 \/ m = 3 \/ m = 4) as Hcases by lia.
  destruct (_ =? RCTTypeBulletproofPlus);
    destruct Hcases as [->|[->|[->|[->| ->]]]]; (eexists; split; [by vm_compute|by vm_compute]).
Qed.

(** The amounts that proofs reach for. *)
Lemma max_amounts_value (L R : Z) :
  max_amounts_base L R 16 <> 0 -> 6 <= L <= 10 /\ max_amounts_base L R 16 = 2 ^ (L - 6).
Proof.
  unfold max_amounts_base. destruct (Z.leb_spec 6 L); [|done]. destruct (L =? R); [|done].
  change (negb (Z.shiftl 1 4 =? 16)) with false. destruct (Z.leb_spec L (6 + 4)); [|done]. cbn [negb].
  rewrite Z.shiftl_1_l. intros _. split; [lia|done].
Qed.

Lemma one_proof_amounts {A} (P : A -> Prop) (max : A -> Z) (outputs : nat) (proof : A) (L R : Z) :
  max proof = max_amounts_base L R 16 -> proofs_ok P max outputs [proof] ->
  6 <= L <= 10 /\ Z.of_nat outputs <= 2 ^ (L - 6) /\ sum_max_amounts max 0 [proof] = 2 ^ (L - 6).
Proof.
  intros Em (_ & _ & Ho & Hs). cbn [length] in Ho. destruct (decide (max_amounts_base L R 16 = 0)) as [E|Hne].
  { cbn [sum_max_amounts] in Hs. rewrite Em, E, Z.eqb_refl in Hs. destruct (negb _) in Hs; lia. }
  destruct (max_amounts_value L R Hne) as [HL E].
  assert (0 < 2 ^ (L - 6) <= 2 ^ 4) as Hpow by (split; [apply Z.pow_pos_nonneg; lia|apply Z.pow_le_mono_r; lia]).
  assert (sum_max_amounts max 0 [proof] = 2 ^ (L - 6)) as Es; [|by rewrite Es in Hs].
  cbn [sum_max_amounts]. rewrite Em, E. change ((2 ^ 32 - 1) ⊟ 0) with (2 ^ 32 - 1).
  rewrite (proj2 (Z.ltb_lt _ _)), (proj2 (Z.eqb_neq _ _)) by lia. cbn [negb]. apply u64_small. unfold_words. lia.
Qed.

Lemma weighed_parts (t : transaction) :
  transaction_ok t -> weighed_type (rct_type (base (rct_signatures t))) ->
  has_rct t /\
  prunable_ok (rct_type (base (rct_signatures t))) (length (vin (prefix t))) (length (vout (prefix t))) (get_mixin (vin (prefix t)))
    (p (rct_signatures t)).
Proof.
  intros Ht Hw. assert (rct_type (base (rct_signatures t)) <> RCTTypeNull) as Hn by (by destruct Hw as [->|[->| ->]]).
  assert (has_rct t) as Hr.
  { destruct Ht as [_ Ht]. split.
    - intros E. rewrite E in Ht. destruct Ht as [_ Ht]. by rewrite Ht in Hn.
    - intros E. rewrite E in Ht. destruct (_ =? 1); destruct Ht as [_ Ht]; by rewrite Ht in Hn. }
  split; [done|]. destruct (rct_parts t Ht Hr) as (_ & _ & _ & Hx). unfold tx_prunable_ok in Hx.
  by rewrite (proj2 (Z.eqb_neq _ _) Hn) in Hx.
Qed.

(** The expansion of a whole transaction has seen its one proof. *)
Lemma expanded_proof (t : transaction) :
  transaction_ok t -> weighed_type (rct_type (base (rct_signatures t))) -> is_coinbase t = false ->
  expand_transaction_1 t false = Val true ->
  exists n, proof_rounds (rct_type (base (rct_signatures t))) (p (rct_signatures t)) = Some n /\ (6 <= n <= 10)%nat /\
    Z.of_nat (length (vout (prefix t))) <= 2 ^ (Z.of_nat n - 6) /\
    (if is_rct_bulletproof_plus (rct_type (base (rct_signatures t)))
     then sum_max_amounts n_bulletproof_plus_max_amounts 0 (bulletproofs_plus (p (rct_signatures t)))
     else sum_max_amounts n_bulletproof_max_amounts 0 (bulletproofs (p (rct_signatures t)))) = 2 ^ (Z.of_nat n - 6).
Proof.
  intros Ht Hw Hc He. destruct (weighed_parts t Ht Hw) as [[Hv _] (_ & _ & _ & Hr & _)]. unfold expand_transaction_1 in He.
  assert ((2 <=? version (prefix t)) = true) as Hv2.
  { apply Z.leb_le. destruct Ht as [[[Hu Hk] _] _]. unfold known_version in Hk. unfold in_u64 in Hu.
    destruct (Z.eqb_spec (version (prefix t)) 0); [done|lia]. }
  rewrite Hv2, Hc in He. cbn [negb andb] in He. unfold range_proofs_ok in Hr. unfold proof_rounds, is_rct_bulletproof_plus in *.
  rewrite (proj2 (Z.eqb_neq (rct_type _) RCTTypeNull)) in He by (by destruct Hw as [->|[->| ->]]).
  destruct (negb (_ =? _)%nat) in He; [done|]. destruct (negb (forallb _ _)) in He; [done|].
  destruct Hw as [Ew|[Ew|Ew]]; rewrite Ew in *; cbn -[sum_max_amounts] in *.
  1,2: destruct (bulletproofs _) as [|proof []]; try done;
    destruct (one_proof_amounts _ n_bulletproof_max_amounts _ proof (Z.of_nat (length (bp_L proof))) (Z.of_nat (length (bp_R proof))) eq_refl (proj2 (proj2 Hr)))
      as (HL & Ho & Es); eexists; (split; [done|]); (split; [lia|]); done.
  destruct (bulletproofs_plus _) as [|proof []]; try done.
  destruct (one_proof_amounts _ n_bulletproof_plus_max_amounts _ proof (Z.of_nat (length (bpp_L proof))) (Z.of_nat (length (bpp_R proof))) eq_refl (proj2 (proj2 Hr)))
    as (HL & Ho & Es). eexists. split; [done|]. split; [lia|]. done.
Qed.

Lemma expand_base (t : transaction) :
  expand_transaction_1 t false = Val true -> expand_transaction_1 (pruned t) true = Val true.
Proof.
  unfold expand_transaction_1, pruned, is_coinbase. cbn [prefix rct_signatures base p].
  destruct (_ && _); [|done]. destruct (_ =? RCTTypeNull); [done|]. destruct (negb (_ =? _)%nat); [done|].
  by destruct (negb (forallb _ _)).
Qed.

(** The weight of the whole. *)
Lemma whole_weight (t : transaction) (n : nat) (size c : Z) :
  version (prefix t) <> 1 -> in_u64 (version (prefix t)) -> known_version (version (prefix t)) = true ->
  weighed_type (rct_type (base (rct_signatures t))) ->
  (if is_rct_bulletproof_plus (rct_type (base (rct_signatures t)))
   then sum_max_amounts n_bulletproof_plus_max_amounts 0 (bulletproofs_plus (p (rct_signatures t)))
   else sum_max_amounts n_bulletproof_max_amounts 0 (bulletproofs (p (rct_signatures t)))) = 2 ^ (Z.of_nat n - 6) ->
  get_transaction_weight_clawback t (2 ^ (Z.of_nat n - 6)) = Val c -> 0 <= c < 2 ^ 16 -> 0 <= size < 2 ^ 63 ->
  2 <= version (prefix t) /\ get_transaction_weight t false size = Val (size + c).
Proof.
  intros Hv Hu Hk Hw Es Ec Hc Hs. assert (2 <= version (prefix t)) as Hv2.
  { unfold known_version in Hk. unfold in_u64 in Hu. destruct (Z.eqb_spec (version (prefix t)) 0); [done|lia]. }
  split; [done|]. unfold get_transaction_weight. rewrite (proj2 (Z.ltb_ge _ _)) by lia.
  replace (negb _ && negb _) with false by (by destruct Hw as [->|[->| ->]]). rewrite Es, Ec. run.
  unfold uint64_max. rewrite !u64_small by (unfold_words; lia). rewrite (proj2 (Z.leb_le _ _)) by lia. done.
Qed.

(** The sum of the parts that are counted for a pruned transaction. *)
Lemma pruned_sum (t : transaction) (a k : Z) (offsets key_image : list Z) (l : list txin_v) (c m cut : Z) (n : nat) :
  weighed_type (rct_type (base (rct_signatures t))) -> vin (prefix t) = txin_to_key a offsets key_image :: l ->
  2 <= version (prefix t) -> m = Z.of_nat n - 6 -> 0 <= m <= 4 ->
  Z.of_nat (length (vout (prefix t))) <= 2 ^ m < 2 * Z.of_nat (length (vout (prefix t))) ->
  get_transaction_weight_clawback t (2 ^ m) = Val c -> 0 <= c < 2 ^ 16 -> k = Z.of_nat (length (vin (prefix t))) ->
  cut = 1 + (32 * ((if is_rct_bulletproof_plus (rct_type (base (rct_signatures t))) then 6 else 9) + 2 * Z.of_nat n) + 2) +
    (k * (if is_rct_clsag (rct_type (base (rct_signatures t))) then (Z.of_nat (length offsets) + 2) * 32
          else Z.of_nat (length offsets) * 2 * 32 + 32) + 32 * k) ->
  0 <= pruned_size t -> pruned_size t + cut < 2 ^ 63 ->
  get_pruned_transaction_weight t true = Val (pruned_size t + cut + c).
Proof.
  intros Hw Ei Hv Em Hm Ho Ec Hc Ek Ecut Hp Hsum. unfold get_pruned_transaction_weight. cbn [negb].
  rewrite (proj2 (Z.leb_le _ _) Hv), Ei, <- Ei, <- Ek. cbn [negb].
  replace (negb (_ || _ || _)) with false by (by destruct Hw as [->|[->| ->]]).
  rewrite (log2_loop_spec 32 0 m) by (lia || (intros Hm0; replace m with (Z.succ (m - 1)) in Ho by lia;
    rewrite Z.pow_succ_r in Ho by lia; lia)).
  run. rewrite Z.shiftl_1_l, Ec. run. replace (m + 6) with (Z.of_nat n) by lia.
  set (r := Z.of_nat (length offsets)) in *. assert (0 <= r) by lia. assert (0 <= k) by lia.
  set (w := pruned_size t) in *. set (q := 32 * (_ + 2 * Z.of_nat n) + 2) in *.
  assert (0 <= q) by (unfold q; destruct (is_rct_bulletproof_plus _); lia).
  assert (1 <= k) by (rewrite Ek, Ei; cbn [length]; lia). unfold uint64_max.
  destruct (is_rct_clsag _).
  - assert (r + 2 <= k * (r + 2) <= k * ((r + 2) * 32)) by nia.
    rewrite (u64_small (r + 2)), (u64_small (k * (r + 2))), (u64_small (k * (r + 2) * 32)), (u64_small (32 * k)),
      (u64_small (w + 1)), (u64_small (w + 1 + q)), (u64_small (w + 1 + q + k * (r + 2) * 32)),
      (u64_small (w + 1 + q + k * (r + 2) * 32 + 32 * k)) by (unfold_words; lia).
    rewrite !u64_small by (unfold_words; lia). rewrite (proj2 (Z.leb_le _ _)) by lia. cbn. f_equal. lia.
  - assert (r * 2 * 32 + 32 <= k * (r * 2 * 32 + 32)) by nia. change (1 + 1) with 2.
    rewrite (u64_small (r * 2)), (u64_small (r * 2 * 32)), (u64_small (r * 2 * 32 + 32)), (u64_small (k * _)),
      (u64_small (32 * k)), (u64_small (w + 1)), (u64_small (w + 1 + q)), (u64_small (w + 1 + q + _)),
      (u64_small (w + 1 + q + _ + _)) by (unfold_words; lia).
    rewrite !u64_small by (unfold_words; lia). rewrite (proj2 (Z.leb_le _ _)) by lia. cbn. f_equal. lia.
Qed.

(** C25. Pruning does not change the weight of a transaction.  From the blob of a transaction
    of one of the types that can be pruned, whose proof is padded to the next power of two
    of its outputs, the part that pruning keeps is parsed, and its weight, computed without
    the proofs, is that of the whole. *)
Theorem pruned_weight_agrees (t : transaction) (blob : list Z) (n : nat) :
  transaction_ok t -> tx_to_blob t = Some blob -> Z.of_nat (length blob) < 2 ^ 63 ->
  weighed_type (rct_type (base (rct_signatures t))) ->
  (exists a offsets key_image l, vin (prefix t) = txin_to_key a offsets key_image :: l) ->
  expand_transaction_1 t false = Val true ->
  proof_rounds (rct_type (base (rct_signatures t))) (p (rct_signatures t)) = Some n ->
  2 ^ (Z.of_nat n - 6) < 2 * Z.of_nat (length (vout (prefix t))) ->
  parse_and_validate_tx_base_from_blob blob = Val (Some (pruned t)) /\
  exists weight, get_transaction_weight t false (Z.of_nat (length blob)) = Val weight /\
    get_pruned_transaction_weight (pruned t) true = Val weight.
Proof.
  intros Ht Eblob Hsz Hw (a & offsets & key_image & l & Ei) He En Hpad.
  assert (is_coinbase t = false) as Hc by (unfold is_coinbase; by rewrite Ei).
  destruct (weighed_parts t Ht Hw) as [Hr Hpr]. destruct (expanded_proof t Ht Hw Hc He) as (n' & En' & Hn & Ho & Es).
  rewrite En in En'. injection En' as <-.
  destruct (parse_base t blob Ht Hr Eblob) as (kept & cut & -> & Ek & Ecut & El).
  split; [unfold parse_and_validate_tx_base_from_blob; by rewrite El, (expand_base t He)|].
  unfold tx_prunable_codec in Ecut.
  rewrite (proj2 (Z.eqb_neq _ RCTTypeNull)) in Ecut by (by destruct Hw as [->|[->| ->]]).
  pose proof (prunable_size _ _ _ n _ _ _ Hw ltac:(lia) En Hpr Ecut) as Hcut.
  assert (Z.to_nat (get_mixin (vin (prefix t)) + 1) = length offsets) as Hring.
  { destruct Hpr as (_ & _ & Hmix & _). rewrite Ei in Hmix |- *. cbn [get_mixin] in *.
    destruct (decide (length offsets = O)) as [E0|E0]; [by rewrite E0 in Hmix|].
    assert (Z.of_nat (length offsets) < 2 ^ 64).
    { destruct Ht as [(_ & _ & [Hin _] & _) _]. rewrite Ei in Hin. apply Forall_cons in Hin as [(_ & [_ Hoff] & _) _]. done. }
    rewrite u64_small by (unfold_words; lia). lia. }
  assert (Z.of_nat (length (vout (prefix t))) <= 16) as Ho16.
  { assert (2 ^ (Z.of_nat n - 6) <= 2 ^ 4) by (apply Z.pow_le_mono_r; lia). lia. }
  destruct (clawback_value t (Z.of_nat n - 6)) as (c & Ec & Hcb); [lia|done|].
  destruct Ht as [[[Hu Hk] _] _]. rewrite length_app in *.
  destruct (whole_weight t n (Z.of_nat (length kept + length cut)) c) as [Hv Ew]; try done; [apply Hr|lia|].
  exists (Z.of_nat (length kept + length cut) + c). split; [done|].
  assert (pruned_size (pruned t) = Z.of_nat (length kept)) as Eps by (unfold pruned_size; by rewrite Ek).
  rewrite (pruned_sum (pruned t) a (Z.of_nat (length (vin (prefix t)))) offsets key_image l c (Z.of_nat n - 6)
    (Z.of_nat (length cut)) n); try done; [f_equal; lia|lia| |lia|lia].
  rewrite Hcut, Hring. cbn [pruned prefix rct_signatures base].
  destruct (is_rct_bulletproof_plus _), (is_rct_clsag _); lia.
Qed.

Lemma pruned_weight_agrees_witness :
  let blob := default [] (tx_to_blob example_spend) in
  parse_and_validate_tx_base_from_blob blob = Val (Some (pruned example_spend)) /\
  exists weight, get_transaction_weight example_spend false (Z.of_nat (length blob)) = Val weight /\
    get_pruned_transaction_weight (pruned example_spend) true = Val weight.
Proof.
  apply (pruned_weight_agrees example_spend (default [] (tx_to_blob example_spend)) 7).
  - apply (example_ok _ transaction_lawful); by vm_compute.
  - by vm_compute.
  - by vm_compute.
  - by right; right.
  - by eexists _, _, _, _.
  - by vm_compute.
  - by vm_compute.
  - by vm_compute.
Defined.
