(* ===== verification/MergeMining.v ===== *)
(** * Merge mining

    src/src/cryptonote_basic/merge_mining.cpp: the slot of an auxiliary chain, the path of
    a slot, and the number that carries the number of chains and the nonce; and their use
    in on_add_aux_pow (src/src/rpc/core_rpc_server.cpp), from the request's ids and hashes
    to the root and the depth.  SHA-256 and the hash of the tree are arguments. *)

From S2P Require Import Prelude TreeHash.

(** ** Depth *)

(** [while ((1u << n_bits) < n_aux_chains && n_bits < 16) ++n_bits]. *)
Fixpoint bits_loop (fuel : nat) (n_bits n_aux_chains : Z) : outcome Z :=
  if (u32 (Z.shiftl 1 n_bits) <? n_aux_chains) && (n_bits <? 16) then
    match fuel with
    | O => Diverge
    | S fuel => bits_loop fuel (n_bits + 1) n_aux_chains
    end
  else Val n_bits.

Definition encode_mm_depth (n_aux_chains nonce : Z) : outcome Z :=
  _ ← throw_unless (0 <? n_aux_chains);
  n_bits ← bits_loop 16 1 n_aux_chains;
  _ ← throw_unless (n_bits <=? 16);
  Val (Z.lor (Z.lor (n_bits - 1) (u32 (Z.shiftl (n_aux_chains - 1) 3))) (u32 (Z.shiftl nonce (3 + n_bits)))).

(** [n_aux_chains] and [nonce]. *)
Definition decode_mm_depth (depth : Z) : Z * Z :=
  let n_bits := 1 + Z.land depth 7 in
  (1 + Z.land (Z.shiftr depth 3) (Z.shiftl 1 n_bits - 1), Z.shiftr depth (3 + n_bits)).

(** ** Slots *)

Definition HASH_KEY_MM_SLOT : Z := 0x6d.

Definition get_path_from_aux_slot (ndebug : bool) (slot n_aux_chains : Z) : outcome Z :=
  _ ← throw_unless (0 <? n_aux_chains);
  _ ← throw_unless (slot <? n_aux_chains);
  r ← tree_path ndebug n_aux_chains slot;
  match r with Some p => Val p | None => Throw end.

(** The errors of on_add_aux_pow in this part, and its results: the root and the depth of
    the answer, and the depth that is written next to the root in the coinbase transaction. *)
Inductive aux_pow_error := Empty_aux_pow | Slot_out_of_range | No_suitable_nonce.

Record aux_pow_result {hash : Type} := {
  merkle_root : hash;
  res_merkle_tree_depth : Z;
  tag_merkle_tree_depth : Z;
}.
Arguments aux_pow_result : clear implicits.

Inductive scan := Free | Collision | Out_of_range.

Section aux.
Context {hash : Type} (cn_fast_hash : hash -> hash -> hash) (zero : hash) (ndebug : bool) (sha256 : list Z -> list Z).

Definition get_aux_slot (id : list Z) (nonce n_aux_chains : Z) : outcome Z :=
  _ ← throw_unless (0 <? n_aux_chains);
  Val (read_le32 (sha256 (id ++ write_le32 nonce ++ [HASH_KEY_MM_SLOT])) mod n_aux_chains).

(** The inner loop: [slots] marks what is taken. *)
Fixpoint scan_slots (size nonce : Z) (aux_pow : list (list Z * hash)) (slots : list bool) : outcome scan :=
  match aux_pow with
  | [] => Val Free
  | (id, _) :: aux_pow =>
      slot ← get_aux_slot id nonce (u32 size);
      if size <=? slot then Val Out_of_range
      else
        taken ← c_index slots slot;
        if taken : bool then Val Collision
        else
          slots ← c_update slots slot true;
          scan_slots size nonce aux_pow slots
  end.

(** The loop over nonces, with [n] of them left. *)
Fixpoint find_nonce (n : nat) (nonce : Z) (aux_pow : list (list Z * hash)) : outcome (aux_pow_error + Z) :=
  match n with
  | O => Val (inl No_suitable_nonce)
  | S n =>
      r ← scan_slots (Z.of_nat (length aux_pow)) nonce aux_pow (replicate (length aux_pow) false);
      match r with
      | Out_of_range => Val (inl Slot_out_of_range)
      | Free => Val (inr nonce)
      | Collision => find_nonce n (nonce + 1) aux_pow
      end
  end.

Definition max_nonce : Z := 65535.

Definition add_aux_pow (aux_pow : list (list Z * hash)) : outcome (aux_pow_error + aux_pow_result hash) :=
  if bool_decide (aux_pow = []) then Val (inl Empty_aux_pow)
  else
    let merkle_tree_depth := 0 in
    r ← find_nonce (Z.to_nat (max_nonce + 1)) 0 aux_pow;
    match r with
    | inl e => Val (inl e)
    | inr nonce =>
        root ← tree_hash cn_fast_hash zero ndebug (map snd aux_pow);
        depth ← encode_mm_depth (u32 (Z.of_nat (length aux_pow))) nonce;
        Val (inr {| merkle_root := root; res_merkle_tree_depth := depth; tag_merkle_tree_depth := merkle_tree_depth |})
    end.
End aux.

(** ** Lemmas *)

Lemma bits_loop_spec (fuel : nat) (b n : Z) :
  1 <= b <= 16 -> 16 - b <= Z.of_nat fuel -> b = 1 \/ 2 ^ (b - 1) < n ->
  exists b', bits_loop fuel b n = Val b' /\ 1 <= b' <= 16 /\ (b' = 1 \/ 2 ^ (b' - 1) < n) /\ (n <= 2 ^ b' \/ b' = 16).
Proof.
  revert b. induction fuel as [|fuel IH]; intros b Hb Hf Hlo; cbn [bits_loop];
    rewrite Z.shiftl_1_l; unfold u32; rewrite (Z.mod_small (2 ^ b)) by (split; [lia|apply Z.pow_lt_mono_r; lia]).
  - assert (b = 16) as -> by lia. rewrite andb_false_r. exists 16. split_and!; (done || lia).
  - destruct (Z.ltb_spec (2 ^ b) n), (Z.ltb_spec b 16); cbn [andb]; try (exists b; split_and!; (done || lia)).
    apply IH; [lia|lia|]. right. by replace (b + 1 - 1) with b by lia.
Qed.

Lemma low_bits (x k : Z) : 3 <= k -> Z.land (u32 (Z.shiftl x k)) 7 = 0.
Proof.
  intros Hk. change 7 with (2 ^ 3 - 1). rewrite land_ones_mod by lia. unfold u32.
  rewrite Z.mod_mod_divide by (by exists (2 ^ 29)). rewrite Z.shiftl_mul_pow2 by lia.
  replace k with (k - 3 + 3) by lia. rewrite Z.pow_add_r, Z.mul_assoc by lia. apply Z.mod_mul. lia.
Qed.

(** Up to 256 chains the three fields do not meet. *)
Lemma depth_fields (b n nonce : Z) :
  1 <= b <= 8 -> 1 <= n <= 2 ^ b -> 0 <= nonce < 2 ^ 16 ->
  Z.lor (Z.lor (b - 1) (u32 (Z.shiftl (n - 1) 3))) (u32 (Z.shiftl nonce (3 + b)))
  = (nonce * 2 ^ b + (n - 1)) * 8 + (b - 1).
Proof.
  intros Hb Hn Hc. assert (2 ^ b <= 2 ^ 8) by (apply Z.pow_le_mono_r; lia).
  rewrite !Z.shiftl_mul_pow2 by lia. rewrite Z.pow_add_r by lia. change (2 ^ 3) with 8. unfold u32.
  rewrite (Z.mod_small ((n - 1) * 8)), (Z.mod_small (nonce * _)) by nia.
  rewrite Z.lor_comm, (Z.lor_comm (b - 1)).
  replace (nonce * (8 * 2 ^ b)) with (Z.shiftl nonce (3 + b)) by (rewrite Z.shiftl_mul_pow2, Z.pow_add_r by lia; lia).
  replace ((n - 1) * 8) with (Z.shiftl (n - 1) 3) by (by rewrite Z.shiftl_mul_pow2).
  rewrite (lor_shiftl_add (n - 1)) by lia.
  rewrite lor_shiftl_add; [|lia|]; rewrite Z.pow_add_r by lia; change (2 ^ 3) with 8; nia.
Qed.

Lemma decode_fields (b n nonce : Z) :
  1 <= b <= 8 -> 1 <= n <= 2 ^ b -> 0 <= nonce ->
  decode_mm_depth ((nonce * 2 ^ b + (n - 1)) * 8 + (b - 1)) = (n, nonce).
Proof.
  intros Hb Hn Hc. unfold decode_mm_depth. set (x := nonce * 2 ^ b + (n - 1)).
  assert (Z.land (x * 8 + (b - 1)) 7 = b - 1) as ->.
  { change 7 with (2 ^ 3 - 1). rewrite land_ones_mod by lia. change (2 ^ 3) with 8.
    rewrite Z.add_comm, Z.mod_add by lia. apply Z.mod_small. lia. }
  replace (1 + (b - 1)) with b by lia. rewrite Z.shiftl_1_l, land_ones_mod by lia.
  replace (Z.shiftr (x * 8 + (b - 1)) (3 + b)) with (Z.shiftr (Z.shiftr (x * 8 + (b - 1)) 3) b) by (by rewrite Z.shiftr_shiftr by lia).
  assert (Z.shiftr (x * 8 + (b - 1)) 3 = x) as ->.
  { rewrite Z.shiftr_div_pow2 by lia. change (2 ^ 3) with 8. rewrite Z.div_add_l, Z.div_small by lia. lia. }
  assert (0 < 2 ^ b) by (apply Z.pow_pos_nonneg; lia). unfold x. rewrite Z.shiftr_div_pow2 by lia.
  rewrite Z.div_add_l, Z.div_small by lia. rewrite Z.add_comm, (Z.add_comm (_ * _)), Z.mod_add, Z.mod_small by lia. f_equal; lia.
Qed.

(** With more than 256 the decoded number is of at most 8 bits. *)
Lemma depth_collides (b n nonce : Z) :
  9 <= b <= 16 ->
  fst (decode_mm_depth (Z.lor (Z.lor (b - 1) (u32 (Z.shiftl n 3))) (u32 (Z.shiftl nonce (3 + b))))) <= 256.
Proof.
  intros Hb. unfold decode_mm_depth. cbn [fst]. set (d := Z.lor _ _).
  assert (Z.land d 7 = b - 9) as ->.
  { unfold d. rewrite !Z.land_lor_distr_l, !low_bits by lia. rewrite !Z.lor_0_r. change 7 with (2 ^ 3 - 1).
    rewrite land_ones_mod by lia. symmetry. apply (Z.mod_unique _ _ 1); [left|]; change (2 ^ 3) with 8; lia. }
  replace (1 + (b - 9)) with (b - 8) by lia. rewrite Z.shiftl_1_l, land_ones_mod by lia.
  assert (0 < 2 ^ (b - 8)) by (apply Z.pow_pos_nonneg; lia).
  pose proof (Z.mod_pos_bound (Z.shiftr d 3) (2 ^ (b - 8)) ltac:(lia)).
  assert (2 ^ (b - 8) <= 2 ^ 8) by (apply Z.pow_le_mono_r; lia). lia.
Qed.

Lemma encode_returns (n nonce : Z) : 1 <= n < 2 ^ 32 -> exists depth, encode_mm_depth n nonce = Val depth.
Proof.
  intros Hn. unfold encode_mm_depth, throw_unless. rewrite (proj2 (Z.ltb_lt _ _)) by lia. run.
  destruct (bits_loop_spec 16 1 n) as (b & -> & Hb & _); [lia|lia|by left|]. run.
  rewrite (proj2 (Z.leb_le _ _)) by lia. run. by eexists.
Qed.

(** For a nonce of the search (16 bits) and any number of chains but 0, [encode_mm_depth]
    returns, and [decode_mm_depth] gives the number of chains and the nonce back exactly when there
    are at most 256 chains. *)
Theorem mm_depth_roundtrip (n nonce : Z) :
  1 <= n < 2 ^ 32 -> 0 <= nonce <= max_nonce ->
  exists depth, encode_mm_depth n nonce = Val depth /\ (decode_mm_depth depth = (n, nonce) <-> n <= 256).
Proof.
  unfold max_nonce. intros Hn Hc. unfold encode_mm_depth, throw_unless. rewrite (proj2 (Z.ltb_lt _ _)) by lia. run.
  destruct (bits_loop_spec 16 1 n) as (b & E & Hb & Hlo & Hhi); [lia|lia|by left|]. rewrite E. run.
  rewrite (proj2 (Z.leb_le _ _)) by lia. run. eexists. split; [done|]. split; intros Hd.
  - destruct (Z.le_gt_cases b 8) as [Hb8|Hb8].
    + destruct Hhi as [Hhi|]; [|lia]. assert (2 ^ b <= 2 ^ 8) by (apply Z.pow_le_mono_r; lia). lia.
    + pose proof (depth_collides b (n - 1) nonce ltac:(lia)) as Hx. rewrite Hd in Hx. done.
  - assert (b <= 8) as Hb8.
    { destruct Hlo as [->|Hlo]; [lia|]. assert (b - 1 < 8); [|lia]. apply (Z.pow_lt_mono_r_iff 2); lia. }
    rewrite depth_fields by lia. apply decode_fields; lia.
Qed.

Lemma mm_depth_roundtrip_witness :
  exists depth, encode_mm_depth 200 77 = Val depth /\ (decode_mm_depth depth = (200, 77) <-> 200 <= 256).
Proof. apply (mm_depth_roundtrip 200 77); vm_compute; split; done. Defined.

(** ** The search for a nonce *)

Section search.
Context {hash : Type} `{EqDecision hash} (H : hash -> hash -> hash) (zero : hash) (ndebug : bool) (sha256 : list Z -> list Z).
Implicit Types aux : list (list Z * hash).

(** The slots of the chains for a nonce. *)
Definition aux_slot (n nonce : Z) (id : list Z) : Z :=
  read_le32 (sha256 (id ++ write_le32 nonce ++ [HASH_KEY_MM_SLOT])) mod n.
Definition slots_of (nonce : Z) (aux : list (list Z * hash)) : list Z :=
  aux_slot (Z.of_nat (length aux)) nonce ∘ fst <$> aux.

Lemma get_aux_slot_spec (id : list Z) (nonce n : Z) :
  1 <= n -> get_aux_slot sha256 id nonce n = Val (aux_slot n nonce id) /\ 0 <= aux_slot n nonce id < n.
Proof.
  intros Hn. unfold get_aux_slot, throw_unless. rewrite (proj2 (Z.ltb_lt _ _)) by lia. split; [done|].
  apply Z.mod_pos_bound. lia.
Qed.

Lemma scan_slots_spec (n nonce : Z) (aux : list (list Z * hash)) (taken : list bool) :
  1 <= n < 2 ^ 32 -> Z.of_nat (length taken) = n ->
  let ss := aux_slot n nonce ∘ fst <$> aux in
  scan_slots sha256 n nonce aux taken
  = Val (if bool_decide (NoDup ss /\ Forall (fun s => taken !! Z.to_nat s = Some false) ss) then Free else Collision).
Proof.
  intros Hn. cbv zeta. revert taken. induction aux as [|[id h] aux IH]; intros taken Hl; cbn [scan_slots fmap list_fmap].
  { rewrite bool_decide_true; [done|]. split; constructor. }
  unfold u32. rewrite Z.mod_small by lia. destruct (get_aux_slot_spec id nonce n ltac:(lia)) as [-> Hs].
  run. cbn [compose fst]. set (s := aux_slot n nonce id) in *. rewrite (proj2 (Z.leb_gt _ _)) by lia.
  destruct (lookup_lt_is_Some_2 taken (Z.to_nat s) ltac:(lia)) as [b Hb].
  rewrite (c_index_lookup taken s b) by (lia || done). run. destruct b.
  { rewrite bool_decide_false; [done|]. intros [_ Hf]. apply Forall_cons in Hf as [Hf _]. congruence. }
  unfold c_update. rewrite decide_True by lia. run. rewrite IH by (by rewrite length_insert).
  f_equal. erewrite bool_decide_ext; [done|]. rewrite NoDup_cons, Forall_cons.
  rewrite !Forall_forall. setoid_rewrite list_elem_of_fmap. split.
  - intros [Hd Hf]. split_and!; [|done|done|].
    + intros ([id' h'] & E & Hi). specialize (Hf s (ex_intro _ _ (conj E Hi))).
      rewrite list_lookup_insert_eq in Hf by lia. done.
    + intros s' (a & -> & Hi). specialize (Hf _ (ex_intro _ a (conj eq_refl Hi))).
      destruct (decide (Z.to_nat s = Z.to_nat (aux_slot n nonce a.1))) as [E|E].
      * cbn in Hf. rewrite E, list_lookup_insert_eq in Hf by lia. done.
      * by rewrite list_lookup_insert_ne in Hf.
  - intros [[Hn' Hd] [_ Hf]]. split; [done|]. intros s' Hs'. rewrite list_lookup_insert_ne; [by apply Hf|].
    intros E. apply Hn'. destruct Hs' as (a & -> & Hi). exists a. split; [|done]. cbn in *.
    pose proof (proj2 (get_aux_slot_spec a.1 nonce n ltac:(lia))). lia.
Qed.

Lemma scan_all (nonce : Z) (aux : list (list Z * hash)) :
  1 <= Z.of_nat (length aux) < 2 ^ 32 ->
  scan_slots sha256 (Z.of_nat (length aux)) nonce aux (replicate (length aux) false)
  = Val (if bool_decide (NoDup (slots_of nonce aux)) then Free else Collision).
Proof.
  intros Hl. rewrite scan_slots_spec by (rewrite ?length_replicate; lia). f_equal. erewrite bool_decide_ext; [done|].
  split; [by intros [? _]|]. intros Hd. split; [done|]. apply Forall_forall. intros s Hs.
  apply list_elem_of_fmap in Hs as (a & -> & _). apply lookup_replicate_2. cbn.
  pose proof (proj2 (get_aux_slot_spec a.1 nonce (Z.of_nat (length aux)) ltac:(lia))). lia.
Qed.

Lemma find_nonce_spec (n : nat) (nonce : Z) (aux : list (list Z * hash)) :
  1 <= Z.of_nat (length aux) < 2 ^ 32 ->
  (exists c, find_nonce sha256 n nonce aux = Val (inr c) /\ nonce <= c < nonce + Z.of_nat n /\
     NoDup (slots_of c aux) /\ forall c', nonce <= c' < c -> ~ NoDup (slots_of c' aux)) \/
  (find_nonce sha256 n nonce aux = Val (inl No_suitable_nonce) /\
     forall c', nonce <= c' < nonce + Z.of_nat n -> ~ NoDup (slots_of c' aux)).
Proof.
  intros Hl. revert nonce. induction n as [|n IH]; intros nonce; cbn [find_nonce]; [right; split; [done|lia]|].
  rewrite scan_all by done. run. case_bool_decide as Hd.
  { left. exists nonce. split_and!; (done || lia). }
  destruct (IH (nonce + 1)) as [(c & E & Hc & Hg & Hb)|[E Hb]].
  - left. exists c. split_and!; [done|lia|lia|done|]. intros c' Hc'. destruct (decide (c' = nonce)) as [->|]; [done|apply Hb; lia].
  - right. split; [done|]. intros c' Hc'. destruct (decide (c' = nonce)) as [->|]; [done|apply Hb; lia].
Qed.

(** No slot is given twice exactly when all of them are given. *)
Lemma slots_permutation (nonce : Z) (aux : list (list Z * hash)) :
  (1 <= length aux)%nat -> NoDup (slots_of nonce aux) <-> slots_of nonce aux ≡ₚ seqZ 0 (Z.of_nat (length aux)).
Proof.
  intros Hl. split; [|intros ->; apply NoDup_seqZ]. intros Hd.
  assert (slots_of nonce aux ⊆+ seqZ 0 (Z.of_nat (length aux))) as Hs.
  { apply NoDup_submseteq; [done|]. intros s Hs. apply list_elem_of_fmap in Hs as (a & -> & _). apply elem_of_seqZ.
    pose proof (proj2 (get_aux_slot_spec a.1 nonce (Z.of_nat (length aux)) ltac:(lia))). cbn. lia. }
  apply submseteq_length_Permutation; [done|]. unfold slots_of. rewrite length_fmap, length_seqZ. lia.
Qed.

(** C34. For 1 to 2^28 chains add_aux_pow takes the first nonce up to 65535 that gives the
    chains all the slots from 0 on, each to one chain, and answers with the depth for that nonce and
    the root of the hashes in the order of the request; if no nonce does, it answers that. The
    depth that goes into the transaction beside the root is 0 in every case. *)
Theorem add_aux_pow_correct (aux : list (list Z * hash)) :
  let n := Z.of_nat (length aux) in
  let good nonce := slots_of nonce aux ≡ₚ seqZ 0 n in
  1 <= n <= 2 ^ 28 ->
  (exists nonce root depth,
     add_aux_pow H zero ndebug sha256 aux
     = Val (inr {| merkle_root := root; res_merkle_tree_depth := depth; tag_merkle_tree_depth := 0 |}) /\
     0 <= nonce <= max_nonce /\ good nonce /\ (forall c, 0 <= c < nonce -> ~ good c) /\
     tree_hash H zero ndebug (map snd aux) = Val root /\ encode_mm_depth n nonce = Val depth) \/
  (add_aux_pow H zero ndebug sha256 aux = Val (inl No_suitable_nonce) /\ forall c, 0 <= c <= max_nonce -> ~ good c).
Proof.
  cbv zeta. intros Hl. unfold add_aux_pow. rewrite bool_decide_false by (intros ->; cbn in Hl; lia).
  setoid_rewrite <- slots_permutation; [|lia..]. unfold max_nonce.
  destruct (find_nonce_spec (Z.to_nat (65535 + 1)) 0 aux ltac:(lia)) as [(c & -> & Hc & Hg & Hb)|[-> Hb]]; run.
  - left. destruct (tree_hash_returns H zero ndebug (map snd aux)) as [root Er]; [by rewrite length_map|].
    rewrite Er. run. unfold u32. rewrite Z.mod_small by lia.
    destruct (encode_returns (Z.of_nat (length aux)) c ltac:(lia)) as [depth Ed]. rewrite Ed. run.
    exists c, root, depth. split_and!; (done || lia).
  - right. split; [done|]. intros c Hc. apply Hb. lia.
Qed.

(** The root is not over the slots: a chain whose slot is not its place in the request has
    no proof that the verifier, who takes the path from the slot, accepts, unless two different
    inputs of the hash function with one hash are known. *)
Theorem aux_slot_not_in_tree (aux : list (list Z * hash)) (nonce : Z) (i : nat) (id : list Z) (h root : hash) :
  let n := Z.of_nat (length aux) in
  1 <= n <= 2 ^ 28 -> NoDup (map snd aux) ->
  aux !! i = Some (id, h) -> aux_slot n nonce id <> Z.of_nat i ->
  tree_hash H zero ndebug (map snd aux) = Val root ->
  exists slot h' br p, get_aux_slot sha256 id nonce n = Val slot /\ get_path_from_aux_slot ndebug slot n = Val p /\
    tree_branch H zero ndebug (map snd aux) h' = Val (Some (br, p)) /\
    forall br', length br' = length br -> is_branch_in_tree H h root br' p = Val true ->
      exists x y, In x (inputs H h' (steps_of br p)) /\ In y (inputs H h (steps_of br' p)) /\ x <> y /\ H x.1 x.2 = H y.1 y.2.
Proof.
  cbv zeta. intros Hl Hd Hi Hs Hr. destruct (get_aux_slot_spec id nonce (Z.of_nat (length aux)) ltac:(lia)) as [-> Hsl].
  set (slot := aux_slot _ _ _) in *. destruct (lookup_lt_is_Some_2 (map snd aux) (Z.to_nat slot)) as [h' Hh']; [rewrite length_map; lia|].
  pose proof (find_hash_lookup _ _ _ Hd Hh') as Hf. rewrite <- (length_map snd) in Hl.
  destruct (tree_branch_steps H zero ndebug (map snd aux) h' _ ltac:(lia) Hf) as (steps & E1 & E2 & E3 & E4).
  rewrite length_map, Z2Nat.id in E2 by lia. rewrite E3 in Hr. injection Hr as <-.
  exists slot, h', (map snd steps), (of_digits 2 (bits steps)). split_and!; try done.
  { unfold get_path_from_aux_slot, throw_unless. rewrite !(proj2 (Z.ltb_lt _ _)) by lia. run. run. by rewrite E2. }
  intros br' Hb Hacc. rewrite steps_of_steps. rewrite length_map in Hb. apply moved_branch; try done.
  intros ->. apply Hs. assert (map snd aux !! i = Some h') as Hi' by (by rewrite list_lookup_fmap, Hi).
  pose proof (NoDup_lookup _ _ _ _ Hd Hh' Hi'). lia.
Qed.
End search.

(** ** Witnesses

    Two chains, with the bytes of the id for their hash: the first has slot 1 and the second slot 0. *)

Definition two_chains : list (list Z * Z) := [([1; 0; 0; 0], 10); ([0; 0; 0; 0], 20)].

Lemma add_aux_pow_correct_witness :
  (exists nonce root depth,
     add_aux_pow (fun a b => 3 * a + b) 0 false (fun m => m) two_chains
     = Val (inr {| merkle_root := root; res_merkle_tree_depth := depth; tag_merkle_tree_depth := 0 |}) /\
     0 <= nonce <= max_nonce /\ slots_of (fun m => m) nonce two_chains ≡ₚ seqZ 0 2 /\
     (forall c, 0 <= c < nonce -> ~ slots_of (fun m => m) c two_chains ≡ₚ seqZ 0 2) /\
     tree_hash (fun a b => 3 * a + b) 0 false (map snd two_chains) = Val root /\ encode_mm_depth 2 nonce = Val depth) \/
  (add_aux_pow (fun a b => 3 * a + b) 0 false (fun m => m) two_chains = Val (inl No_suitable_nonce) /\
   forall c, 0 <= c <= max_nonce -> ~ slots_of (fun m => m) c two_chains ≡ₚ seqZ 0 2).
Proof. apply (add_aux_pow_correct (fun a b => 3 * a + b) 0 false (fun m => m) two_chains). vm_compute. by split. Defined.

Lemma aux_slot_not_in_tree_witness :
  exists slot h' br p, get_aux_slot (fun m => m) [1; 0; 0; 0] 0 2 = Val slot /\ get_path_from_aux_slot false slot 2 = Val p /\
    tree_branch (fun a b => 3 * a + b) 0 false (map snd two_chains) h' = Val (Some (br, p)) /\
    forall br', length br' = length br -> is_branch_in_tree (fun a b => 3 * a + b) 10 50 br' p = Val true ->
      exists x y, In x (inputs (fun a b => 3 * a + b) h' (steps_of br p)) /\
        In y (inputs (fun a b => 3 * a + b) 10 (steps_of br' p)) /\ x <> y /\ 3 * x.1 + x.2 = 3 * y.1 + y.2.
Proof.
  apply (aux_slot_not_in_tree (fun a b => 3 * a + b) 0 false (fun m => m) two_chains 0 0 [1; 0; 0; 0] 10 50).
  - vm_compute. by split.
  - apply (bool_decide_unpack _). reflexivity.
  - reflexivity.
  - vm_compute. done.
  - reflexivity.
Defined.
