(* ===== verification/Pruning.v ===== *)
(** * Pruning stripes

    src/src/common/pruning.cpp and pruning.h: which blocks a pruned node keeps.  A seed
    holds the logarithm of the number of stripes and a stripe; the chain is cut into
    pieces of 4096 blocks that belong to the stripes in turn, and the last 5500 blocks
    are kept by every node. *)

From S2P Require Import Prelude.

Definition CRYPTONOTE_MAX_BLOCK_NUMBER : Z := 500000000.
Definition CRYPTONOTE_PRUNING_STRIPE_SIZE : Z := 4096.
Definition CRYPTONOTE_PRUNING_LOG_STRIPES : Z := 3.
Definition CRYPTONOTE_PRUNING_TIP_BLOCKS : Z := 5500.
Definition PRUNING_SEED_LOG_STRIPES_SHIFT : Z := 7.
Definition PRUNING_SEED_LOG_STRIPES_MASK : Z := 0x7.
Definition PRUNING_SEED_STRIPE_SHIFT : Z := 0.
Definition PRUNING_SEED_STRIPE_MASK : Z := 0x7f.

(** ** Seeds *)

Definition get_pruning_log_stripes (pruning_seed : Z) : Z :=
  Z.land (Z.shiftr pruning_seed PRUNING_SEED_LOG_STRIPES_SHIFT) PRUNING_SEED_LOG_STRIPES_MASK.

Definition get_pruning_stripe (pruning_seed : Z) : Z :=
  if pruning_seed =? 0 then 0
  else 1 + Z.land (Z.shiftr pruning_seed PRUNING_SEED_STRIPE_SHIFT) PRUNING_SEED_STRIPE_MASK.

Definition make_pruning_seed (stripe log_stripes : Z) : outcome Z :=
  _ ← throw_unless (log_stripes <=? PRUNING_SEED_LOG_STRIPES_MASK);
  _ ← throw_unless ((0 <? stripe) && (stripe <=? shl64 1 log_stripes));
  Val (Z.lor (u32 (Z.shiftl log_stripes PRUNING_SEED_LOG_STRIPES_SHIFT))
             (u32 (Z.shiftl (stripe - 1) PRUNING_SEED_STRIPE_SHIFT))).

(** ** Blocks *)

(** A block in the last ones, which are not pruned; the sum is of 64 bits. *)
Definition in_tip (block_height blockchain_height : Z) : bool :=
  blockchain_height <=? u64 (block_height + CRYPTONOTE_PRUNING_TIP_BLOCKS).

(** The stripe of the piece that the block is in. *)
Definition piece_stripe (block_height log_stripes : Z) : Z :=
  u32 (Z.land (block_height / CRYPTONOTE_PRUNING_STRIPE_SIZE) (u64 (shl64 1 log_stripes - 1)) + 1).

(** The overload of [get_pruning_stripe] for a block, 0 when it is not pruned. *)
Definition get_block_stripe (block_height blockchain_height log_stripes : Z) : Z :=
  if in_tip block_height blockchain_height then 0 else piece_stripe block_height log_stripes.

Definition has_unpruned_block (block_height blockchain_height pruning_seed : Z) : bool :=
  let stripe := get_pruning_stripe pruning_seed in
  if stripe =? 0 then true
  else
    let log_stripes := get_pruning_log_stripes pruning_seed in
    let block_stripe := get_block_stripe block_height blockchain_height log_stripes in
    (block_stripe =? 0) || (block_stripe =? stripe).

Definition get_pruning_seed (block_height blockchain_height log_stripes : Z) : outcome Z :=
  let stripe := get_block_stripe block_height blockchain_height log_stripes in
  if stripe =? 0 then Val 0 else make_pruning_seed stripe log_stripes.

(** [seed_log_stripes ? seed_log_stripes : CRYPTONOTE_PRUNING_LOG_STRIPES]. *)
Definition effective_log_stripes (pruning_seed : Z) : Z :=
  let seed_log_stripes := get_pruning_log_stripes pruning_seed in
  if seed_log_stripes =? 0 then CRYPTONOTE_PRUNING_LOG_STRIPES else seed_log_stripes.

(** The failed checks return [block_height] and log. *)
Definition get_next_unpruned_block_height (block_height blockchain_height pruning_seed : Z) : Z :=
  if negb (block_height <=? CRYPTONOTE_MAX_BLOCK_NUMBER + 1) then block_height
  else if negb (blockchain_height <=? CRYPTONOTE_MAX_BLOCK_NUMBER + 1) then block_height
  else
    let stripe := get_pruning_stripe pruning_seed in
    if stripe =? 0 then block_height
    else if in_tip block_height blockchain_height then block_height
    else
      let log_stripes := effective_log_stripes pruning_seed in
      let block_pruning_stripe := piece_stripe block_height log_stripes in
      if block_pruning_stripe =? stripe then block_height
      else
        let cycles := Z.shiftr (block_height / CRYPTONOTE_PRUNING_STRIPE_SIZE) log_stripes in
        let cycle_start := u64 (cycles + if block_pruning_stripe <? stripe then 0 else 1) in
        let h := u64 (cycle_start * Z.shiftl CRYPTONOTE_PRUNING_STRIPE_SIZE log_stripes
                      + u32 ((stripe - 1) * CRYPTONOTE_PRUNING_STRIPE_SIZE)) in
        if blockchain_height <? u64 (h + CRYPTONOTE_PRUNING_TIP_BLOCKS) then
          if blockchain_height <? CRYPTONOTE_PRUNING_TIP_BLOCKS then 0
          else blockchain_height - CRYPTONOTE_PRUNING_TIP_BLOCKS
        else if negb (block_height <=? h) then block_height
        else h.

Definition get_next_pruned_block_height (block_height blockchain_height pruning_seed : Z) : outcome Z :=
  let stripe := get_pruning_stripe pruning_seed in
  if stripe =? 0 then Val blockchain_height
  else if in_tip block_height blockchain_height then Val blockchain_height
  else
    let log_stripes := effective_log_stripes pruning_seed in
    let mask := u64 (shl64 1 log_stripes - 1) in
    let block_pruning_seed := piece_stripe block_height log_stripes in
    if negb (block_pruning_seed =? stripe) then Val block_height
    else
      let next_stripe := u32 (1 + Z.land block_pruning_seed mask) in
      seed ← make_pruning_seed next_stripe log_stripes;
      Val (get_next_unpruned_block_height block_height blockchain_height seed).

(** With the random byte. *)
Definition get_random_stripe (rand : Z) : Z := 1 + rand mod shl64 1 CRYPTONOTE_PRUNING_LOG_STRIPES.

(** ** Lemmas *)

(** A seed that [make_pruning_seed] makes, with more than one stripe. *)
Definition seed_of (seed stripe log_stripes : Z) : Prop :=
  1 <= log_stripes <= 7 /\ 1 <= stripe <= 2 ^ log_stripes /\ make_pruning_seed stripe log_stripes = Val seed.

Lemma make_pruning_seed_spec (stripe l : Z) :
  0 <= l <= 7 -> 1 <= stripe <= 2 ^ l -> make_pruning_seed stripe l = Val (l * 128 + (stripe - 1)).
Proof.
  intros Hl Hs. assert (2 ^ l <= 2 ^ 7) by (apply Z.pow_le_mono_r; lia). unfold make_pruning_seed, throw_unless, shl64, u64.
  unfold PRUNING_SEED_LOG_STRIPES_MASK, PRUNING_SEED_LOG_STRIPES_SHIFT, PRUNING_SEED_STRIPE_SHIFT.
  rewrite Z.shiftl_1_l, (Z.mod_small (2 ^ l)) by lia. rewrite !(proj2 (Z.leb_le _ _)), (proj2 (Z.ltb_lt _ _)) by lia. run.
  rewrite Z.shiftl_0_r. unfold u32. rewrite (Z.mod_small (stripe - 1)) by lia.
  rewrite (Z.mod_small (Z.shiftl l 7)) by (rewrite Z.shiftl_mul_pow2 by lia; lia). cbn [andb]. run.
  by rewrite lor_shiftl_add by lia.
Qed.

(** What a seed holds. *)
Lemma seed_fields (seed stripe l : Z) :
  seed_of seed stripe l ->
  get_pruning_stripe seed = stripe /\ get_pruning_log_stripes seed = l /\ effective_log_stripes seed = l.
Proof.
  intros (Hl & Hs & E). rewrite make_pruning_seed_spec in E by lia. injection E as <-.
  assert (2 ^ l <= 2 ^ 7) by (apply Z.pow_le_mono_r; lia).
  assert (get_pruning_log_stripes (l * 128 + (stripe - 1)) = l) as El.
  { unfold get_pruning_log_stripes, PRUNING_SEED_LOG_STRIPES_SHIFT, PRUNING_SEED_LOG_STRIPES_MASK.
    rewrite Z.shiftr_div_pow2 by lia. change (2 ^ 7) with 128 in *. rewrite Z.div_add_l, Z.div_small, Z.add_0_r by lia.
    change 7 with (2 ^ 3 - 1). rewrite land_ones_mod by lia. apply Z.mod_small. lia. }
  split_and!; [|done|].
  - unfold get_pruning_stripe. rewrite (proj2 (Z.eqb_neq _ _)) by lia. unfold PRUNING_SEED_STRIPE_SHIFT, PRUNING_SEED_STRIPE_MASK.
    rewrite Z.shiftr_0_r. change 127 with (2 ^ 7 - 1). rewrite land_ones_mod by lia. change (2 ^ 7) with 128 in *.
    rewrite Z.add_comm, (Z.add_comm (l * 128)), Z.mod_add, Z.mod_small by lia. lia.
  - unfold effective_log_stripes. rewrite El. by rewrite (proj2 (Z.eqb_neq _ _)) by lia.
Qed.

Lemma piece_stripe_spec (bh l : Z) : 0 <= bh -> 0 <= l <= 7 -> piece_stripe bh l = bh / 4096 mod 2 ^ l + 1.
Proof.
  intros Hb Hl. assert (0 < 2 ^ l) by (apply Z.pow_pos_nonneg; lia). assert (2 ^ l <= 2 ^ 7) by (apply Z.pow_le_mono_r; lia).
  unfold piece_stripe, shl64, u64, CRYPTONOTE_PRUNING_STRIPE_SIZE. rewrite Z.shiftl_1_l, (Z.mod_small (2 ^ l)) by lia.
  rewrite (Z.mod_small (2 ^ l - 1)), land_ones_mod by lia. pose proof (Z.mod_pos_bound (bh / 4096) (2 ^ l) ltac:(lia)).
  apply Z.mod_small. lia.
Qed.

Definition kept (stripe l bh bch : Z) : Prop := bch <= bh + 5500 \/ bh / 4096 mod 2 ^ l + 1 = stripe.

Lemma in_tip_spec (bh bch : Z) : 0 <= bh < 2 ^ 63 -> in_tip bh bch = (bch <=? bh + 5500).
Proof. intros Hb. unfold in_tip, u64, CRYPTONOTE_PRUNING_TIP_BLOCKS. by rewrite Z.mod_small by lia. Qed.

Lemma has_unpruned_spec (seed stripe l bh bch : Z) :
  seed_of seed stripe l -> 0 <= bh < 2 ^ 63 -> has_unpruned_block bh bch seed = true <-> kept stripe l bh bch.
Proof.
  intros Hseed Hb. destruct (seed_fields _ _ _ Hseed) as (E1 & E2 & _). destruct Hseed as (Hl & Hs & _).
  unfold has_unpruned_block, get_block_stripe, kept. cbv zeta. rewrite E1, E2, in_tip_spec by done.
  rewrite piece_stripe_spec by lia. rewrite (proj2 (Z.eqb_neq stripe 0)) by lia.
  assert (0 < 2 ^ l) as Hp by (apply Z.pow_pos_nonneg; lia). pose proof (Z.mod_pos_bound (bh / 4096) (2 ^ l) Hp).
  destruct (Z.leb_spec bch (bh + 5500)) as [Ht|Ht]; [split; [by left|done]|].
  rewrite orb_true_iff, !Z.eqb_eq. lia.
Qed.

(** The next piece of a stripe: where it starts, and that none of it is on the way. *)
Lemma next_piece (bh s N : Z) :
  0 <= bh -> 0 < N -> 1 <= s <= N -> bh / 4096 mod N + 1 <> s ->
  let h := (bh / 4096 / N + if bh / 4096 mod N + 1 <? s then 0 else 1) * (4096 * N) + (s - 1) * 4096 in
  bh < h <= bh + 4096 * N /\ h / 4096 mod N + 1 = s /\ forall x, bh <= x < h -> x / 4096 mod N + 1 <> s.
Proof.
  intros Hb HN Hs Hne. cbv zeta. set (q := bh / 4096) in *.
  pose proof (Z.div_mod bh 4096 ltac:(lia)) as Eb. pose proof (Z.mod_pos_bound bh 4096 ltac:(lia)). fold q in Eb.
  pose proof (Z.div_mod q N ltac:(lia)) as Eq. pose proof (Z.mod_pos_bound q N HN) as Hq.
  set (c := q / N) in *. set (b := q mod N) in *. set (d := if b + 1 <? s then 0 else 1).
  assert (0 <= d <= 1 /\ (d = 0 -> b + 1 < s) /\ (d = 1 -> s < b + 1)) as (Hd & Hd0 & Hd1).
  { unfold d. destruct (Z.ltb_spec (b + 1) s); lia. }
  clearbody d. replace ((c + d) * (4096 * N) + (s - 1) * 4096) with (((c + d) * N + (s - 1)) * 4096) by lia.
  assert (q < (c + d) * N + (s - 1) <= q + N) as Hlt by (assert (d = 0 \/ d = 1) as [->| ->] by lia; lia).
  split_and!; [lia|lia| |].
  - rewrite Z.div_mul by lia. rewrite Z.add_comm, (Z.add_comm _ (s - 1)), Z.mod_add, Z.mod_small by lia. lia.
  - intros x Hx Ex. pose proof (Z.div_mod (x / 4096) N ltac:(lia)) as Ey.
    assert (q <= x / 4096 < (c + d) * N + (s - 1)) as Hy.
    { split; [apply Z.div_le_mono; lia|apply Z.div_lt_upper_bound; lia]. }
    set (y := x / 4096) in *. assert (y = N * (y / N) + (s - 1)) as Ey' by lia. set (c' := y / N) in *.
    assert (c' < c + d) by nia. assert (d = 0 \/ d = 1) as [->| ->] by lia; nia.
Qed.

Lemma next_unpruned_eq (seed s l bh bch : Z) :
  seed_of seed s l -> 0 <= bh <= CRYPTONOTE_MAX_BLOCK_NUMBER + 1 -> 0 <= bch <= CRYPTONOTE_MAX_BLOCK_NUMBER + 1 ->
  ~ kept s l bh bch ->
  let h := (bh / 4096 / 2 ^ l + if bh / 4096 mod 2 ^ l + 1 <? s then 0 else 1) * (4096 * 2 ^ l) + (s - 1) * 4096 in
  get_next_unpruned_block_height bh bch seed = Z.min h (bch - 5500).
Proof.
  intros Hseed Hb Hc Hk. cbv zeta. destruct (seed_fields _ _ _ Hseed) as (E1 & _ & E3). destruct Hseed as (Hl & Hs & _).
  unfold CRYPTONOTE_MAX_BLOCK_NUMBER in *. assert (0 < 2 ^ l) as HN by (apply Z.pow_pos_nonneg; lia).
  assert (2 ^ l <= 2 ^ 7) by (apply Z.pow_le_mono_r; lia). unfold kept in Hk. apply Decidable.not_or in Hk as [Ht Hne].
  destruct (next_piece bh s (2 ^ l) ltac:(lia) HN Hs Hne) as (Hh & _). cbv zeta in Hh.
  assert (0 <= bh / 4096 <= bh) by (split; [apply Z.div_pos; lia|apply Z.div_le_upper_bound; lia]).
  assert (0 <= bh / 4096 / 2 ^ l <= bh / 4096) by (split; [apply Z.div_pos; lia|apply Z.div_le_upper_bound; nia]).
  unfold get_next_unpruned_block_height, CRYPTONOTE_MAX_BLOCK_NUMBER, CRYPTONOTE_PRUNING_STRIPE_SIZE, CRYPTONOTE_PRUNING_TIP_BLOCKS.
  rewrite E1, E3, !(proj2 (Z.leb_le _ (500000000 + 1))) by lia. cbn [negb]. cbv zeta. rewrite (proj2 (Z.eqb_neq s 0)) by lia.
  rewrite in_tip_spec, (proj2 (Z.leb_gt bch _)) by lia. rewrite piece_stripe_spec, (proj2 (Z.eqb_neq _ s)) by lia.
  rewrite Z.shiftr_div_pow2, Z.shiftl_mul_pow2 by lia.
  set (d := if _ <? _ then 0 else 1) in *. assert (0 <= d <= 1) by (unfold d; destruct (_ <? _); lia).
  unfold u64, u32. rewrite (Z.mod_small (_ / _ + d)), (Z.mod_small ((s - 1) * 4096)) by lia.
  set (h := _ * (4096 * 2 ^ l) + _) in *. rewrite (Z.mod_small h), Z.mod_small by lia.
  destruct (Z.ltb_spec bch (h + 5500)).
  - rewrite (proj2 (Z.ltb_ge bch 5500)) by lia. lia.
  - rewrite (proj2 (Z.leb_le bh h)) by lia. cbn [negb]. lia.
Qed.

(** The seeds that nodes have: 0 for all blocks, or one of [make_pruning_seed]. *)
Definition valid_seed (seed : Z) : Prop := seed = 0 \/ exists stripe l, seed_of seed stripe l.

Lemma kept_dec (stripe l bh bch : Z) : Decision (kept stripe l bh bch).
Proof. unfold kept. apply _. Defined.

Lemma unpruned_false (seed stripe l bh bch : Z) :
  seed_of seed stripe l -> 0 <= bh < 2 ^ 63 -> ~ kept stripe l bh bch -> has_unpruned_block bh bch seed = false.
Proof. intros Hs Hb Hk. apply not_true_is_false. by rewrite (has_unpruned_spec seed stripe l). Qed.

(** Before the tip, up to the next piece of the stripe or the tip. *)
Lemma next_unpruned_spec (seed s l bh bch : Z) :
  seed_of seed s l -> 0 <= bh <= CRYPTONOTE_MAX_BLOCK_NUMBER + 1 -> 0 <= bch <= CRYPTONOTE_MAX_BLOCK_NUMBER + 1 ->
  ~ kept s l bh bch ->
  let r := get_next_unpruned_block_height bh bch seed in
  bh < r /\ kept s l r bch /\ r <= bch - 5500 /\ (forall x, bh <= x < r -> x / 4096 mod 2 ^ l + 1 <> s).
Proof.
  intros Hseed Hb Hc Hk. cbv zeta. pose proof (next_unpruned_eq seed s l bh bch Hseed Hb Hc Hk) as E. cbv zeta in E.
  unfold kept in *. apply Decidable.not_or in Hk as [Ht Hne]. destruct Hseed as (Hl & Hs & _).
  destruct (next_piece bh s (2 ^ l)) as (Hh & Hm & Hx); [lia|apply Z.pow_pos_nonneg; lia|done|done|]. cbv zeta in *.
  rewrite E. set (h := _ * (4096 * 2 ^ l) + _) in *. clearbody h.
  destruct (Z.le_gt_cases h (bch - 5500)); [rewrite Z.min_l by lia|rewrite Z.min_r by lia]; split_and!; try lia; intros x Hx'; apply Hx; lia.
Qed.

(** The same height when the block is kept. *)
Lemma next_unpruned_kept (seed s l bh bch : Z) :
  seed_of seed s l -> 0 <= bh < 2 ^ 63 -> kept s l bh bch -> get_next_unpruned_block_height bh bch seed = bh.
Proof.
  intros Hseed Hb Hk. destruct (seed_fields _ _ _ Hseed) as (E1 & _ & E3). destruct Hseed as (Hl & Hs & _).
  unfold get_next_unpruned_block_height. cbv zeta. rewrite E1, E3, in_tip_spec, piece_stripe_spec by lia.
  do 2 (destruct (negb _); [done|]). rewrite (proj2 (Z.eqb_neq s 0)) by lia. destruct Hk as [Hk|Hk].
  - by rewrite (proj2 (Z.leb_le bch _)) by lia.
  - rewrite (proj2 (Z.eqb_eq (_ + 1) s)) by lia. by destruct (_ <=? _).
Qed.

(** The stripe that follows. *)
Lemma next_stripe_spec (s l : Z) :
  1 <= l <= 7 -> 1 <= s <= 2 ^ l ->
  u32 (1 + Z.land s (u64 (shl64 1 l - 1))) = s mod 2 ^ l + 1 /\ 1 <= s mod 2 ^ l + 1 <= 2 ^ l /\ s mod 2 ^ l + 1 <> s.
Proof.
  intros Hl Hs. assert (2 ^ 1 <= 2 ^ l) by (apply Z.pow_le_mono_r; lia). assert (2 ^ l <= 2 ^ 7) by (apply Z.pow_le_mono_r; lia).
  change (2 ^ 1) with 2 in *. pose proof (Z.mod_pos_bound s (2 ^ l) ltac:(lia)).
  unfold shl64, u64, u32. rewrite Z.shiftl_1_l, (Z.mod_small (2 ^ l)), (Z.mod_small (2 ^ l - 1)), land_ones_mod by lia.
  split_and!; [rewrite Z.mod_small; lia|lia|lia|].
  destruct (Z.eq_dec s (2 ^ l)) as [->|]; [rewrite Z.mod_same by lia; lia|rewrite Z.mod_small by lia; lia].
Qed.

(** The blocks of a piece before the next stripe's are of one stripe. *)
Lemma same_piece (bh s l x r : Z) :
  0 <= bh -> 1 <= l <= 7 -> bh / 4096 mod 2 ^ l + 1 = s -> bh <= x < r ->
  (forall y, bh <= y < r -> y / 4096 mod 2 ^ l + 1 <> s mod 2 ^ l + 1) -> x / 4096 mod 2 ^ l + 1 = s.
Proof.
  intros Hb Hl Hs Hx Hr. assert (0 < 2 ^ l) as HN by (apply Z.pow_pos_nonneg; lia). set (N := 2 ^ l) in *.
  destruct (Z.le_gt_cases ((bh / 4096 + 1) * 4096) x) as [Hge|Hlt].
  - exfalso. pose proof (Z.div_mod bh 4096 ltac:(lia)). pose proof (Z.mod_pos_bound bh 4096 ltac:(lia)).
    apply (Hr ((bh / 4096 + 1) * 4096)); [lia|]. rewrite Z.div_mul by lia. rewrite <- Hs.
    by rewrite Z.add_mod_idemp_l by lia.
  - assert (x / 4096 = bh / 4096) as ->; [|done]. pose proof (Z.div_mod bh 4096 ltac:(lia)). pose proof (Z.mod_pos_bound bh 4096 ltac:(lia)).
    symmetry. apply (Z.div_unique _ _ _ (x - 4096 * (bh / 4096))); lia.
Qed.

(** ** Theorems *)

(** [get_next_unpruned_block_height] is the least height from the given one on whose block
    a node with the seed keeps. *)
Theorem next_unpruned_least (bh bch seed : Z) :
  valid_seed seed -> 0 <= bh <= CRYPTONOTE_MAX_BLOCK_NUMBER + 1 -> 0 <= bch <= CRYPTONOTE_MAX_BLOCK_NUMBER + 1 ->
  let r := get_next_unpruned_block_height bh bch seed in
  bh <= r /\ has_unpruned_block r bch seed = true /\ forall x, bh <= x < r -> has_unpruned_block x bch seed = false.
Proof.
  intros Hv Hb Hc. cbv zeta. unfold CRYPTONOTE_MAX_BLOCK_NUMBER in *. destruct Hv as [->|(s & l & Hs)].
  { assert (get_next_unpruned_block_height bh bch 0 = bh) as -> by (unfold get_next_unpruned_block_height; by repeat case_match).
    split_and!; [lia|done|lia]. }
  destruct (kept_dec s l bh bch) as [Hk|Hk].
  - rewrite (next_unpruned_kept seed s l) by (done || lia). split_and!; [lia| |lia]. apply (has_unpruned_spec seed s l); (done || lia).
  - destruct (next_unpruned_spec seed s l bh bch Hs Hb Hc Hk) as (Hr & Hkr & Ht & Hx). split_and!; [lia| |].
    + apply (has_unpruned_spec seed s l); (done || lia).
    + intros x Hxr. apply (unpruned_false seed s l); [done|lia|]. intros [?|E]; [lia|]. by apply (Hx x).
Qed.

(** [get_next_pruned_block_height] returns a height up to which a node with the seed keeps
    every block from the given one on; at that height the block is pruned, or no block is from there on. *)
Theorem next_pruned_first (bh bch seed : Z) :
  valid_seed seed -> 0 <= bh <= bch -> bch <= CRYPTONOTE_MAX_BLOCK_NUMBER + 1 ->
  exists r, get_next_pruned_block_height bh bch seed = Val r /\ bh <= r /\
    (forall x, bh <= x < r -> has_unpruned_block x bch seed = true) /\
    (has_unpruned_block r bch seed = false \/ forall x, r <= x < 2 ^ 63 -> has_unpruned_block x bch seed = true).
Proof.
  intros Hv Hb Hc. unfold get_next_pruned_block_height. cbv zeta. unfold CRYPTONOTE_MAX_BLOCK_NUMBER in *. destruct Hv as [->|(s & l & Hs)].
  { exists bch. split_and!; [done|lia|done|by right]. }
  destruct (seed_fields _ _ _ Hs) as (E1 & _ & E3). pose proof Hs as (Hl & Hsr & _).
  rewrite E1, E3, in_tip_spec, piece_stripe_spec by lia. rewrite (proj2 (Z.eqb_neq s 0)) by lia.
  destruct (Z.leb_spec bch (bh + 5500)) as [Ht|Ht].
  { exists bch. split_and!; [done|lia| |right]; intros x Hx; apply (has_unpruned_spec seed s l); try (done || lia); left; lia. }
  destruct (Z.eqb_spec (bh / 4096 mod 2 ^ l + 1) s) as [E|Hne]; cbn [negb].
  2:{ exists bh. split_and!; [done|lia|lia|left]. apply (unpruned_false seed s l); [done|lia|]. intros [?|?]; [lia|done]. }
  destruct (next_stripe_spec s l Hl Hsr) as (En & Hn & Hns). rewrite E, En, make_pruning_seed_spec by lia. run.
  set (n := s mod 2 ^ l + 1) in *. set (seed' := l * 128 + (n - 1)).
  assert (seed_of seed' n l) as Hs' by (split_and!; try lia; by apply make_pruning_seed_spec; lia).
  destruct (next_unpruned_spec seed' n l bh bch Hs') as (Hr & Hkr & Htr & Hx); unfold CRYPTONOTE_MAX_BLOCK_NUMBER; [lia|lia|intros [?|?]; lia|].
  set (r := get_next_unpruned_block_height bh bch seed') in *. exists r. split_and!; [done|lia| |].
  - intros x Hxr. apply (has_unpruned_spec seed s l); [done|lia|]. right. by apply (same_piece bh s l x r); try lia.
  - destruct (Z.le_gt_cases bch (r + 5500)).
    + right. intros x Hxr. apply (has_unpruned_spec seed s l); [done|lia|]. left. lia.
    + left. apply (unpruned_false seed s l); [done|lia|]. destruct Hkr as [?|Hkr]; [lia|]. intros [?|?]; lia.
Qed.

(** With 2 to 128 stripes, each block before the tip is kept by the nodes of exactly one
    seed, the one of [get_pruning_seed]; and the seed gives the stripe and the number of stripes back. *)
Theorem block_seed_unique (bh bch l : Z) :
  1 <= l <= 7 -> 0 <= bh < 2 ^ 63 -> bh + CRYPTONOTE_PRUNING_TIP_BLOCKS < bch ->
  exists seed, get_pruning_seed bh bch l = Val seed /\
    get_pruning_stripe seed = get_block_stripe bh bch l /\ get_pruning_log_stripes seed = l /\
    forall stripe seed', 1 <= stripe <= 2 ^ l -> make_pruning_seed stripe l = Val seed' ->
      (has_unpruned_block bh bch seed' = true <-> seed' = seed).
Proof.
  unfold CRYPTONOTE_PRUNING_TIP_BLOCKS. intros Hl Hb Ht. unfold get_pruning_seed, get_block_stripe. cbv zeta.
  assert (0 < 2 ^ l) as HN by (apply Z.pow_pos_nonneg; lia). pose proof (Z.mod_pos_bound (bh / 4096) (2 ^ l) HN).
  rewrite in_tip_spec, (proj2 (Z.leb_gt _ _)), piece_stripe_spec by lia. set (s := bh / 4096 mod 2 ^ l + 1) in *.
  rewrite (proj2 (Z.eqb_neq s 0)), make_pruning_seed_spec by lia. eexists. split; [done|].
  assert (seed_of (l * 128 + (s - 1)) s l) as Hs by (split_and!; try lia; by apply make_pruning_seed_spec; lia).
  destruct (seed_fields _ _ _ Hs) as (E1 & E2 & _). split_and!; [done|done|]. intros s' seed' Hs' E.
  rewrite (has_unpruned_spec seed' s' l) by (done || lia). rewrite make_pruning_seed_spec in E by lia. injection E as <-.
  unfold kept. fold s. lia.
Qed.

(** ** Witnesses *)

Lemma seed_3_2 : valid_seed 258.
Proof. right. exists 3, 2. split_and!; try (vm_compute; done). Defined.

Lemma next_unpruned_least_witness :
  5000 <= get_next_unpruned_block_height 5000 100000 258 /\
  has_unpruned_block (get_next_unpruned_block_height 5000 100000 258) 100000 258 = true /\
  forall x, 5000 <= x < get_next_unpruned_block_height 5000 100000 258 -> has_unpruned_block x 100000 258 = false.
Proof. apply (next_unpruned_least 5000 100000 258 seed_3_2); vm_compute; by split. Defined.

Lemma next_pruned_first_witness :
  exists r, get_next_pruned_block_height 9000 100000 258 = Val r /\ 9000 <= r /\
    (forall x, 9000 <= x < r -> has_unpruned_block x 100000 258 = true) /\
    (has_unpruned_block r 100000 258 = false \/ forall x, r <= x < 2 ^ 63 -> has_unpruned_block x 100000 258 = true).
Proof. apply (next_pruned_first 9000 100000 258 seed_3_2); vm_compute; done || by split. Defined.

Lemma block_seed_unique_witness :
  exists seed, get_pruning_seed 5000 100000 3 = Val seed /\
    get_pruning_stripe seed = get_block_stripe 5000 100000 3 /\ get_pruning_log_stripes seed = 3 /\
    forall stripe seed', 1 <= stripe <= 2 ^ 3 -> make_pruning_seed stripe 3 = Val seed' ->
      (has_unpruned_block 5000 100000 seed' = true <-> seed' = seed).
Proof. apply (block_seed_unique 5000 100000 3); vm_compute; done || by split. Defined.
