(* ===== verification/BlockQueue.v ===== *)
(** * Block queue

    src/src/cryptonote_protocol/block_queue.cpp and block_queue.h: the spans of blocks that
    a node that catches up with the network has asked its peers for, and the blocks of the
    spans that have come.  Hashes, block entries, connections, addresses, rates and times are
    only stored and compared here, so their types are parameters. *)

From stdpp Require Import gmap.
From S2P Require Import Prelude Pruning.

Open Scope word_scope.

Section BlockQueue.
Context {hash entry uuid address rate_t ptime : Type}.
Context `{EqDecision hash, !Countable hash, EqDecision uuid, !Countable uuid}.
(** [0.0f], [boost::date_time::min_date_time] and [crypto::null_hash]. *)
Context (no_rate : rate_t) (min_date_time : ptime) (null_hash : hash).

(** ** Data *)

Record span : Type := Span {
  start_block_height : Z;
  hashes : list hash;
  blocks : list entry;
  connection_id : uuid;
  nblocks : Z;
  rate : rate_t;
  size : Z;
  time : ptime;
  origin : address
}.

(** [std::set<span>] is the list of its elements in their order, which is that of the heights. *)
Record block_queue : Type := BlockQueue {
  spans : list span;
  requested_hashes : gset hash;
  have_blocks : gset hash
}.

Definition empty_queue : block_queue := BlockQueue [] ∅ ∅.

Definition filled_span (height : Z) (bcel : list entry) (conn : uuid) (addr : address) (r : rate_t) (sz : Z) : span :=
  Span height [] bcel conn (u64 (Z.of_nat (length bcel))) r sz min_date_time addr.

Definition scheduled_span (height n : Z) (conn : uuid) (addr : address) (t : ptime) : span :=
  Span height [] [] conn n no_rate 0 t addr.

(** [!blocks.empty()]. *)
Definition is_filled (s : span) : bool := match blocks s with [] => false | _ => true end.

Definition span_lt (s s' : span) : bool := start_block_height s <? start_block_height s'.

(** [std::set::insert], which does nothing when an element is equivalent to the new one. *)
Fixpoint set_insert (s : span) (l : list span) : list span :=
  match l with
  | [] => [s]
  | x :: l' => if span_lt s x then s :: l else if span_lt x s then x :: set_insert s l' else l
  end.

(** [std::set::erase] of the element that an iterator is at. *)
Definition set_erase (j : span) (l : list span) : list span :=
  filter (fun s => start_block_height s <> start_block_height j) l.

(** ** Operations *)

Definition erase_block (j : span) (q : block_queue) : block_queue :=
  BlockQueue (set_erase j (spans q)) (requested_hashes q ∖ list_to_set (hashes j))
             (have_blocks q ∖ list_to_set (hashes j)).

(** The loops [j = i++; if (...) erase_block(j);] over the queue; erasing an element of a
    set leaves the iterators at the others valid. *)
Definition erase_if (p : span -> bool) (q : block_queue) : block_queue :=
  foldl (fun q j => if p j then erase_block j q else q) q (spans q).

Definition flush_spans (conn : uuid) (all : bool) (q : block_queue) : block_queue :=
  erase_if (fun j => bool_decide (connection_id j = conn) && (all || negb (is_filled j))) q.

Definition flush_stale_spans (live_connections : gset uuid) (q : block_queue) : block_queue :=
  erase_if (fun j => negb (is_filled j) && negb (bool_decide (connection_id j ∈ live_connections))) q.

Definition remove_spans (conn : uuid) (height : Z) (q : block_queue) : block_queue :=
  erase_if (fun j => bool_decide (connection_id j = conn) && (start_block_height j <=? height)) q.

(** The hashes of the span that is removed; an element of a set is constant, so [std::move]
    copies them and [erase_block] sees them. *)
Definition remove_span (height : Z) (q : block_queue) : option (list hash) * block_queue :=
  match find (fun i => start_block_height i =? height) (spans q) with
  | Some i => (Some (hashes i), erase_block i q)
  | None => (None, q)
  end.

Definition with_hashes (hs : list hash) (s : span) : span :=
  Span (start_block_height s) hs (blocks s) (connection_id s) (nblocks s) (rate s) (size s) (time s) (origin s).

Definition set_span_hashes (height : Z) (conn : uuid) (hs : list hash) (q : block_queue) : block_queue :=
  match find (fun i => (start_block_height i =? height) && bool_decide (connection_id i = conn)) (spans q) with
  | Some s =>
    let q := erase_block s q in
    BlockQueue (set_insert (with_hashes hs s) (spans q)) (requested_hashes q ∪ list_to_set hs) (have_blocks q)
  | None => q
  end.

Definition insert_span (s : span) (q : block_queue) : block_queue :=
  BlockQueue (set_insert s (spans q)) (requested_hashes q) (have_blocks q).

(** The overload of [add_blocks] for blocks that have come. *)
Definition add_blocks (height : Z) (bcel : list entry) (conn : uuid) (addr : address) (r : rate_t) (sz : Z)
    (q : block_queue) : block_queue :=
  let (has_hashes, q) := remove_span height q in
  let q := insert_span (filled_span height bcel conn addr r sz) q in
  match has_hashes with
  | Some hs =>
    let q := BlockQueue (spans q) (requested_hashes q ∪ list_to_set hs) (have_blocks q ∪ list_to_set hs) in
    set_span_hashes height conn hs q
  | None => q
  end.

(** The overload of [add_blocks] for blocks that are asked for. *)
Definition schedule_blocks (height n : Z) (conn : uuid) (addr : address) (t : ptime) (q : block_queue)
    : outcome block_queue :=
  _ ← throw_unless (0 <? n);
  Val (insert_span (scheduled_span height n conn addr t) q).

Definition with_time (t : ptime) (s : span) : span :=
  Span (start_block_height s) (hashes s) (blocks s) (connection_id s) (nblocks s) (rate s) (size s) t (origin s).

Definition reset_next_span_time (t : ptime) (q : block_queue) : outcome block_queue :=
  match spans q with
  | [] => Throw
  | i :: l =>
    _ ← throw_unless (negb (is_filled i));
    Val (BlockQueue (with_time t i :: l) (requested_hashes q) (have_blocks q))
  end.

(** ** Reservations *)

Definition requested (h : hash) (q : block_queue) : bool := bool_decide (h ∈ requested_hashes q).

Definition have (h : hash) (q : block_queue) : bool := bool_decide (h ∈ have_blocks q).

(** The loop that skips what has been requested, with the iterator as the rest of the list. *)
Fixpoint skip_requested (q : block_queue) (i : list (hash * Z)) (height : Z) : list (hash * Z) * Z :=
  match i with
  | p :: i' => if requested p.1 q then skip_requested q i' (height ⊞ 1) else (i, height)
  | [] => (i, height)
  end.

(** The arguments of [reserve_span] that say what the peer and the node have. *)
Record pruning_view : Type := PruningView {
  sync_pruned_blocks : bool;
  local_pruning_seed : Z;
  pruning_seed : Z;
  blockchain_height : Z
}.

Definition peer_has (v : pruning_view) (height : Z) : bool :=
  has_unpruned_block height (blockchain_height v) (pruning_seed v).

Definition node_keeps (v : pruning_view) (height : Z) : bool :=
  has_unpruned_block height (blockchain_height v) (local_pruning_seed v).

(** If the peer has pruned the starting block and the stripe it keeps comes next, the
    height at which that starts; [next_unpruned_height] is of 32 bits. *)
Definition ideal_start (v : pruning_view) (height : Z) : Z :=
  if sync_pruned_blocks v then height
  else
    let next_unpruned_height := u32 (get_next_unpruned_block_height height (blockchain_height v) (pruning_seed v)) in
    if (height <? next_unpruned_height) && (next_unpruned_height <? height ⊞ CRYPTONOTE_PRUNING_STRIPE_SIZE)
    then next_unpruned_height else height.

(** The loop that collects the hashes of the span. *)
Fixpoint collect (v : pruning_view) (first_is_pruned : bool) (max_blocks height : Z) (i : list (hash * Z)) (span_length : Z)
    : list hash :=
  match i with
  | p :: i' =>
    let h := height ⊞ span_length in
    if (span_length <? max_blocks) && (sync_pruned_blocks v || peer_has v h) then
      if sync_pruned_blocks v && Bool.eqb first_is_pruned (node_keeps v h) then []
      else p.1 :: collect v first_is_pruned max_blocks height i' (span_length + 1)
    else []
  | [] => []
  end.

(** What is reserved: the height of the first block and the hashes, [None] where the code
    returns a pair of zeros.  The code forms the iterator at the start of the span as
    [begin() + span_start_height - block_hashes_start_height]. *)
Definition choose_span (first_block_height last_block_height max_blocks : Z) (v : pruning_view)
    (block_hashes : list (hash * Z)) (q : block_queue) : option (Z * list hash) :=
  let count := Z.of_nat (length block_hashes) in
  if (last_block_height <? first_block_height) || (max_blocks =? 0) then None
  else if last_block_height <? count then None
  else
    let block_hashes_start_height := last_block_height ⊟ count ⊞ 1 in
    let (_, span_start_height) := skip_requested q block_hashes block_hashes_start_height in
    let span_start_height := ideal_start v span_start_height in
    if count ⊞ block_hashes_start_height <=? span_start_height then None
    else
      let i := drop (Z.to_nat (span_start_height - block_hashes_start_height)) block_hashes in
      let (i, span_start_height) := skip_requested q i span_start_height in
      let first_is_pruned := sync_pruned_blocks v && negb (node_keeps v span_start_height) in
      match collect v first_is_pruned max_blocks span_start_height i 0 with
      | [] => None
      | hs => Some (span_start_height, hs)
      end.

Definition reserve_span (first_block_height last_block_height max_blocks : Z) (conn : uuid) (addr : address)
    (v : pruning_view) (block_hashes : list (hash * Z)) (t : ptime) (q : block_queue) : outcome ((Z * Z) * block_queue) :=
  match choose_span first_block_height last_block_height max_blocks v block_hashes q with
  | None => Val ((0, 0), q)
  | Some (span_start_height, hs) =>
    let span_length := Z.of_nat (length hs) in
    q ← schedule_blocks span_start_height span_length conn addr t q;
    Val ((span_start_height, span_length), set_span_hashes span_start_height conn hs q)
  end.

(** ** Queries *)

Definition last_height (s : span) : Z := start_block_height s ⊞ nblocks s ⊟ 1.

Definition get_max_block_height (q : block_queue) : Z :=
  foldl (fun height s => if height <? last_height s then last_height s else height) 0 (spans q).

Fixpoint needed_loop (chain_height last_needed_height : Z) (first : bool) (l : list span) : Z :=
  match l with
  | [] => last_needed_height
  | s :: l' =>
    if last_height s <? chain_height then needed_loop chain_height last_needed_height first l'
    else if negb (start_block_height s =? last_needed_height) || (first && negb (is_filled s)) then last_needed_height
    else needed_loop chain_height (start_block_height s ⊞ nblocks s) false l'
  end.

Definition get_next_needed_height (chain_height : Z) (q : block_queue) : Z :=
  needed_loop chain_height chain_height true (spans q).

Definition get_next_span_if_scheduled (q : block_queue) : option (list hash * uuid * ptime * (Z * Z)) :=
  match spans q with
  | [] => None
  | i :: _ => if is_filled i then None else Some (hashes i, connection_id i, time i, (start_block_height i, nblocks i))
  end.

Definition get_next_span (filled : bool) (q : block_queue) : option (Z * list entry * uuid * address) :=
  match find (fun i => negb filled || is_filled i) (spans q) with
  | Some i => Some (start_block_height i, blocks i, connection_id i, origin i)
  | None => None
  end.

Definition has_next_span_of (conn : uuid) (q : block_queue) : option (bool * ptime) :=
  match spans q with
  | [] => None
  | i :: _ => if bool_decide (connection_id i = conn) then Some (is_filled i, time i) else None
  end.

Definition has_next_span_at (height : Z) (q : block_queue) : option (bool * ptime * uuid) :=
  match spans q with
  | [] => None
  | i :: _ => if height <? start_block_height i then None else Some (is_filled i, time i, connection_id i)
  end.

Definition get_data_size (q : block_queue) : Z := foldl (fun sz s => sz ⊞ size s) 0 (spans q).

Fixpoint filled_prefix (l : list span) : Z :=
  match l with
  | i :: l' => if is_filled i then 1 + filled_prefix l' else 0
  | [] => 0
  end.

Definition get_num_filled_spans_prefix (q : block_queue) : Z := filled_prefix (spans q).

Definition get_num_filled_spans (q : block_queue) : Z :=
  foldl (fun sz s => if is_filled s then sz + 1 else sz) 0 (spans q).

Definition has_spans (conn : uuid) (q : block_queue) : bool := existsb (fun s => bool_decide (connection_id s = conn)) (spans q).

(** Only spans of no blocks, which are never added, have a size that an empty list of hashes
    can match. *)
Definition get_last_known_hash (conn : uuid) (q : block_queue) : hash :=
  (foldl (fun '(h, highest_height) s =>
     if negb (bool_decide (connection_id s = conn)) then (h, highest_height)
     else if (highest_height <? last_height s) && (Z.of_nat (length (hashes s)) =? nblocks s)
     then (default null_hash (last (hashes s)), last_height s) else (h, highest_height))
   (null_hash, 0) (spans q)).1.

(** ** The set of spans *)

Definition sorted (l : list span) : Prop := StronglySorted (fun s s' => start_block_height s < start_block_height s') l.

(** The span that starts at a height. *)
Definition span_at (height : Z) (l : list span) : option span := find (fun s => start_block_height s =? height) l.

Lemma elem_of_find {A} (f : A -> bool) (l : list A) (a : A) : find f l = Some a -> a ∈ l /\ f a = true.
Proof. intros E. apply find_some in E as [Hin Hf]. by rewrite list_elem_of_In. Qed.

Lemma sorted_unique (l : list span) (s s' : span) :
  sorted l -> s ∈ l -> s' ∈ l -> start_block_height s = start_block_height s' -> s = s'.
Proof.
  induction 1 as [|x l Hl IH Hx]; [by intros ?%elem_of_nil|]. rewrite Forall_forall in Hx.
  rewrite !elem_of_cons. intros [->|Hs] [->|Hs'] E; [done| | |by apply IH].
  - specialize (Hx _ Hs'). lia.
  - specialize (Hx _ Hs). lia.
Qed.

Lemma span_at_iff (l : list span) (h : Z) (s : span) :
  sorted l -> span_at h l = Some s <-> s ∈ l /\ start_block_height s = h.
Proof.
  intros Hl. unfold span_at. split.
  - intros [Hin E]%elem_of_find. split; [done|lia].
  - intros [Hin <-]. destruct (find _ l) as [s'|] eqn:E.
    + apply elem_of_find in E as [Hin' E]. f_equal. apply (sorted_unique l); [done..|lia].
    + rewrite list_elem_of_In in Hin. pose proof (find_none _ _ E s Hin). simpl in *. lia.
Qed.

Lemma span_at_none (l : list span) (h : Z) : span_at h l = None <-> forall s, s ∈ l -> start_block_height s <> h.
Proof.
  unfold span_at. split.
  - intros E s Hin%list_elem_of_In. pose proof (find_none _ _ E s Hin). simpl in *. lia.
  - intros Hn. destruct (find _ l) as [s|] eqn:E; [|done]. apply elem_of_find in E as [Hin E]. destruct (Hn s Hin). lia.
Qed.

Lemma elem_of_set_insert (s x : span) (l : list span) :
  sorted l -> x ∈ set_insert s l <-> x ∈ l \/ (x = s /\ span_at (start_block_height s) l = None).
Proof.
  rewrite span_at_none. induction 1 as [|y l Hl IH Hy]; simpl; [set_solver|]. rewrite Forall_forall in Hy. unfold span_lt.
  zcase; [|zcase]; rewrite ?elem_of_cons, ?IH; clear IH.
  - split; [|naive_solver]. intros [->|?]; [right|by left]. split; [done|]. intros z [->|Hz]%elem_of_cons; [lia|]. specialize (Hy z Hz). lia.
  - split; [|set_solver]. intros [?|[?|[-> Hn]]]; [by auto..|right]. split; [done|]. intros z [->|Hz]%elem_of_cons; [lia|by apply Hn].
  - split; [by auto|]. intros [?|[-> Hn]]; [done|]. destruct (Hn y); [left|lia].
Qed.

Lemma sorted_insert (s : span) (l : list span) : sorted l -> sorted (set_insert s l).
Proof.
  unfold sorted. induction 1 as [|y l Hl IH Hy]; simpl; [by repeat constructor|]. pose proof Hy as Hy'. rewrite Forall_forall in Hy'. unfold span_lt.
  zcase; [|zcase]; constructor; try done.
  - by constructor.
  - constructor; [lia|]. rewrite Forall_forall. intros z Hz. specialize (Hy' z Hz). lia.
  - rewrite Forall_forall. intros z Hz. apply elem_of_set_insert in Hz as [Hz|[-> _]]; [by apply Hy'|lia|done].
Qed.

Lemma elem_of_set_erase (j x : span) (l : list span) :
  x ∈ set_erase j l <-> x ∈ l /\ start_block_height x <> start_block_height j.
Proof. unfold set_erase. rewrite list_elem_of_filter. naive_solver. Qed.

Lemma sorted_filter (P : span -> Prop) `{!forall s, Decision (P s)} (l : list span) : sorted l -> sorted (filter P l).
Proof.
  unfold sorted. induction 1 as [|y l Hl IH Hy]; [constructor|]. rewrite filter_cons. case_decide; [|done].
  constructor; [done|]. rewrite Forall_forall in *. intros z [_ Hz]%list_elem_of_filter. by apply Hy.
Qed.

Lemma sorted_erase (j : span) (l : list span) : sorted l -> sorted (set_erase j l).
Proof. apply sorted_filter. Qed.

(** *** What the operations do to the spans and to the hashes *)

(** What every removal of a span of the queue keeps, [erase_if] keeps. *)
Lemma erase_if_ind (P : block_queue -> Prop) (p : span -> bool) (q : block_queue) :
  sorted (spans q) -> P q ->
  (forall q j, sorted (spans q) -> j ∈ spans q -> p j = true -> P q -> P (erase_block j q)) -> P (erase_if p q).
Proof.
  intros Hs HP Hstep. unfold erase_if.
  assert (forall l q, sorted l -> l ⊆ spans q -> sorted (spans q) -> P q -> P (foldl (fun q j => if p j then erase_block j q else q) q l)) as Hgen.
  2:{ by apply Hgen. }
  clear q Hs HP. intros l. induction l as [|j l IH]; intros q Hl Hsub Hs HP; [done|]. simpl.
  apply StronglySorted_inv in Hl as [Hl Hj]. rewrite Forall_forall in Hj. destruct (p j) eqn:Hp.
  2:{ apply IH; [done|set_solver|done..]. }
  apply IH; [done| |by apply sorted_erase|apply Hstep; [done|set_solver|done..]].
  intros x Hx. apply elem_of_set_erase. specialize (Hj x Hx). split; [set_solver|lia].
Qed.

(** [erase_if] removes the spans with the property and forgets their hashes. *)
Lemma erase_if_spec (p : span -> bool) (q : block_queue) :
  sorted (spans q) ->
  (forall s, s ∈ spans (erase_if p q) <-> s ∈ spans q /\ p s = false) /\
  (forall h, h ∈ requested_hashes (erase_if p q) <-> h ∈ requested_hashes q /\ Forall (fun j => p j = true -> h ∉ hashes j) (spans q)) /\
  (forall h, h ∈ have_blocks (erase_if p q) <-> h ∈ have_blocks q /\ Forall (fun j => p j = true -> h ∉ hashes j) (spans q)).
Proof.
  intros Hs. unfold erase_if.
  assert (forall l q, sorted l -> l ⊆ spans q -> sorted (spans q) ->
    let q' := foldl (fun q j => if p j then erase_block j q else q) q l in
    (forall s, s ∈ spans q' <-> s ∈ spans q /\ (s ∈ l -> p s = false)) /\
    (forall h, h ∈ requested_hashes q' <-> h ∈ requested_hashes q /\ Forall (fun j => p j = true -> h ∉ hashes j) l) /\
    (forall h, h ∈ have_blocks q' <-> h ∈ have_blocks q /\ Forall (fun j => p j = true -> h ∉ hashes j) l)) as Hgen.
  2:{ destruct (Hgen (spans q) q Hs ltac:(done) Hs) as (E1 & E2). split; [|done]. intros s. rewrite E1. clear. tauto. }
  clear q Hs. intros l. induction l as [|j l IH]; intros q Hl Hsub Hs.
  { clear. simpl. repeat setoid_rewrite Forall_nil. setoid_rewrite elem_of_nil. tauto. }
  cbn [foldl]. apply StronglySorted_inv in Hl as [Hl Hj]. rewrite Forall_forall in Hj. assert (j ∈ spans q) as Hjq by (apply Hsub; left).
  assert (forall x, x ∈ l -> x ∈ spans q) as Hlq by (intros x Hx; apply Hsub; by right). destruct (p j) eqn:Hp.
  - destruct (IH (erase_block j q)) as (E1 & E2 & E3); [done| |by apply sorted_erase|].
    { intros x Hx. apply elem_of_set_erase. specialize (Hj x Hx). split; [by apply Hlq|lia]. }
    split_and!; intros x; rewrite ?E1, ?E2, ?E3; clear E1 E2 E3 IH; cbn [spans requested_hashes have_blocks erase_block].
    + rewrite elem_of_set_erase. split.
      * intros [[Hx Hne] Hp']. split; [done|]. intros [->|Hxl]%elem_of_cons; [done|by apply Hp'].
      * intros [Hx Hp']. split_and!; [done| |intros; apply Hp'; by right].
        intros E. rewrite (sorted_unique (spans q) x j) in Hp' by done. rewrite Hp' in Hp; [done|left].
    + rewrite elem_of_difference, elem_of_list_to_set, Forall_cons. tauto.
    + rewrite elem_of_difference, elem_of_list_to_set, Forall_cons. tauto.
  - destruct (IH q Hl Hlq Hs) as (E1 & E2 & E3).
    split_and!; intros x; rewrite ?E1, ?E2, ?E3, ?Forall_cons, ?elem_of_cons; clear -Hp; [|rewrite Hp; intuition congruence..].
    split; intros [? Hx]; (split; [done|]); [intros [->|?]; auto|auto].
Qed.

(** *** The invariant *)

(** The queue is ordered by height, each span has a block and ends below 2^64 - 1, a span
    that has come has as many blocks as it says; what counts as requested is in a span, and
    what counts as had is requested and in a span that has come. *)
Record wf (q : block_queue) : Prop := Wf {
  wf_sorted : sorted (spans q);
  wf_span : forall s, s ∈ spans q -> 0 <= start_block_height s /\ 0 < nblocks s /\ start_block_height s + nblocks s < 2 ^ 64 /\
    (is_filled s = true -> nblocks s = Z.of_nat (length (blocks s)));
  wf_requested : forall h, h ∈ requested_hashes q -> exists s, s ∈ spans q /\ h ∈ hashes s;
  wf_have : forall h, h ∈ have_blocks q -> h ∈ requested_hashes q /\ exists s, s ∈ spans q /\ h ∈ hashes s /\ is_filled s = true
}.

Lemma wf_empty : wf empty_queue.
Proof. split; [constructor|set_solver..]. Qed.

Lemma wf_erase_block (j : span) (q : block_queue) : wf q -> j ∈ spans q -> wf (erase_block j q).
Proof.
  intros [Hs Hsp Hr Hh] Hj.
  assert (forall s h, s ∈ spans q -> h ∈ hashes s -> h ∉ hashes j -> s ∈ set_erase j (spans q)) as Hkeep.
  { intros s h Hin Hhs Hnj. apply elem_of_set_erase. split; [done|]. intros E. by rewrite (sorted_unique (spans q) s j) in Hhs. }
  split; cbn [spans requested_hashes have_blocks erase_block].
  - by apply sorted_erase.
  - intros s [Hin _]%elem_of_set_erase. by apply Hsp.
  - intros h [Hin Hnj]%elem_of_difference. rewrite elem_of_list_to_set in Hnj. destruct (Hr h Hin) as (s & ? & ?). eauto.
  - intros h [Hin Hnj]%elem_of_difference. destruct (Hh h Hin) as (? & s & ? & ? & ?). split; [set_solver|].
    rewrite elem_of_list_to_set in Hnj. eauto.
Qed.

Lemma wf_erase_if (p : span -> bool) (q : block_queue) : wf q -> wf (erase_if p q).
Proof. intros Hw. apply erase_if_ind; [apply Hw|done|]. intros ? ? ? ? _ ?. by apply wf_erase_block. Qed.

(** A span that has no hashes yet. *)
Lemma wf_insert_span (s : span) (q : block_queue) :
  wf q -> hashes s = [] -> 0 <= start_block_height s -> 0 < nblocks s -> start_block_height s + nblocks s < 2 ^ 64 ->
  (is_filled s = true -> nblocks s = Z.of_nat (length (blocks s))) -> wf (insert_span s q).
Proof.
  intros [Hs Hsp Hr Hh] E H1 H2 H3 H4.
  assert (forall x, x ∈ spans q -> x ∈ set_insert s (spans q)) as Hin by (intros x Hx; apply elem_of_set_insert; auto).
  split; cbn [spans requested_hashes have_blocks insert_span].
  - by apply sorted_insert.
  - intros x [?|[-> _]]%elem_of_set_insert; [by apply Hsp|done..].
  - intros h Hx. destruct (Hr h Hx) as (x & ? & ?). eauto.
  - intros h Hx. destruct (Hh h Hx) as (? & x & ? & ? & ?). eauto 7.
Qed.

Lemma span_at_erase (j : span) (l : list span) : span_at (start_block_height j) (set_erase j l) = None.
Proof. apply span_at_none. intros s [_ ?]%elem_of_set_erase. done. Qed.

Lemma erase_insert (s : span) (l : list span) :
  sorted l -> span_at (start_block_height s) l = None -> set_erase s (set_insert s l) = l.
Proof.
  intros Hl Hn. rewrite span_at_none in Hn. induction Hl as [|y l Hl IH Hy].
  { unfold set_erase. cbn [set_insert]. by rewrite filter_cons, decide_False by tauto. }
  assert (forall l', (forall z, z ∈ l' -> start_block_height z <> start_block_height s) -> set_erase s l' = l') as Hid.
  { intros l'. unfold set_erase. induction l' as [|z l' IHl]; intros Hz; [done|]. rewrite filter_cons, decide_True by (apply Hz; left).
    f_equal. apply IHl. intros; apply Hz; by right. }
  simpl. unfold span_lt. pose proof (Hn y ltac:(left)). zcase; [|zcase; [|lia]].
  - unfold set_erase at 1. rewrite filter_cons, decide_False by tauto. change (set_erase s (y :: l) = y :: l). by apply Hid.
  - unfold set_erase. rewrite filter_cons, decide_True by done. f_equal. change (set_erase s (set_insert s l) = l). apply IH. intros; apply Hn; by right.
Qed.

(** A span of the queue replaced by one at the same height. *)
Definition replace (s new : span) (came : gset hash) (q : block_queue) : block_queue :=
  BlockQueue (set_insert new (set_erase s (spans q))) (requested_hashes q ∖ list_to_set (hashes s) ∪ list_to_set (hashes new))
             (have_blocks q ∖ list_to_set (hashes s) ∪ came).

Lemma set_span_hashes_eq (h : Z) (c : uuid) (hs : list hash) (q : block_queue) :
  sorted (spans q) ->
  set_span_hashes h c hs q =
  match span_at h (spans q) with
  | Some s => if bool_decide (connection_id s = c) then replace s (with_hashes hs s) ∅ q else q
  | None => q
  end.
Proof.
  intros Hs. unfold set_span_hashes. destruct (find _ (spans q)) as [s|] eqn:E.
  - apply elem_of_find in E as [Hin [E Hc]%andb_true_iff]. rewrite (proj2 (span_at_iff (spans q) h s Hs)) by (split; [done|lia]).
    rewrite Hc. unfold replace. cbn. by rewrite union_empty_r_L.
  - destruct (span_at h (spans q)) as [s|] eqn:Es; [|done]. rewrite bool_decide_false; [done|]. intros Hc.
    apply span_at_iff in Es as [Hin Es]; [|done]. rewrite list_elem_of_In in Hin. pose proof (find_none _ _ E s Hin) as Hf. simpl in Hf.
    rewrite bool_decide_true in Hf by done. lia.
Qed.

(** Blocks that come for a span that was asked for take over its hashes. *)
Lemma add_blocks_eq (h : Z) (bcel : list entry) (c : uuid) (a : address) (r : rate_t) (sz : Z) (q : block_queue) :
  sorted (spans q) ->
  add_blocks h bcel c a r sz q =
  match span_at h (spans q) with
  | Some s => replace s (with_hashes (hashes s) (filled_span h bcel c a r sz)) (list_to_set (hashes s)) q
  | None => insert_span (filled_span h bcel c a r sz) q
  end.
Proof.
  intros Hs. unfold add_blocks, remove_span. fold (span_at h (spans q)). destruct (span_at h (spans q)) as [s|] eqn:E; [|done].
  apply span_at_iff in E as [Hin <-]; [|done]. set (f := filled_span (start_block_height s) bcel c a r sz).
  pose proof (sorted_erase s (spans q) Hs) as Hse. pose proof (span_at_erase s (spans q)) as Hn.
  rewrite set_span_hashes_eq by (by apply sorted_insert). cbn [spans requested_hashes have_blocks insert_span erase_block].
  rewrite (proj2 (span_at_iff _ _ f (sorted_insert f _ Hse))).
  2:{ split; [|done]. apply elem_of_set_insert; [done|]. by right. }
  rewrite bool_decide_true by done. unfold replace. cbn [spans requested_hashes have_blocks hashes with_hashes f filled_span].
  fold f. rewrite erase_insert by done. f_equal; set_solver.
Qed.

Lemma span_at_replace (s new : span) (came : gset hash) (q : block_queue) (x : Z) :
  sorted (spans q) -> s ∈ spans q -> start_block_height new = start_block_height s ->
  span_at x (spans (replace s new came q)) = if x =? start_block_height s then Some new else span_at x (spans q).
Proof.
  intros Hs Hin E. pose proof (sorted_erase s (spans q) Hs) as Hse. pose proof (sorted_insert new _ Hse) as Hr.
  cbn [spans replace]. apply option_eq. intros y. rewrite span_at_iff, elem_of_set_insert, E, span_at_erase, elem_of_set_erase by done.
  zcase; [|rewrite span_at_iff by done]; split; naive_solver congruence.
Qed.

Lemma wf_replace (s new : span) (came : gset hash) (q : block_queue) :
  wf q -> s ∈ spans q -> start_block_height new = start_block_height s ->
  0 < nblocks new /\ start_block_height new + nblocks new < 2 ^ 64 /\ (is_filled new = true -> nblocks new = Z.of_nat (length (blocks new))) ->
  (forall h, h ∈ came -> h ∈ hashes new /\ is_filled new = true) -> wf (replace s new came q).
Proof.
  intros Hw Hin E Hn Hc. destruct (wf_erase_block s q Hw Hin) as [Hs Hsp Hr Hh]. pose proof (wf_span q Hw s Hin) as (H0 & _).
  cbn [spans requested_hashes have_blocks erase_block] in *.
  assert (forall x, x ∈ set_insert new (set_erase s (spans q)) <-> x ∈ set_erase s (spans q) \/ x = new) as Hel.
  { intros x. rewrite elem_of_set_insert, E, span_at_erase by done. tauto. }
  split; cbn [spans requested_hashes have_blocks replace].
  - by apply sorted_insert.
  - intros x [?| ->]%Hel; [by apply Hsp|]. split; [lia|done].
  - intros h [Hx|Hx]%elem_of_union; [destruct (Hr h Hx) as (x & ? & ?)|exists new; rewrite elem_of_list_to_set in Hx; rewrite Hel; by auto].
    exists x. rewrite Hel. auto.
  - intros h [Hx|Hx]%elem_of_union.
    + destruct (Hh h Hx) as (? & x & ? & ? & ?). split; [by apply elem_of_union_l|]. exists x. rewrite Hel. auto.
    + destruct (Hc h Hx) as [? ?]. split; [apply elem_of_union_r; by rewrite elem_of_list_to_set|]. exists new. rewrite Hel. auto.
Qed.

Lemma wf_set_span_hashes (h : Z) (c : uuid) (hs : list hash) (q : block_queue) : wf q -> wf (set_span_hashes h c hs q).
Proof.
  intros Hw. rewrite set_span_hashes_eq by apply Hw. destruct (span_at h (spans q)) as [s|] eqn:E; [|done]. case_bool_decide; [|done].
  apply span_at_iff in E as [Hin _]; [|apply Hw]. pose proof (wf_span q Hw s Hin) as (_ & ?).
  apply wf_replace; [done..|set_solver].
Qed.

Lemma wf_add_blocks (h : Z) (bcel : list entry) (c : uuid) (a : address) (r : rate_t) (sz : Z) (q : block_queue) :
  wf q -> bcel <> [] -> 0 <= h -> h + Z.of_nat (length bcel) < 2 ^ 64 -> wf (add_blocks h bcel c a r sz q).
Proof.
  intros Hw Hne H0 Hlt. assert (0 < Z.of_nat (length bcel)) by (destruct bcel; [done|simpl; lia]).
  assert (u64 (Z.of_nat (length bcel)) = Z.of_nat (length bcel)) as El by (apply u64_small; unfold in_u64; lia).
  rewrite add_blocks_eq by apply Hw. destruct (span_at h (spans q)) as [s|] eqn:E.
  - apply span_at_iff in E as [Hin <-]; [|apply Hw]. apply wf_replace; cbn; rewrite ?El; try done.
    intros x Hx. rewrite elem_of_list_to_set in Hx. split; [done|]. by destruct bcel.
  - apply wf_insert_span; cbn; rewrite ?El; done.
Qed.

Lemma wf_schedule (h n : Z) (c : uuid) (a : address) (t : ptime) (q q' : block_queue) :
  wf q -> 0 <= h -> h + n < 2 ^ 64 -> schedule_blocks h n c a t q = Val q' -> wf q'.
Proof.
  intros Hw H0 Hlt. unfold schedule_blocks, throw_unless. zcase; [|done]. run. intros [= <-]. by apply wf_insert_span.
Qed.

Lemma wf_reset_time (t : ptime) (q q' : block_queue) : wf q -> reset_next_span_time t q = Val q' -> wf q'.
Proof.
  intros [Hs Hsp Hr Hh]. unfold reset_next_span_time, throw_unless. destruct (spans q) as [|i l] eqn:E; [done|].
  destruct (is_filled i) eqn:Hf; [done|]. cbn [negb]. run. intros [= <-].
  assert (forall x, x ∈ i :: l -> exists y, y ∈ with_time t i :: l /\ hashes y = hashes x /\ is_filled y = is_filled x) as Hel.
  { intros x [->|?]%elem_of_cons; [exists (with_time t i); split_and!; [left|done..]|]. exists x. split; [by right|done]. }
  split; cbn [spans requested_hashes have_blocks].
  - apply StronglySorted_inv in Hs as [? ?]. by constructor.
  - intros s [->|?]%elem_of_cons; [apply (Hsp i); left|apply Hsp; by right].
  - intros h Hx. destruct (Hr h Hx) as (x & Hx' & ?). destruct (Hel x Hx') as (y & ? & E1 & _). exists y. by rewrite E1.
  - intros h Hx. destruct (Hh h Hx) as (? & x & Hx' & ? & ?). destruct (Hel x Hx') as (y & ? & E1 & E2). split; [done|]. exists y. by rewrite E1, E2.
Qed.

Lemma wf_remove_span (h : Z) (q : block_queue) : wf q -> wf (remove_span h q).2.
Proof.
  intros Hw. unfold remove_span. destruct (find _ _) as [s|] eqn:E; [|done]. apply elem_of_find in E as [Hin _]. by apply wf_erase_block.
Qed.

(** *** Reservations *)

Lemma skip_requested_spec (q : block_queue) (i : list (hash * Z)) (h : Z) :
  0 <= h -> h + Z.of_nat (length i) < 2 ^ 64 ->
  exists k, (k <= length i)%nat /\ skip_requested q i h = (drop k i, h + Z.of_nat k) /\
    (forall p, p ∈ take k i -> requested p.1 q = true) /\ (forall p, i !! k = Some p -> requested p.1 q = false).
Proof.
  revert h. induction i as [|p i IH]; intros h H0 Hlt; simpl.
  { exists 0%nat. split_and!; [lia|by rewrite Z.add_0_r|by intros ? ?%elem_of_nil|done]. }
  cbn [length] in Hlt. destruct (requested p.1 q) eqn:Hp.
  - rewrite u64_small by (unfold in_u64; lia). destruct (IH (h + 1)) as (k & ? & E & Ht & Hn); [lia..|].
    exists (S k). split_and!; [lia|rewrite E; simpl; f_equal; lia| |done]. intros x [->|?]%elem_of_cons; [done|by apply Ht].
  - exists 0%nat. split_and!; [lia|by rewrite Z.add_0_r|by intros ? ?%elem_of_nil|by intros ? [= <-]].
Qed.

(** Whether a block goes into a span. *)
Definition wanted (v : pruning_view) (first_is_pruned : bool) (height : Z) : bool :=
  if sync_pruned_blocks v then negb (Bool.eqb first_is_pruned (node_keeps v height)) else peer_has v height.

Lemma collect_spec (v : pruning_view) (fp : bool) (mb h : Z) (i : list (hash * Z)) (n : Z) :
  0 <= h -> 0 <= n <= mb -> h + n + Z.of_nat (length i) < 2 ^ 64 ->
  let hs := collect v fp mb h i n in let m := Z.of_nat (length hs) in
  hs = take (length hs) i.*1 /\ n + m <= mb /\
  (forall x, h + n <= x < h + n + m -> wanted v fp x = true) /\
  (m < Z.of_nat (length i) -> n + m < mb -> wanted v fp (h + n + m) = false).
Proof.
  cbv zeta. revert n. induction i as [|p i IH]; intros n H0 Hn Hlt; simpl; [split_and!; [done|lia..]|].
  cbn [length] in Hlt. rewrite u64_small by (unfold in_u64; lia).
  destruct ((n <? mb) && wanted v fp (h + n)) eqn:E.
  - apply andb_true_iff in E as [Hm Hw]. apply Z.ltb_lt in Hm. destruct (IH (n + 1)) as (E1 & E2 & E3 & E4); [lia..|].
    assert ((n <? mb) = true) as -> by lia. unfold wanted in Hw.
    assert (sync_pruned_blocks v || peer_has v (h + n) = true) as -> by (by destruct (sync_pruned_blocks v)).
    assert (sync_pruned_blocks v && Bool.eqb fp (node_keeps v (h + n)) = false) as ->.
    { destruct (sync_pruned_blocks v); [by apply negb_true_iff|done]. }
    fold (wanted v fp (h + n)) in Hw. cbn [andb length firstn take]. split_and!.
    + simpl. f_equal. done.
    + lia.
    + intros x Hx. destruct (Z.eq_dec x (h + n)) as [->|]; [done|]. apply E3. lia.
    + intros. rewrite <- E4 by lia. f_equal. lia.
  - assert ((if (n <? mb) && (sync_pruned_blocks v || peer_has v (h + n))
             then if sync_pruned_blocks v && Bool.eqb fp (node_keeps v (h + n)) then []
                  else p.1 :: collect v fp mb h i (n + 1) else []) = []) as ->.
    { unfold wanted in E. destruct (n <? mb), (sync_pruned_blocks v), (peer_has v (h + n)), (Bool.eqb fp (node_keeps v (h + n))); done. }
    cbn [length]. split_and!; [done|lia|lia|]. intros _ Hm. rewrite Z.add_0_r. assert ((n <? mb) = true) as Hb by lia. by rewrite Hb in E.
Qed.

Lemma ideal_start_ge (v : pruning_view) (h : Z) : h <= ideal_start v h.
Proof. unfold ideal_start. case_match; [lia|]. case_match eqn:E; [|lia]. apply andb_true_iff in E as [?%Z.ltb_lt _]. lia. Qed.

(** What [reserve_span] promises of the span that it chooses, with the height [base] of the
    first of the hashes. *)
Definition chosen (base last_block_height max_blocks : Z) (v : pruning_view) (block_hashes : list (hash * Z)) (q : block_queue)
    (s : Z) (hs : list hash) : Prop :=
  let n := Z.of_nat (length hs) in
  (base <= s /\ 0 < n <= max_blocks /\ s + n <= last_block_height + 1) /\
  (exists k, s = base + Z.of_nat k /\ hs = take (length hs) (drop k block_hashes.*1)) /\
  (exists h, head hs = Some h /\ requested h q = false) /\
  (forall x, s <= x < s + n -> if sync_pruned_blocks v then node_keeps v x = node_keeps v s else peer_has v x = true) /\
  (s + n <= last_block_height -> n < max_blocks ->
   if sync_pruned_blocks v then node_keeps v (s + n) <> node_keeps v s else peer_has v (s + n) = false).

Lemma choose_span_spec (first_h last_h mb : Z) (v : pruning_view) (bh : list (hash * Z)) (q : block_queue) (s : Z) (hs : list hash) :
  0 <= last_h < 2 ^ 64 - 1 -> 0 <= mb -> choose_span first_h last_h mb v bh q = Some (s, hs) ->
  first_h <= last_h /\ Z.of_nat (length bh) <= last_h /\ chosen (last_h - Z.of_nat (length bh) + 1) last_h mb v bh q s hs.
Proof.
  intros Hl Hm. unfold choose_span. set (count := Z.of_nat (length bh)).
  destruct (Z.ltb_spec last_h first_h); [done|]. destruct (Z.eqb_spec mb 0); [done|]. cbn [orb].
  destruct (Z.ltb_spec last_h count); [done|]. set (base := last_h - count + 1).
  assert (last_h ⊟ count ⊞ 1 = base) as -> by (rewrite (u64_small (last_h - count)), u64_small by (unfold in_u64; lia); done).
  destruct (skip_requested_spec q bh base) as (k & Hk & -> & _ & _); [lia..|]. pose proof (ideal_start_ge v (base + Z.of_nat k)) as Hi.
  set (s0 := ideal_start v (base + Z.of_nat k)) in *. rewrite (u64_small (count + base)) by (unfold in_u64; lia).
  destruct (Z.leb_spec (count + base) s0); [done|]. set (k0 := Z.to_nat (s0 - base)).
  assert (Z.of_nat (length (drop k0 bh)) = count + base - s0) as Hlen by (rewrite length_drop; lia).
  destruct (skip_requested_spec q (drop k0 bh) s0) as (k1 & Hk1 & -> & _ & Hn); [lia..|]. rewrite drop_drop.
  set (s1 := s0 + Z.of_nat k1). set (fp := sync_pruned_blocks v && negb (node_keeps v s1)).
  assert (Z.of_nat (length (drop (k0 + k1) bh)) = last_h + 1 - s1) as Hlen1 by (rewrite length_drop in *; lia).
  destruct (collect_spec v fp mb s1 (drop (k0 + k1) bh) 0) as (E1 & E2 & E3 & E4); [lia..|].
  set (c := collect v fp mb s1 (drop (k0 + k1) bh) 0) in *. destruct c as [|h0 c'] eqn:Ec; [done|]. intros [= <- <-].
  rewrite <- Ec in *. clearbody c. assert (0 < Z.of_nat (length c)) by (rewrite Ec; simpl; lia).
  assert (Z.of_nat (length c) <= last_h + 1 - s1) as Hc.
  { rewrite E1, length_take, length_fmap. lia. }
  split_and!; [lia..|]. unfold chosen. cbv zeta. split_and!; try lia.
  - exists (k0 + k1)%nat. split; [lia|]. by rewrite <- fmap_drop.
  - exists h0. rewrite Ec. split; [done|]. rewrite Ec in E1. destruct (drop (k0 + k1) bh) as [|p l] eqn:Ed; [done|].
    injection E1 as -> _. apply (Hn p). by rewrite lookup_drop, <- (Nat.add_0_r (k0 + k1)), <- lookup_drop, Ed.
  - intros x Hx. specialize (E3 x ltac:(lia)). pose proof (E3) as E3'. unfold wanted in E3. destruct (sync_pruned_blocks v); [|done].
    apply negb_true_iff, eqb_false_iff in E3. unfold fp in E3. cbn in E3. destruct (node_keeps v x), (node_keeps v s1); done.
  - intros Hs Hb. specialize (E4 ltac:(lia) ltac:(lia)). replace (s1 + 0 + Z.of_nat (length c)) with (s1 + Z.of_nat (length c)) in E4 by lia.
    unfold wanted in E4. destruct (sync_pruned_blocks v); [|done].
    apply negb_false_iff, eqb_prop in E4. unfold fp in E4. cbn in E4. rewrite <- E4. by destruct (node_keeps v s1).
Qed.

(** What it does to the queue. *)
Lemma reserve_effect (s : Z) (hs : list hash) (c : uuid) (a : address) (t : ptime) (q : block_queue) :
  sorted (spans q) -> let n := Z.of_nat (length hs) in
  set_span_hashes s c hs (insert_span (scheduled_span s n c a t) q) =
  match span_at s (spans q) with
  | None => BlockQueue (set_insert (with_hashes hs (scheduled_span s n c a t)) (spans q)) (requested_hashes q ∪ list_to_set hs) (have_blocks q)
  | Some _ => set_span_hashes s c hs q
  end.
Proof.
  intros Hs n. set (new := scheduled_span s n c a t). destruct (span_at s (spans q)) as [s0|] eqn:E.
  - f_equal. unfold insert_span. destruct q as [l r h]. cbn [spans requested_hashes have_blocks] in *. f_equal.
    apply span_at_iff in E as [Hin E]; [|done]. induction Hs as [|y l Hl IH Hy]; [by apply elem_of_nil in Hin|]. rewrite Forall_forall in Hy.
    simpl. unfold span_lt. cbn [new scheduled_span start_block_height]. apply elem_of_cons in Hin as [->|Hin].
    + rewrite E, Z.ltb_irrefl. done.
    + specialize (Hy _ Hin). rewrite (proj2 (Z.ltb_ge _ _)), (proj2 (Z.ltb_lt _ _)) by lia. f_equal. by apply IH.
  - rewrite set_span_hashes_eq by (by apply sorted_insert). cbn [spans insert_span].
    rewrite (proj2 (span_at_iff _ s new (sorted_insert new _ Hs))).
    2:{ split; [|done]. apply elem_of_set_insert; [done|]. by right. }
    rewrite bool_decide_true by done. unfold replace. cbn [spans insert_span requested_hashes have_blocks].
    rewrite erase_insert by done. cbn [hashes with_hashes new scheduled_span]. f_equal; set_solver.
Qed.

Lemma wf_reserve (s : Z) (hs : list hash) (c : uuid) (a : address) (t : ptime) (q : block_queue) :
  wf q -> 0 <= s -> 0 < Z.of_nat (length hs) -> s + Z.of_nat (length hs) < 2 ^ 64 ->
  wf (set_span_hashes s c hs (insert_span (scheduled_span s (Z.of_nat (length hs)) c a t) q)).
Proof. intros Hw H0 Hn Hlt. apply wf_set_span_hashes, wf_insert_span; done. Qed.

(** [reserve_span], once a span is chosen. *)
Lemma reserve_span_eq (first_h last_h mb : Z) (c : uuid) (a : address) (v : pruning_view) (bh : list (hash * Z)) (t : ptime)
    (q : block_queue) :
  0 <= last_h < 2 ^ 64 - 1 -> 0 <= mb ->
  reserve_span first_h last_h mb c a v bh t q =
  match choose_span first_h last_h mb v bh q with
  | None => Val ((0, 0), q)
  | Some (s, hs) =>
    Val ((s, Z.of_nat (length hs)), set_span_hashes s c hs (insert_span (scheduled_span s (Z.of_nat (length hs)) c a t) q))
  end.
Proof.
  intros Hl Hm. unfold reserve_span. destruct (choose_span _ _ _ _ _ _) as [[s hs]|] eqn:E; [|done].
  apply choose_span_spec in E as (_ & _ & (_ & ? & _) & _); [|done..]. unfold schedule_blocks, throw_unless.
  rewrite (proj2 (Z.ltb_lt _ _)) by lia. by do 2 run.
Qed.

(** *** Histories *)

(** The operations that change a queue.  The callers add blocks only to answer a request,
    so there are some, and heights are far from the end of the range. *)
Inductive step (q : block_queue) : block_queue -> Prop :=
  | step_add_blocks h bcel c a r sz :
      bcel <> [] -> 0 <= h -> h + Z.of_nat (length bcel) < 2 ^ 64 -> step q (add_blocks h bcel c a r sz q)
  | step_schedule h n c a t q' : 0 <= h -> h + n < 2 ^ 64 -> schedule_blocks h n c a t q = Val q' -> step q q'
  | step_flush c all : step q (flush_spans c all q)
  | step_flush_stale live : step q (flush_stale_spans live q)
  | step_remove_span h : step q (remove_span h q).2
  | step_remove_spans c h : step q (remove_spans c h q)
  | step_set_hashes h c hs : step q (set_span_hashes h c hs q)
  | step_reset_time t q' : reset_next_span_time t q = Val q' -> step q q'
  | step_reserve first_h last_h mb c a v bh t r q' :
      0 <= last_h < 2 ^ 64 - 1 -> 0 <= mb -> reserve_span first_h last_h mb c a v bh t q = Val (r, q') -> step q q'.

Lemma wf_step (q q' : block_queue) : wf q -> step q q' -> wf q'.
Proof.
  intros Hw [h bcel c a r sz|h n c a t q1 ? ? E|c all|live|h|c h|h c hs|t q1 E|first_h last_h mb c a v bh t r q1 Hl Hm E].
  - by apply wf_add_blocks.
  - by eapply wf_schedule.
  - by apply wf_erase_if.
  - by apply wf_erase_if.
  - by apply wf_remove_span.
  - by apply wf_erase_if.
  - by apply wf_set_span_hashes.
  - by eapply wf_reset_time.
  - rewrite reserve_span_eq in E by done. destruct (choose_span _ _ _ _ _ _) as [[s hs]|] eqn:Ec; injection E as <- <-; [|done].
    apply choose_span_spec in Ec as (_ & ? & (? & ? & ?) & _); [|done..]. apply wf_reserve; [done|lia..].
Qed.

(** No two spans share a hash. *)
Definition tidy (q : block_queue) : Prop :=
  forall s s' h, s ∈ spans q -> s' ∈ spans q -> h ∈ hashes s -> h ∈ hashes s' -> s = s'.

(** The hashes of all spans count as requested. *)
Definition exact (q : block_queue) : Prop := forall s h, s ∈ spans q -> h ∈ hashes s -> h ∈ requested_hashes q.

Lemma erase_block_exact (j : span) (q : block_queue) : j ∈ spans q -> tidy q -> exact q -> tidy (erase_block j q) /\ exact (erase_block j q).
Proof.
  intros Hj Ht He. split.
  - intros s s' h [Hs _]%elem_of_set_erase [Hs' _]%elem_of_set_erase. by apply Ht.
  - intros s h [Hs Hne]%elem_of_set_erase Hh. cbn. rewrite elem_of_difference, elem_of_list_to_set. split; [by eapply He|].
    intros Hhj. by rewrite (Ht s j h) in Hne.
Qed.

Lemma erase_if_exact (p : span -> bool) (q : block_queue) : sorted (spans q) -> tidy q -> exact q -> exact (erase_if p q).
Proof.
  intros Hs Ht He. apply (erase_if_ind (fun q => tidy q /\ exact q)); [done..|]. intros q' j _ Hj _ []. by apply erase_block_exact.
Qed.

Lemma replace_exact (s new : span) (came : gset hash) (q : block_queue) :
  sorted (spans q) -> s ∈ spans q -> tidy q -> exact q -> exact (replace s new came q).
Proof.
  intros Hs Hin Ht He x h Hx Hh. cbn [requested_hashes replace]. apply elem_of_union.
  apply elem_of_set_insert in Hx as [Hx|[-> _]]; [left|right; by rewrite elem_of_list_to_set|by apply sorted_erase].
  by apply (proj2 (erase_block_exact s q Hin Ht He) x h).
Qed.

Lemma insert_span_exact (s : span) (q : block_queue) :
  sorted (spans q) -> hashes s = [] -> tidy q -> exact q -> tidy (insert_span s q) /\ exact (insert_span s q).
Proof.
  intros Hs E Ht He.
  assert (forall x h, x ∈ spans (insert_span s q) -> h ∈ hashes x -> x ∈ spans q) as Hel.
  { intros x h [?|[-> _]]%elem_of_set_insert Hh; [done| |done]. rewrite E in Hh. by apply elem_of_nil in Hh. }
  split; [intros x y h Hx Hy Hhx Hhy; apply (Ht x y h)|intros x h Hx Hh; apply (He x h)]; eauto.
Qed.

Lemma set_hashes_exact (h : Z) (c : uuid) (hs : list hash) (q : block_queue) :
  sorted (spans q) -> tidy q -> exact q -> exact (set_span_hashes h c hs q).
Proof.
  intros Hs Ht He. rewrite set_span_hashes_eq by done. destruct (span_at h (spans q)) as [s|] eqn:E; [|done]. case_bool_decide; [|done].
  apply span_at_iff in E as [Hin _]; [|done]. by apply replace_exact.
Qed.

Lemma step_exact (q q' : block_queue) : wf q -> tidy q -> exact q -> step q q' -> exact q'.
Proof.
  intros Hw Ht He. pose proof (wf_sorted q Hw) as Hs.
  intros [h bcel c a r sz|h n c a t q1 ? ? E|c all|live|h|c h|h c hs|t q1 E|first_h last_h mb c a v bh t r q1 Hl Hm E].
  - rewrite add_blocks_eq by done. destruct (span_at h (spans q)) as [s|] eqn:E; [|by apply insert_span_exact].
    apply span_at_iff in E as [Hin _]; [|done]. by apply replace_exact.
  - unfold schedule_blocks, throw_unless in E. case_match; [|done]. rewrite bind_val in E. injection E as <-. by apply insert_span_exact.
  - by apply erase_if_exact.
  - by apply erase_if_exact.
  - unfold remove_span. destruct (find _ _) as [s|] eqn:E; [|done]. apply elem_of_find in E as [Hin _]. by apply erase_block_exact.
  - by apply erase_if_exact.
  - by apply set_hashes_exact.
  - unfold reset_next_span_time, throw_unless in E. destruct (spans q) as [|i l] eqn:El; [done|]. case_match; [|done].
    rewrite bind_val in E. injection E as <-. intros s h [->|?]%elem_of_cons; [apply (He i)|apply He]; rewrite El; [left|by right].
  - rewrite reserve_span_eq in E by done. destruct (choose_span _ _ _ _ _ _) as [[s hs]|]; injection E as <- <-; [|done].
    apply set_hashes_exact; [by apply sorted_insert|by apply insert_span_exact..].
Qed.

(** *** Heights *)

Lemma last_height_eq (q : block_queue) (s : span) : wf q -> s ∈ spans q -> last_height s = start_block_height s + nblocks s - 1.
Proof. intros Hw Hs. destruct (wf_span q Hw s Hs) as (? & ? & ? & _). unfold last_height. unfold_words. rewrite (Z.mod_small (_ + _)), Z.mod_small by lia. done. Qed.

(** The spans do not overlap. *)
Definition disjoint_spans (l : list span) : Prop :=
  forall s s', s ∈ l -> s' ∈ l -> start_block_height s < start_block_height s' -> start_block_height s + nblocks s <= start_block_height s'.

Lemma needed_loop_spec (bch lst : Z) (first : bool) (l : list span) :
  sorted l -> (forall s, s ∈ l -> last_height s = start_block_height s + nblocks s - 1 /\ 0 <= start_block_height s /\ 0 < nblocks s /\
    start_block_height s + nblocks s < 2 ^ 64) -> bch <= lst -> (first = true -> lst = bch) ->
  let r := needed_loop bch lst first l in
  lst <= r /\ (forall x, lst <= x < r -> exists s, s ∈ l /\ start_block_height s <= x < start_block_height s + nblocks s) /\
  (first = true -> lst < r -> exists s, s ∈ l /\ start_block_height s = lst /\ is_filled s = true) /\
  (disjoint_spans l -> (first = false -> forall s, s ∈ l -> lst <= start_block_height s) ->
   forall s, s ∈ l -> start_block_height s = r -> r = lst /\ first = true /\ is_filled s = false).
Proof.
  cbv zeta. intros Hl. revert lst first. induction Hl as [|s l Hl IH Hs]; intros lst first Hsp Hb Hf; simpl.
  { split_and!; [lia|lia|lia|]. by intros _ _ s ?%elem_of_nil. }
  rewrite Forall_forall in Hs. destruct (Hsp s) as (El & H0 & Hn & H64); [left|].
  assert (forall x, x ∈ l -> x ∈ s :: l) as Hin by (intros; by right). assert (disjoint_spans (s :: l) -> disjoint_spans l) as Hd.
  { intros Hd x y Hx Hy. apply Hd; auto. }
  destruct (Z.ltb_spec (last_height s) bch).
  - destruct (IH lst first) as (E1 & E2 & E3 & E4); [auto..|]. split_and!; [done| | |].
    + intros x Hx. destruct (E2 x Hx) as (y & ? & ?). eauto.
    + intros Hft Hlt. destruct (E3 Hft Hlt) as (y & ? & ?). eauto.
    + intros Hdj Hge x [->|Hx]%elem_of_cons Ex; [lia|]. apply E4; auto.
  - destruct (negb (start_block_height s =? lst) || first && negb (is_filled s)) eqn:E.
    + split_and!; [lia..|]. intros Hdj Hge x [->|Hx]%elem_of_cons Ex.
      * rewrite Ex, Z.eqb_refl in E. cbn in E. apply andb_true_iff in E as [? ?%negb_true_iff]. done.
      * specialize (Hs x Hx). pose proof (Hdj s x ltac:(left) (Hin x Hx) Hs). destruct first; [specialize (Hf eq_refl)|specialize (Hge eq_refl s ltac:(left))]; lia.
    + apply orb_false_iff in E as [Es%negb_false_iff%Z.eqb_eq Ef]. rewrite u64_small by (unfold in_u64; lia).
      destruct (IH (start_block_height s + nblocks s) false) as (E1 & E2 & _ & E4); [by auto|lia|done|]. split_and!; [lia| | |].
      * intros x Hx. destruct (Z.lt_ge_cases x (start_block_height s + nblocks s)) as [|Hx']; [exists s; split; [left|lia]|].
        destruct (E2 x ltac:(lia)) as (y & ? & ?). eauto.
      * intros -> _. exists s. split_and!; [left|done|]. by apply negb_false_iff.
      * intros Hdj _ x [->|Hx]%elem_of_cons Ex; [lia|].
        destruct (E4 (Hd Hdj)) with (s := x) as (? & ? & ?); [|done..]. intros _ y Hy. by apply Hdj; [left|auto|apply Hs].
Qed.

Lemma max_height_ge (q : block_queue) (s : span) : wf q -> s ∈ spans q -> start_block_height s + nblocks s - 1 <= get_max_block_height q.
Proof.
  intros Hw Hs. rewrite <- (last_height_eq q) by done. unfold get_max_block_height. generalize 0. revert Hs. clear Hw.
  assert (forall l a, a <= foldl (fun height s => if height <? last_height s then last_height s else height) a l) as Hle.
  { intros l. induction l as [|x l IH]; intros a; simpl; [lia|]. etrans; [|apply IH]. zcase; lia. }
  generalize (spans q). intros l. induction l as [|x l IH]; intros Hs a; [by apply elem_of_nil in Hs|]. simpl.
  apply elem_of_cons in Hs as [->|Hs]; [|by apply IH]. etrans; [|apply Hle]. zcase; lia.
Qed.

(** It is the last block of a span, or 0. *)
Lemma max_height_attained (q : block_queue) :
  wf q -> get_max_block_height q = 0 \/ exists s, s ∈ spans q /\ get_max_block_height q = start_block_height s + nblocks s - 1.
Proof.
  intros Hw. unfold get_max_block_height.
  assert (forall l a, let r := foldl (fun height s => if height <? last_height s then last_height s else height) a l in
            r = a \/ exists s, s ∈ l /\ r = last_height s) as Hat.
  { intros l. induction l as [|x l IH]; intros a; [by left|]. cbn [foldl].
    destruct (IH (if a <? last_height x then last_height x else a)) as [E|(s & Hs & E)]; cbv zeta; rewrite E.
    - destruct (a <? last_height x); [right; exists x; split; [left|done]|by left].
    - right. exists s. split; [by right|done]. }
  destruct (Hat (spans q) 0) as [|(s & Hs & E)]; [by left|right]. exists s. split; [done|]. by rewrite E, (last_height_eq q).
Qed.

(** The loop that adds the blocks of the queue to the chain takes the first span that has
    come, and with what it takes it removes that span. *)
Lemma next_span_removed (q : block_queue) (h : Z) (bcel : list entry) (c : uuid) (a : address) :
  wf q -> get_next_span true q = Some (h, bcel, c, a) ->
  bcel <> [] /\ (forall s, s ∈ spans q -> start_block_height s < h -> is_filled s = false) /\ span_at h (spans (remove_spans c h q)) = None.
Proof.
  intros Hw. pose proof (wf_sorted q Hw) as Hs. unfold get_next_span. destruct (find _ _) as [s|] eqn:E; [|done]. intros [= <- <- <- <-].
  apply find_some in E as HE. destruct HE as [Hin%list_elem_of_In Hf]. cbn in Hf. split_and!.
  - unfold is_filled in Hf. by destruct (blocks s).
  - clear -E Hs. intros x Hx Hlt. induction Hs as [|y l Hl IH Hy]; [done|]. simpl in E. rewrite Forall_forall in Hy. destruct (is_filled y) eqn:Ey.
    + injection E as ->. apply elem_of_cons in Hx as [->|Hx]; [lia|]. specialize (Hy x Hx). lia.
    + apply elem_of_cons in Hx as [->|Hx]; [done|by apply IH].
  - apply span_at_none. intros x [Hx Hp]%erase_if_spec Ex; [|done]. rewrite (sorted_unique (spans q) x s) in Hp by done.
    rewrite bool_decide_true in Hp by done. cbn in Hp. lia.
Qed.

(** After a flush of all spans of a connection it has none. *)
Lemma flushed_all (c : uuid) (q : block_queue) : wf q -> has_spans c (flush_spans c true q) = false.
Proof.
  intros Hw. apply not_true_iff_false. unfold has_spans. rewrite existsb_exists. intros (s & Hin%list_elem_of_In & Hc).
  apply erase_if_spec in Hin as [_ Hp]; [|apply Hw]. by rewrite Hc in Hp.
Qed.

(** The time of the next span is only reset after [get_next_span_if_scheduled] has returned
    it, so the checks hold. *)
Lemma reset_after_scheduled (t t0 : ptime) (q : block_queue) (hs : list hash) (c : uuid) (h n : Z) :
  get_next_span_if_scheduled q = Some (hs, c, t0, (h, n)) ->
  exists q', reset_next_span_time t q = Val q' /\ get_next_span_if_scheduled q' = Some (hs, c, t, (h, n)).
Proof.
  unfold get_next_span_if_scheduled, reset_next_span_time, throw_unless. destruct (spans q) as [|i l]; [done|].
  destruct (is_filled i) eqn:E; [done|]. intros [= <- <- <- <- <-]. cbn [negb]. run. eexists. split; [done|]. cbn [spans].
  change (is_filled (with_time t i)) with (is_filled i). by rewrite E.
Qed.

(** ** Theorems *)

(** C24. Whatever operations have been performed on the queue, it is in order and its two sets of
    hashes are about blocks that are in it; [get_max_block_height] is the greatest of the
    last heights of the spans, or 0; from the height of the chain up to [get_next_needed_height] every
    block is in the queue and the first of them has come, and when the spans do not overlap
    no span starts there, but for one that is still to come at the height of the chain;
    and the loop that empties the queue into the chain never takes a span without blocks,
    takes the first that has come and then removes it. *)
Theorem queue_reachable (q : block_queue) :
  rtc step empty_queue q ->
  wf q /\
  (forall s, s ∈ spans q -> start_block_height s + nblocks s - 1 <= get_max_block_height q) /\
  (get_max_block_height q = 0 \/ exists s, s ∈ spans q /\ get_max_block_height q = start_block_height s + nblocks s - 1) /\
  (forall chain_height, let r := get_next_needed_height chain_height q in
     chain_height <= r /\
     (forall x, chain_height <= x < r -> exists s, s ∈ spans q /\ start_block_height s <= x < start_block_height s + nblocks s) /\
     (chain_height < r -> exists s, span_at chain_height (spans q) = Some s /\ is_filled s = true) /\
     (disjoint_spans (spans q) -> forall s, span_at r (spans q) = Some s -> r = chain_height /\ is_filled s = false)) /\
  (forall h bcel c a, get_next_span true q = Some (h, bcel, c, a) ->
     bcel <> [] /\ (forall s, s ∈ spans q -> start_block_height s < h -> is_filled s = false) /\
     span_at h (spans (remove_spans c h q)) = None).
Proof.
  intros Hr. assert (wf q) as Hw.
  { revert q Hr. apply rtc_ind_r; [apply wf_empty|]. intros q1 q2 _ Hstep Hw. by apply (wf_step q1). }
  pose proof (wf_sorted q Hw) as Hs. split_and!; [done|by intros; apply max_height_ge|by apply max_height_attained| |by intros; eapply next_span_removed].
  intros bch. cbv zeta. destruct (needed_loop_spec bch bch true (spans q) Hs) as (E1 & E2 & E3 & E4); [|lia|done|].
  { intros s Hin. destruct (wf_span q Hw s Hin) as (? & ? & ? & _). by rewrite (last_height_eq q). }
  split_and!; [done|done| |].
  - intros Hlt. destruct (E3 eq_refl Hlt) as (s & ? & ? & ?). exists s. by rewrite span_at_iff.
  - intros Hd s [Hin Es]%span_at_iff; [|done]. by destruct (E4 Hd ltac:(done) s Hin Es) as (? & _ & ?).
Qed.

(** As long as no two spans have shared a hash, exactly the hashes of the spans in the queue
    count as requested. *)
Theorem requests_tracked (q : block_queue) :
  rtc (fun q q' => tidy q /\ step q q') empty_queue q ->
  forall h, requested h q = true <-> exists s, s ∈ spans q /\ h ∈ hashes s.
Proof.
  intros Hr. assert (wf q /\ exact q) as [Hw He].
  { revert q Hr. apply rtc_ind_r.
    - split; [apply wf_empty|]. intros s h Hs. by apply elem_of_nil in Hs.
    - intros q1 q2 _ [Ht Hstep] [Hw He]. split; [by apply (wf_step q1)|by apply (step_exact q1)]. }
  intros h. unfold requested. rewrite bool_decide_eq_true. split; [apply (wf_requested q Hw)|]. intros (s & Hs & Hh). by apply (He s).
Qed.

(** C23. [reserve_span] always returns.  Either it reserves nothing, and the queue stays as it is,
    or the span it returns lies within the heights of the given hashes, has at most
    [max_blocks] blocks and starts with a block that was not requested; the peer has all of
    its blocks, or, when pruned blocks are asked for, the node will keep all of them or none;
    it could only be longer with another limit or more hashes.  When no span starts at its
    height, it is put there with its hashes, which count as requested from then on; when
    another connection has one there, the queue stays as it is. *)
Theorem reserve_span_correct (first_h last_h max_blocks : Z) (conn : uuid) (addr : address) (v : pruning_view)
    (block_hashes : list (hash * Z)) (t : ptime) (q : block_queue) :
  wf q -> 0 <= last_h < 2 ^ 64 - 1 -> 0 <= max_blocks ->
  exists r q', reserve_span first_h last_h max_blocks conn addr v block_hashes t q = Val (r, q') /\ wf q' /\
    ((r = (0, 0) /\ q' = q) \/
     exists s hs, r = (s, Z.of_nat (length hs)) /\
       chosen (last_h - Z.of_nat (length block_hashes) + 1) last_h max_blocks v block_hashes q s hs /\
       match span_at s (spans q) with
       | None =>
         (forall x, span_at x (spans q') = if x =? s then Some (Span s hs [] conn (Z.of_nat (length hs)) no_rate 0 t addr)
                                           else span_at x (spans q)) /\
         (forall h, requested h q' = requested h q || bool_decide (h ∈ hs))
       | Some s0 => connection_id s0 <> conn -> q' = q
       end).
Proof.
  intros Hw Hl Hm. pose proof (wf_sorted q Hw) as Hs. rewrite reserve_span_eq by done.
  destruct (choose_span _ _ _ _ _ _) as [[s hs]|] eqn:E; [|eexists _, _; split; [done|]; split; [done|by left]].
  apply choose_span_spec in E as (_ & Hc & Hch); [|done..]. pose proof Hch as ((? & ? & ?) & _).
  eexists _, _. split; [done|]. split; [apply wf_reserve; [done|lia..]|]. right. exists s, hs. split; [done|]. split; [done|].
  rewrite reserve_effect by done. destruct (span_at s (spans q)) as [s0|] eqn:Es.
  - intros Hne. rewrite set_span_hashes_eq, Es by done. by rewrite bool_decide_false.
  - set (new := with_hashes hs _). change (Span s hs [] conn (Z.of_nat (length hs)) no_rate 0 t addr) with new. split.
    + intros x. apply option_eq. intros y. cbn [spans]. pose proof (sorted_insert new _ Hs).
      rewrite span_at_iff, elem_of_set_insert by done. change (start_block_height new) with s. rewrite span_at_none in Es. rewrite span_at_none.
      destruct (Z.eqb_spec x s) as [->|Hx]; [|rewrite span_at_iff by done]; split.
      * intros [[Hy|[-> _]] Hys]; [by destruct (Es y Hy)|done].
      * intros [= <-]. auto.
      * intros [[Hy|[-> _]] Hys]; [done|by destruct Hx].
      * intros [Hy Hys]. auto.
    + intros h. unfold requested. cbn [requested_hashes]. apply eq_bool_prop_intro. rewrite orb_True, !bool_decide_spec, elem_of_union, elem_of_list_to_set. done.
Qed.

(** The span starts at the first block of the list that was not requested, whenever pruned
    blocks are asked for or the peer has that block; so the blocks of an unpruned peer are
    all reserved in the end. *)
Theorem reserve_span_progress (first_h last_h max_blocks : Z) (v : pruning_view) (block_hashes : list (hash * Z))
    (q : block_queue) (k : nat) (p : hash * Z) :
  first_h <= last_h <= CRYPTONOTE_MAX_BLOCK_NUMBER -> 0 <= blockchain_height v <= CRYPTONOTE_MAX_BLOCK_NUMBER + 1 ->
  0 < max_blocks -> Z.of_nat (length block_hashes) <= last_h -> valid_seed (pruning_seed v) ->
  block_hashes !! k = Some p -> requested p.1 q = false -> (forall p', p' ∈ take k block_hashes -> requested p'.1 q = true) ->
  let s := last_h - Z.of_nat (length block_hashes) + 1 + Z.of_nat k in
  sync_pruned_blocks v = true \/ peer_has v s = true ->
  exists hs, choose_span first_h last_h max_blocks v block_hashes q = Some (s, hs).
Proof.
  intros Hl Hbc Hm Hc Hv Hk Hp Ht s Hs. unfold CRYPTONOTE_MAX_BLOCK_NUMBER in *. unfold choose_span. set (count := Z.of_nat (length block_hashes)) in *.
  pose proof (lookup_lt_Some _ _ _ Hk) as Hkl.
  rewrite (proj2 (Z.ltb_ge last_h first_h)), (proj2 (Z.eqb_neq _ _)), (proj2 (Z.ltb_ge last_h count)) by lia. cbn [orb].
  set (base := last_h - count + 1) in *.
  assert (last_h ⊟ count ⊞ 1 = base) as -> by (rewrite (u64_small (last_h - count)), u64_small by (unfold in_u64; lia); done).
  assert (skip_requested q block_hashes base = (drop k block_hashes, s)) as ->.
  { destruct (skip_requested_spec q block_hashes base) as (k' & Hk' & -> & Ht' & Hn'); [lia..|]. assert (k' = k) as ->; [|done].
    destruct (lt_eq_lt_dec k k') as [[Hlt| ->]|Hlt]; [|done|].
    - rewrite (Ht' p) in Hp; [done|]. apply list_elem_of_lookup_2 with k. by rewrite lookup_take_lt.
    - destruct (lookup_lt_is_Some_2 block_hashes k') as [p' Hp']; [lia|]. specialize (Hn' p' Hp'). rewrite Ht in Hn'; [done|].
      apply list_elem_of_lookup_2 with k'. by rewrite lookup_take_lt. }
  assert (ideal_start v s = s) as ->.
  { unfold ideal_start. destruct Hs as [->|Hs]; [done|]. case_match; [done|].
    destruct (next_unpruned_least s (blockchain_height v) (pruning_seed v)) as (H1 & _ & H3); unfold CRYPTONOTE_MAX_BLOCK_NUMBER; [done|lia..|].
    destruct (Z.eq_dec (get_next_unpruned_block_height s (blockchain_height v) (pruning_seed v)) s) as [->|Hne].
    - unfold u32. rewrite Z.mod_small, Z.ltb_irrefl by lia. done.
    - unfold peer_has in Hs. rewrite H3 in Hs by lia. done. }
  rewrite (u64_small (count + base)), (proj2 (Z.leb_gt _ _)) by (unfold in_u64; lia). replace (Z.to_nat (s - base)) with k by lia.
  rewrite (drop_S _ _ _ Hk). simpl. rewrite Hp. simpl. rewrite Z.add_0_r, u64_small by (unfold in_u64; lia).
  rewrite (proj2 (Z.ltb_lt 0 max_blocks)) by lia. cbn [andb].
  assert (sync_pruned_blocks v || peer_has v s = true) as -> by (destruct Hs as [->| ->]; [done|apply orb_true_r]).
  destruct (sync_pruned_blocks v); cbn [andb]; [|by eexists]. destruct (node_keeps v s); cbn; by eexists.
Qed.
End BlockQueue.

(** ** Examples and witnesses *)

(** Hashes, entries, connections and the rest are numbers. *)
Definition queue : Type := @block_queue Z Z Z Z Z Z _ _.

(** Spans of a start, a number of blocks and a connection. *)
Fixpoint schedule_all (l : list (Z * Z * Z)) (q : queue) : outcome queue :=
  match l with
  | [] => Val q
  | (h, n, c) :: l' => q ← schedule_blocks 0 h n c 0 0 q; schedule_all l' q
  end.

(** The unit tests of src/tests/unit_tests/block_queue.cpp, with 1 and 2 for the connections. *)
Example add_stepwise :
  (q1 ← schedule_all [(0, 200, 1)] empty_queue; q2 ← schedule_all [(200, 200, 1)] q1;
   q3 ← schedule_all [(401, 200, 1)] q2; q4 ← schedule_all [(400, 10, 1)] q3;
   Val (get_max_block_height <$> [empty_queue; q1; q2; q3; q4])) = Val [0; 199; 399; 600; 600].
Proof. vm_compute. reflexivity. Qed.

Example flush_uuid :
  (q ← schedule_all [(0, 200, 1); (200, 200, 2)] empty_queue; q' ← schedule_all [(0, 200, 1)] (flush_spans 1 false q);
   Val (get_max_block_height <$> [q; flush_spans 2 false q; flush_spans 1 false (flush_spans 2 false q); flush_spans 1 false q; q']))
  = Val [399; 199; 0; 399; 399].
Proof. vm_compute. reflexivity. Qed.

(** Hashes for the blocks from a height on. *)
Definition hashes_from (h : Z) (n : nat) : list (Z * Z) := (fun k => (10000 + h + Z.of_nat k, 0)) <$> seq 0 n.

(** A request by an unpruned peer for at most four of the blocks from a height to another. *)
Definition request (first_h last_h conn : Z) (q : queue) : outcome ((Z * Z) * queue) :=
  reserve_span 0 first_h last_h 4 conn 0 (PruningView false 0 0 100) (hashes_from first_h (Z.to_nat (last_h - first_h + 1))) 0 q.

(** Only what is requested at the front of the list is skipped.  When the span before one
    that is under way is flushed, the next reservation asks for the blocks of both; and when
    that one is flushed in turn, blocks that are still under way do not count as requested. *)
Example requested_twice :
  ('(r1, q1) ← request 3 4 1 empty_queue; '(r2, q2) ← request 3 10 2 q1; '(r3, q3) ← request 3 10 3 (flush_spans 1 false q2);
   let q4 := flush_spans 3 false q3 in
   Val ([r1; r2; r3], hashes <$> spans q3, hashes <$> spans q4, (fun h => requested h q4) <$> [10005; 10006; 10007; 10008]))
  = Val ([(3, 2); (5, 4); (3, 4)], [[10003; 10004; 10005; 10006]; [10005; 10006; 10007; 10008]],
         [[10005; 10006; 10007; 10008]], [false; false; true; true]).
Proof. vm_compute. reflexivity. Qed.

(** The peer with this seed has the blocks from 8192 on. *)
Lemma reserve_span_correct_witness :
  exists q', reserve_span 0 8188 8197 4 7 0 (PruningView false 0 258 100000) (hashes_from 8188 10) 0 (empty_queue : queue) = Val ((8192, 4), q')
    /\ wf q'.
Proof.
  destruct (reserve_span_correct 0 8188 8197 4 7 0 (PruningView false 0 258 100000) (hashes_from 8188 10) 0 (empty_queue : queue))
    as (r & q' & E & Hw & _); [apply wf_empty|lia|lia|].
  exists q'. split; [|exact Hw]. rewrite E. apply (f_equal (fun o => match o with Val (r, _) => r | _ => (0, 0) end)) in E.
  vm_compute in E. by rewrite <- E.
Defined.

Lemma reserve_span_progress_witness :
  exists hs, choose_span 3 10 4 (PruningView false 0 0 100) (hashes_from 3 8) (empty_queue : queue) = Some (3, hs).
Proof.
  apply (reserve_span_progress 3 10 4 (PruningView false 0 0 100) (hashes_from 3 8) (empty_queue : queue) 0 (10003, 0));
    [vm_compute; intuition congruence..|by left|reflexivity|reflexivity|by intros ? ?%elem_of_nil|right; reflexivity].
Defined.

(** The blocks 5 to 8 have come for the span that was scheduled there. *)
Definition example_queue : queue :=
  add_blocks 0 5 [1; 2; 3; 4] 2 0 100 400 (insert_span (scheduled_span 0 5 4 1 0 0) empty_queue).

Lemma queue_reachable_witness : wf example_queue /\ 8 <= get_max_block_height example_queue.
Proof.
  destruct (queue_reachable 0 0 example_queue) as (Hw & Hm & _); [|split; [exact Hw|]].
  - eapply rtc_l; [by apply (step_schedule 0 0 empty_queue 5 4 1 0 0)|]. apply rtc_once. by apply step_add_blocks.
  - apply (Hm (filled_span 0 5 [1; 2; 3; 4] 2 0 100 400)). vm_compute. left.
Defined.
