(* ===== verification/Mnemonics.v ===== *)
(** * Mnemonic seeds

    src/src/mnemonics/electrum-words.cpp and language_base.h, with utf8canonical of
    src/src/common/utf8.h and split of src/contrib/epee/src/wipeable_string.cpp: a key as
    words of a language, three for four bytes, and a checksum word; and back.  Strings are
    lists of bytes.  [towlower] of the C library and the CRC-32 of Boost are arguments. *)

From S2P Require Import Prelude.
From stdpp Require Import gmap.

#[local] Open Scope Z_scope.

Abbreviation word := (list Z).

(** ** Strings *)

(** [std::isspace]. *)
Definition isspace (c : Z) : bool := ((9 <=? c) && (c <=? 13)) || (c =? 32).

(** [fields.back().push_back(c)]. *)
Fixpoint append_last (fields : list word) (c : Z) : list word :=
  match fields with
  | [] => []
  | [w] => [w ++ [c]]
  | w :: fields => w :: append_last fields c
  end.

Fixpoint split_loop (s : list Z) (space : bool) (fields : list word) : list word :=
  match s with
  | [] => fields
  | c :: s =>
      let space_prev := space in
      let space := isspace c in
      if space then split_loop s space fields
      else split_loop s space (if space_prev then fields ++ [[c]] else append_last fields c)
  end.

Definition split (s : list Z) : list word := split_loop s true [].

(** A byte after the first one of a character. *)
Definition continues (c : Z) : bool := Z.land c 0xc0 =? 0x80.

(** The first [count] characters; [inside] when the first byte of one has been taken. *)
Fixpoint prefix_loop (s : word) (count : nat) (inside : bool) : word :=
  match s with
  | [] => []
  | c :: s =>
      if inside && continues c then c :: prefix_loop s count true
      else match count with
           | O => []
           | S count => c :: prefix_loop s count true
           end
  end.

Definition utf8prefix (s : word) (count : Z) : word := prefix_loop s (Z.to_nat count) false.

(** The code point at the start of the string, and what follows it. *)
Definition read_char (s : word) : outcome (Z * word) :=
  match s with
  | c :: s =>
      if Z.land c 0x80 =? 0 then Val (c, s)
      else if Z.land c 0xe0 =? 0xc0 then
        match s with
        | c1 :: s => Val (Z.lor (Z.shiftl (Z.land c 0x1f) 6) (Z.land c1 0x3f), s)
        | _ => Throw
        end
      else if Z.land c 0xf0 =? 0xe0 then
        match s with
        | c1 :: c2 :: s =>
            Val (Z.lor (Z.lor (Z.shiftl (Z.land c 0xf) 12) (Z.shiftl (Z.land c1 0x3f) 6)) (Z.land c2 0x3f), s)
        | _ => Throw
        end
      else if Z.land c 0xf8 =? 0xf0 then
        match s with
        | c1 :: c2 :: c3 :: s =>
            Val (Z.lor (Z.lor (Z.lor (Z.shiftl (Z.land c 0x7) 18) (Z.shiftl (Z.land c1 0x3f) 12))
                              (Z.shiftl (Z.land c2 0x3f) 6)) (Z.land c3 0x3f), s)
        | _ => Throw
        end
      else Throw
  | [] => Throw
  end.

(** The bytes of a code point. *)
Definition write_char (cp : Z) : outcome word :=
  if cp <=? 0x7f then Val [u8 cp]
  else if cp <=? 0x7ff then Val [u8 (Z.lor 0xc0 (Z.shiftr cp 6)); u8 (Z.lor 0x80 (Z.land cp 0x3f))]
  else if cp <=? 0xffff then
    Val [u8 (Z.lor 0xe0 (Z.shiftr cp 12)); u8 (Z.lor 0x80 (Z.land (Z.shiftr cp 6) 0x3f)); u8 (Z.lor 0x80 (Z.land cp 0x3f))]
  else if cp <=? 0x10ffff then
    Val [u8 (Z.lor 0xf0 (Z.shiftr cp 18)); u8 (Z.lor 0x80 (Z.land (Z.shiftr cp 12) 0x3f));
         u8 (Z.lor 0x80 (Z.land (Z.shiftr cp 6) 0x3f)); u8 (Z.lor 0x80 (Z.land cp 0x3f))]
  else Throw.

(** [utf8canonical], a character a round. *)
Fixpoint canonical_loop (fuel : nat) (t : Z -> Z) (s : word) : outcome word :=
  match s with
  | [] => Val []
  | _ =>
      match fuel with
      | O => Diverge
      | S fuel =>
          '(cp, s) ← read_char s;
          b ← write_char (t cp);
          sc ← canonical_loop fuel t s;
          Val (b ++ sc)
      end
  end.

Definition utf8canonical (t : Z -> Z) (s : word) : outcome word := canonical_loop (length s) t s.

(** ** Words and numbers *)

Definition NWORDS : Z := 1626.

(** The three indices of a number in a list of [n] words. *)
Definition number_to_words (n w0 : Z) : Z * Z * Z :=
  let w1 := w0 mod n in
  let w2 := u32 (w0 / n + w1) mod n in
  let w3 := u32 (w0 / n / n + w2) mod n in
  (w1, w2, w3).

(** The number of three indices, if they are of one. *)
Definition words_to_number (n w1 w2 w3 : Z) : option Z :=
  let w0 := u32 (w1 + n * (u32 (n - w1 + w2) mod n) + n * n * (u32 (n - w2 + w3) mod n)) in
  if w0 mod n =? w1 then Some w0 else None.

(** ** Languages *)

Definition ALLOW_SHORT_WORDS : Z := 1.
Definition ALLOW_DUPLICATE_PREFIXES : Z := 2.

(** A map from words: under the canonical word, the key that was inserted and the index. *)
Abbreviation index_map := (gmap word (word * Z)).

Record Base := {
  language_name : word;
  english_language_name : word;
  word_list : list word;
  unique_prefix_length : Z;
  word_map : index_map;
  trimmed_word_map : index_map;
}.

Section mnemonics.
Context (towlower : Z -> Z) (crc32 : list Z -> Z).

(** What [WordHash] and [WordEqual] compare. *)
Definition canonical (s : word) : outcome word := utf8canonical towlower s.

Definition WordEqual (s0 s1 : word) : outcome bool :=
  s0c ← canonical s0;
  s1c ← canonical s1;
  Val (bool_decide (s0c = s1c)).

(** [m.find(w)]. *)
Definition map_find (m : index_map) (w : word) : outcome (option (word * Z)) :=
  c ← canonical w;
  Val (m !! c).

(** [m[w] = ii], which keeps the key that is there. *)
Definition map_set (m : index_map) (w : word) (ii : Z) : outcome index_map :=
  c ← canonical w;
  Val (<[c := (from_option fst w (m !! c), ii)]> m).

Definition trim (p : Z) (w : word) : word := if p <? Z.of_nat (length w) then utf8prefix w p else w.

Fixpoint populate_loop (flags p : Z) (ws : list word) (ii : Z) (wm tm : index_map) : outcome (index_map * index_map) :=
  match ws with
  | [] => Val (wm, tm)
  | w :: ws =>
      wm ← map_set wm w ii;
      _ ← throw_unless (negb (Z.of_nat (length w) <? p) || negb (Z.land flags ALLOW_SHORT_WORDS =? 0));
      let trimmed := trim p w in
      found ← map_find tm trimmed;
      _ ← throw_unless (bool_decide (found = None) || negb (Z.land flags ALLOW_DUPLICATE_PREFIXES =? 0));
      tm ← map_set tm trimmed ii;
      populate_loop flags p ws (ii + 1) wm tm
  end.

(** A language with its words: [set_words] and [populate_maps]. *)
Definition make_language (name english_name : word) (p flags : Z) (words : list word) : outcome Base :=
  _ ← throw_unless (Z.of_nat (length words) =? NWORDS);
  '(wm, tm) ← populate_loop flags p words 0 ∅ ∅;
  Val {| language_name := name; english_language_name := english_name; word_list := words;
         unique_prefix_length := p; word_map := wm; trimmed_word_map := tm |}.

(** ** Checksum *)

Fixpoint trimmed_words (language : Base) (words : list word) : outcome (list Z) :=
  match words with
  | [] => Val []
  | w :: words =>
      it ← map_find (trimmed_word_map language) (utf8prefix w (unique_prefix_length language));
      match it with
      | None => Throw
      | Some (key, _) =>
          rest ← trimmed_words language words;
          Val (key ++ rest)
      end
  end.

(** The remainder by 0, for no words, is undefined. *)
Definition create_checksum_index (words : list word) (language : Base) : outcome Z :=
  trimmed ← trimmed_words language words;
  if Z.of_nat (length words) =? 0 then Undef else Val (crc32 trimmed mod Z.of_nat (length words)).

(** [pop_back], with the last element. *)
Definition pop_back {A} (l : list A) : option (list A * A) :=
  match last l with
  | None => None
  | Some x => Some (take (length l - 1) l, x)
  end.

Definition checksum_test (seed : list word) (language : Base) : outcome bool :=
  match pop_back seed with
  | None => Val false
  | Some (seed, last_word) =>
      idx ← create_checksum_index seed language;
      checksum ← c_index seed idx;
      WordEqual (trim (unique_prefix_length language) checksum) (trim (unique_prefix_length language) last_word)
  end.

(** ** Languages of a seed *)

(** A word by its prefix, or whole if there is no checksum. *)
Definition find_word (has_checksum : bool) (language : Base) (w : word) : outcome (option (word * Z)) :=
  if has_checksum then map_find (trimmed_word_map language) (utf8prefix w (unique_prefix_length language))
  else map_find (word_map language) w.

(** The indices of the words in a language, [None] if one is not in it. *)
Fixpoint match_words (has_checksum : bool) (language : Base) (seed : list word) : outcome (option (list Z)) :=
  match seed with
  | [] => Val (Some [])
  | w :: seed =>
      found ← find_word has_checksum language w;
      match found with
      | None => Val None
      | Some (_, i) =>
          rest ← match_words has_checksum language seed;
          Val (option_map (cons i) rest)
      end
  end.

(** What the loop does at a language. *)
Inductive match_result := No_match | Bad_checksum | Full_match (matched_indices : list Z).

Definition match_language (seed : list word) (has_checksum : bool) (language : Base) : outcome match_result :=
  matched ← match_words has_checksum language seed;
  match matched with
  | None => Val No_match
  | Some indices =>
      if has_checksum then
        ok ← checksum_test seed language;
        Val (if ok : bool then Full_match indices else Bad_checksum)
      else Val (Full_match indices)
  end.

(** The indices are cleared before a fallback is taken. *)
Fixpoint find_loop (seed : list word) (has_checksum : bool) (languages : list Base) (fallback : option Base) :
    outcome (option (Base * list Z)) :=
  match languages with
  | [] => Val (option_map (fun l => (l, [])) fallback)
  | l :: languages =>
      r ← match_language seed has_checksum l;
      match r with
      | Full_match indices => Val (Some (l, indices))
      | Bad_checksum => find_loop seed has_checksum languages (Some l)
      | No_match => find_loop seed has_checksum languages fallback
      end
  end.

Definition find_seed_language (languages : list Base) (seed : list word) (has_checksum : bool) :
    outcome (option (Base * list Z)) :=
  find_loop seed has_checksum languages None.

(** ** Words to bytes *)

(** The loop over [n] triples from [i] on: [None] for three words that are of no number. *)
Fixpoint triples_loop (n : nat) (i : Z) (word_list_length : Z) (matched_indices : list Z) (dst : list Z) : outcome (option (list Z)) :=
  match n with
  | O => Val (Some dst)
  | S n =>
      w1 ← c_index matched_indices (i * 3);
      w2 ← c_index matched_indices (i * 3 + 1);
      w3 ← c_index matched_indices (i * 3 + 2);
      match words_to_number word_list_length w1 w2 w3 with
      | None => Val None
      | Some w0 => triples_loop n (i + 1) word_list_length matched_indices (dst ++ write_le32 w0)
      end
  end.

(** Whether the number of words is one of those for [len] bytes, and whether there is a checksum. *)
Definition check_count (len size : Z) : option bool :=
  if len =? 0 then Some true
  else
    let expected := len * 8 * 3 / 32 in
    if (size =? expected / 2) || (size =? expected) || (size =? expected + 1) then Some (size =? expected + 1) else None.

(** The seed without its checksum word, or [None] if the checksum does not fit. *)
Definition strip_checksum (has_checksum : bool) (seed : list word) (language : Base) : outcome (option (list word)) :=
  if has_checksum then
    ok ← checksum_test seed language;
    Val (if ok : bool then option_map fst (pop_back seed) else None)
  else Val (Some seed).

(** [words_to_bytes] into [dst] with its language, [None] for the result false; [len] is of
    64 bits and so small that its multiples are too. *)
Definition words_to_bytes (languages : list Base) (words : list Z) (dst : list Z) (len : Z) (duplicate : bool) :
    outcome (option (list Z * word)) :=
  let seed := split words in
  if negb (len mod 4 =? 0) then Val None
  else
    match check_count len (Z.of_nat (length seed)) with
    | None => Val None
    | Some has_checksum =>
        found ← find_seed_language languages seed has_checksum;
        match found with
        | None => Val None
        | Some (language, matched_indices) =>
            let word_list_length := Z.of_nat (length (word_list language)) in
            stripped ← strip_checksum has_checksum seed language;
            match stripped with
            | None => Val None
            | Some seed =>
                bytes ← triples_loop (length seed / 3) 0 word_list_length matched_indices dst;
                match bytes with
                | None => Val None
                | Some dst =>
                    if (0 <? len) && duplicate && (Z.of_nat (length seed) =? len * 3 / 32 / 2)
                    then Val (Some (dst ++ dst, language_name language))
                    else Val (Some (dst, language_name language))
                end
            end
        end
    end.

(** The overload for a secret key, of 32 bytes. *)
Definition words_to_key (languages : list Base) (words : list Z) : outcome (option (list Z * word)) :=
  r ← words_to_bytes languages words [] 32 true;
  match r with
  | None => Val None
  | Some (s, name) => if negb (Z.of_nat (length s) =? 32) then Val None else Val (Some (s, name))
  end.

(** ** Bytes to words *)

(** The last language of the list with the name. *)
Fixpoint find_name (name : word) (languages : list Base) (language : option Base) : option Base :=
  match languages with
  | [] => language
  | l :: languages =>
      find_name name languages
        (if bool_decide (name = language_name l) || bool_decide (name = english_language_name l) then Some l else language)
  end.

(** The loop over [n] numbers from [i] on: the words and the string so far. *)
Fixpoint bytes_loop (n : nat) (i : Z) (src : list Z) (word_list : list word) (words_store : list word) (words : list Z) :
    outcome (list word * list Z) :=
  match n with
  | O => Val (words_store, words)
  | S n =>
      let w0 := read_le32 (drop (Z.to_nat (i * 4)) src) in
      let '(w1, w2, w3) := number_to_words (Z.of_nat (length word_list)) w0 in
      a ← c_index word_list w1;
      b ← c_index word_list w2;
      c ← c_index word_list w3;
      bytes_loop n (i + 1) src word_list (words_store ++ [a; b; c]) (words ++ a ++ [32] ++ b ++ [32] ++ c ++ [32])
  end.

(** The words, [None] for the result false. *)
Definition bytes_to_words (languages : list Base) (src : list Z) (words : list Z) (name : word) : outcome (option (list Z)) :=
  let len := Z.of_nat (length src) in
  if negb (len mod 4 =? 0) || (len =? 0) then Val None
  else
    match find_name name languages None with
    | None => Val None
    | Some language =>
        '(words_store, words) ← bytes_loop (length src / 4) 0 src (word_list language) [] words;
        idx ← create_checksum_index words_store language;
        w ← c_index words_store idx;
        Val (Some (words ++ w))
    end.

Definition seed_length : Z := 24.

Definition get_is_old_style_seed (seed : list Z) : bool := negb (Z.of_nat (length (split seed)) =? seed_length + 1).

Definition is_valid_language (languages : list Base) (language : word) : bool :=
  existsb (fun l => bool_decide (english_language_name l = language) || bool_decide (language_name l = language)) languages.
End mnemonics.

(** ** Numbers *)

Lemma rotate_back (n a b : Z) : 0 < n -> 0 <= b < n -> (n - b + (a + b) mod n) mod n = a mod n.
Proof.
  intros Hn Hb. rewrite Z.add_mod_idemp_r by lia. replace (n - b + (a + b)) with (a + 1 * n) by lia.
  by rewrite Z.mod_add by lia.
Qed.

Lemma words_of_number (w0 : Z) :
  in_u32 w0 ->
  let '(w1, w2, w3) := number_to_words NWORDS w0 in
  0 <= w1 < NWORDS /\ 0 <= w2 < NWORDS /\ 0 <= w3 < NWORDS /\ words_to_number NWORDS w1 w2 w3 = Some w0.
Proof.
  unfold in_u32, number_to_words, words_to_number, NWORDS. intros Hw. cbv zeta. set (w1 := w0 mod 1626).
  assert (0 <= w1 < 1626) as H1 by (apply Z.mod_pos_bound; lia).
  pose proof (Z.div_mod w0 1626 ltac:(lia)) as E1. fold w1 in E1. set (q := w0 / 1626) in *. assert (0 <= q < 2 ^ 22) as Hq by lia.
  unfold u32. rewrite (Z.mod_small (q + w1)) by lia. set (w2 := (q + w1) mod 1626).
  assert (0 <= w2 < 1626) as H2 by (apply Z.mod_pos_bound; lia).
  pose proof (Z.div_mod q 1626 ltac:(lia)) as E2. pose proof (Z.mod_pos_bound q 1626 ltac:(lia)).
  set (r := q / 1626) in *. assert (0 <= r < 1626) as Hr by lia.
  rewrite (Z.mod_small (r + w2)) by lia. set (w3 := (r + w2) mod 1626).
  assert (0 <= w3 < 1626) as H3 by (apply Z.mod_pos_bound; lia). split_and!; try lia.
  rewrite (Z.mod_small (1626 - w1 + w2)), (Z.mod_small (1626 - w2 + w3)) by lia.
  assert ((1626 - w1 + w2) mod 1626 = q mod 1626) as -> by (apply rotate_back; lia).
  assert ((1626 - w2 + w3) mod 1626 = r mod 1626) as -> by (apply rotate_back; lia). rewrite (Z.mod_small r) by lia.
  replace (w1 + 1626 * (q mod 1626) + 1626 * 1626 * r) with w0 by lia. rewrite (Z.mod_small w0) by lia.
  fold w1. by rewrite Z.eqb_refl.
Qed.

(** Only the words of a number are accepted. *)
Lemma number_of_words (w1 w2 w3 w0 : Z) :
  0 <= w1 < NWORDS -> 0 <= w2 < NWORDS -> 0 <= w3 < NWORDS -> words_to_number NWORDS w1 w2 w3 = Some w0 ->
  in_u32 w0 /\ number_to_words NWORDS w0 = (w1, w2, w3).
Proof.
  unfold words_to_number, number_to_words, NWORDS. intros H1 H2 H3. unfold u32.
  rewrite (Z.mod_small (1626 - w1 + w2)), (Z.mod_small (1626 - w2 + w3)) by lia.
  set (x := (1626 - w1 + w2) mod 1626). set (y := (1626 - w2 + w3) mod 1626).
  assert (0 <= x < 1626) as Hx by (apply Z.mod_pos_bound; lia). assert (0 <= y < 1626) as Hy by (apply Z.mod_pos_bound; lia).
  set (v := w1 + 1626 * x + 1626 * 1626 * y). destruct (Z.eqb_spec (v mod 2 ^ 32 mod 1626) w1) as [E|]; [|done]. intros [= <-].
  split; [apply Z.mod_pos_bound; lia|].
  assert (v mod 2 ^ 32 = v) as Ev.
  { destruct (Z.le_gt_cases (2 ^ 32) v) as [Hv|Hv]; [|apply Z.mod_small; lia]. exfalso.
    assert (v mod 2 ^ 32 = v - 2 ^ 32) as E' by (symmetry; apply (Z.mod_unique _ _ 1); lia).
    rewrite E' in E. pose proof (Z.div_mod (v - 2 ^ 32) 1626 ltac:(lia)). lia. }
  rewrite Ev. assert (v / 1626 = x + 1626 * y) as Eq by (symmetry; apply (Z.div_unique _ _ _ w1); lia).
  assert (v mod 1626 = w1) as -> by (symmetry; apply (Z.mod_unique _ _ (x + 1626 * y)); lia). rewrite Eq.
  assert ((x + 1626 * y) / 1626 = y) as -> by (symmetry; apply (Z.div_unique _ _ _ x); lia).
  rewrite (Z.mod_small (x + 1626 * y + w1)) by lia.
  assert ((x + 1626 * y + w1) mod 1626 = w2) as ->.
  { replace (x + 1626 * y + w1) with (x + w1 + y * 1626) by lia. rewrite Z.mod_add by lia. unfold x.
    rewrite Z.add_mod_idemp_l by lia. replace (1626 - w1 + w2 + w1) with (w2 + 1 * 1626) by lia.
    rewrite Z.mod_add by lia. apply Z.mod_small. lia. }
  rewrite (Z.mod_small (y + w2)) by lia. f_equal. unfold y. rewrite Z.add_mod_idemp_l by lia.
  replace (1626 - w2 + w3 + w2) with (w3 + 1 * 1626) by lia. rewrite Z.mod_add by lia. apply Z.mod_small. lia.
Qed.

(** ** Strings *)

Definition plain (w : word) : Prop := w <> [] /\ Forall (fun c => isspace c = false) w.

Lemma append_last_app (fields : list word) (w : word) (c : Z) : append_last (fields ++ [w]) c = fields ++ [w ++ [c]].
Proof. induction fields as [|x fields IH]; [done|]. cbn. rewrite IH. by destruct fields. Qed.

Lemma split_inside (w v : word) (s : list Z) (fields : list word) :
  Forall (fun c => isspace c = false) w ->
  split_loop (w ++ s) false (fields ++ [v]) = split_loop s false (fields ++ [v ++ w]).
Proof.
  intros Hw. revert v. induction Hw as [|c w Hc Hw IH]; intros v; [by rewrite app_nil_r|]. cbn [app split_loop].
  rewrite Hc, append_last_app, IH. by rewrite <- app_assoc.
Qed.

Lemma split_word (w : word) (s : list Z) (fields : list word) :
  plain w -> split_loop (w ++ s) true fields = split_loop s false (fields ++ [w]).
Proof.
  intros [Hn Hw]. destruct Hw as [|c w Hc Hw]; [done|]. cbn [app split_loop]. rewrite Hc. cbv iota zeta.
  by rewrite (split_inside w [c]).
Qed.

Lemma split_words (ws : list word) (w : word) :
  Forall plain ws -> plain w -> split (mjoin (map (fun v => v ++ [32]) ws) ++ w) = ws ++ [w].
Proof.
  intros Hws Hw. unfold split. cut (forall fields, split_loop (mjoin (map (fun v => v ++ [32]) ws) ++ w) true fields = fields ++ ws ++ [w]).
  { intros E. apply (E []). }
  induction Hws as [|v ws Hv Hws IH]; intros fields.
  - transitivity (split_loop (w ++ []) true fields); [by rewrite app_nil_r|]. by rewrite split_word.
  - change (mjoin (map (fun v => v ++ [32]) (v :: ws))) with ((v ++ [32]) ++ mjoin (map (fun v => v ++ [32]) ws)).
    rewrite <- !app_assoc, split_word by done. cbn [app split_loop].
    change (isspace 32) with true. cbv iota zeta. rewrite IH, <- app_assoc. done.
Qed.

Lemma prefix_all (s : word) (count : nat) (inside : bool) : (length s <= count)%nat -> prefix_loop s count inside = s.
Proof.
  revert count inside. induction s as [|c s IH]; intros count inside Hl; [done|]. cbn in *. destruct (inside && continues c).
  - f_equal. apply IH. lia.
  - destruct count; [lia|]. f_equal. apply IH. lia.
Qed.

Lemma trim_prefix (p : Z) (w : word) : 0 <= p -> trim p w = utf8prefix w p.
Proof.
  intros Hp. unfold trim. destruct (Z.ltb_spec p (Z.of_nat (length w))); [done|]. unfold utf8prefix. rewrite prefix_all by lia. done.
Qed.

(** ** Languages *)

Section languages.
Context (towlower : Z -> Z) (crc32 : list Z -> Z).

(** What a language promises: every word is found by its prefix, under the index it has. *)
Record lang_ok (l : Base) : Prop := {
  ok_length : Z.of_nat (length (word_list l)) = NWORDS;
  ok_prefix : 0 <= unique_prefix_length l;
  ok_trimmed : forall (i : nat) (w : word), word_list l !! i = Some w ->
    map_find towlower (trimmed_word_map l) (utf8prefix w (unique_prefix_length l))
    = Val (Some (utf8prefix w (unique_prefix_length l), Z.of_nat i));
}.

(** An entry under the canonical word of [w]. *)
Definition entry (m : index_map) (w key : word) (i : Z) : Prop := map_find towlower m w = Val (Some (key, i)).

Lemma map_set_new (m m' : index_map) (w : word) (ii : Z) :
  map_find towlower m w = Val None -> map_set towlower m w ii = Val m' ->
  entry m' w w ii /\ forall v k i, entry m v k i -> entry m' v k i.
Proof.
  unfold entry, map_find, map_set. destruct (canonical towlower w) as [c| | | |] eqn:Ec; try done. cbn.
  intros [= Hm] [= <-]. rewrite Hm. cbn [from_option]. rewrite lookup_insert_eq. split; [done|].
  intros v k i. destruct (canonical towlower v) as [c'| | | |]; try done. cbn. intros [= Hv].
  rewrite lookup_insert_ne by (intros ->; congruence). congruence.
Qed.

(** Without the flag for duplicates, an entry stays. *)
Lemma populate_loop_spec (flags p : Z) (ws : list word) (ii : Z) (wm tm wm' tm' : index_map) :
  0 <= p -> Z.land flags ALLOW_DUPLICATE_PREFIXES = 0 -> populate_loop towlower flags p ws ii wm tm = Val (wm', tm') ->
  (forall v k i, entry tm v k i -> entry tm' v k i) /\
  forall (j : nat) w, ws !! j = Some w -> entry tm' (utf8prefix w p) (utf8prefix w p) (ii + Z.of_nat j).
Proof.
  intros Hp Hf. revert ii wm tm. induction ws as [|w ws IH]; intros ii wm tm; cbn [populate_loop]; [by intros [= -> ->]|].
  destruct (map_set towlower wm w ii) as [wm1| | | |]; try done. rewrite bind_val. unfold throw_unless.
  destruct (negb _ || negb _); [rewrite bind_val|done]. rewrite trim_prefix by done.
  destruct (map_find towlower tm (utf8prefix w p)) as [found| | | |] eqn:Ef; try done. rewrite bind_val, Hf.
  change (negb (0 =? 0)) with false. rewrite orb_false_r.
  case_bool_decide as Hn; [rewrite bind_val; subst found|done].
  destruct (map_set towlower tm (utf8prefix w p) ii) as [tm1| | | |] eqn:Es; try done. rewrite bind_val. intros E.
  destruct (map_set_new _ _ _ _ Ef Es) as [Hnew Hkeep]. destruct (IH _ _ _ E) as [Hk Hj]. split; [auto|].
  intros [|j] v Hv; [injection Hv as ->; rewrite Z.add_0_r; auto|].
  replace (ii + Z.of_nat (S j)) with (ii + 1 + Z.of_nat j) by lia. by apply Hj.
Qed.

Lemma make_language_ok (name ename : word) (p flags : Z) (words : list word) (l : Base) :
  0 <= p -> Z.land flags ALLOW_DUPLICATE_PREFIXES = 0 -> make_language towlower name ename p flags words = Val l -> lang_ok l.
Proof.
  intros Hp Hf. unfold make_language, throw_unless. destruct (Z.eqb_spec (Z.of_nat (length words)) NWORDS) as [Hl|]; [rewrite bind_val|done].
  destruct (populate_loop _ _ _ _ _ _ _) as [[wm tm]| | | |] eqn:E; try done. rewrite bind_val. intros [= <-].
  destruct (populate_loop_spec _ _ _ _ _ _ _ _ Hp Hf E) as [_ Hj]. split; cbn; [done|done|]. intros i w Hw. by apply (Hj i w).
Qed.

(** ** A seed of a language *)

Context (l : Base) (Hl : lang_ok l).

(** The words with the indices. *)
Definition indexed (idxs : list Z) (ws : list word) : Prop :=
  Forall2 (fun i w => 0 <= i /\ word_list l !! Z.to_nat i = Some w) idxs ws.

Lemma find_prefix (i : Z) (w : word) :
  0 <= i -> word_list l !! Z.to_nat i = Some w ->
  map_find towlower (trimmed_word_map l) (utf8prefix w (unique_prefix_length l)) = Val (Some (utf8prefix w (unique_prefix_length l), i)).
Proof. intros Hi Hw. rewrite (ok_trimmed l Hl (Z.to_nat i) w Hw). by rewrite Z2Nat.id. Qed.

Lemma match_words_indexed (idxs : list Z) (ws : list word) :
  indexed idxs ws -> match_words towlower true l ws = Val (Some idxs).
Proof.
  induction 1 as [|i w idxs ws [Hi Hw] _ IH]; [done|]. cbn [match_words find_word].
  rewrite (find_prefix i w Hi Hw), bind_val, IH, bind_val. done.
Qed.

Lemma trimmed_words_indexed (idxs : list Z) (ws : list word) :
  indexed idxs ws -> exists s, trimmed_words towlower l ws = Val s.
Proof.
  induction 1 as [|i w idxs ws [Hi Hw] _ [s IH]]; [by eexists|]. cbn [trimmed_words].
  rewrite (find_prefix i w Hi Hw), bind_val, IH, bind_val. by eexists.
Qed.

Lemma checksum_index (idxs : list Z) (ws : list word) :
  indexed idxs ws -> ws <> [] ->
  exists idx (w : word), create_checksum_index towlower crc32 ws l = Val idx /\ c_index ws idx = Val w /\ w ∈ ws.
Proof.
  intros Hi Hn. destruct (trimmed_words_indexed _ _ Hi) as [s Es]. unfold create_checksum_index. rewrite Es, bind_val.
  assert (0 < Z.of_nat (length ws)) as Hlen by (destruct ws; [done|cbn; lia]). rewrite (proj2 (Z.eqb_neq _ _)) by lia.
  pose proof (Z.mod_pos_bound (crc32 s) _ Hlen) as Hm. set (idx := crc32 s mod _) in *.
  destruct (lookup_lt_is_Some_2 ws (Z.to_nat idx) ltac:(lia)) as [w Hw]. exists idx, w. split_and!; [done| |].
  - by apply c_index_lookup; [lia|].
  - by eapply list_elem_of_lookup_2.
Qed.

Lemma pop_back_snoc {A} (xs : list A) (x : A) : pop_back (xs ++ [x]) = Some (xs, x).
Proof. unfold pop_back. rewrite last_snoc, length_app. cbn [length]. by rewrite Nat.add_sub, take_app_length. Qed.

Lemma checksum_test_own (ws : list word) (idx i : Z) (w : word) :
  create_checksum_index towlower crc32 ws l = Val idx -> c_index ws idx = Val w ->
  0 <= i -> word_list l !! Z.to_nat i = Some w -> checksum_test towlower crc32 (ws ++ [w]) l = Val true.
Proof.
  intros Ei Ew Hi Hw. unfold checksum_test. rewrite pop_back_snoc, Ei, bind_val, Ew, bind_val.
  rewrite !trim_prefix by apply Hl. pose proof (find_prefix i w Hi Hw) as Hf. unfold map_find in Hf. unfold WordEqual.
  destruct (canonical towlower _) as [c| | | |]; try done. rewrite !bind_val. by rewrite bool_decide_true.
Qed.

(** ** Triples *)

Lemma triples_step (n j : nat) (pre rest : list Z) (w1 w2 w3 w0 : Z) (dst : list Z) :
  length pre = (3 * j)%nat -> words_to_number NWORDS w1 w2 w3 = Some w0 ->
  triples_loop (S n) (Z.of_nat j) NWORDS (pre ++ w1 :: w2 :: w3 :: rest) dst
  = triples_loop n (Z.of_nat (S j)) NWORDS ((pre ++ [w1; w2; w3]) ++ rest) (dst ++ write_le32 w0).
Proof.
  intros Hp E. cbn [triples_loop]. assert (forall k x, [w1; w2; w3] !! k = Some x ->
    c_index (pre ++ w1 :: w2 :: w3 :: rest) (Z.of_nat (length pre + k)) = Val x) as Hc.
  { intros k x Hk. apply c_index_nat. rewrite lookup_app_r by lia. replace (length pre + k - length pre)%nat with k by lia.
    change (w1 :: w2 :: w3 :: rest) with ([w1; w2; w3] ++ rest). by apply lookup_app_l_Some. }
  replace (Z.of_nat j * 3) with (Z.of_nat (length pre + 0)) by lia.
  replace (Z.of_nat (length pre + 0) + 1) with (Z.of_nat (length pre + 1)) by lia.
  replace (Z.of_nat (length pre + 0) + 2) with (Z.of_nat (length pre + 2)) by lia.
  rewrite (Hc 0%nat w1), (Hc 1%nat w2), (Hc 2%nat w3), !bind_val by done. cbv beta. rewrite E. rewrite <- app_assoc. cbn [app].
  by replace (Z.of_nat j + 1) with (Z.of_nat (S j)) by lia.
Qed.

(** What the loop of [bytes_to_words] makes, the loop of [words_to_bytes] reads. *)
Lemma bytes_loop_spec (n i : nat) (src : list Z) (store : list word) (words : list Z) :
  (4 * (i + n) <= length src)%nat -> Forall in_u8 src ->
  exists idxs ws,
    bytes_loop n (Z.of_nat i) src (word_list l) store words = Val (store ++ ws, words ++ mjoin (map (fun v => v ++ [32]) ws)) /\
    indexed idxs ws /\ length idxs = (3 * n)%nat /\
    forall j pre suf dst, length pre = (3 * j)%nat ->
      triples_loop n (Z.of_nat j) NWORDS (pre ++ idxs ++ suf) dst = Val (Some (dst ++ take (4 * n) (drop (4 * i) src))).
Proof.
  intros Hn Hb. revert i store words Hn. induction n as [|n IH]; intros i store words Hn.
  { exists [], []. cbn. rewrite !app_nil_r. split_and!; try done; [by constructor|]. intros. by rewrite app_nil_r. }
  cbn [bytes_loop]. rewrite (ok_length l Hl). replace (Z.to_nat (Z.of_nat i * 4)) with (4 * i)%nat by lia.
  set (chunk := take 4 (drop (4 * i) src)).
  assert (length chunk = 4%nat) as Hc4 by (unfold chunk; rewrite length_take, length_drop; lia).
  assert (Forall in_u8 chunk) as Hcb by (by apply Forall_take, Forall_drop).
  assert (read_le32 (drop (4 * i) src) = read_le32 chunk) as ->.
  { unfold read_le32, chunk. by rewrite take_take. }
  pose proof (words_of_number _ (read_le32_range chunk Hc4 Hcb)) as Hw.
  destruct (number_to_words NWORDS (read_le32 chunk)) as [[w1 w2] w3]. destruct Hw as (H1 & H2 & H3 & Ew).
  assert (forall w, 0 <= w < NWORDS -> exists a, word_list l !! Z.to_nat w = Some a) as Hlk.
  { intros w Hw. apply lookup_lt_is_Some_2. pose proof (ok_length l Hl). lia. }
  destruct (Hlk w1 H1) as [a Ha], (Hlk w2 H2) as [b Hb'], (Hlk w3 H3) as [c Hc].
  rewrite (c_index_lookup _ w1 a), (c_index_lookup _ w2 b), (c_index_lookup _ w3 c), !bind_val by (done || lia). cbv beta.
  replace (Z.of_nat i + 1) with (Z.of_nat (S i)) by lia.
  destruct (IH (S i) (store ++ [a; b; c]) (words ++ a ++ [32] ++ b ++ [32] ++ c ++ [32]) ltac:(lia)) as (idxs & ws & -> & Hi & Hlen & Ht).
  exists (w1 :: w2 :: w3 :: idxs), (a :: b :: c :: ws). split_and!.
  - rewrite <- !app_assoc. cbn [map mjoin list_join]. rewrite <- !app_assoc. done.
  - repeat (constructor; [split; [lia|done]|]). done.
  - cbn [length]. lia.
  - intros j pre suf dst Hp. cbn [app]. rewrite (triples_step n j pre _ w1 w2 w3 _ dst Hp Ew), Ht.
    + rewrite write_read_le32, <- app_assoc by done. do 3 f_equal. unfold chunk.
      replace (4 * S n)%nat with (4 + 4 * n)%nat by lia. replace (4 * S i)%nat with (4 * i + 4)%nat by lia.
      rewrite <- drop_drop. by rewrite take_take_drop.
    + rewrite length_app. cbn [length]. lia.
Qed.

(** The seed of some bytes, word by word. *)
Lemma bytes_to_words_spec (languages : list Base) (src : list Z) (name : word) :
  find_name name languages None = Some l -> Forall plain (word_list l) ->
  Forall in_u8 src -> src <> [] -> Z.of_nat (length src) mod 4 = 0 ->
  exists words idxs ws i w,
    bytes_to_words towlower crc32 languages src [] name = Val (Some words) /\ split words = ws ++ [w] /\
    indexed (idxs ++ [i]) (ws ++ [w]) /\ length ws = (3 * (length src / 4))%nat /\
    checksum_test towlower crc32 (ws ++ [w]) l = Val true /\
    triples_loop (length src / 4) 0 NWORDS (idxs ++ [i]) [] = Val (Some src).
Proof.
  intros Hname Hplain Hb Hne Hm. unfold bytes_to_words.
  assert (0 < Z.of_nat (length src)) as Hpos by (destruct src; [done|cbn [length]; lia]).
  rewrite Hm, (proj2 (Z.eqb_neq (Z.of_nat (length src)) 0)), Hname by lia. change (negb (0 =? 0) || false) with false. cbv iota.
  assert (length src = 4 * (length src / 4))%nat as H4.
  { pose proof (Nat.div_mod (length src) 4 ltac:(lia)). pose proof (Nat2Z.inj_mod (length src) 4). lia. }
  set (n := (length src / 4)%nat) in *. clearbody n.
  destruct (bytes_loop_spec n 0 src [] [] ltac:(lia) Hb) as (idxs & ws & E & Hi & Hlen & Ht). change (Z.of_nat 0) with 0 in E. rewrite E. run.
  assert (length ws = 3 * n)%nat as Hws by (rewrite <- Hlen; symmetry; by eapply Forall2_length).
  destruct (checksum_index idxs ws Hi ltac:(intros ->; cbn in Hws; lia)) as (idx & w & Ec & Ew & Hin).
  cbn [app]. rewrite Ec. run. rewrite Ew. run. apply list_elem_of_lookup_1 in Hin as [k Hk].
  destruct (Forall2_lookup_r _ _ _ _ _ Hi Hk) as (i & Hik & Hi0 & Hiw).
  assert (Forall plain ws) as Hpw.
  { apply Forall_lookup_2. intros k' v Hv. destruct (Forall2_lookup_r _ _ _ _ _ Hi Hv) as (i' & _ & _ & Hw').
    by eapply Forall_lookup_1 in Hw'. }
  eexists _, idxs, ws, i, w. split_and!; [done| | |done| |].
  - apply split_words; [done|]. by eapply Forall_lookup_1 in Hk.
  - by apply Forall2_app; [|repeat constructor].
  - by apply (checksum_test_own ws idx i w).
  - pose proof (Ht 0%nat [] [i] [] eq_refl) as E'. cbn [app] in E'. change (Z.of_nat 0) with 0 in E'.
    rewrite E', take_ge by (rewrite length_drop; lia). done.
Qed.

(** Another language does not accept the seed. *)
Definition rejected (seed : list word) (l' : Base) : Prop :=
  exists r, match_language towlower crc32 seed true l' = Val r /\ forall idxs, r <> Full_match idxs.

Lemma find_loop_rejected (seed : list word) (before languages : list Base) (fallback : option Base) :
  Forall (rejected seed) before ->
  exists fb, find_loop towlower crc32 seed true (before ++ languages) fallback = find_loop towlower crc32 seed true languages fb.
Proof.
  intros Hr. revert fallback. induction Hr as [|l' before (r & E & Hn) Hr IH]; intros fallback; [by eexists|].
  cbn [app find_loop]. rewrite E. run. destruct r; [apply IH|apply IH|]. by edestruct Hn.
Qed.

Lemma words_to_bytes_spec (before after : list Base) (words : list Z) (ws : list word) (w : word) (idxs src : list Z) (n : nat) (dup : bool) :
  split words = ws ++ [w] -> indexed idxs (ws ++ [w]) -> length ws = (3 * n)%nat -> (0 < n)%nat ->
  checksum_test towlower crc32 (ws ++ [w]) l = Val true -> triples_loop n 0 NWORDS idxs [] = Val (Some src) ->
  Forall (rejected (ws ++ [w])) before ->
  words_to_bytes towlower crc32 (before ++ l :: after) words [] (4 * Z.of_nat n) dup = Val (Some (src, language_name l)).
Proof.
  intros Es Hi Hws Hn Hc Ht Hr. unfold words_to_bytes. cbv zeta. rewrite Es.
  replace (4 * Z.of_nat n) with (Z.of_nat n * 4) by lia. rewrite Z.mod_mul by lia. change (negb (0 =? 0)) with false. cbv iota.
  assert (Z.of_nat (length (ws ++ [w])) = 3 * Z.of_nat n + 1) as Hl1 by (rewrite length_app; cbn [length]; lia).
  assert (check_count (Z.of_nat n * 4) (Z.of_nat (length (ws ++ [w]))) = Some true) as ->.
  { unfold check_count. rewrite (proj2 (Z.eqb_neq _ _)) by lia. cbv zeta.
    assert (Z.of_nat n * 4 * 8 * 3 / 32 = 3 * Z.of_nat n) as ->; [|by rewrite Hl1, Z.eqb_refl, orb_true_r].
    symmetry. apply (Z.div_unique _ _ _ 0); lia. }
  unfold find_seed_language. destruct (find_loop_rejected (ws ++ [w]) before (l :: after) None Hr) as [fb ->].
  cbn [find_loop]. unfold match_language. rewrite (match_words_indexed _ _ Hi). run. rewrite Hc. run. run. run.
  unfold strip_checksum. rewrite Hc, pop_back_snoc. run. cbn [option_map fst]. run. rewrite (ok_length l Hl).
  assert (length ws / 3 = n)%nat as -> by (symmetry; apply (Nat.div_unique _ _ _ 0); lia). rewrite Ht. run.
  rewrite (proj2 (Z.eqb_neq (Z.of_nat (length ws)) _)); [by rewrite andb_false_r|].
  assert (Z.of_nat n * 4 * 3 / 32 / 2 <= Z.of_nat n); [|lia].
  apply Z.div_le_upper_bound; [lia|]. apply Z.div_le_upper_bound; lia.
Qed.
End languages.

(** ** Theorems *)

(** In every language whose words are distinct in their prefixes and hold no space, every
    32-byte key becomes a seed that the wallet takes for one with a checksum, and
    [words_to_bytes] gives the key and the language back, unless a language that is tried before
    accepts the seed with its checksum. *)
Theorem key_words_roundtrip (towlower : Z -> Z) (crc32 : list Z -> Z) (languages before after : list Base) (name : word)
    (l : Base) (key : list Z) :
  lang_ok towlower l -> Forall plain (word_list l) -> find_name name languages None = Some l ->
  length key = 32%nat -> Forall in_u8 key ->
  exists words, bytes_to_words towlower crc32 languages key [] name = Val (Some words) /\
    get_is_old_style_seed words = false /\
    (Forall (rejected towlower crc32 (split words)) before ->
     words_to_key towlower crc32 (before ++ l :: after) words = Val (Some (key, language_name l))).
Proof.
  intros Hl Hp Hn H32 Hb.
  destruct (bytes_to_words_spec towlower crc32 l Hl languages key name Hn Hp Hb) as (words & idxs & ws & i & w & E & Es & Hi & Hws & Hc & Ht);
    [by intros ->|by rewrite H32|]. rewrite H32 in *. change (32 / 4)%nat with 8%nat in *.
  exists words. split_and!; [done| |].
  - unfold get_is_old_style_seed. by rewrite Es, length_app, Hws.
  - rewrite Es. intros Hr. unfold words_to_key.
    pose proof (words_to_bytes_spec towlower crc32 l Hl before after words ws w (idxs ++ [i]) key 8 true) as Hw.
    change (4 * Z.of_nat 8) with 32 in Hw. rewrite Hw by (done || lia). run. by rewrite H32.
Qed.

(** Three words are accepted exactly when they are the words of a 32-bit number, and then
    that number is the result: no two seeds of a language hold one key, although the sum in
    [words_to_bytes] can be more than 32 bits. *)
Theorem words_of_one_number (w1 w2 w3 w0 : Z) :
  0 <= w1 < NWORDS -> 0 <= w2 < NWORDS -> 0 <= w3 < NWORDS ->
  (words_to_number NWORDS w1 w2 w3 = Some w0 <-> in_u32 w0 /\ number_to_words NWORDS w0 = (w1, w2, w3)).
Proof.
  intros H1 H2 H3. split; [by apply number_of_words|]. intros [Hw E]. pose proof (words_of_number w0 Hw) as Hx.
  rewrite E in Hx. apply Hx.
Qed.

Section errors.
Context (towlower : Z -> Z) (crc32 : list Z -> Z) (languages : list Base).

(** What the loop over triples appends. *)
Lemma triples_loop_size (n : nat) (i len : Z) (idxs dst s : list Z) :
  Forall in_u8 dst -> triples_loop n i len idxs dst = Val (Some s) ->
  length s = (length dst + 4 * n)%nat /\ Forall in_u8 s.
Proof.
  revert i dst. induction n as [|n IH]; intros i dst Hd; cbn [triples_loop].
  { intros [= <-]. split; [lia|done]. }
  do 3 match goal with |- (c_index idxs ?k ≫= _) = _ -> _ => destruct (c_index idxs k) as [?| | | |]; try done; run end.
  destruct (words_to_number _ _ _ _) as [w0|]; [|done]. intros E. apply IH in E as [-> Hs].
  - split; [|done]. rewrite length_app. unfold write_le32. rewrite length_reverse, to_digits_length. lia.
  - apply Forall_app. split; [done|]. unfold write_le32. apply Forall_reverse. by apply to_digits_range.
Qed.

Lemma check_count_32 (n : Z) :
  check_count 32 n = if (n =? 12) || (n =? 24) || (n =? 25) then Some (n =? 25) else None.
Proof. reflexivity. Qed.

(** Of a seed that is accepted: the seed without the checksum, and the bytes of its triples. *)
Lemma words_to_bytes_accepts (words s : list Z) (len : Z) (dup : bool) (name : word) :
  words_to_bytes towlower crc32 languages words [] len dup = Val (Some (s, name)) ->
  exists c ws (t : list Z), check_count len (Z.of_nat (length (split words))) = Some c /\
    (if c : bool then option_map fst (pop_back (split words)) = Some ws else ws = split words) /\
    length t = (4 * (length ws / 3))%nat /\ Forall in_u8 t /\
    s = if (0 <? len) && dup && (Z.of_nat (length ws) =? len * 3 / 32 / 2) then t ++ t else t.
Proof.
  unfold words_to_bytes. cbv zeta. destruct (negb _); [done|]. destruct (check_count _ _) as [c|]; [|done].
  destruct (find_seed_language _ _ _ _ _) as [[[l idxs]|]| | | |]; try done. rewrite bind_val. cbv beta iota.
  destruct (strip_checksum _ _ _ _ _) as [[ws|]| | | |] eqn:Es; try done. rewrite bind_val. cbv beta iota.
  destruct (triples_loop _ _ _ _ _) as [[t|]| | | |] eqn:Et; try done. rewrite bind_val. cbv beta iota.
  apply triples_loop_size in Et as [Hlen Ht]; [|constructor]. intros E. exists c, ws, t. split_and!; try done.
  - unfold strip_checksum in Es. destruct c; [|congruence]. destruct (checksum_test _ _ _ _) as [[]| | | |]; try done.
    rewrite bind_val in Es. congruence.
  - destruct (_ && _); congruence.
Qed.
End errors.

(** Whatever the languages, what [words_to_bytes] accepts as a key is 32 bytes, of 24 words
    with or without a checksum word after them. *)
Theorem key_from_words_type (towlower : Z -> Z) (crc32 : list Z -> Z) (languages : list Base) (words key : list Z) (name : word) :
  words_to_key towlower crc32 languages words = Val (Some (key, name)) ->
  length key = 32%nat /\ Forall in_u8 key /\ (length (split words) = 24 \/ length (split words) = 25)%nat.
Proof.
  unfold words_to_key. destruct (words_to_bytes _ _ _ _ _ _ _) as [[[s nm]|]| | | |] eqn:E; try done. rewrite bind_val. cbv beta iota.
  destruct (Z.eqb_spec (Z.of_nat (length s)) 32) as [H32|]; [|done]. cbn [negb]. intros [= <- <-].
  apply words_to_bytes_accepts in E as (c & ws & t & Hc & Hws & Hlen & Ht & Es). split_and!; [lia| |].
  - subst s. destruct (_ && _); [by apply Forall_app|done].
  - rewrite check_count_32 in Hc. set (n := Z.of_nat (length (split words))) in *.
    destruct (Z.eqb_spec n 25); [lia|]. destruct (Z.eqb_spec n 24); [lia|]. destruct (Z.eqb_spec n 12); [|done].
    injection Hc as <-. subst ws. assert (length (split words) = 12%nat) as E12 by lia. rewrite E12 in *.
    assert (s = t) as -> by (rewrite Es; reflexivity). change (4 * (12 / 3))%nat with 16%nat in Hlen. lia.
Qed.

(** A seed of 12 words passes the check on the number of words, but no key is ever restored
    from one: the 16 bytes are not duplicated. *)
Theorem twelve_words_refused (towlower : Z -> Z) (crc32 : list Z -> Z) (languages : list Base) (words : list Z) :
  length (split words) = 12%nat ->
  check_count 32 (Z.of_nat (length (split words))) = Some false /\
  (forall s name, words_to_bytes towlower crc32 languages words [] 32 true = Val (Some (s, name)) -> length s = 16%nat) /\
  forall r, words_to_key towlower crc32 languages words <> Val (Some r).
Proof.
  intros H12. assert (check_count 32 (Z.of_nat (length (split words))) = Some false) as Hcc by (by rewrite H12).
  assert (forall s name, words_to_bytes towlower crc32 languages words [] 32 true = Val (Some (s, name)) -> length s = 16%nat) as Hs.
  { intros s name E. apply words_to_bytes_accepts in E as (c & ws & t & Hc & Hws & Hlen & Ht & ->).
    rewrite Hcc in Hc. injection Hc as <-. subst ws. by rewrite H12 in *. }
  split_and!; [done|done|]. intros [key name]. unfold words_to_key.
  destruct (words_to_bytes _ _ _ _ _ _ _) as [[[s nm]|]| | | |] eqn:E; try done. rewrite bind_val. cbv beta iota.
  by rewrite (Hs s nm eq_refl).
Qed.

(** ** Witnesses *)

Lemma words_of_one_number_witness :
  words_to_number NWORDS 1113 617 663 = Some 123456789 <->
  in_u32 123456789 /\ number_to_words NWORDS 123456789 = (1113, 617, 663).
Proof. apply (words_of_one_number 1113 617 663 123456789); vm_compute; split; done. Defined.

(** The letters of "ox", twelve times. *)
Definition twelve_oxen : list Z := mjoin (replicate 12 [111; 120; 32]).

Lemma twelve_words_refused_witness :
  check_count 32 (Z.of_nat (length (split twelve_oxen))) = Some false /\
  (forall s name, words_to_bytes (fun c => c) (fun _ => 0) [] twelve_oxen [] 32 true = Val (Some (s, name)) -> length s = 16%nat) /\
  forall r, words_to_key (fun c => c) (fun _ => 0) [] twelve_oxen <> Val (Some r).
Proof. apply (twelve_words_refused (fun c => c) (fun _ => 0) [] twelve_oxen). reflexivity. Defined.
