(* ===== verification/SeedEnglish.v ===== *)
(** * English seeds

    The languages of src/src/mnemonics/english.h and chinese_simplified.h, constructed from
    their tables, and the round trip of keys through English seeds in the list of languages
    that words_to_bytes goes through. *)

From Stdlib Require Import String.
From S2P Require Import Prelude Mnemonics SeedWords.
From stdpp Require Import gmap.

#[local] Open Scope Z_scope.

Definition bytes_of (s : string) : word := map (fun c => Z.of_N (Ascii.N_of_ascii c)) (String.list_ascii_of_string s).

Definition English (towlower : Z -> Z) : outcome Base :=
  make_language towlower (bytes_of "English") (bytes_of "English") 3 0 (map bytes_of english_words).

Definition Chinese_Simplified (towlower : Z -> Z) : outcome Base :=
  make_language towlower (bytes_of "简体中文 (中国)") (bytes_of "Chinese (simplified)") 1 0 (map bytes_of chinese_simplified_words).

(** ** Lower case of the tables *)

(** Small Latin letters and Han characters, which are their own lower case. *)
Definition caseless (c : Z) : bool := ((97 <=? c) && (c <=? 122)) || ((0x4e00 <=? c) && (c <=? 0x9fff)).

(** All characters of a string are. *)
Fixpoint caseless_loop (fuel : nat) (s : word) : bool :=
  match s, fuel with
  | [], _ => true
  | _, O => false
  | _, S fuel => match read_char s with Val (cp, s) => caseless cp && caseless_loop fuel s | _ => false end
  end.

Definition caseless_word (s : word) : bool := caseless_loop (length s) s.

Section case.
Context (towlower : Z -> Z) (Hlower : forall c, caseless c = true -> towlower c = c).

Lemma canonical_caseless (s : word) : caseless_word s = true -> canonical towlower s = canonical (fun c => c) s.
Proof.
  unfold caseless_word, canonical, utf8canonical. generalize (length s) as fuel. intros fuel. revert s.
  induction fuel as [|fuel IH]; intros [|c s]; try done. cbn [caseless_loop canonical_loop].
  destruct (read_char (c :: s)) as [[cp r]| | | |]; try done. intros [Hc Hs]%andb_true_iff. run.
  by rewrite Hlower, (IH _ Hs).
Qed.

(** The construction does not depend on the lower case. *)
Lemma populate_caseless (p : Z) (ws : list word) (ii : Z) (wm tm : index_map) :
  forallb (fun w => caseless_word w && caseless_word (trim p w)) ws = true ->
  populate_loop towlower 0 p ws ii wm tm = populate_loop (fun c => c) 0 p ws ii wm tm.
Proof.
  revert ii wm tm. induction ws as [|w ws IH]; intros ii wm tm; [done|]. cbn [forallb populate_loop].
  intros [[Hw Ht]%andb_true_iff Hws]%andb_true_iff.
  unfold map_set, map_find. rewrite (canonical_caseless w Hw), (canonical_caseless _ Ht).
  destruct (canonical _ w) as [cw| | | |]; try done. cbn [mbind outcome_bind].
  destruct (throw_unless _) as [[]| | | |]; try done. cbn [mbind outcome_bind].
  destruct (canonical _ (trim p w)) as [ct| | | |]; try done. cbn [mbind outcome_bind].
  destruct (throw_unless _) as [[]| | | |]; try done. cbn [mbind outcome_bind]. by apply IH.
Qed.
End case.

(** ** The two languages *)

Lemma make_language_fields (towlower : Z -> Z) (name ename : word) (p flags : Z) (words : list word) (l : Base) :
  make_language towlower name ename p flags words = Val l ->
  language_name l = name /\ word_list l = words /\ unique_prefix_length l = p.
Proof.
  unfold make_language. destruct (throw_unless _) as [[]| | | |]; try done. rewrite bind_val.
  destruct (populate_loop _ _ _ _ _ _ _) as [[wm tm]| | | |]; try done. rewrite bind_val. by intros [= <-].
Qed.

(** What evaluation shows of the tables. *)
Definition table_ok (p : Z) (words : list word) (o : outcome Base) : bool :=
  forallb (fun w => caseless_word w && caseless_word (trim p w)) words && match o with Val _ => true | _ => false end.

Lemma table_ok_spec (p : Z) (words : list word) (o : outcome Base) :
  table_ok p words o = true ->
  forallb (fun w => caseless_word w && caseless_word (trim p w)) words = true /\ exists l, o = Val l.
Proof. intros [Hc Ho]%andb_true_iff. split; [done|]. destruct o as [l| | | |]; [by exists l|done..]. Qed.

Lemma english_table :
  forallb (fun w => caseless_word w && caseless_word (trim 3 w)) (map bytes_of english_words) = true /\
  exists l, English (fun c => c) = Val l.
Proof. apply table_ok_spec. vm_compute. reflexivity. Qed.

Lemma chinese_table :
  forallb (fun w => caseless_word w && caseless_word (trim 1 w)) (map bytes_of chinese_simplified_words) = true /\
  exists l, Chinese_Simplified (fun c => c) = Val l.
Proof. apply table_ok_spec. vm_compute. reflexivity. Qed.

Lemma english_facts (towlower : Z -> Z) (l : Base) :
  English towlower = Val l ->
  lang_ok towlower l /\ language_name l = bytes_of "English" /\ word_list l = map bytes_of english_words.
Proof.
  intros E. split; [exact (make_language_ok towlower _ _ 3 0 _ l ltac:(lia) eq_refl E)|].
  destruct (make_language_fields towlower _ _ 3 0 _ l E) as (Hn & Hw & _). done.
Qed.

#[local] Opaque English Chinese_Simplified english_words chinese_simplified_words.

Section tables.
Context (towlower : Z -> Z) (Hlower : forall c, caseless c = true -> towlower c = c).

Lemma make_caseless (name ename : word) (p : Z) (words : list word) :
  forallb (fun w => caseless_word w && caseless_word (trim p w)) words = true ->
  make_language towlower name ename p 0 words = make_language (fun c => c) name ename p 0 words.
Proof. intros Hw. unfold make_language. by rewrite (populate_caseless towlower Hlower). Qed.

Lemma english_made : exists l, English towlower = Val l /\ English (fun c => c) = Val l.
Proof.
  destruct english_table as [Hc [l El]]. exists l. split; [|exact El]. rewrite <- El. exact (make_caseless _ _ _ _ Hc).
Qed.

Lemma chinese_made : exists l, Chinese_Simplified towlower = Val l /\ Chinese_Simplified (fun c => c) = Val l.
Proof.
  destruct chinese_table as [Hc [l El]]. exists l. split; [|exact El]. rewrite <- El. exact (make_caseless _ _ _ _ Hc).
Qed.

(** No English word has the first letter of a Chinese one. *)
Definition foreign (l : Base) (w : word) : bool :=
  caseless_word (utf8prefix w (unique_prefix_length l)) &&
  match map_find (fun c => c) (trimmed_word_map l) (utf8prefix w (unique_prefix_length l)) with Val None => true | _ => false end.

Lemma english_foreign :
  match Chinese_Simplified (fun c => c) with Val l => forallb (foreign l) (map bytes_of english_words) | _ => false end = true.
Proof. vm_compute. reflexivity. Qed.

Lemma foreign_rejected (crc32 : list Z -> Z) (l : Base) (w : word) (seed : list word) :
  foreign l w = true -> rejected towlower crc32 (w :: seed) l.
Proof.
  intros [Hc Hm]%andb_true_iff. exists No_match. split; [|done]. unfold match_language. cbn [match_words find_word].
  unfold map_find in *. rewrite (canonical_caseless towlower Hlower _ Hc).
  destruct (canonical _ _) as [c| | | |]; try done. rewrite bind_val in *. by destruct (_ !! c).
Qed.

Lemma english_plain : Forall plain (map bytes_of english_words).
Proof.
  apply (Forall_impl (fun w => negb (bool_decide (w = [])) && forallb (fun c => negb (isspace c)) w = true)).
  - apply Forall_forall. intros w Hw.
    assert (forallb (fun w => negb (bool_decide (w = [])) && forallb (fun c => negb (isspace c)) w) (map bytes_of english_words) = true)
      as Hall by (vm_compute; reflexivity). rewrite forallb_forall in Hall. apply Hall. by apply list_elem_of_In.
  - intros w [Hn Hs]%andb_true_iff. split; [by intros ->|]. rewrite forallb_forall in Hs. apply Forall_forall.
    intros c Hc. apply negb_true_iff, Hs. by apply list_elem_of_In.
Qed.
End tables.

(** ** Theorem *)

(** C32. Both tables make languages (1626 words, no prefix twice), and every 32-byte key goes
    through an English seed unchanged: it has 25 words, of which the last one is the checksum of the
    others, words_to_bytes goes through the languages from Chinese and
    English on, and gives the key and the language back, whatever the other languages hold. *)
Theorem english_seed_roundtrip (towlower : Z -> Z) (crc32 : list Z -> Z) (Hlower : forall c, caseless c = true -> towlower c = c) :
  exists zh en, Chinese_Simplified towlower = Val zh /\ English towlower = Val en /\
    forall (languages others : list Base) (key : list Z),
      find_name (bytes_of "English") languages None = Some en -> length key = 32%nat -> Forall in_u8 key ->
      exists words, bytes_to_words towlower crc32 languages key [] (bytes_of "English") = Val (Some words) /\
        length (Mnemonics.split words) = 25%nat /\ checksum_test towlower crc32 (Mnemonics.split words) en = Val true /\
        words_to_key towlower crc32 (zh :: en :: others) words = Val (Some (key, bytes_of "English")).
Proof.
  destruct (chinese_made towlower Hlower) as (zh & Ez & Ez'), (english_made towlower Hlower) as (en & Ee & _).
  exists zh, en. split_and!; [done|done|]. intros languages others key Hn H32 Hb.
  destruct (english_facts towlower en Ee) as (Hok & Hname & Hwords).
  destruct (bytes_to_words_spec towlower crc32 en Hok languages key (bytes_of "English") Hn) as
    (words & idxs & ws & i & w & E & Es & Hi & Hws & Hc & Ht);
    [rewrite Hwords; apply english_plain|done|by intros ->|by rewrite H32|].
  rewrite H32 in *. change (32 / 4)%nat with 8%nat in *. exists words. split; [done|].
  split; [rewrite Es, length_app, Hws; done|]. split; [by rewrite Es|]. unfold words_to_key.
  pose proof (words_to_bytes_spec towlower crc32 en Hok [zh] others words ws w (idxs ++ [i]) key 8 true) as Hw.
  change (4 * Z.of_nat 8) with 32 in Hw. cbn [app] in Hw. rewrite Hw; [run; by rewrite H32, Hname|done..|lia|done|done|].
  constructor; [|constructor]. destruct ws as [|v ws]; [done|]. cbn [app]. apply (foreign_rejected towlower Hlower).
  destruct (Forall2_lookup_r _ _ _ 0%nat v Hi eq_refl) as (i0 & _ & _ & Hv). rewrite Hwords in Hv.
  pose proof english_foreign as Hf. rewrite Ez' in Hf. rewrite forallb_forall in Hf. apply Hf, list_elem_of_In.
  by eapply list_elem_of_lookup_2.
Qed.

(** ** Witnesses *)

(** [towlower] of the C locale. *)
Definition ascii_lower (c : Z) : Z := if (65 <=? c) && (c <=? 90) then c + 32 else c.

Lemma ascii_lower_caseless (c : Z) : caseless c = true -> ascii_lower c = c.
Proof. unfold caseless, ascii_lower. repeat (zcase; cbn [andb orb]; try done); lia. Qed.

Lemma english_seed_roundtrip_witness :
  exists zh en, Chinese_Simplified ascii_lower = Val zh /\ English ascii_lower = Val en /\
    forall (languages others : list Base) (key : list Z),
      find_name (bytes_of "English") languages None = Some en -> length key = 32%nat -> Forall in_u8 key ->
      exists words, bytes_to_words ascii_lower (fun _ => 7) languages key [] (bytes_of "English") = Val (Some words) /\
        length (Mnemonics.split words) = 25%nat /\ checksum_test ascii_lower (fun _ => 7) (Mnemonics.split words) en = Val true /\
        words_to_key ascii_lower (fun _ => 7) (zh :: en :: others) words = Val (Some (key, bytes_of "English")).
Proof. exact (english_seed_roundtrip ascii_lower (fun _ => 7) ascii_lower_caseless). Defined.

Lemma key_words_roundtrip_witness :
  exists en words, bytes_to_words ascii_lower (fun _ => 7) [en] (seqZ 100 32) [] (bytes_of "English") = Val (Some words) /\
    get_is_old_style_seed words = false /\
    (Forall (rejected ascii_lower (fun _ => 7) (Mnemonics.split words)) [] ->
     words_to_key ascii_lower (fun _ => 7) ([] ++ [en]) words = Val (Some (seqZ 100 32, language_name en))).
Proof.
  destruct (english_made ascii_lower ascii_lower_caseless) as (en & E & _).
  destruct (english_facts ascii_lower en E) as (Hok & Hn & Hw). exists en.
  apply (key_words_roundtrip ascii_lower (fun _ => 7) [en] [] [] (bytes_of "English") en (seqZ 100 32)).
  - exact Hok.
  - rewrite Hw. apply english_plain.
  - cbn [find_name]. by rewrite Hn, bool_decide_true.
  - reflexivity.
  - apply (bool_decide_unpack _). vm_compute. exact I.
Defined.

(** The first word 24 times, which holds the key of 32 zeros. *)
Definition abbeys : list Z := mjoin (replicate 24 (bytes_of "abbey ")).

Lemma key_from_words_type_witness :
  length (replicate 32 0) = 32%nat /\ Forall in_u8 (replicate 32 0) /\
  (length (Mnemonics.split abbeys) = 24 \/ length (Mnemonics.split abbeys) = 25)%nat.
Proof.
  apply (key_from_words_type ascii_lower (fun _ => 7)
    match English ascii_lower with Val l => [l] | _ => [] end abbeys (replicate 32 0) (bytes_of "English")).
  vm_compute. reflexivity.
Defined.
