(* ===== verification/EpeeText.v ===== *)
(** * Text formats of epee

    Hexadecimal (src/contrib/epee/src/hex.cpp) and the strings of JSON
    (src/contrib/epee/src/parserse_base_utils.cpp, with the tables of
    parserse_base_utils.h): writers, readers, and that they are inverse. Strings are lists
    of bytes; reading at the end of a buffer is undefined. *)

From S2P Require Import Prelude.

(** ** Hexadecimal *)

(** [hex[d]]. *)
Definition hex_char (d : Z) : Z := if d <? 10 then 48 + d else 87 + d.

Fixpoint write_hex (src : list Z) : list Z :=
  match src with
  | [] => []
  | byte :: src => hex_char (Z.shiftr byte 4) :: hex_char (Z.land byte 0x0f) :: write_hex src
  end.

(** The table [isx]: the digit of a letter in either case, 0xff for anything else. *)
Definition isx (c : Z) : Z :=
  if (48 <=? c) && (c <=? 57) then c - 48
  else if (65 <=? c) && (c <=? 70) then c - 55
  else if (97 <=? c) && (c <=? 102) then c - 87
  else 0xff.

(** The loop over pairs, [None] for the result false. *)
Fixpoint hex_loop (s : list Z) : option (list Z) :=
  match s with
  | c1 :: c2 :: s =>
      let tmp := isx c1 in
      let t2 := isx c2 in
      if (tmp =? 0xff) || (t2 =? 0xff) then None
      else option_map (cons (Z.lor (Z.shiftl tmp 4) t2)) (hex_loop s)
  | _ => Some []
  end.

Definition to_buffer_unchecked (s : list Z) : option (list Z) :=
  if negb (Z.of_nat (length s) mod 2 =? 0) then None else hex_loop s.

(** Into a buffer of [size] bytes. *)
Definition to_buffer (size : Z) (src : list Z) : option (list Z) :=
  if negb (Z.of_nat (length src) / 2 =? size) then None else to_buffer_unchecked src.

Definition hex_isspace (c : Z) : bool := ((9 <=? c) && (c <=? 13)) || (c =? 32).

(** Spaces and colons are left out. *)
Definition include (c : Z) : bool := negb (hex_isspace c) && negb (c =? 58).

Definition char_to_int (c : Z) : outcome Z := if isx c =? 0xff then Throw else Val (isx c).

(** [from_hex_locale::to_vector]: the loop, then with the check of the length. *)
Fixpoint to_vector_loop (fuel : nat) (data : list Z) : outcome (list Z) :=
  match data, fuel with
  | [], _ => Val []
  | _, O => Diverge
  | c :: data, S fuel =>
      if negb (include c) then to_vector_loop fuel data
      else
        high ← char_to_int c;
        match data with
        | [] => Undef
        | c2 :: data =>
            low ← char_to_int c2;
            rest ← to_vector_loop fuel data;
            Val (Z.lor (Z.shiftl high 4) low :: rest)
        end
  end.

Definition to_vector (src : list Z) : outcome (list Z) :=
  if negb (Z.of_nat (length (List.filter include src)) mod 2 =? 0) then Throw else to_vector_loop (length src) src.

(** ** Strings of JSON *)

(** The letter after the backslash, for a character that is escaped. *)
Definition escape_letter (c : Z) : option Z :=
  if c =? 8 then Some 98 else if c =? 12 then Some 102 else if c =? 10 then Some 110 else if c =? 13 then Some 114
  else if c =? 9 then Some 116 else if c =? 11 then Some 118 else if c =? 34 then Some 34 else if c =? 92 then Some 92
  else if c =? 47 then Some 47 else None.

(** The part before the first of them is copied, which the loop does as well. *)
Fixpoint transform_to_escape_sequence (src : list Z) : list Z :=
  match src with
  | [] => []
  | c :: src =>
      match escape_letter c with
      | Some x => 92 :: x :: transform_to_escape_sequence src
      | None => c :: transform_to_escape_sequence src
      end
  end.

(** The character of a letter after a backslash, other than [u]; an unknown one is itself. *)
Definition unescape_letter (c : Z) : Z :=
  if c =? 98 then 0x08 else if c =? 102 then 0x0c else if c =? 110 then 10 else if c =? 114 then 13
  else if c =? 116 then 9 else if c =? 118 then 11 else c.

(** [const unsigned char tmp = isx[( unsigned char )*++it]], [n] times: the number, and what is left. *)
Fixpoint read_hex4 (n : nat) (dst : Z) (s : list Z) : outcome (Z * list Z) :=
  match n with
  | O => Val (dst, s)
  | S n =>
      match s with
      | [] => Undef
      | c :: s =>
          let tmp := isx c in
          _ ← throw_unless (negb (tmp =? 0xff));
          read_hex4 n (Z.lor (u32 (Z.shiftl dst 4)) tmp) s
      end
  end.

Definition utf8_of (dst : Z) : outcome (list Z) :=
  if dst <=? 0x7f then Val [dst]
  else if dst <=? 0x7ff then Val [u8 (Z.lor 0xc0 (Z.shiftr dst 6)); u8 (Z.lor 0x80 (Z.land dst 0x3f))]
  else if dst <=? 0xffff then
    Val [u8 (Z.lor 0xe0 (Z.shiftr dst 12)); u8 (Z.lor 0x80 (Z.land (Z.shiftr dst 6) 0x3f)); u8 (Z.lor 0x80 (Z.land dst 0x3f))]
  else Throw.

(** The loop from [it] on with the string so far; the result ends at the quote. *)
Fixpoint match_loop (fuel : nat) (s : list Z) (escape_mode : bool) (val : list Z) : outcome (list Z * list Z) :=
  match s, fuel with
  | [], _ => Throw
  | _, O => Diverge
  | c :: s', S fuel =>
      if escape_mode then
        if c =? 117 then
          if Z.of_nat (length s) <? 4 then Throw
          else
            '(dst, s'') ← read_hex4 4 0 s';
            b ← utf8_of dst;
            match_loop fuel s'' false (val ++ b)
        else match_loop fuel s' false (val ++ [unescape_letter c])
      else if c =? 34 then Val (val, s)
      else if c =? 92 then match_loop fuel s' true val
      else match_loop fuel s' false (val ++ [c])
  end.

(** [lut[c] & 32]: a quote or a backslash, which end the part that is copied as it is. *)
Definition ends_verbatim (c : Z) : bool := (c =? 34) || (c =? 92).

Fixpoint verbatim (s : list Z) : list Z * list Z :=
  match s with
  | c :: s' => if ends_verbatim c then ([], s) else let '(v, r) := verbatim s' in (c :: v, r)
  | [] => ([], [])
  end.

(** From the quote on; the result is the string, and the buffer from the closing quote on. *)
Definition match_string2 (s : list Z) : outcome (list Z * list Z) :=
  match s with
  | [] => Undef
  | _ :: s =>
      let '(val, s) := verbatim s in
      match_loop (length s) s false val
  end.

(** ** Lemmas on hexadecimal *)

Lemma isx_range (c : Z) : isx c = 0xff \/ 0 <= isx c < 16.
Proof. unfold isx. repeat (zcase; cbn [andb]); lia. Qed.

Lemma isx_hex_char (d : Z) : 0 <= d < 16 -> isx (hex_char d) = d.
Proof. intros Hd. unfold hex_char. destruct (Z.ltb_spec d 10); unfold isx; repeat (zcase; cbn [andb]); lia. Qed.

Definition lower_hex (c : Z) : Z := if (65 <=? c) && (c <=? 70) then c + 32 else c.

Lemma hex_char_isx (c : Z) : isx c <> 0xff -> hex_char (isx c) = lower_hex c.
Proof.
  unfold isx, lower_hex. repeat (zcase; cbn [andb]; try lia); intros _; unfold hex_char; zcase; lia.
Qed.

(** A byte and its two digits. *)
Lemma nibbles (b : Z) : in_u8 b -> 0 <= Z.shiftr b 4 < 16 /\ 0 <= Z.land b 0x0f < 16 /\ Z.lor (Z.shiftl (Z.shiftr b 4) 4) (Z.land b 0x0f) = b.
Proof.
  unfold in_u8. intros Hb. change 15 with (2 ^ 4 - 1). rewrite land_ones_mod, Z.shiftr_div_pow2 by lia.
  change (2 ^ 4) with 16. pose proof (Z.div_mod b 16 ltac:(lia)). pose proof (Z.mod_pos_bound b 16 ltac:(lia)).
  split_and!; try lia. rewrite lor_shiftl_add by lia. change (2 ^ 4) with 16. lia.
Qed.

Lemma join_nibbles (h l : Z) :
  0 <= h < 16 -> 0 <= l < 16 ->
  let b := Z.lor (Z.shiftl h 4) l in in_u8 b /\ Z.shiftr b 4 = h /\ Z.land b 0x0f = l.
Proof.
  intros Hh Hl. cbv zeta. rewrite lor_shiftl_add by lia. change 15 with (2 ^ 4 - 1).
  rewrite land_ones_mod, Z.shiftr_div_pow2 by lia. change (2 ^ 4) with 16. unfold in_u8.
  split_and!; [lia|lia|symmetry; apply (Z.div_unique _ _ _ l); lia|symmetry; apply (Z.mod_unique _ _ h); lia].
Qed.

Lemma write_hex_length (bs : list Z) : length (write_hex bs) = (length bs * 2)%nat.
Proof. induction bs as [|b bs IH]; [done|]. cbn [write_hex length]. lia. Qed.

Lemma hex_loop_write (bs : list Z) : Forall in_u8 bs -> hex_loop (write_hex bs) = Some bs.
Proof.
  induction 1 as [|b bs Hb Hbs IH]; [done|]. cbn [write_hex hex_loop]. destruct (nibbles b Hb) as (H1 & H2 & E).
  rewrite !isx_hex_char, IH, E by lia. rewrite !(proj2 (Z.eqb_neq _ 255)) by lia. done.
Qed.

Lemma hex_loop_some (n : nat) (s bs : list Z) :
  length s = (2 * n)%nat -> hex_loop s = Some bs ->
  length bs = n /\ Forall in_u8 bs /\ write_hex bs = lower_hex <$> s.
Proof.
  revert s bs. induction n as [|n IH]; intros s bs Hl; [destruct s; [by intros [= <-]|done]|].
  destruct s as [|c1 [|c2 s]]; cbn [length] in Hl; try lia. cbn [hex_loop].
  destruct (Z.eqb_spec (isx c1) 255) as [|H1]; [done|]. destruct (Z.eqb_spec (isx c2) 255) as [|H2]; [done|]. cbn [orb].
  destruct (hex_loop s) as [r|] eqn:E; [|done]. intros [= <-]. destruct (IH s r ltac:(lia) E) as (Hlen & Hr & Hw).
  destruct (isx_range c1) as [?|Hr1]; [done|]. destruct (isx_range c2) as [?|Hr2]; [done|].
  destruct (join_nibbles _ _ Hr1 Hr2) as (Hb & Eh & El). cbn [length write_hex fmap list_fmap].
  split_and!; [lia|by constructor|]. rewrite Eh, El, !hex_char_isx, Hw by done. done.
Qed.

Lemma even_half (n : nat) : Z.of_nat n mod 2 = 0 -> exists m, n = (2 * m)%nat.
Proof. intros Hm. exists (Z.to_nat (Z.of_nat n / 2)). pose proof (Z.div_mod (Z.of_nat n) 2 ltac:(lia)). lia. Qed.

Lemma include_isx (c : Z) : include c = false -> isx c = 0xff.
Proof. unfold include, hex_isspace, isx. repeat (zcase; cbn [andb orb negb]; try done); lia. Qed.

(** The loop on an even number of characters does not read past the end. *)
Lemma to_vector_loop_spec (fuel n : nat) (s : list Z) :
  (length s <= fuel)%nat -> length (List.filter include s) = (2 * n)%nat ->
  to_vector_loop fuel s = Throw \/
  exists r, to_vector_loop fuel s = Val r /\ hex_loop (List.filter include s) = Some r.
Proof.
  revert n s. induction fuel as [|fuel IH]; intros n [|c s] Hf Hn; cbn [length] in Hf; try lia; try (right; by eexists).
  cbn [to_vector_loop List.filter] in *. destruct (include c) eqn:Ec; cbn [negb]; [|by apply (IH n); [lia|]].
  unfold char_to_int. destruct (Z.eqb_spec (isx c) 255) as [|H1]; [by left|]. run. destruct s as [|c2 s]; cbn [length List.filter] in *; [lia|].
  destruct (include c2) eqn:Ec2; [|rewrite (include_isx c2 Ec2); by left]. destruct (Z.eqb_spec (isx c2) 255) as [|H2]; [by left|]. run.
  cbn [length] in Hn. destruct (IH (pred n) s ltac:(lia) ltac:(lia)) as [->|(r & -> & E)]; [by left|]. run. right. eexists. split; [done|].
  cbn [hex_loop]. rewrite E, !(proj2 (Z.eqb_neq _ 255)) by done. done.
Qed.

(** ** Lemmas on strings *)

Lemma read_hex4_tail (n : nat) (dst v : Z) (s r : list Z) :
  read_hex4 n dst s = Val (v, r) -> exists pre, s = pre ++ r.
Proof.
  revert dst s. induction n as [|n IH]; intros dst s; cbn [read_hex4]; [intros [= _ ->]; by exists []|].
  destruct s as [|c s]; [done|]. unfold throw_unless. destruct (negb _); [run|done]. intros [pre ->]%IH. by exists (c :: pre).
Qed.

Lemma read_hex4_suffix (n : nat) (dst v : Z) (s r : list Z) :
  read_hex4 n dst s = Val (v, r) -> (length r <= length s)%nat.
Proof. intros [pre ->]%read_hex4_tail. rewrite length_app. lia. Qed.

Lemma read_hex4_undef (n : nat) (dst : Z) (s : list Z) : read_hex4 n dst s = Undef -> (length s < n)%nat.
Proof.
  revert dst s. induction n as [|n IH]; intros dst s; cbn [read_hex4]; [done|].
  destruct s as [|c s]; [cbn; lia|]. unfold throw_unless. destruct (negb _); [run|done]. intros E%IH. cbn [length]. lia.
Qed.

(** A round for each character is enough. *)
Lemma match_loop_fuel (f f' : nat) (s : list Z) (e : bool) (val : list Z) :
  (length s <= f)%nat -> (length s <= f')%nat -> match_loop f s e val = match_loop f' s e val.
Proof.
  revert f' s e val. induction f as [|f IH]; intros [|f'] [|c s] e val H1 H2; cbn [length] in *; try lia; try done.
  cbn [match_loop]. destruct e.
  - destruct (c =? 117); [|apply IH; lia]. destruct (_ <? 4); [done|].
    destruct (read_hex4 4 0 s) as [[v r]| | | |] eqn:E; try done. rewrite !bind_val. cbv beta iota. apply read_hex4_suffix in E.
    destruct (utf8_of v) as [b| | | |]; try done. rewrite !bind_val. apply IH; lia.
  - destruct (c =? 34); [done|]. destruct (c =? 92); apply IH; lia.
Qed.

Lemma verbatim_loop (s val : list Z) :
  match_loop (length s) s false val = let '(v, r) := verbatim s in match_loop (length r) r false (val ++ v).
Proof.
  revert val. induction s as [|c s IH]; intros val; [done|]. cbn [verbatim]. unfold ends_verbatim.
  destruct ((c =? 34) || (c =? 92)) eqn:E; cbv iota beta; [by rewrite app_nil_r|]. apply orb_false_iff in E as [E1 E2].
  cbn [length match_loop]. rewrite E1, E2, IH. destruct (verbatim s) as [v r]. by rewrite <- app_assoc.
Qed.

(** An escaped character is read back. *)
Lemma escape_read (c x : Z) : escape_letter c = Some x -> x <> 117 /\ unescape_letter x = c.
Proof. unfold escape_letter. repeat (zcase; [intros [= <-]; by subst|]). done. Qed.

Lemma escape_none (c : Z) : escape_letter c = None -> (c =? 34) = false /\ (c =? 92) = false.
Proof. unfold escape_letter. repeat (zcase; [done|]). done. Qed.

Lemma match_escaped (s rest val : list Z) :
  match_loop (length (transform_to_escape_sequence s ++ 34 :: rest)) (transform_to_escape_sequence s ++ 34 :: rest) false val
  = Val (val ++ s, 34 :: rest).
Proof.
  revert val. induction s as [|c s IH]; intros val; [cbn; by rewrite app_nil_r|]. cbn [transform_to_escape_sequence].
  destruct (escape_letter c) as [x|] eqn:E.
  - destruct (escape_read c x E) as [Hx Hu]. cbn [app length match_loop]. change (92 =? 34) with false. change (92 =? 92) with true.
    rewrite (proj2 (Z.eqb_neq x 117)), Hu, IH by done. by rewrite <- app_assoc.
  - destruct (escape_none c E) as [E1 E2]. cbn [app length match_loop]. rewrite E1, E2, IH. by rewrite <- app_assoc.
Qed.

Lemma utf8_of_defined (v : Z) : utf8_of v <> Undef.
Proof. unfold utf8_of. by repeat case_match. Qed.

(** Where the loop can read at the end of the buffer. *)
Lemma match_loop_undef (fuel : nat) (s val : list Z) (e : bool) :
  match_loop fuel s e val = Undef ->
  (exists pre a b c, s = pre ++ [92; 117; a; b; c]) \/ (e = true /\ exists a b c, s = [117; a; b; c]).
Proof.
  revert s val e. induction fuel as [|fuel IH]; intros [|c s] val e; cbn [match_loop]; try done.
  assert (forall r e' val', match_loop fuel r e' val' = Undef -> (e' = true -> False) -> forall pre, s = pre ++ r ->
    exists pre a b c', c :: s = pre ++ [92; 117; a; b; c']) as Hskip.
  { intros r e' val' E He pre ->. destruct (IH r val' e' E) as [(p & a & b & c' & ->)|[He' _]]; [|by destruct He].
    exists (c :: pre ++ p), a, b, c'. cbn [app]. by rewrite <- app_assoc. }
  destruct e.
  - destruct (Z.eqb_spec c 117) as [->|Hc]; [|intros E; left; by apply (Hskip s false _ E ltac:(done) [])].
    destruct (Z.ltb_spec (Z.of_nat (length (117 :: s))) 4) as [|Hlen]; [done|]. cbn [length] in Hlen.
    destruct (read_hex4 4 0 s) as [[v r]| | | |] eqn:E; try done.
    + run. destruct (utf8_of v) as [b| | | |] eqn:Ev; try done; [run|by apply utf8_of_defined in Ev].
      intros Eu. left. destruct (read_hex4_tail 4 0 v s r E) as [pre Es]. by apply (Hskip r false _ Eu ltac:(done) pre).
    + apply read_hex4_undef in E. intros _. right. split; [done|]. destruct s as [|a [|b [|d [|? ?]]]]; cbn [length] in *; try lia. by exists a, b, d.
  - destruct (Z.eqb_spec c 34); [done|]. destruct (Z.eqb_spec c 92) as [->|].
    + intros E. left. destruct (IH s val true E) as [(p & a & b & c' & ->)|(_ & a & b & c' & ->)].
      * by exists (92 :: p), a, b, c'.
      * by exists [], a, b, c'.
    + intros E. left. by apply (Hskip s false _ E ltac:(done) []).
Qed.

(** ** Theorems *)

(** Hexadecimal is read back: what [write_hex] makes of any bytes, [to_buffer] turns into
    them, and a string that [to_buffer] accepts, of letters in either case, is what [write_hex] makes of
    the result but for the case. *)
Theorem hex_inverse (bs s r : list Z) (n : Z) :
  (Forall in_u8 bs -> to_buffer (Z.of_nat (length bs)) (write_hex bs) = Some bs) /\
  (to_buffer n s = Some r -> Z.of_nat (length r) = n /\ Forall in_u8 r /\ write_hex r = lower_hex <$> s).
Proof.
  unfold to_buffer, to_buffer_unchecked. split.
  - intros Hb. rewrite write_hex_length, Nat2Z.inj_mul. change (Z.of_nat 2) with 2.
    rewrite Z.div_mul, Z.mod_mul, Z.eqb_refl by lia. by apply hex_loop_write.
  - destruct (Z.eqb_spec (Z.of_nat (length s) / 2) n) as [<-|]; [|done]. cbn [negb].
    destruct (Z.eqb_spec (Z.of_nat (length s) mod 2) 0) as [Hm|]; [|done]. cbn [negb]. intros E.
    destruct (even_half _ Hm) as [m Hl]. destruct (hex_loop_some m s r Hl E) as (Hr & Hb & Hw).
    split_and!; [|done|done]. rewrite Hl, Hr. apply (Z.div_unique _ _ _ 0); lia.
Qed.

(** [from_hex_locale] throws or returns, and never reads past the end; what it returns is
    what the strict reader makes of the characters without spaces and colons. *)
Theorem to_vector_safe (s : list Z) :
  to_vector s = Throw \/ exists r, to_vector s = Val r /\ to_buffer_unchecked (List.filter include s) = Some r.
Proof.
  unfold to_vector, to_buffer_unchecked. destruct (Z.eqb_spec (Z.of_nat (length (List.filter include s)) mod 2) 0) as [Hm|]; [|by left].
  cbn [negb]. destruct (even_half _ Hm) as [m Hl]. by apply (to_vector_loop_spec (length s) m).
Qed.

(** It does not skip what is between the two letters of a byte. *)
Lemma to_vector_inside_byte : to_vector [97; 32; 98] = Throw /\ to_vector [97; 98; 32] = Val [0xab].
Proof. by split. Qed.

(** Every string that is escaped by [transform_to_escape_sequence] and put in quotes is read
    back by [match_string2], up to the closing quote. *)
Theorem json_string_roundtrip (s rest : list Z) :
  match_string2 (34 :: transform_to_escape_sequence s ++ 34 :: rest) = Val (s, 34 :: rest).
Proof.
  unfold match_string2. pose proof (verbatim_loop (transform_to_escape_sequence s ++ 34 :: rest) []) as E.
  rewrite match_escaped in E. destruct (verbatim _) as [v r]. cbn [app] in E. by rewrite <- E.
Qed.

(** The only input on which [match_string2] reads past its buffer is one that ends in a
    unicode escape of three digits: the check for four of them counts the letter u. *)
Theorem match_string2_bounds (s : list Z) :
  s <> [] -> match_string2 s = Undef -> exists pre a b c, s = pre ++ [92; 117; a; b; c].
Proof.
  destruct s as [|q s]; [done|]. intros _ E. unfold match_string2 in E. pose proof (verbatim_loop s []) as Ev.
  destruct (verbatim s) as [v r]. cbn [app] in Ev. rewrite <- Ev in E.
  destruct (match_loop_undef _ _ _ _ E) as [(p & a & b & c & ->)|[? _]]; [|done]. by exists (q :: p), a, b, c.
Qed.

Lemma match_string2_past_end : match_string2 [34; 92; 117; 48; 48; 52] = Undef.
Proof. done. Qed.

Lemma match_string2_bounds_witness : exists pre a b c, [34; 92; 117; 48; 48; 52] = pre ++ [92; 117; a; b; c].
Proof. apply (match_string2_bounds [34; 92; 117; 48; 48; 52]); [discriminate|reflexivity]. Defined.
