(* ===== verification/Checkpoints.v ===== *)
(** * Checkpoints

    src/src/checkpoints/checkpoints.cpp: known blocks, added from the table of the
    program, a file and DNS records; and their use in src/src/cryptonote_core/blockchain.cpp: the check
    of a new block, of an alternative one, and of the chain when checkpoints are updated.
    A [std::map] is the list of its entries in the order of the keys.  Strings and hashes are
    lists of bytes.  The number that Boost makes of a difficulty's text is an argument. *)

From Stdlib Require Import String.
From S2P Require Import Prelude EpeeText.

Definition text (s : string) : list Z := map (fun c => Z.of_N (Ascii.N_of_ascii c)) (String.list_ascii_of_string s).

(** ** Maps *)

Fixpoint points_find {A} (m : list (Z * A)) (k : Z) : option A :=
  match m with
  | [] => None
  | (k', a) :: m => if k =? k' then Some a else points_find m k
  end.

(** [m[k] = a]. *)
Fixpoint points_set {A} (m : list (Z * A)) (k : Z) (a : A) : list (Z * A) :=
  match m with
  | [] => [(k, a)]
  | (k', a') :: m' => if k <? k' then (k, a) :: m else if k =? k' then (k, a) :: m' else (k', a') :: points_set m' k a
  end.

(** The entries before [m.upper_bound(k)]. *)
Fixpoint before_upper_bound {A} (m : list (Z * A)) (k : Z) : list (Z * A) :=
  match m with
  | [] => []
  | (k', a) :: m => if k <? k' then [] else (k', a) :: before_upper_bound m k
  end.

(** ** Checkpoints *)

Record checkpoints := {
  m_points : list (Z * list Z);
  m_difficulty_points : list (Z * Z);
}.

Definition no_checkpoints : checkpoints := {| m_points := []; m_difficulty_points := [] |}.

Inductive network_type := MAINNET | TESTNET | STAGENET.

(** Another value is there already. *)
Definition conflicts {A} `{EqDecision A} (m : list (Z * A)) (k : Z) (a : A) : bool :=
  match points_find m k with None => false | Some a' => negb (bool_decide (a = a')) end.

Section checkpoints.
Context (parse_difficulty : list Z -> option Z).

Definition add_checkpoint (c : checkpoints) (height : Z) (hash_str difficulty_str : list Z) : checkpoints * bool :=
  match to_buffer 32 hash_str with
  | None => (c, false)
  | Some h =>
      if conflicts (m_points c) height h then (c, false)
      else
        let c := {| m_points := points_set (m_points c) height h; m_difficulty_points := m_difficulty_points c |} in
        if bool_decide (difficulty_str = []) then (c, true)
        else
          match parse_difficulty difficulty_str with
          | None => (c, false)
          | Some difficulty =>
              if conflicts (m_difficulty_points c) height difficulty then (c, false)
              else ({| m_points := m_points c;
                       m_difficulty_points := points_set (m_difficulty_points c) height difficulty |}, true)
          end
  end.

Definition is_in_checkpoint_zone (c : checkpoints) (height : Z) : bool :=
  match last (m_points c) with None => false | Some (k, _) => height <=? k end.

(** The result, and whether there is a checkpoint. *)
Definition check_block (c : checkpoints) (height : Z) (h : list Z) : bool * bool :=
  match points_find (m_points c) height with
  | None => (true, false)
  | Some h' => (bool_decide (h' = h), true)
  end.

Definition is_alternative_block_allowed (c : checkpoints) (blockchain_height block_height : Z) : bool :=
  if 0 =? block_height then false
  else
    match last (before_upper_bound (m_points c) blockchain_height) with
    | None => true
    | Some (checkpoint_height, _) => checkpoint_height <? block_height
    end.

Definition get_max_height (c : checkpoints) : Z :=
  match last (m_points c) with None => 0 | Some (k, _) => k end.

Definition check_for_conflicts (c other : checkpoints) : bool :=
  forallb (fun pt => negb (conflicts (m_points c) (fst pt) (snd pt))) (m_points other).

(** ADD_CHECKPOINT2 on each line, up to the first that fails. *)
Fixpoint add_all (lines : list (Z * list Z * list Z)) (c : checkpoints) : checkpoints * bool :=
  match lines with
  | [] => (c, true)
  | (height, hash, difficulty) :: lines =>
      let '(c, r) := add_checkpoint c height hash difficulty in
      if r then add_all lines c else (c, false)
  end.

Definition testnet_checkpoints : list (Z * string * string) := [
  (0, "48ca7cd3c8de5b6a4d53d2861fbdaedca141553559f9be9520068053cda8430b", "0x1");
  (1000000, "46b690b710a07ea051bc4a6b6842ac37be691089c0f7758cfeec4d5fc0b4a258", "0x7aaad7153");
  (1058600, "12904f6b4d9e60fd875674e07147d2c83d6716253f046af7b894c3e81da7e1bd", "0x971efd119");
  (1450000, "87562ca6786f41556b8d5b48067303a57dc5ca77155b35199aedaeca1550f5a0", "0xa639e2930e")]%string.

Definition stagenet_checkpoints : list (Z * string * string) := [
  (0, "76ee3cc98646292206cd3e86f74d88b4dcc1d937088645e9b0cbca84b7ce74eb", "0x1");
  (10000, "1f8b0ce313f8b9ba9a46108bfd285c45ad7c2176871fd41c3a690d4830ce2fd5", "0x1d73ba");
  (550000, "409f68cddd8e74b37469b41c1e61250d81c5776b42264f416d5d27c4626383ed", "0x5f3d4d03e")]%string.

Definition mainnet_checkpoints : list (Z * string * string) := [
  (1, "771fbcd656ec1464d3a02ead5e18644030007a0fc664c0a964d30922821a8148", "0x2");
  (10, "c0e3b387e47042f72d8ccdca88071ff96bff1ac7cde09ae113dbb7ad3fe92381", "0x2a974");
  (100, "ac3e11ca545e57c49fca2b4e8c48c03c23be047c43e471e1394528b1f9f80b2d", "0x35d14b");
  (1000, "5acfc45acffd2b2e7345caf42fa02308c5793f15ec33946e969e829f40b03876", "0x36a0373");
  (10000, "c758b7c81f928be3295d45e230646de8b852ec96a821eac3fea4daf3fcac0ca2", "0x60a91390");
  (22231, "7cb10e29d67e1c069e6e11b17d30b809724255fee2f6868dc14cfc6ed44dfb25", "0x1e288793d");
  (29556, "53c484a8ed91e4da621bb2fa88106dbde426fe90d7ef07b9c1e5127fb6f3a7f6", "0x71f64cce8");
  (50000, "0fe8758ab06a8b9cb35b7328fd4f757af530a5d37759f9d3e421023231f7b31c", "0x893044b400");
  (80000, "a62dcd7b536f22e003ebae8726e9e7276f63d594e264b6f0cd7aab27b66e75e3", "0x5cc113f1076");
  (202612, "bbd604d2ba11ba27935e006ed39c9bfdd99b76bf4a50654bc1e1e61217962698", "0x73310a259eb2");
  (202613, "e2aa337e78df1f98f462b3b1e560c6b914dec47b610698b7b7d1e3e86b6197c2", "0x733154039b97");
  (202614, "c29e3dc37d8da3e72e506e31a213a58771b24450144305bcba9e70fa4d6ea6fb", "0x73319dc90cb6");
  (205000, "5d3d7a26e6dc7535e34f03def711daa8c263785f73ec1fadef8a45880fde8063", "0x75fcc3d85123");
  (220000, "9613f455933c00e3e33ac315cc6b455ee8aa0c567163836858c2d9caff111553", "0x89cfed0cae3c");
  (230300, "bae7a80c46859db355556e3a9204a337ae8f24309926a1312323fdecf1920e61", "0x967d13e5baa9");
  (230700, "93e631240ceac831da1aebfc5dac8f722c430463024763ebafa888796ceaeedf", "0x96fb9663ebe7");
  (231350, "b5add137199b820e1ea26640e5c3e121fd85faa86a1e39cf7e6cc097bdeb1131", "0x97b9919177bf");
  (232150, "955de8e6b6508af2c24f7334f97beeea651d78e9ade3ab18fec3763be3201aa8", "0x98a038b612e8");
  (249380, "654fb0a81ce3e5caf7e3264a70f447d4bd07586c08fa50f6638cc54da0a52b2d", "0xac9739634e6d");
  (460000, "75037a7aed3e765db96c75bcf908f59d690a5f3390baebb9edeafd336a1c4831", "0x167799549bdda");
  (500000, "2428f0dbe49796be05ed81b347f53e1f7f44aed0abf641446ec2b94cae066b02", "0x188ce145e4ba9");
  (600000, "f5828ebf7d7d1cb61762c4dfe3ccf4ecab2e1aad23e8113668d981713b7a54c5", "0x1d9f3759e1554");
  (700000, "12be9b3d210b93f574d2526abb9c1ab2a881b479131fd0d4f7dac93875f503cd", "0x2201e4ee39c2c");
  (825000, "56503f9ad766774b575be3aff73245e9d159be88132c93d1754764f28da2ff60", "0x27565a442d5df");
  (900000, "d9958d0e7dcf91a5a7b11de225927bf7efc6eb26240315ce12372be902cc1337", "0x2a6334031546e");
  (913193, "5292d5d56f6ba4de33a58d9a34d263e2cb3c6fee0aed2286fd4ac7f36d53c85f", "0x2aefe7f40f5ea");
  (1000000, "a886ef5149902d8342475fee9bb296341b891ac67c4842f47a833f23c00ed721", "0x2edd71370f0e5");
  (1100000, "3fd720c5c8b3072fc1ccda922dec1ef25f9ed88a1e6ad4103d0fe00b180a5903", "0x390eb0035c53a");
  (1150000, "1dd16f626d18e1e988490dfd06de5920e22629c972c58b4d8daddea0038627b2", "0x422d5662e9e37");
  (1200000, "fa7d13a90850882060479d100141ff84286599ae39c3277c8ea784393f882d1f", "0x4c73503fc4aa3");
  (1300000, "31b34272343a44a9f4ac7de7a8fcf3b7d8a3124d7d6870affd510d2f37e74cd0", "0x723f49bc249d5");
  (1390000, "a8f5649dd4ded60eedab475f2bec8c934681c07e3cf640e9be0617554f13ff6c", "0xb4bba65e2841b");
  (1450000, "ac94e8860093bc7c83e4e91215cba1d663421ecf4067a0ae609c3a8b52bcfac2", "0x11a4aabdca9511");
  (1530000, "01759bce497ec38e63c78b1038892169203bb78f87e488172f6b854fcd63ba7e", "0x2819ce9f9e91e5");
  (1579000, "7d0d7a2346373afd41ed1e744a939fc5d474a7dbaa257be5c6fff4009e789241", "0x357a590e7dda83");
  (1668900, "ac2dcaf3d2f58ffcf8391639f0f1ebafcb8eac43c49479c7c37f611868d07568", "0x474226e475cc3b");
  (1775600, "1c6e01c661dc22cab939e79ec6a5272190624ce8356d2f7b958e4f9a57fdb05e", "0x5e3b9d206a27c6");
  (1856000, "9b57f17f29c71a3acd8a7904b93c41fa6eb8d2b7c73936ce4f1702d14880ba29", "0x6bde5e1caccee1");
  (1958000, "98a5d6e51afdf3146e0eefb10a66e8648d8d4d5c2742be8835e976ba217c9bb2", "0x79dd46d2a0971a");
  (2046000, "5e867f0b8baefed9244a681df97fc885d8ab36c3dfcd24c7a3abf3b8ac8b8314", "0x9cb8b6ff2978c6");
  (2092500, "c4e00820c9c7989b49153d5e90ae095a18a11d990e82fcc3be54e6ed785472b5", "0xb4e585a31369cb");
  (2182500, "0d22b5f81982eff21d094af9e821dc2007e6342069e3b1a37b15d97646353124", "0xead4a874083492");
  (2661600, "41c9060e8426012238e8a26da26fcb90797436896cc70886a894c2c560bcccf2", "0x2e0d87526ff161f");
  (2677000, "1b9fee6246eeb176bd17d637bf252e9af54a4218675f01b4449cc0901867f9eb", "0x2f165bc1a5163ba");
  (2706000, "d8eb144c5e1fe6b329ecc900ec95e7792fccff84175fb23a25ed59d7299a511c", "0x310f7d89372f705");
  (2720000, "b19fb41dff15bd1016afbee9f8469f05aab715c9e5d1b974466a11fd58ecbb86", "0x3216b5851ddbb61");
  (2817000, "39726d19ccaac01d150bec827b877ffae710b516bd633503662036ef4422e577", "0x3900669561954c1");
  (2844000, "28fc7b446dfef5b469f5778eb72ddf32a307a5f5a9823d1c394e772349e05d40", "0x3af384ec0e97d12");
  (2851000, "5bf0e47fc782263191a33f63a67db6c711781dc2a3c442e17ed901ec401be5c9", "0x3b6cd8a8ed610e8");
  (2971000, "3d4cac5ac515eeabd18769ab943af85f36db51d28720def0d0e6effc2c8f5ce3", "0x436e532738b8b5b");
  (2985000, "08f5e6b7301c1b6ed88268a28f8677a06e8ff943b3f9e48d3080f71f9c134bfb", "0x444b7b42a633c96");
  (3088000, "bddf8ca09110d33d6d497f13a113630c2b6af1c84d4f3a6f35cb1446f2604ade", "0x4aed3615c2f8c3e");
  (3102800, "083f4a34f9490403b564286e7f13fd1ed45c52c86fa47195f151594e5bc87504", "0x4bbed52d4da5dfb")]%string.

Definition default_checkpoints (nettype : network_type) : list (Z * list Z * list Z) :=
  map (fun '(height, hash, difficulty) => (height, text hash, text difficulty))
    match nettype with TESTNET => testnet_checkpoints | STAGENET => stagenet_checkpoints | MAINNET => mainnet_checkpoints end.

Definition init_default_checkpoints (nettype : network_type) (c : checkpoints) : checkpoints * bool :=
  add_all (default_checkpoints nettype) c.

(** The lines of a file, with no difficulty. *)
Fixpoint add_new_lines (prev_max_height : Z) (lines : list (Z * list Z)) (c : checkpoints) : checkpoints * bool :=
  match lines with
  | [] => (c, true)
  | (height, hash) :: lines =>
      if height <=? prev_max_height then add_new_lines prev_max_height lines c
      else
        let '(c, r) := add_checkpoint c height hash [] in
        if r then add_new_lines prev_max_height lines c else (c, false)
  end.

(** What is at the path: nothing, something that cannot be read, or lines. *)
Inductive hash_file := No_file | Bad_file | Lines (hashlines : list (Z * list Z)).

Definition load_checkpoints_from_json (file : hash_file) (c : checkpoints) : checkpoints * bool :=
  match file with
  | No_file => (c, true)
  | Bad_file => (c, false)
  | Lines hashlines => add_new_lines (get_max_height c) hashlines c
  end.

(** The records that have a height and a hash, in their order. *)
Fixpoint add_records (records : list (Z * list Z)) (c : checkpoints) : checkpoints * bool :=
  match records with
  | [] => (c, true)
  | (height, hash) :: records =>
      match to_buffer 32 hash with
      | None => add_records records c
      | Some _ =>
          let '(c, r) := add_checkpoint c height hash [] in
          if r then add_records records c else (c, false)
      end
  end.

(** [None] when the lookup fails; a record comes split at its colon and with the height read. *)
Definition load_checkpoints_from_dns (records : option (list (Z * list Z))) (c : checkpoints) : checkpoints * bool :=
  match records with
  | None => (c, true)
  | Some records => add_records records c
  end.

Definition load_new_checkpoints (file : hash_file) (records : option (list (Z * list Z))) (dns : bool) (c : checkpoints) :
    checkpoints * bool :=
  let '(c, result) := load_checkpoints_from_json file c in
  if dns then
    let '(c, r) := load_checkpoints_from_dns records c in
    (c, result && r)
  else (c, result).

(** ** The chain

    The hashes of its blocks, from height 0 on. *)

(** The check of a block that is to extend the chain. *)
Definition passes_checkpoints (c : checkpoints) (blockchain_height : Z) (id : list Z) : bool :=
  if is_in_checkpoint_zone c blockchain_height then fst (check_block c blockchain_height id) else true.

(** An exception when there is no such block. *)
Definition get_block_hash_from_height (chain : list (list Z)) (height : Z) : outcome (list Z) :=
  match chain !! Z.to_nat height with Some h => Val h | None => Throw end.

(** What [pop_block_from_blockchain] does to the chain: the genesis block cannot be popped. *)
Definition pop_block_from_blockchain (chain : list (list Z)) : outcome (list (list Z)) :=
  _ ← throw_unless (1 <? Z.of_nat (length chain));
  Val (take (length chain - 1) chain).

Fixpoint pop_while (n : nat) (chain : list (list Z)) : outcome (list (list Z)) :=
  match n with
  | O => Val chain
  | S n => chain ← pop_block_from_blockchain chain; pop_while n chain
  end.

(** The chain after [rollback_blockchain_switching] with no blocks to put back; the loop goes on
    until the height is the one given. *)
Definition rollback (chain : list (list Z)) (rollback_height : Z) : outcome (list (list Z)) :=
  if Z.of_nat (length chain) <? rollback_height then Val chain
  else pop_while (length chain - Z.to_nat rollback_height) chain.

Fixpoint check_points (points : checkpoints) (enforce : bool) (blockchain_height : Z) (pts : list (Z * list Z)) (chain : list (list Z)) :
    outcome (list (list Z)) :=
  match pts with
  | [] => Val chain
  | (height, _) :: pts =>
      if blockchain_height <=? height then check_points points enforce blockchain_height pts chain
      else
        h ← get_block_hash_from_height chain height;
        chain ← (if negb (fst (check_block points height h)) && enforce then rollback chain (u64 (height - 2)) else Val chain);
        check_points points enforce blockchain_height pts chain
  end.

Definition check_against_checkpoints (points : checkpoints) (enforce : bool) (chain : list (list Z)) : outcome (list (list Z)) :=
  check_points points enforce (Z.of_nat (length chain)) (m_points points) chain.

Definition update_checkpoints (file : hash_file) (records : option (list (Z * list Z))) (enforce_dns check_dns offline : bool)
    (c : checkpoints) (chain : list (list Z)) : outcome (checkpoints * list (list Z) * bool) :=
  let '(c, r) := load_checkpoints_from_json file c in
  if negb r then Val (c, chain, false)
  else if enforce_dns && check_dns && negb offline then
    let '(c, r) := load_checkpoints_from_dns records c in
    if negb r then Val (c, chain, false)
    else
      chain ← check_against_checkpoints c true chain;
      Val (c, chain, true)
  else
    let dns_points := fst (load_checkpoints_from_dns records no_checkpoints) in
    chain ←
      match check_dns && negb offline && check_for_conflicts c dns_points with
      | true => check_against_checkpoints dns_points false chain
      | false => Val chain
      end;
    chain ← check_against_checkpoints c true chain;
    Val (c, chain, true).
End checkpoints.

(** ** Lemmas *)

(** In the order of the keys, each key once. *)
Definition ordered {A} (m : list (Z * A)) : Prop := StronglySorted (fun p q => p.1 < q.1) m.

Lemma points_find_set {A} (m : list (Z * A)) (k j : Z) (a : A) :
  ordered m -> points_find (points_set m k a) j = if j =? k then Some a else points_find m j.
Proof.
  induction 1 as [|[k' a'] m Hm IH Hk]; cbn [points_set points_find]; [done|].
  destruct (Z.ltb_spec k k'); [done|]. destruct (Z.eqb_spec k k') as [->|]; cbn [points_find].
  - by destruct (j =? k').
  - rewrite IH. destruct (Z.eqb_spec j k'), (Z.eqb_spec j k); (done || lia).
Qed.

Lemma points_set_ordered {A} (m : list (Z * A)) (k : Z) (a : A) : ordered m -> ordered (points_set m k a).
Proof.
  unfold ordered. induction 1 as [|[k' a'] m Hm IH Hk]; cbn [points_set]; [by repeat constructor|].
  destruct (Z.ltb_spec k k').
  - constructor; [by constructor|]. constructor; [done|]. eapply Forall_impl; [done|]. cbn. intros ??. lia.
  - destruct (Z.eqb_spec k k') as [->|]; [by constructor|]. constructor; [done|]. clear IH Hm.
    induction Hk as [|[k2 a2] m H2 Hk IHk]; cbn [points_set]; [constructor; [cbn; lia|constructor]|]. cbn in H2.
    destruct (Z.ltb_spec k k2); [constructor; [cbn; lia|by constructor]|].
    destruct (Z.eqb_spec k k2); constructor; try (cbn; lia); done.
Qed.

Lemma ordered_find {A} (m : list (Z * A)) (k : Z) (a : A) : ordered m -> In (k, a) m -> points_find m k = Some a.
Proof.
  induction 1 as [|[k' a'] m Hm IH Hk]; [done|]. intros [E|Hi]; cbn [points_find].
  - injection E as -> ->. by rewrite Z.eqb_refl.
  - rewrite Forall_forall in Hk. specialize (Hk (k, a) (proj2 (list_elem_of_In _ _) Hi)). cbn in Hk.
    rewrite (proj2 (Z.eqb_neq _ _)) by lia. by apply IH.
Qed.

Lemma find_ordered {A} (m : list (Z * A)) (k : Z) (a : A) : points_find m k = Some a -> In (k, a) m.
Proof.
  induction m as [|[k' a'] m IH]; [done|]. cbn [points_find]. destruct (Z.eqb_spec k k') as [->|]; [intros [= ->]; by left|].
  intros E. right. by apply IH.
Qed.

(** The last entry has the greatest key. *)
Lemma ordered_last {A} (m : list (Z * A)) (k : Z) (a : A) :
  ordered m -> last m = Some (k, a) -> In (k, a) m /\ forall k' a', In (k', a') m -> k' <= k.
Proof.
  induction 1 as [|[k1 a1] m Hm IH Hk]; [done|]. destruct m as [|p m]; cbn.
  - intros [= -> ->]. split; [by left|]. intros k' a' [E|[]]. injection E as -> ->. lia.
  - intros E. destruct (IH E) as [Hi Hmax]. split; [by right|]. intros k' a' [E'|Hi']; [|by apply (Hmax k' a')].
    injection E' as <- <-. rewrite Forall_forall in Hk. specialize (Hk (k, a) (proj2 (list_elem_of_In _ _) Hi)). cbn in Hk. lia.
Qed.

Lemma before_upper_bound_spec {A} (m : list (Z * A)) (k : Z) :
  ordered m -> ordered (before_upper_bound m k) /\
  forall k' a, In (k', a) (before_upper_bound m k) <-> In (k', a) m /\ k' <= k.
Proof.
  unfold ordered. induction 1 as [|[k1 a1] m Hm [IHo IH] Hk]; cbn [before_upper_bound].
  { split; [constructor|]. intros ??. cbn. tauto. }
  destruct (Z.ltb_spec k k1) as [Hlt|Hge].
  - split; [constructor|]. intros k' a. cbn. split; [done|]. intros [[E|Hi] Hle]; [injection E as -> ->; lia|].
    rewrite Forall_forall in Hk. specialize (Hk (k', a) (proj2 (list_elem_of_In _ _) Hi)). cbn in Hk. lia.
  - split.
    + constructor; [done|]. rewrite Forall_forall in *. intros [k2 a2] H2. apply Hk.
      apply list_elem_of_In in H2. apply IH in H2 as [H2 _]. by apply list_elem_of_In.
    + intros k' a. cbn. rewrite IH. split.
      * intros [E|[Hi Hle]]; [injection E as -> ->; split; [by left|lia]|]. split; [by right|done].
      * intros [[E|Hi] Hle]; [by left|by right].
Qed.

(** Well-formed checkpoints. *)
Definition wf (c : checkpoints) : Prop := ordered (m_points c) /\ ordered (m_difficulty_points c).

Section theorems.
Context (parse_difficulty : list Z -> option Z).

(** What the steps of [add_checkpoint] do to the points. *)
Lemma add_checkpoint_wf (c c' : checkpoints) (height : Z) (hash difficulty : list Z) (r : bool) :
  wf c -> add_checkpoint parse_difficulty c height hash difficulty = (c', r) -> wf c'.
Proof.
  intros [Ho Hd]. unfold add_checkpoint. destruct (to_buffer 32 hash) as [h|]; [|by intros [= <- _]].
  destruct (conflicts _ _ _); [by intros [= <- _]|]. pose proof (points_set_ordered (m_points c) height h Ho) as Hm.
  case_bool_decide; [by intros [= <- _]|]. destruct (parse_difficulty difficulty) as [d|]; [|by intros [= <- _]].
  destruct (conflicts _ _ _); intros [= <- _]; split; try done. by apply points_set_ordered.
Qed.

(** [add_checkpoint] keeps the maps in order.  It succeeds only with a hash of 64
    hexadecimal letters, which is then the checkpoint of the height and differs from none that was there; the checkpoints
    of other heights stay; and no call, failed or not, changes the hash of a checkpoint. *)
Theorem add_checkpoint_safe (c c' : checkpoints) (height : Z) (hash difficulty : list Z) (r : bool) :
  wf c -> add_checkpoint parse_difficulty c height hash difficulty = (c', r) ->
  wf c' /\
  (forall k h, points_find (m_points c) k = Some h -> points_find (m_points c') k = Some h) /\
  (forall k, k <> height -> points_find (m_points c') k = points_find (m_points c) k) /\
  (r = true -> exists h, to_buffer 32 hash = Some h /\ points_find (m_points c') height = Some h).
Proof.
  intros Hwf E. split; [by eapply add_checkpoint_wf|]. destruct Hwf as [Ho _]. revert E.
  unfold add_checkpoint. destruct (to_buffer 32 hash) as [h|]; [|by intros [= <- <-]].
  destruct (conflicts (m_points c) height h) eqn:Ec; [by intros [= <- <-]|]. set (m := points_set (m_points c) height h).
  assert (forall k, points_find m k = if k =? height then Some h else points_find (m_points c) k) as Hfind
    by (intros k; by apply points_find_set).
  assert ((forall k x, points_find (m_points c) k = Some x -> points_find m k = Some x) /\
    (forall k, k <> height -> points_find m k = points_find (m_points c) k) /\ points_find m height = Some h) as (H1 & H2 & H3).
  { split_and!; [|intros k Hk; rewrite Hfind; by rewrite (proj2 (Z.eqb_neq _ _))|rewrite Hfind; by rewrite Z.eqb_refl].
    intros k x Hx. rewrite Hfind. destruct (Z.eqb_spec k height) as [->|]; [|done].
    unfold conflicts in Ec. rewrite Hx in Ec. by case_bool_decide; subst. }
  cbn [m_points m_difficulty_points]. case_bool_decide; [intros [= <- <-]; split_and!; (done || by eexists)|].
  destruct (parse_difficulty difficulty) as [d|]; [|by intros [= <- <-]].
  destruct (conflicts (m_difficulty_points c) height d); intros [= <- <-]; split_and!; (done || by eexists).
Qed.

(** An alternative block is allowed exactly when it is not the first one and is above every
    checkpoint up to the height of the chain. *)
Theorem alternative_allowed_iff (c : checkpoints) (blockchain_height block_height : Z) :
  wf c ->
  is_alternative_block_allowed c blockchain_height block_height = true <->
  block_height <> 0 /\ forall k h, In (k, h) (m_points c) -> k <= blockchain_height -> k < block_height.
Proof.
  intros [Ho _]. unfold is_alternative_block_allowed. destruct (Z.eqb_spec 0 block_height) as [<-|Hb]; [by split; [|intros []]|].
  destruct (before_upper_bound_spec (m_points c) blockchain_height Ho) as [Hbo Hin].
  destruct (last (before_upper_bound (m_points c) blockchain_height)) as [[k a]|] eqn:El.
  - destruct (ordered_last _ _ _ Hbo El) as [Hk Hmax]. rewrite Z.ltb_lt. split.
    + intros Hlt. split; [lia|]. intros k' h' Hi Hle. specialize (Hmax k' h' (proj2 (Hin k' h') (conj Hi Hle))). lia.
    + intros [_ Hall]. apply Hin in Hk as [Hi Hle]. by apply (Hall k a).
  - apply last_None in El. split; [|done]. intros _. split; [lia|]. intros k h Hi Hle.
    pose proof (proj2 (Hin k h) (conj Hi Hle)) as Hx. by rewrite El in Hx.
Qed.
End theorems.

(** ** The table of the program *)

Section table.
Context (parse_difficulty : list Z -> option Z).

(** A text with 0x is read in base 16, as Boost documents. *)
Context (Hparse : forall ds, ds <> [] -> (length ds <= 32)%nat -> Forall (fun c => isx c <> 0xff) ds ->
  parse_difficulty (48 :: 120 :: ds) = Some (of_digits 16 (map isx ds))).

Definition parse_hex (s : list Z) : option Z :=
  match s with
  | a :: b :: ds => if (a =? 48) && (b =? 120) then Some (of_digits 16 (map isx ds)) else None
  | _ => None
  end.

Definition hex_number (s : list Z) : bool :=
  match s with
  | a :: b :: ds =>
      (a =? 48) && (b =? 120) && negb (bool_decide (ds = [])) && (Z.of_nat (length ds) <=? 32) &&
      forallb (fun c => negb (isx c =? 0xff)) ds
  | _ => false
  end.

Lemma parse_hex_number (s : list Z) : hex_number s = true -> parse_difficulty s = parse_hex s.
Proof.
  destruct s as [|a [|b ds]]; try done. unfold hex_number, parse_hex. rewrite !andb_true_iff. intros [[[[Ha Hb] Hn] Hl] Hx].
  apply Z.eqb_eq in Ha as ->. apply Z.eqb_eq in Hb as ->. apply Hparse.
  - intros ->. done.
  - lia.
  - apply Forall_forall. intros c Hc. rewrite forallb_forall in Hx. specialize (Hx c (proj1 (list_elem_of_In _ _) Hc)).
    by destruct (Z.eqb_spec (isx c) 255).
Qed.

Lemma add_all_ext (lines : list (Z * list Z * list Z)) (c : checkpoints) :
  forallb (fun l => hex_number l.2) lines = true -> add_all parse_difficulty lines c = add_all parse_hex lines c.
Proof.
  revert c. induction lines as [|[[height hash] d] lines IH]; intros c; [done|]. cbn [forallb]. intros [Hd Hl]%andb_true_iff.
  cbn [add_all]. assert (add_checkpoint parse_difficulty c height hash d = add_checkpoint parse_hex c height hash d) as ->.
  { unfold add_checkpoint. by rewrite (parse_hex_number d Hd). }
  destruct (add_checkpoint _ _ _ _ _) as [c1 []]; [by apply IH|done].
Qed.

Lemma init_ext (nettype : network_type) (c : checkpoints) :
  init_default_checkpoints parse_difficulty nettype c = init_default_checkpoints parse_hex nettype c.
Proof. apply add_all_ext. destruct nettype; vm_compute; reflexivity. Qed.
End table.

(** The hash of the first mainnet checkpoint. *)
Definition mainnet_block_1 : list Z := default [] (to_buffer 32 (text "771fbcd656ec1464d3a02ead5e18644030007a0fc664c0a964d30922821a8148")).

Definition points_of (nettype : network_type) : checkpoints := fst (init_default_checkpoints parse_hex nettype no_checkpoints).

Lemma points_of_eq (nettype : network_type) :
  init_default_checkpoints parse_hex nettype no_checkpoints = (points_of nettype, true).
Proof. destruct nettype; vm_compute; reflexivity. Qed.

Lemma mainnet_points : points_find (m_points (points_of MAINNET)) 1 = Some mainnet_block_1 /\
  option_map fst (last (m_points (points_of MAINNET))) = Some 3102800.
Proof. vm_compute. done. Qed.

Lemma init_default_wf (nettype : network_type) : wf (points_of nettype).
Proof.
  cut (forall lines c c' r, wf c -> add_all parse_hex lines c = (c', r) -> wf c').
  { intros H. apply (H (default_checkpoints nettype) no_checkpoints (points_of nettype) true); [by split; constructor|]. apply points_of_eq. }
  induction lines as [|[[height hash] d] lines IH]; intros c c' r Hc; cbn [add_all]; [by intros [= <- _]|].
  destruct (add_checkpoint parse_hex c height hash d) as [c1 r1] eqn:E. apply add_checkpoint_wf in E; [|done].
  destruct r1; [by apply IH|by intros [= <- _]].
Qed.

(** ** The chain against the checkpoints *)

Section chain.
Context (points : checkpoints).

(** The chain has the block of the checkpoint, or is not that long. *)
Definition holds (chain : list (list Z)) (p : Z * list Z) : Prop :=
  Z.of_nat (length chain) <= p.1 \/ (0 <= p.1 /\ chain !! Z.to_nat p.1 = Some p.2).

Lemma check_points_hold (enforce : bool) (chain : list (list Z)) (pre post : list (Z * list Z)) :
  wf points -> (forall p, In p pre -> In p (m_points points)) -> Forall (holds chain) pre ->
  check_points points enforce (Z.of_nat (length chain)) (pre ++ post) chain
  = check_points points enforce (Z.of_nat (length chain)) post chain.
Proof.
  intros [Ho _] Hin Hh. induction Hh as [|[k h] pre Hk Hpre IH]; [done|]. cbn [app check_points].
  specialize (IH ltac:(intros p Hp; apply Hin; by right)). destruct (Z.leb_spec (Z.of_nat (length chain)) k) as [|Hlt]; [done|].
  destruct Hk as [Hk|[H0 Hk]]; cbn in Hk; [lia|]. unfold get_block_hash_from_height. rewrite Hk. run.
  unfold check_block. rewrite (ordered_find _ k h Ho) by (apply Hin; by left). cbn [fst]. rewrite bool_decide_true by done. cbn [negb andb]. by run.
Qed.

(** The genesis block is never popped. *)
Lemma pop_while_spec (n : nat) (chain : list (list Z)) :
  (n <= length chain)%nat -> pop_while n chain = if (0 <? n)%nat && (n =? length chain)%nat then Throw else Val (take (length chain - n) chain).
Proof.
  revert chain. induction n as [|n IH]; intros chain Hn; [by rewrite Nat.sub_0_r, take_ge by lia|].
  cbn [pop_while]. unfold pop_block_from_blockchain, throw_unless. destruct (Z.ltb_spec 1 (Z.of_nat (length chain))).
  - run. run. assert (length (take (length chain - 1) chain) = length chain - 1)%nat as El by (rewrite length_take; lia).
    rewrite IH, El by lia. destruct (Nat.eqb_spec (S n) (length chain)) as [E|E].
    + rewrite (proj2 (Nat.ltb_lt _ _)), (proj2 (Nat.eqb_eq _ _)) by lia. done.
    + rewrite (proj2 (Nat.eqb_neq n _)), andb_false_r by lia. cbn [Nat.ltb Nat.leb andb]. rewrite take_take. do 2 f_equal. lia.
  - destruct (Nat.eqb_spec (S n) (length chain)); [done|lia].
Qed.

(** Nothing below the height that the chain had is left to check, or the lookup fails. *)
Lemma check_points_after (n : Z) (post : list (Z * list Z)) (chain : list (list Z)) :
  Forall (fun p => Z.of_nat (length chain) <= p.1) post -> ordered post ->
  check_points points true n post chain = if existsb (fun p => p.1 <? n) post then Throw else Val chain.
Proof.
  intros Hf. induction Hf as [|[k h] post Hk Hf IH]; [done|]. intros Ho. apply StronglySorted_inv in Ho as [Ho Hl].
  cbn [check_points existsb fst]. cbn in Hk. destruct (Z.leb_spec n k).
  - rewrite (proj2 (Z.ltb_ge _ _)) by lia. by apply IH.
  - rewrite (proj2 (Z.ltb_lt _ _)) by lia. unfold get_block_hash_from_height. rewrite lookup_ge_None_2 by lia. done.
Qed.
End chain.

(** C33. When checkpoints are enforced on a chain whose first wrong block is at the checkpoint
    k >= 2, the chain is cut to height k - 2 if that leaves the genesis block and no later checkpoint is
    below its old height; otherwise an exception leaves the function, because the genesis block is to be
    popped (k = 2) or the hash of a block that was just removed is asked for. *)
Theorem enforce_first_failure (points : checkpoints) (chain : list (list Z)) (pre post : list (Z * list Z)) (k : Z) (h : list Z) :
  wf points -> m_points points = pre ++ (k, h) :: post -> Forall (holds chain) pre ->
  2 <= k < Z.of_nat (length chain) -> Z.of_nat (length chain) < 2 ^ 64 -> chain !! Z.to_nat k <> Some h ->
  check_against_checkpoints points true chain
  = if (k =? 2) || existsb (fun p => p.1 <? Z.of_nat (length chain)) post then Throw else Val (take (Z.to_nat (k - 2)) chain).
Proof.
  intros Hwf Ep Hpre Hk Hlen Hne. unfold check_against_checkpoints. rewrite Ep.
  rewrite check_points_hold by (done || (intros p Hp; rewrite Ep; apply in_app_iff; by left)).
  cbn [check_points]. rewrite (proj2 (Z.leb_gt _ _)) by lia. unfold get_block_hash_from_height.
  destruct (lookup_lt_is_Some_2 chain (Z.to_nat k) ltac:(lia)) as [h' Hh']. rewrite Hh'. run.
  destruct Hwf as [Ho _]. unfold check_block.
  rewrite (ordered_find _ k h Ho) by (rewrite Ep; apply in_app_iff; right; by left). cbn [fst].
  rewrite bool_decide_false by congruence. cbn [negb andb]. unfold rollback, u64. rewrite Z.mod_small by lia.
  rewrite (proj2 (Z.ltb_ge _ _)) by lia. rewrite pop_while_spec by lia. rewrite (proj2 (Nat.ltb_lt 0 _)) by lia. cbn [andb].
  destruct (Z.eqb_spec k 2) as [->|]; [by rewrite (proj2 (Nat.eqb_eq _ _)) by lia|].
  rewrite (proj2 (Nat.eqb_neq _ _)) by lia. run. cbn [orb].
  replace (length chain - (length chain - Z.to_nat (k - 2)))%nat with (Z.to_nat (k - 2)) by lia.
  rewrite Ep in Ho. apply StronglySorted_app_1_r in Ho.
  apply StronglySorted_inv in Ho as [Ho Hl]. apply check_points_after; [|done].
  eapply Forall_impl; [done|]. intros [k' h''] Hk'. cbn in *. rewrite length_take. lia.
Qed.

(** At a checkpoint at height 0 or 1 nothing is cut: the height to cut to wraps around. *)
Lemma enforce_low_checkpoint (points : checkpoints) (chain : list (list Z)) (k : Z) (h : list Z) (post : list (Z * list Z)) :
  wf points -> m_points points = (k, h) :: post -> 0 <= k < 2 -> k < Z.of_nat (length chain) < 2 ^ 63 ->
  Forall (fun p => Z.of_nat (length chain) <= p.1) post ->
  check_against_checkpoints points true chain = Val chain.
Proof.
  intros [Ho _] Ep Hk Hlen Hpost. unfold check_against_checkpoints. rewrite Ep. cbn [check_points].
  rewrite (proj2 (Z.leb_gt _ _)) by lia. unfold get_block_hash_from_height.
  destruct (lookup_lt_is_Some_2 chain (Z.to_nat k) ltac:(lia)) as [h' Hh']. rewrite Hh'. run.
  assert (rollback chain (u64 (k - 2)) = Val chain) as Er.
  { unfold rollback. rewrite u64_sub_wrap by (unfold_words; lia). by rewrite (proj2 (Z.ltb_lt _ _)) by lia. }
  assert ((if negb (fst (check_block points k h')) && true then rollback chain (u64 (k - 2)) else Val chain) = Val chain) as ->
    by (destruct (negb _ && true); done). run.
  rewrite Ep in Ho. apply StronglySorted_inv in Ho as [Ho _]. rewrite check_points_after by done.
  replace (existsb _ post) with false; [done|]. symmetry. apply not_true_is_false. intros Hx.
  apply existsb_exists in Hx as ([k' h''] & Hi & Hx). rewrite Forall_forall in Hpost.
  specialize (Hpost _ (proj2 (list_elem_of_In _ _) Hi)). cbn in *. lia.
Qed.

(** The mainnet table is added without a conflict, and with it no block but one, the one
    with the hash that the table has for height 1, can follow the genesis block. *)
Theorem mainnet_first_block (parse_difficulty : list Z -> option Z)
    (Hparse : forall ds, ds <> [] -> (length ds <= 32)%nat -> Forall (fun c => isx c <> 0xff) ds ->
      parse_difficulty (48 :: 120 :: ds) = Some (of_digits 16 (map isx ds))) :
  exists c, init_default_checkpoints parse_difficulty MAINNET no_checkpoints = (c, true) /\ wf c /\
    (forall height, is_in_checkpoint_zone c height = (height <=? 3102800)) /\
    (forall id, passes_checkpoints c 1 id = true <-> id = mainnet_block_1).
Proof.
  exists (points_of MAINNET). rewrite (init_ext _ Hparse), points_of_eq. destruct mainnet_points as [H1 Hlast].
  assert (forall height, is_in_checkpoint_zone (points_of MAINNET) height = (height <=? 3102800)) as Hz.
  { intros height. unfold is_in_checkpoint_zone. destruct (last _) as [[k a]|]; [|done]. injection Hlast as ->. done. }
  split_and!; [done|apply init_default_wf|done|]. intros id. unfold passes_checkpoints, check_block. rewrite Hz, H1.
  change (1 <=? 3102800) with true. cbn [fst]. rewrite bool_decide_eq_true.
  split; intros E; symmetry; exact E.
Qed.

(** ** Witnesses *)

Definition one_point : checkpoints := {| m_points := [(5, [1])]; m_difficulty_points := [] |}.

Lemma one_point_wf : wf one_point.
Proof. split; repeat constructor. Defined.

Lemma add_checkpoint_safe_witness :
  wf (fst (add_checkpoint parse_hex one_point 7 (write_hex (replicate 32 9)) (text "0x2"))) /\
  (forall k h, points_find (m_points one_point) k = Some h ->
     points_find (m_points (fst (add_checkpoint parse_hex one_point 7 (write_hex (replicate 32 9)) (text "0x2")))) k = Some h) /\
  (forall k, k <> 7 -> points_find (m_points (fst (add_checkpoint parse_hex one_point 7 (write_hex (replicate 32 9)) (text "0x2")))) k
     = points_find (m_points one_point) k) /\
  (true = true -> exists h, to_buffer 32 (write_hex (replicate 32 9)) = Some h /\
     points_find (m_points (fst (add_checkpoint parse_hex one_point 7 (write_hex (replicate 32 9)) (text "0x2")))) 7 = Some h).
Proof. apply (add_checkpoint_safe parse_hex one_point _ 7 _ (text "0x2") true one_point_wf). reflexivity. Defined.

Lemma alternative_allowed_iff_witness :
  is_alternative_block_allowed one_point 10 6 = true <->
  6 <> 0 /\ forall k h, In (k, h) (m_points one_point) -> k <= 10 -> k < 6.
Proof. apply (alternative_allowed_iff one_point 10 6 one_point_wf). Defined.

(** Checkpoints 3 and 5 on a chain of seven blocks, none of which is theirs. *)
Definition two_points : checkpoints := {| m_points := [(3, [1]); (5, [1])]; m_difficulty_points := [] |}.

Lemma enforce_first_failure_witness :
  check_against_checkpoints two_points true (replicate 7 [0])
  = if (3 =? 2) || existsb (fun p => p.1 <? 7) [(5, [1])] then Throw else Val (take (Z.to_nat (3 - 2)) (replicate 7 [0])).
Proof.
  apply (enforce_first_failure two_points (replicate 7 [0]) [] [(5, [1])] 3 [1]).
  - split; repeat constructor.
  - reflexivity.
  - constructor.
  - vm_compute. by split.
  - reflexivity.
  - discriminate.
Defined.

Lemma mainnet_first_block_witness :
  exists c, init_default_checkpoints parse_hex MAINNET no_checkpoints = (c, true) /\ wf c /\
    (forall height, is_in_checkpoint_zone c height = (height <=? 3102800)) /\
    (forall id, passes_checkpoints c 1 id = true <-> id = mainnet_block_1).
Proof. apply (mainnet_first_block parse_hex). reflexivity. Defined.
