(* ===== verification/RollingMedian.v ===== *)
(** * The rolling median

    rolling_median_t of src/contrib/epee/include/rolling_median.h, which keeps the median
    of the last N values: a circular queue of values, a heap of indices into it, with the
    median at 0, the values above it at positive and those below it at negative places, and the place
    of each index.  The theorem is that it returns what sorting the last N values
    returns, with every access inside its arrays.  Capacities are below 2^27, where the count of
    bytes that the constructor allocates fits its [int]; no index then comes near the end of an
    [int], so indices are integers here. *)

From S2P Require Import Prelude Coinbase.

(** [heap] is the middle of the storage: its place i is at i + N / 2 of the list. *)
Record rolling_median_t := {
  data : list Z;
  pos : list Z;
  heap : list Z;
  N : Z;
  idx : Z;
  minCt : Z;
  maxCt : Z;
  sz : Z;
}.

Definition set_data (st : rolling_median_t) (d : list Z) : rolling_median_t :=
  {| data := d; pos := pos st; heap := heap st; N := N st; idx := idx st; minCt := minCt st; maxCt := maxCt st; sz := sz st |}.
Definition set_heap_pos (st : rolling_median_t) (h p : list Z) : rolling_median_t :=
  {| data := data st; pos := p; heap := h; N := N st; idx := idx st; minCt := minCt st; maxCt := maxCt st; sz := sz st |}.
Definition set_counts (st : rolling_median_t) (lo hi : Z) : rolling_median_t :=
  {| data := data st; pos := pos st; heap := heap st; N := N st; idx := idx st; minCt := hi; maxCt := lo; sz := sz st |}.
Definition set_queue (st : rolling_median_t) (i n : Z) : rolling_median_t :=
  {| data := data st; pos := pos st; heap := heap st; N := N st; idx := i; minCt := minCt st; maxCt := maxCt st; sz := n |}.

Definition heap_at (st : rolling_median_t) (i : Z) : outcome Z := c_index (heap st) (i + N st / 2).

(** [data[heap[i]]]. *)
Definition item_at (st : rolling_median_t) (i : Z) : outcome Z :=
  h ← heap_at st i;
  c_index (data st) h.

Definition mmless (st : rolling_median_t) (i j : Z) : outcome bool :=
  a ← item_at st i;
  b ← item_at st j;
  Val (a <? b).

Definition mmexchange (st : rolling_median_t) (i j : Z) : outcome rolling_median_t :=
  t ← heap_at st i;
  hj ← heap_at st j;
  h ← c_update (heap st) (i + N st / 2) hj;
  h ← c_update h (j + N st / 2) t;
  hi ← c_index h (i + N st / 2);
  p ← c_update (pos st) hi i;
  hj ← c_index h (j + N st / 2);
  p ← c_update p hj j;
  Val (set_heap_pos st h p).

Definition mmCmpExch (st : rolling_median_t) (i j : Z) : outcome (rolling_median_t * bool) :=
  less ← mmless st i j;
  match less with
  | true => st ← mmexchange st i j; Val (st, true)
  | false => Val (st, false)
  end.

(** [if (i < minCt && mmless(i + 1, i)) ++i]. *)
Definition min_child (st : rolling_median_t) (i : Z) : outcome Z :=
  match i <? minCt st with
  | true => less ← mmless st (i + 1) i; Val (if less : bool then i + 1 else i)
  | false => Val i
  end.

(** The loop of [minSortDown] from [i] on, which is twice a place. *)
Fixpoint min_down_loop (fuel : nat) (st : rolling_median_t) (i : Z) : outcome rolling_median_t :=
  if i <=? minCt st then
    match fuel with
    | O => Diverge
    | S fuel =>
        i ← min_child st i;
        '(st, swapped) ← mmCmpExch st i (Z.quot i 2);
        match swapped with
        | true => min_down_loop fuel st (i * 2)
        | false => Val st
        end
    end
  else Val st.

Definition minSortDown (st : rolling_median_t) (i : Z) : outcome rolling_median_t :=
  min_down_loop (length (heap st)) st (i * 2).

Definition max_child (st : rolling_median_t) (i : Z) : outcome Z :=
  match - maxCt st <? i with
  | true => less ← mmless st i (i - 1); Val (if less : bool then i - 1 else i)
  | false => Val i
  end.

Fixpoint max_down_loop (fuel : nat) (st : rolling_median_t) (i : Z) : outcome rolling_median_t :=
  if - maxCt st <=? i then
    match fuel with
    | O => Diverge
    | S fuel =>
        i ← max_child st i;
        '(st, swapped) ← mmCmpExch st (Z.quot i 2) i;
        match swapped with
        | true => max_down_loop fuel st (i * 2)
        | false => Val st
        end
    end
  else Val st.

Definition maxSortDown (st : rolling_median_t) (i : Z) : outcome rolling_median_t :=
  max_down_loop (length (heap st)) st (i * 2).

(** The state, and whether the median changed. *)
Fixpoint min_up_loop (fuel : nat) (st : rolling_median_t) (i : Z) : outcome (rolling_median_t * bool) :=
  if 0 <? i then
    match fuel with
    | O => Diverge
    | S fuel =>
        '(st, swapped) ← mmCmpExch st i (Z.quot i 2);
        match swapped with
        | true => min_up_loop fuel st (Z.quot i 2)
        | false => Val (st, i =? 0)
        end
    end
  else Val (st, i =? 0).

Definition minSortUp (st : rolling_median_t) (i : Z) : outcome (rolling_median_t * bool) :=
  min_up_loop (length (heap st)) st i.

Fixpoint max_up_loop (fuel : nat) (st : rolling_median_t) (i : Z) : outcome (rolling_median_t * bool) :=
  if i <? 0 then
    match fuel with
    | O => Diverge
    | S fuel =>
        '(st, swapped) ← mmCmpExch st (Z.quot i 2) i;
        match swapped with
        | true => max_up_loop fuel st (Z.quot i 2)
        | false => Val (st, i =? 0)
        end
    end
  else Val (st, i =? 0).

Definition maxSortUp (st : rolling_median_t) (i : Z) : outcome (rolling_median_t * bool) :=
  max_up_loop (length (heap st)) st i.

(** ** Operations *)

(** The loop of [clear] from the last index down. *)
Fixpoint clear_loop (nItems : nat) (off : Z) (heap pos : list Z) : outcome (list Z * list Z) :=
  match nItems with
  | O => Val (heap, pos)
  | S n =>
      let i := Z.of_nat n in
      let p := (i + 1) / 2 * (if Z.land i 1 =? 0 then 1 else -1) in
      pos ← c_update pos i p;
      heap ← c_update heap (p + off) i;
      clear_loop n off heap pos
  end.

Definition clear (st : rolling_median_t) : outcome rolling_median_t :=
  '(h, p) ← clear_loop (Z.to_nat (N st)) (N st / 2) (heap st) (pos st);
  Val {| data := data st; pos := p; heap := h; N := N st; idx := 0; minCt := 0; maxCt := 0; sz := 0 |}.

Definition size (st : rolling_median_t) : Z := sz st.

(** A place in the min heap: [minSortUp(p) && mmCmpExch(0, -1)], then [maxSortDown(-1)]. *)
Definition lower_min (st : rolling_median_t) (p : Z) : outcome rolling_median_t :=
  '(st, top) ← minSortUp st p;
  match top with
  | true =>
      '(st, swapped) ← mmCmpExch st 0 (-1);
      match swapped with true => maxSortDown st (-1) | false => Val st end
  | false => Val st
  end.

Definition raise_max (st : rolling_median_t) (p : Z) : outcome rolling_median_t :=
  '(st, top) ← maxSortUp st p;
  match top && negb (minCt st =? 0) with
  | true =>
      '(st, swapped) ← mmCmpExch st 1 0;
      match swapped with true => minSortDown st 1 | false => Val st end
  | false => Val st
  end.

Definition insert_min (st : rolling_median_t) (p v old : Z) : outcome rolling_median_t :=
  if minCt st <? (N st - 1) / 2 then lower_min (set_counts st (maxCt st) (minCt st + 1)) p
  else if old <? v then minSortDown st p
  else lower_min st p.

Definition insert_max (st : rolling_median_t) (p v old : Z) : outcome rolling_median_t :=
  if maxCt st <? N st / 2 then raise_max (set_counts st (maxCt st + 1) (minCt st)) p
  else if v <? old then maxSortDown st p
  else raise_max st p.

Definition settle_max (st : rolling_median_t) : outcome rolling_median_t :=
  if maxCt st =? 0 then Val st
  else
    '(st, top) ← maxSortUp st (-1);
    match top with true => maxSortDown st (-1) | false => Val st end.

Definition settle_min (st : rolling_median_t) : outcome rolling_median_t :=
  if minCt st =? 0 then Val st
  else
    '(st, top) ← minSortUp st 1;
    match top with true => minSortDown st 1 | false => Val st end.

Definition insert_median (st : rolling_median_t) : outcome rolling_median_t :=
  st ← settle_max st;
  settle_min st.

Definition insert (st : rolling_median_t) (v : Z) : outcome rolling_median_t :=
  p ← c_index (pos st) (idx st);
  old ← c_index (data st) (idx st);
  d ← c_update (data st) (idx st) v;
  let st := set_data st d in
  let st := set_queue st ((idx st + 1) mod N st) (Z.min (sz st + 1) (N st)) in
  if 0 <? p then insert_min st p v old
  else if p <? 0 then insert_max st p v old
  else insert_median st.

Definition median_of (st : rolling_median_t) : outcome Z :=
  v ← item_at st 0;
  match minCt st <? maxCt st with
  | true => w ← item_at st (-1); Val (get_mid v w)
  | false => Val v
  end.

(** The conversion of a [size_t] to [int]. *)
Definition to_int (n : Z) : Z := (n + 2 ^ 31) mod 2 ^ 32 - 2 ^ 31.

(** [N * (sizeof(Item) + sizeof(int) * 2)] for items of 64 bits: the product is a [size_t], the
    variable an [int]. *)
Definition storage_size (n : Z) : Z := to_int (u64 (n * 16)).

(** A new one for [n] values, with what is in the memory it gets: [n] items, places and indices.
    When the number of bytes is not the one they need, [clear] writes outside of what [malloc]
    has returned.  The member N is an [int]. *)
Definition new_rolling_median (junk_data junk_pos junk_heap : list Z) : outcome rolling_median_t :=
  let n := Z.of_nat (length junk_data) in
  if negb (storage_size n =? n * 16) then Undef
  else
    clear {| data := junk_data; pos := junk_pos; heap := junk_heap; N := to_int n;
             idx := 0; minCt := 0; maxCt := 0; sz := 0 |}.

(** All capacities below 2^27, and no others, fit. *)
Lemma new_rolling_median_eq (junk_data junk_pos junk_heap : list Z) :
  let n := Z.of_nat (length junk_data) in n < 2 ^ 60 ->
  new_rolling_median junk_data junk_pos junk_heap =
  if n <? 2 ^ 27 then clear {| data := junk_data; pos := junk_pos; heap := junk_heap; N := n; idx := 0; minCt := 0; maxCt := 0; sz := 0 |}
  else Undef.
Proof.
  intros n Hn. unfold new_rolling_median, storage_size. fold n. rewrite u64_small by (unfold in_u64; lia). unfold to_int.
  destruct (Z.ltb_spec n (2 ^ 27)).
  - rewrite (Z.mod_small (n * 16 + 2 ^ 31)), (Z.mod_small (n + 2 ^ 31)) by lia. rewrite (proj2 (Z.eqb_eq _ _)) by lia. cbn [negb].
    by replace (n + 2 ^ 31 - 2 ^ 31) with n by lia.
  - pose proof (Z.mod_pos_bound (n * 16 + 2 ^ 31) (2 ^ 32)). by rewrite (proj2 (Z.eqb_neq _ _)) by lia.
Qed.

(** ** The arrays *)

(** Quotients by 2 in [lia]. *)
#[local] Ltac Zify.zify_post_hook ::= Z.to_euclidean_division_equations.

Definition in_range (st : rolling_median_t) (i : Z) : Prop := - (N st / 2) <= i <= (N st - 1) / 2.

(** The index at a place, the place of an index, and the value at a place. *)
Definition hp (st : rolling_median_t) (i : Z) : Z := heap st !!! Z.to_nat (i + N st / 2).
Definition ps (st : rolling_median_t) (a : Z) : Z := pos st !!! Z.to_nat a.
Definition val (st : rolling_median_t) (i : Z) : Z := data st !!! Z.to_nat (hp st i).

(** The heap and the places are inverse to each other. *)
Record wf (st : rolling_median_t) : Prop := {
  wf_N : 1 <= N st;
  wf_data : Z.of_nat (length (data st)) = N st;
  wf_pos : Z.of_nat (length (pos st)) = N st;
  wf_heap : Z.of_nat (length (heap st)) = N st;
  wf_hp : forall i, in_range st i -> 0 <= hp st i < N st /\ ps st (hp st i) = i;
  wf_ps : forall a, 0 <= a < N st -> in_range st (ps st a) /\ hp st (ps st a) = a;
}.

Lemma heap_at_spec (st : rolling_median_t) (i : Z) : wf st -> in_range st i -> heap_at st i = Val (hp st i).
Proof. intros Hw Hi. apply c_index_total. rewrite (wf_heap st Hw). unfold in_range in Hi. pose proof (wf_N st Hw). lia. Qed.

Lemma item_at_spec (st : rolling_median_t) (i : Z) : wf st -> in_range st i -> item_at st i = Val (val st i).
Proof.
  intros Hw Hi. unfold item_at. rewrite heap_at_spec by done. run. apply c_index_total.
  rewrite (wf_data st Hw). by apply Hw.
Qed.

Lemma mmless_spec (st : rolling_median_t) (i j : Z) :
  wf st -> in_range st i -> in_range st j -> mmless st i j = Val (val st i <? val st j).
Proof. intros Hw Hi Hj. unfold mmless. rewrite !item_at_spec by done. done. Qed.

(** The places that hold values. *)
Definition active (st : rolling_median_t) (i : Z) : Prop := - maxCt st <= i <= minCt st.

(** All but the order of the heap is the same. *)
Record frame (st st' : rolling_median_t) : Prop := {
  fr_data : data st' = data st;
  fr_N : N st' = N st;
  fr_idx : idx st' = idx st;
  fr_min : minCt st' = minCt st;
  fr_max : maxCt st' = maxCt st;
  fr_sz : sz st' = sz st;
}.

Lemma frame_refl (st : rolling_median_t) : frame st st.
Proof. by split. Qed.

Lemma frame_trans (a b c : rolling_median_t) : frame a b -> frame b c -> frame a c.
Proof. intros [] []. split; congruence. Qed.

Definition swap (i j k : Z) : Z := if k =? i then j else if k =? j then i else k.

Lemma swap_l (i j : Z) : swap i j i = j.
Proof. unfold swap. by rewrite Z.eqb_refl. Qed.

Lemma swap_r (i j : Z) : swap i j j = i.
Proof. unfold swap. destruct (Z.eqb_spec j i) as [->|]; [done|]. by rewrite Z.eqb_refl. Qed.

Lemma swap_n (i j k : Z) : k <> i -> k <> j -> swap i j k = k.
Proof. intros Hi Hj. unfold swap. by rewrite !(proj2 (Z.eqb_neq _ _)). Qed.

Lemma swap_cases (i j k : Z) : (k = i /\ swap i j k = j) \/ (k = j /\ swap i j k = i) \/ (k <> i /\ k <> j /\ swap i j k = k).
Proof.
  destruct (Z.eq_dec k i) as [->|Hi]; [left; by rewrite swap_l|]. destruct (Z.eq_dec k j) as [->|Hj]; [right; left; by rewrite swap_r|].
  right; right. by rewrite swap_n.
Qed.

Lemma swap_swap (i j k : Z) : swap i j (swap i j k) = k.
Proof. destruct (swap_cases i j k) as [[-> ->]|[[-> ->]|(H1 & H2 & E)]]; [apply swap_r|apply swap_l|by rewrite !E]. Qed.

Lemma insert_total (l : list Z) (n : nat) (x : Z) (k : nat) :
  (n < length l)%nat -> <[n := x]> l !!! k = if decide (k = n) then x else l !!! k.
Proof.
  intros Hn. case_decide as E; [subst; by apply list_lookup_total_insert_eq|]. by apply list_lookup_total_insert_ne.
Qed.

Lemma mmexchange_spec (st : rolling_median_t) (i j : Z) :
  wf st -> in_range st i -> in_range st j -> i <> j ->
  exists st', mmexchange st i j = Val st' /\ wf st' /\ frame st st' /\
    forall k, in_range st k -> hp st' k = hp st (swap i j k).
Proof.
  intros Hw Hi Hj Hij. unfold mmexchange. rewrite !heap_at_spec by done. run. run.
  destruct (wf_hp st Hw i Hi) as [Ri Pi], (wf_hp st Hw j Hj) as [Rj Pj].
  pose proof (wf_heap st Hw) as Hlh. pose proof (wf_pos st Hw) as Hlp. unfold in_range in Hi, Hj.
  set (off := N st / 2) in *. assert (0 <= i + off < N st /\ 0 <= j + off < N st) as [Oi Oj] by lia.
  rewrite c_update_in by lia. run. rewrite c_update_in by (rewrite length_insert; lia). run.
  set (h := <[Z.to_nat (j + off) := hp st i]> (<[Z.to_nat (i + off) := hp st j]> (heap st))).
  assert (forall k, 0 <= k + off < N st -> h !!! Z.to_nat (k + off) = if k =? j then hp st i else if k =? i then hp st j else hp st k) as Hh.
  { intros k Hk. unfold h. rewrite !insert_total by (rewrite ?length_insert; lia).
    repeat case_decide; repeat zcase; try lia; done. }
  rewrite !c_index_total by (unfold h; rewrite !length_insert; lia). rewrite !Hh by lia.
  rewrite !Z.eqb_refl, (proj2 (Z.eqb_neq i j)) by done.
  run. rewrite c_update_in by lia. run. run. rewrite c_update_in by (rewrite length_insert; lia). run.
  set (p := <[Z.to_nat (hp st i) := j]> (<[Z.to_nat (hp st j) := i]> (pos st))).
  assert (forall a, 0 <= a < N st -> p !!! Z.to_nat a = swap i j (ps st a)) as Hp.
  { intros a Ha. unfold p. rewrite !insert_total by (rewrite ?length_insert; lia). destruct (wf_ps st Hw a Ha) as [_ Ea]. unfold swap.
    repeat case_decide; repeat zcase; try lia; try done; try (assert (a = hp st i) by lia); try (assert (a = hp st j) by lia); subst; try congruence. }
  eexists. split; [done|].
  assert (forall k, in_range st k -> hp (set_heap_pos st h p) k = hp st (swap i j k)) as Hhp.
  { intros k Hk. unfold hp at 1. cbn [heap N set_heap_pos]. unfold in_range in Hk. fold off. rewrite Hh by lia. unfold swap.
    repeat zcase; subst; (done || lia). }
  assert (forall k, in_range st k -> in_range st (swap i j k)) as Hs.
  { intros k Hk. destruct (swap_cases i j k) as [[-> ->]|[[-> ->]|(_ & _ & ->)]]; done. }
  split_and!; [|by split|done]. split; try (cbn; apply Hw).
  - cbn. unfold p. rewrite !length_insert. lia.
  - cbn. unfold h. rewrite !length_insert. lia.
  - intros k Hk. change (N (set_heap_pos st h p)) with (N st). rewrite Hhp by done. destruct (wf_hp st Hw _ (Hs k Hk)) as [Rk Pk].
    split; [done|]. unfold ps at 1. cbn [pos set_heap_pos]. by rewrite Hp, Pk, swap_swap by done.
  - intros a Ha. change (N (set_heap_pos st h p)) with (N st) in Ha. destruct (wf_ps st Hw a Ha) as [Ra Pa].
    unfold ps. cbn [pos set_heap_pos]. rewrite Hp by done. split; [by apply Hs|]. rewrite Hhp by (by apply Hs). by rewrite swap_swap.
Qed.

(** The active places hold what they held, in another order. *)
Record moved (st st' : rolling_median_t) : Prop := {
  mv_wf : wf st';
  mv_frame : frame st st';
  mv_active : forall i, active st i -> exists j, active st j /\ hp st' i = hp st j;
  mv_rest : forall i, in_range st i -> ~ active st i -> hp st' i = hp st i;
}.

Lemma moved_refl (st : rolling_median_t) : wf st -> moved st st.
Proof. intros Hw. split; [done|apply frame_refl|by intros i Hi; exists i|done]. Qed.

Lemma frame_active (st st' : rolling_median_t) (i : Z) : frame st st' -> active st' i <-> active st i.
Proof. intros []. unfold active. by rewrite fr_min0, fr_max0. Qed.

Lemma frame_range (st st' : rolling_median_t) (i : Z) : frame st st' -> in_range st' i <-> in_range st i.
Proof. intros []. unfold in_range. by rewrite fr_N0. Qed.

Lemma moved_trans (a b c : rolling_median_t) : moved a b -> moved b c -> moved a c.
Proof.
  intros [W1 F1 A1 R1] [W2 F2 A2 R2]. split; [done|by eapply frame_trans| |].
  - intros i Hi. destruct (A2 i) as (j & Hj & E); [by apply (frame_active a b)|]. apply (frame_active a b) in Hj; [|done].
    destruct (A1 j Hj) as (k & Hk & E'). exists k. split; [done|congruence].
  - intros i Hr Hi. rewrite R2; [by apply R1|by apply (frame_range a b)|]. by rewrite (frame_active a b).
Qed.

(** The counts are within the arrays. *)
Definition counts_ok (st : rolling_median_t) : Prop := 0 <= maxCt st <= N st / 2 /\ 0 <= minCt st <= (N st - 1) / 2.

Lemma active_range (st : rolling_median_t) (i : Z) : counts_ok st -> active st i -> in_range st i.
Proof. unfold counts_ok, active, in_range. lia. Qed.

(** The two ends of a comparison are exchanged when the first is less. *)
Lemma mmCmpExch_spec (st : rolling_median_t) (i j : Z) :
  wf st -> counts_ok st -> active st i -> active st j -> i <> j ->
  exists st', mmCmpExch st i j = Val (st', val st i <? val st j) /\ moved st st' /\
    forall k, in_range st k -> val st' k = val st (if val st i <? val st j then swap i j k else k).
Proof.
  intros Hw Hc Hi Hj Hij. pose proof (active_range st i Hc Hi) as Ri. pose proof (active_range st j Hc Hj) as Rj.
  unfold mmCmpExch. rewrite mmless_spec by done. run. destruct (val st i <? val st j); [|exists st; split_and!; [done|by apply moved_refl|done]].
  destruct (mmexchange_spec st i j Hw Ri Rj Hij) as (st' & E & Hw' & Hf & Hh). rewrite E. run. exists st'.
  split_and!; [done| |].
  - split; [done|done| |].
    + intros k Hk. exists (swap i j k). rewrite Hh by (by apply active_range). split; [|done].
      destruct (swap_cases i j k) as [[-> ->]|[[-> ->]|(_ & _ & ->)]]; done.
    + intros k Hr Hk. rewrite Hh by done. rewrite swap_n; [done|by intros ->..].
  - intros k Hk. unfold val. by rewrite (fr_data _ _ Hf), Hh.
Qed.

(** ** Order, on one side

    [f] gives the values from the median, at 0, outwards, with the sign of the side;
    the children of i are 2 i and 2 i + 1. *)

Definition ord (f : Z -> Z) (cnt : Z) : Prop := forall j, 1 <= j <= cnt -> f (j / 2) <= f j.

(** In order but for the children of [i], which may be less than it. *)
Record sinking (f : Z -> Z) (cnt i : Z) : Prop := {
  si_pos : 1 <= i;
  si_rest : forall j, 1 <= j <= cnt -> j / 2 <> i -> f (j / 2) <= f j;
  si_skip : forall c, 1 <= c <= cnt -> c / 2 = i -> f (i / 2) <= f c;
}.

(** In order but for [i], which may be less than what is above it. *)
Record rising (f : Z -> Z) (cnt i : Z) : Prop := {
  ri_pos : 0 <= i;
  ri_rest : forall j, 1 <= j <= cnt -> j <> i -> f (j / 2) <= f j;
  ri_skip : 1 <= i -> forall c, 1 <= c <= cnt -> c / 2 = i -> f (i / 2) <= f c;
}.

Lemma ord_root (f : Z -> Z) (cnt j : Z) : ord f cnt -> 0 <= j <= cnt -> f 0 <= f j.
Proof.
  intros Ho. revert j. apply (well_founded_induction (Z.lt_wf 0) (fun j => 0 <= j <= cnt -> f 0 <= f j)). intros j IH Hj.
  destruct (Z.eq_dec j 0) as [->|]; [lia|]. etrans; [apply (IH (j / 2)); lia|]. apply Ho. lia.
Qed.

Lemma ord_first (f : Z -> Z) (cnt j : Z) : ord f cnt -> 1 <= j <= cnt -> f 1 <= f j.
Proof.
  intros Ho. revert j. apply (well_founded_induction (Z.lt_wf 0) (fun j => 1 <= j <= cnt -> f 1 <= f j)). intros j IH Hj.
  destruct (Z.eq_dec j 1) as [->|]; [lia|]. etrans; [apply (IH (j / 2)); lia|]. apply Ho. lia.
Qed.

Lemma sinking_leaf (f : Z -> Z) (cnt i : Z) : sinking f cnt i -> cnt < 2 * i -> ord f cnt.
Proof. intros Hs Hi j Hj. apply (si_rest _ _ _ Hs); [lia|]. pose proof (si_pos _ _ _ Hs). lia. Qed.

(** The lesser child. *)
Definition lesser (f : Z -> Z) (cnt i : Z) : Z := if (2 * i <? cnt) && (f (2 * i + 1) <? f (2 * i)) then 2 * i + 1 else 2 * i.

Lemma lesser_spec (f : Z -> Z) (cnt i : Z) :
  1 <= i -> 2 * i <= cnt ->
  let c := lesser f cnt i in 2 * i <= c <= cnt /\ c / 2 = i /\ forall d, 1 <= d <= cnt -> d / 2 = i -> f c <= f d.
Proof.
  intros Hi Hc. cbv zeta. unfold lesser. destruct (Z.ltb_spec (2 * i) cnt), (Z.ltb_spec (f (2 * i + 1)) (f (2 * i))); cbn [andb];
    (split_and!; [lia|lia|lia|]); intros d Hd Ed; assert (d = 2 * i \/ d = 2 * i + 1) as [->| ->] by lia; lia.
Qed.

Lemma sinking_stop (f : Z -> Z) (cnt i : Z) :
  sinking f cnt i -> 2 * i <= cnt -> f i <= f (lesser f cnt i) -> ord f cnt.
Proof.
  intros Hs Hc Hle j Hj. destruct (Z.eq_dec (j / 2) i) as [E|]; [|by apply (si_rest _ _ _ Hs)].
  destruct (lesser_spec f cnt i (si_pos _ _ _ Hs) Hc) as (_ & _ & Hl). rewrite E. etrans; [done|by apply Hl].
Qed.

Lemma sinking_step (f g : Z -> Z) (cnt i : Z) :
  let c := lesser f cnt i in
  sinking f cnt i -> 2 * i <= cnt -> f c < f i -> (forall k, 0 <= k <= cnt -> g k = f (swap c i k)) -> sinking g cnt c.
Proof.
  cbv zeta. intros Hs Hc Hlt Hg. destruct (lesser_spec f cnt i (si_pos _ _ _ Hs) Hc) as (Hr & E & Hl). cbv zeta in *.
  set (c := lesser f cnt i) in *. destruct Hs as [Hi Hrest Hskip].
  assert (g c = f i /\ g i = f c) as [Gc Gi] by (rewrite !Hg by lia; by rewrite swap_l, swap_r).
  assert (forall k, 0 <= k <= cnt -> k <> c -> k <> i -> g k = f k) as Gn by (intros k Hk H1 H2; rewrite Hg by done; by rewrite swap_n).
  split; [lia| |].
  - intros j Hj Hjc. destruct (Z.eq_dec j c) as [->|Nc]; [rewrite E, Gi, Gc; lia|].
    destruct (Z.eq_dec j i) as [->|Ni]; [rewrite Gi, Gn by lia; apply Hskip; lia|]. rewrite (Gn j) by lia.
    destruct (Z.eq_dec (j / 2) i) as [Ei|]; [rewrite Ei, Gi; apply Hl; lia|]. rewrite Gn by lia. apply Hrest; lia.
  - intros d Hd Ed. rewrite E, Gi, (Gn d) by lia. specialize (Hrest d Hd ltac:(lia)). by rewrite Ed in Hrest.
Qed.

Lemma rising_stop (f : Z -> Z) (cnt i : Z) : rising f cnt i -> i = 0 \/ f (i / 2) <= f i -> ord f cnt.
Proof. intros Hr Hi j Hj. destruct (Z.eq_dec j i) as [->|]; [by destruct Hi; [lia|]|by apply (ri_rest _ _ _ Hr)]. Qed.

Lemma rising_step (f g : Z -> Z) (cnt i : Z) :
  rising f cnt i -> 1 <= i <= cnt -> f i < f (i / 2) -> (forall k, 0 <= k <= cnt -> g k = f (swap i (i / 2) k)) -> rising g cnt (i / 2).
Proof.
  intros [Hi Hrest Hskip] Hc Hlt Hg. specialize (Hskip ltac:(lia)). set (p := i / 2) in *. assert (0 <= p < i) as Hp by lia.
  assert (g i = f p /\ g p = f i) as [Gc Gi] by (rewrite !Hg by lia; by rewrite swap_l, swap_r).
  assert (forall k, 0 <= k <= cnt -> k <> i -> k <> p -> g k = f k) as Gn by (intros k Hk H1 H2; rewrite Hg by done; by rewrite swap_n).
  split; [lia| |].
  - intros j Hj Hjp. destruct (Z.eq_dec j i) as [->|Ni]; [fold p; rewrite Gi, Gc; lia|]. rewrite (Gn j) by lia.
    destruct (Z.eq_dec (j / 2) i) as [Ei|]; [rewrite Ei, Gc; apply Hskip; lia|].
    destruct (Z.eq_dec (j / 2) p) as [Ep|]; [rewrite Ep, Gi; specialize (Hrest j Hj Ni); rewrite Ep in Hrest; lia|].
    rewrite Gn by lia. apply Hrest; lia.
  - intros Hp1 d Hd Ed. assert (f (p / 2) <= f p) as Hpp by (apply Hrest; lia). rewrite (Gn (p / 2)) by lia.
    destruct (Z.eq_dec d i) as [->|Nd]; [rewrite Gc; lia|]. rewrite Gn by lia. specialize (Hrest d Hd Nd). rewrite Ed in Hrest. lia.
Qed.

(** ** The two sides *)

Definition side (s : Z) : Prop := s = 1 \/ s = -1.
Definition w (s : Z) (st : rolling_median_t) (i : Z) : Z := s * val st (s * i).
Definition cnt (s : Z) (st : rolling_median_t) : Z := if s =? 1 then minCt st else maxCt st.

Definition cmp_exch (s : Z) (st : rolling_median_t) (a b : Z) : outcome (rolling_median_t * bool) :=
  if s =? 1 then mmCmpExch st a b else mmCmpExch st (- b) (- a).
Definition down (s : Z) (fuel : nat) (st : rolling_median_t) (i : Z) : outcome rolling_median_t :=
  if s =? 1 then min_down_loop fuel st i else max_down_loop fuel st (- i).
Definition up (s : Z) (fuel : nat) (st : rolling_median_t) (i : Z) : outcome (rolling_median_t * bool) :=
  if s =? 1 then min_up_loop fuel st i else max_up_loop fuel st (- i).

Ltac sides Hs := destruct Hs as [-> | ->]; [change (1 =? 1) with true in *|change (-1 =? 1) with false in *]; cbv iota in *.

Lemma swap_scale (s a b k : Z) : side s -> swap (s * a) (s * b) (s * k) = s * swap a b k.
Proof.
  intros Hs. destruct (swap_cases a b k) as [[-> ->]|[[-> ->]|(H1 & H2 & ->)]]; [apply swap_l|apply swap_r|].
  apply swap_n; destruct Hs as [-> | ->]; lia.
Qed.

Lemma side_active (s : Z) (st : rolling_median_t) (k : Z) : side s -> counts_ok st -> 0 <= k <= cnt s st -> active st (s * k).
Proof. unfold cnt, active, counts_ok. intros Hs. sides Hs; lia. Qed.

Lemma cmp_exch_spec (s : Z) (st : rolling_median_t) (a b : Z) :
  side s -> wf st -> counts_ok st -> 0 <= a <= cnt s st -> 0 <= b <= cnt s st -> a <> b ->
  exists st', cmp_exch s st a b = Val (st', w s st a <? w s st b) /\ moved st st' /\
    forall k, in_range st k -> val st' k = val st (if w s st a <? w s st b then swap (s * a) (s * b) k else k).
Proof.
  intros Hs Hw Hc Ha Hb Hab. pose proof (side_active s st a Hs Hc Ha) as Aa. pose proof (side_active s st b Hs Hc Hb) as Ab.
  unfold cmp_exch, w. sides Hs; rewrite ?Z.mul_1_l in *.
  - by apply mmCmpExch_spec.
  - replace (-1 * a) with (- a) in * by lia. replace (-1 * b) with (- b) in * by lia.
    destruct (mmCmpExch_spec st (- b) (- a) Hw Hc Ab Aa ltac:(lia)) as (st' & E & Hm & Hv).
    replace (-1 * val st (- a) <? -1 * val st (- b)) with (val st (- b) <? val st (- a)) by (repeat zcase; (done || lia)).
    exists st'. split_and!; [done|done|]. intros k Hk. rewrite Hv by done. destruct (_ <? _); [|done]. f_equal.
    destruct (swap_cases (- b) (- a) k) as [[-> ->]|[[-> ->]|(H1 & H2 & ->)]]; [by rewrite swap_r|by rewrite swap_l|by rewrite swap_n].
Qed.

Lemma w_swapped (s : Z) (st st' : rolling_median_t) (a b k : Z) :
  side s -> counts_ok st -> (forall k, in_range st k -> val st' k = val st (swap (s * a) (s * b) k)) ->
  0 <= k <= cnt s st -> w s st' k = w s st (swap a b k).
Proof.
  intros Hs Hc Hv Hk. unfold w. rewrite Hv by (by apply active_range, side_active). by rewrite swap_scale.
Qed.

Lemma frame_cnt (s : Z) (st st' : rolling_median_t) : frame st st' -> cnt s st' = cnt s st.
Proof. intros []. unfold cnt. by rewrite fr_min0, fr_max0. Qed.

Lemma frame_counts (st st' : rolling_median_t) : frame st st' -> counts_ok st -> counts_ok st'.
Proof. intros []. unfold counts_ok. by rewrite fr_min0, fr_max0, fr_N0. Qed.

(** The head of the loop of [down], and one round. *)
Lemma down_end (s : Z) (fuel : nat) (st : rolling_median_t) (i : Z) : side s -> cnt s st < i -> down s fuel st i = Val st.
Proof.
  intros Hs. unfold down, cnt. sides Hs; intros Hi.
  - destruct fuel; cbn [min_down_loop]; by rewrite (proj2 (Z.leb_gt _ _)).
  - destruct fuel; cbn [max_down_loop]; by rewrite (proj2 (Z.leb_gt _ _)) by lia.
Qed.

Lemma down_round (s : Z) (fuel : nat) (st : rolling_median_t) (i : Z) :
  side s -> wf st -> counts_ok st -> 1 <= i -> 2 * i <= cnt s st ->
  let c := lesser (w s st) (cnt s st) i in
  down s (S fuel) st (2 * i)
  = ('(st', swapped) ← cmp_exch s st c i; match swapped with true => down s fuel st' (2 * c) | false => Val st' end).
Proof.
  intros Hs Hw Hc Hi Hle. pose proof (lesser_spec (w s st) (cnt s st) i Hi Hle) as (Hl1 & Hl2 & _). cbv zeta in *.
  assert (forall k, 0 <= k <= cnt s st -> in_range st (s * k)) as Hr by (intros k Hk; by apply active_range, side_active).
  unfold down, cmp_exch. unfold cnt in *. set (c := lesser _ _ i) in *. sides Hs.
  - cbn [min_down_loop]. rewrite (proj2 (Z.leb_le _ _)) by lia.
    assert (min_child st (2 * i) = Val c) as ->.
    { unfold min_child, c, lesser, w, cnt. change (1 =? 1) with true. cbv iota. destruct (Z.ltb_spec (2 * i) (minCt st)); [|done].
      rewrite mmless_spec by (done || (rewrite <- (Z.mul_1_l (_ : Z)); apply Hr; lia)). run. rewrite !Z.mul_1_l. cbn [andb]. done. }
    run. replace (Z.quot c 2) with i by lia. replace (c * 2) with (2 * c) by lia. done.
  - cbn [max_down_loop]. rewrite (proj2 (Z.leb_le _ _)) by lia.
    assert (max_child st (- (2 * i)) = Val (- c)) as ->.
    { unfold max_child, c, lesser, w, cnt. change (-1 =? 1) with false. cbv iota.
      destruct (Z.ltb_spec (2 * i) (maxCt st)); [|by rewrite (proj2 (Z.ltb_ge _ _)) by lia].
      rewrite (proj2 (Z.ltb_lt _ _)) by lia.
      pose proof (Hr (2 * i) ltac:(lia)) as R1. pose proof (Hr (2 * i + 1) ltac:(lia)) as R2.
      replace (-1 * (2 * i)) with (- (2 * i)) in * by lia. replace (-1 * (2 * i + 1)) with (- (2 * i) - 1) in * by lia.
      rewrite mmless_spec by done. run. cbn [andb]. repeat zcase; lia || (f_equal; lia). }
    run. replace (Z.quot (- c) 2) with (- i) by lia. replace (- c * 2) with (- (2 * c)) by lia. done.
Qed.

(** A side other than [s], and the median. *)
Definition beyond (s : Z) (st st' : rolling_median_t) : Prop := forall k, in_range st k -> s * k <= 0 -> val st' k = val st k.

Lemma down_spec (s : Z) (fuel : nat) (st : rolling_median_t) (i : Z) :
  side s -> wf st -> counts_ok st -> sinking (w s st) (cnt s st) i -> i <= cnt s st -> cnt s st - i <= Z.of_nat fuel ->
  exists st', down s fuel st (2 * i) = Val st' /\ moved st st' /\ ord (w s st') (cnt s st) /\ beyond s st st'.
Proof.
  intros Hs. revert st i. induction fuel as [|fuel IH]; intros st i Hw Hc Hsk Hi Hf.
  { pose proof (si_pos _ _ _ Hsk). exists st. rewrite down_end by (done || lia).
    split_and!; [done|by apply moved_refl|apply (sinking_leaf _ _ i); (done || lia)|done]. }
  pose proof (si_pos _ _ _ Hsk) as Hi1. destruct (Z.le_gt_cases (2 * i) (cnt s st)) as [Hle|Hgt].
  2:{ exists st. rewrite down_end by (done || lia). split_and!; [done|by apply moved_refl|by apply (sinking_leaf _ _ i)|done]. }
  rewrite down_round by done. cbv zeta. set (c := lesser _ _ i). destruct (lesser_spec (w s st) (cnt s st) i Hi1 Hle) as (Hr & Ec & _).
  fold c in Hr, Ec. destruct (cmp_exch_spec s st c i Hs Hw Hc ltac:(lia) ltac:(lia) ltac:(lia)) as (st1 & E & Hm & Hv). rewrite E. run.
  destruct (Z.ltb_spec (w s st c) (w s st i)) as [Hlt|Hge].
  - pose proof (mv_frame _ _ Hm) as Hfr. destruct (IH st1 c) as (st2 & E2 & Hm2 & Ho2 & Hb2).
    + apply Hm.
    + by apply (frame_counts st).
    + rewrite (frame_cnt s st st1) by done. apply (sinking_step (w s st) _ _ i Hsk Hle Hlt). intros k Hk. by apply w_swapped.
    + rewrite (frame_cnt s st st1) by done. lia.
    + rewrite (frame_cnt s st st1) by done. lia.
    + rewrite (frame_cnt s st st1) in Ho2 by done. exists st2. split_and!; [done|by eapply moved_trans|done|].
      intros k Hk Hks. rewrite Hb2 by (done || by apply (frame_range st st1)). rewrite Hv by done.
      rewrite swap_n; [done|destruct Hs as [-> | ->]; lia..].
  - exists st1. split_and!; [done|done| |intros k Hk _; by apply Hv].
    intros j Hj. assert (forall k, 0 <= k <= cnt s st -> w s st1 k = w s st k) as Hww.
    { intros k Hk. unfold w. f_equal. by apply Hv, active_range, side_active. }
    rewrite !Hww by lia. by apply (sinking_stop _ _ i Hsk Hle Hge).
Qed.

Lemma up_zero (s : Z) (fuel : nat) (st : rolling_median_t) : side s -> up s fuel st 0 = Val (st, true).
Proof. intros Hs. unfold up. sides Hs; by destruct fuel. Qed.

Lemma up_round (s : Z) (fuel : nat) (st : rolling_median_t) (i : Z) :
  side s -> 1 <= i ->
  up s (S fuel) st i
  = ('(st', swapped) ← cmp_exch s st i (i / 2); match swapped with true => up s fuel st' (i / 2) | false => Val (st', false) end).
Proof.
  intros Hs Hi. unfold up, cmp_exch. sides Hs.
  - cbn [min_up_loop]. rewrite (proj2 (Z.ltb_lt _ _)) by lia. replace (Z.quot i 2) with (i / 2) by lia.
    by rewrite (proj2 (Z.eqb_neq i 0)) by lia.
  - cbn [max_up_loop]. rewrite (proj2 (Z.ltb_lt _ _)) by lia. replace (Z.quot (- i) 2) with (- (i / 2)) by lia.
    by rewrite (proj2 (Z.eqb_neq (- i) 0)) by lia.
Qed.

(** The strictly other side. *)
Definition across (s : Z) (st st' : rolling_median_t) : Prop := forall k, in_range st k -> s * k < 0 -> val st' k = val st k.

Lemma up_spec (s : Z) (fuel : nat) (st : rolling_median_t) (i : Z) :
  side s -> wf st -> counts_ok st -> rising (w s st) (cnt s st) i -> 1 <= i <= cnt s st -> i <= Z.of_nat fuel ->
  exists st' top, up s fuel st i = Val (st', top) /\ moved st st' /\ ord (w s st') (cnt s st) /\ across s st st' /\
    if top : bool then w s st' 1 = w s st 0 else w s st' 0 = w s st 0.
Proof.
  intros Hs. revert st i. induction fuel as [|fuel IH]; intros st i Hw Hc Hri Hi Hf; [lia|].
  rewrite up_round by (done || lia). set (p := i / 2). assert (0 <= p < i) as Hp by (unfold p; lia).
  destruct (cmp_exch_spec s st i p Hs Hw Hc ltac:(lia) ltac:(lia) ltac:(lia)) as (st1 & E & Hm & Hv). rewrite E. run.
  pose proof (mv_frame _ _ Hm) as Hfr. destruct (Z.ltb_spec (w s st i) (w s st p)) as [Hlt|Hge].
  - assert (forall k, 0 <= k <= cnt s st -> w s st1 k = w s st (swap i p k)) as Hww by (intros k Hk; by apply w_swapped).
    assert (rising (w s st1) (cnt s st) p) as Hri1 by (by apply (rising_step (w s st) _ _ i Hri Hi Hlt)).
    assert (across s st st1) as Hac.
    { intros k Hk Hks. rewrite Hv by done. rewrite swap_n; [done|destruct Hs as [-> | ->]; lia..]. }
    destruct (Z.eq_dec p 0) as [Ep|Np].
    + rewrite Ep, up_zero by done. exists st1, true. split_and!; [done|done| |done|].
      * apply (rising_stop _ _ p Hri1). by left.
      * rewrite Hww by lia. assert (i = 1) as -> by (unfold p in *; lia). by rewrite swap_l, Ep.
    + destruct (IH st1 p) as (st2 & top & E2 & Hm2 & Ho2 & Ha2 & Ht); rewrite ?(frame_cnt s st st1) in * by done;
        [apply Hm|by apply (frame_counts st)|done|lia|lia|].
      exists st2, top. split_and!; [done|by eapply moved_trans|done| |].
      * intros k Hk Hks. rewrite Ha2 by (done || by apply (frame_range st st1)). by apply Hac.
      * assert (w s st1 0 = w s st 0) as E0 by (rewrite Hww by lia; by rewrite swap_n by lia). by destruct top; rewrite Ht.
  - exists st1, false. assert (forall k, 0 <= k <= cnt s st -> w s st1 k = w s st k) as Hww.
    { intros k Hk. unfold w. f_equal. by apply Hv, active_range, side_active. }
    split_and!; [done|done| |intros k Hk _; by apply Hv|by apply Hww; lia].
    intros j Hj. rewrite !Hww by lia. apply (rising_stop _ _ i Hri); [by right|done].
Qed.

(** ** Both sides *)

(** The two heaps are in order around the median. *)
Definition sorted_around (st : rolling_median_t) : Prop := ord (w 1 st) (cnt 1 st) /\ ord (w (-1) st) (cnt (-1) st).

Lemma sorted_sides (s : Z) (st : rolling_median_t) :
  side s -> ord (w s st) (cnt s st) -> ord (w (- s) st) (cnt (- s) st) -> sorted_around st.
Proof. intros [-> | ->] H1 H2; split; done. Qed.

Lemma side_opp (s : Z) : side s -> side (- s).
Proof. intros [-> | ->]; [by right|by left]. Qed.

Lemma w_opp_zero (s : Z) (st : rolling_median_t) : w (- s) st 0 = - w s st 0.
Proof. unfold w. rewrite !Z.mul_0_r. lia. Qed.

(** Order on a side that has not changed. *)
Lemma ord_same (s : Z) (st st' : rolling_median_t) :
  side s -> counts_ok st -> moved st st' -> ord (w s st) (cnt s st) ->
  (forall k, 0 <= k <= cnt s st -> w s st' k = w s st k) -> ord (w s st') (cnt s st').
Proof. intros Hs Hc Hm Ho Hw j Hj. rewrite (frame_cnt s st st') in Hj by apply Hm. rewrite !Hw by lia. by apply Ho. Qed.

Lemma beyond_w (s : Z) (st st' : rolling_median_t) (k : Z) :
  side s -> counts_ok st -> beyond s st st' -> 0 <= k <= cnt (- s) st -> w (- s) st' k = w (- s) st k.
Proof.
  intros Hs Hc Hb Hk. unfold w. f_equal. apply Hb; [by apply active_range; [|apply side_active; [apply side_opp| |]]|].
  destruct Hs as [-> | ->]; lia.
Qed.

Lemma across_w (s : Z) (st st' : rolling_median_t) (k : Z) :
  side s -> counts_ok st -> across s st st' -> 1 <= k <= cnt (- s) st -> w (- s) st' k = w (- s) st k.
Proof.
  intros Hs Hc Hb Hk. unfold w. f_equal. apply Hb; [apply active_range; [done|apply side_active; [by apply side_opp|done|lia]]|].
  destruct Hs as [-> | ->]; lia.
Qed.

(** What follows [SortUp] when the median has changed: an exchange with the other side's first, which sinks. *)
Definition push (s : Z) (st : rolling_median_t) : outcome rolling_median_t :=
  '(st, swapped) ← cmp_exch (- s) st 1 0;
  match swapped with true => down (- s) (length (heap st)) st 2 | false => Val st end.

Lemma moved_heap (st st' : rolling_median_t) : wf st -> moved st st' -> length (heap st') = length (heap st).
Proof.
  intros Hw Hm. pose proof (wf_heap st Hw). pose proof (wf_heap st' (mv_wf _ _ Hm)). pose proof (fr_N _ _ (mv_frame _ _ Hm)). lia.
Qed.

Lemma cnt_fuel (s : Z) (st : rolling_median_t) : side s -> wf st -> counts_ok st -> cnt s st < Z.of_nat (length (heap st)).
Proof. intros Hs Hw. rewrite (wf_heap st Hw). pose proof (wf_N st Hw). unfold counts_ok, cnt. sides Hs; lia. Qed.

(** [f] is in order but for its first, which may be less than the median. *)
Lemma push_spec (s : Z) (st : rolling_median_t) :
  side s -> wf st -> counts_ok st -> 1 <= cnt (- s) st ->
  ord (w s st) (cnt s st) -> (forall j, 2 <= j <= cnt (- s) st -> w (- s) st (j / 2) <= w (- s) st j) ->
  (1 <= cnt s st -> - w (- s) st 1 <= w s st 1) ->
  exists st', push s st = Val st' /\ moved st st' /\ sorted_around st'.
Proof.
  intros Hs Hw Hc H1 Ho Hrest Hsep. unfold push. pose proof (side_opp s Hs) as Hs'.
  destruct (cmp_exch_spec (- s) st 1 0 Hs' Hw Hc ltac:(lia) ltac:(lia) ltac:(lia)) as (st1 & E & Hm & Hv). rewrite E. run.
  pose proof (mv_frame _ _ Hm) as Hfr. destruct (Z.ltb_spec (w (- s) st 1) (w (- s) st 0)) as [Hlt|Hge].
  - assert (forall k, 0 <= k <= cnt (- s) st -> w (- s) st1 k = w (- s) st (swap 1 0 k)) as Hww by (intros k Hk; by apply w_swapped).
    assert (w (- s) st1 0 = w (- s) st 1 /\ w (- s) st1 1 = w (- s) st 0) as [E0 E1] by (rewrite !Hww by lia; by rewrite swap_l, swap_r).
    destruct (down_spec (- s) (length (heap st1)) st1 1) as (st2 & E2 & Hm2 & Ho2 & Hb2); rewrite ?(frame_cnt _ st st1) in * by done;
      [done|apply Hm|by apply (frame_counts st)| |done|pose proof (cnt_fuel (- s) st1 Hs' (mv_wf _ _ Hm) (frame_counts _ _ Hfr Hc)) as Hcf; rewrite (frame_cnt _ st st1) in Hcf by done; lia|].
    { split; [lia| |].
      - intros j Hj Hj1. destruct (Z.eq_dec j 1) as [->|]; [change (1 / 2) with 0; lia|].
        rewrite !Hww by lia. rewrite !swap_n by lia. apply Hrest. lia.
      - intros c Hcr Ec. change (1 / 2) with 0. rewrite E0, Hww by lia. rewrite swap_n by lia. specialize (Hrest c ltac:(lia)). by rewrite Ec in Hrest. }
    change (2 * 1) with 2 in E2. rewrite E2. exists st2. split_and!; [done|by eapply moved_trans|].
    pose proof (mv_frame _ _ Hm2) as Hfr2. apply (sorted_sides s); [done| |by rewrite !(frame_cnt _ st1 st2), (frame_cnt _ st st1) by done].
    assert (forall k, 1 <= k <= cnt s st -> w s st2 k = w s st k) as Hk2.
    { intros k Hk. pose proof (beyond_w (- s) st1 st2 k Hs' (frame_counts _ _ Hfr Hc) Hb2) as Hb. rewrite Z.opp_involutive in Hb.
      rewrite Hb by (rewrite (frame_cnt _ st st1) by done; lia). unfold w. f_equal. rewrite Hv by (apply active_range, side_active; (done || lia)).
      rewrite swap_n; [done|destruct Hs as [-> | ->]; lia..]. }
    assert (w s st2 0 = - w (- s) st 1) as E20.
    { pose proof (beyond_w (- s) st1 st2 0 Hs' (frame_counts _ _ Hfr Hc) Hb2) as Hb. rewrite Z.opp_involutive in Hb.
      rewrite Hb by (rewrite (frame_cnt _ st st1) by done; unfold cnt, counts_ok in *; destruct (s =? 1); lia).
      pose proof (w_opp_zero s st1). lia. }
    intros j Hj. rewrite (frame_cnt _ st1 st2), (frame_cnt _ st st1) in Hj by done. rewrite (Hk2 j) by lia.
    destruct (Z.eq_dec j 1) as [->|]; [change (1 / 2) with 0; rewrite E20; apply Hsep; lia|]. rewrite Hk2 by lia. apply Ho. lia.
  - exists st1. assert (forall s' k, side s' -> 0 <= k <= cnt s' st -> w s' st1 k = w s' st k) as Hww.
    { intros s' k Hs1 Hk. unfold w. f_equal. by apply Hv, active_range, side_active. }
    split_and!; [done|done|]. apply (sorted_sides s); [done|apply (ord_same s st); auto|].
    intros j Hj. rewrite (frame_cnt _ st st1) in Hj by done. rewrite !Hww by (done || lia).
    destruct (Z.eq_dec j 1) as [->|]; [change (1 / 2) with 0; lia|]. apply Hrest. lia.
Qed.

(** Nothing is exchanged when the other side is in order. *)
Lemma push_none (s : Z) (st : rolling_median_t) :
  side s -> wf st -> counts_ok st -> 1 <= cnt (- s) st -> w (- s) st 0 <= w (- s) st 1 ->
  exists st', push s st = Val st' /\ moved st st' /\ forall k, in_range st k -> val st' k = val st k.
Proof.
  intros Hs Hw Hc H1 Hle. unfold push.
  destruct (cmp_exch_spec (- s) st 1 0 (side_opp s Hs) Hw Hc ltac:(lia) ltac:(lia) ltac:(lia)) as (st1 & E & Hm & Hv). rewrite E. run.
  rewrite (proj2 (Z.ltb_ge _ _)) in * by lia. by exists st1.
Qed.

(** Up to the median and, if it changes, on to the other side. *)
Definition lift (s : Z) (st : rolling_median_t) (p : Z) : outcome rolling_median_t :=
  '(st, top) ← up s (length (heap st)) st p;
  match top && negb (cnt (- s) st =? 0) with true => push s st | false => Val st end.

Lemma lift_spec (s : Z) (st : rolling_median_t) (p : Z) :
  side s -> wf st -> counts_ok st -> rising (w s st) (cnt s st) p -> 1 <= p <= cnt s st -> ord (w (- s) st) (cnt (- s) st) ->
  exists st', lift s st p = Val st' /\ moved st st' /\ sorted_around st'.
Proof.
  intros Hs Hw Hc Hri Hp Ho. unfold lift. pose proof (cnt_fuel s st Hs Hw Hc) as Hcf.
  destruct (up_spec s (length (heap st)) st p Hs Hw Hc Hri Hp ltac:(lia)) as (st1 & top & E & Hm & Ho1 & Ha & Ht). rewrite E. run.
  pose proof (mv_frame _ _ Hm) as Hfr. pose proof (frame_counts _ _ Hfr Hc) as Hc1. rewrite <- (frame_cnt s st st1) in Ho1 by done.
  assert (forall k, 1 <= k <= cnt (- s) st -> w (- s) st1 k = w (- s) st k) as Hk by (intros k Hk; by apply across_w).
  destruct top; cbn [andb].
  - destruct (Z.eqb_spec (cnt (- s) st1) 0) as [H0|H0]; cbn [negb].
    + exists st1. split_and!; [done|done|]. apply (sorted_sides s); [done|done|]. intros j Hj. lia.
    + rewrite (frame_cnt _ st st1) in H0 by done. assert (1 <= cnt (- s) st) as H1 by (unfold cnt, counts_ok in *; destruct (- s =? 1); lia).
      destruct (push_spec s st1) as (st2 & E2 & Hm2 & Hso); [done|apply Hm|done|by rewrite (frame_cnt _ st st1)|done| | |].
      * intros j Hj. rewrite (frame_cnt _ st st1) in Hj by done. rewrite !Hk by lia. apply Ho. lia.
      * intros _. rewrite Ht, Hk by lia. pose proof (w_opp_zero s st). specialize (Ho 1 ltac:(lia)). change (1 / 2) with 0 in Ho. lia.
      * exists st2. split_and!; [done|by eapply moved_trans|done].
  - exists st1. split_and!; [done|done|]. apply (sorted_sides s); [done|done|]. apply (ord_same (- s) st); [by apply side_opp|done|done|done|].
    intros k Hk0. destruct (Z.eq_dec k 0) as [->|]; [rewrite !w_opp_zero; lia|apply Hk; lia].
Qed.

(** ** The operations in these terms *)

Lemma minSortDown_down (st : rolling_median_t) (p : Z) : minSortDown st p = down 1 (length (heap st)) st (2 * p).
Proof. unfold minSortDown, down. by rewrite Z.mul_comm. Qed.

Lemma maxSortDown_down (st : rolling_median_t) (p : Z) : maxSortDown st (- p) = down (-1) (length (heap st)) st (2 * p).
Proof. unfold maxSortDown, down. change (-1 =? 1) with false. cbv iota. f_equal. lia. Qed.

Lemma lower_min_lift (st : rolling_median_t) (p : Z) :
  wf st -> counts_ok st -> rising (w 1 st) (cnt 1 st) p -> 1 <= p <= cnt 1 st -> 1 <= maxCt st -> lower_min st p = lift 1 st p.
Proof.
  intros Hw Hc Hri Hp Hmax. unfold lower_min, lift. change (minSortUp st p) with (up 1 (length (heap st)) st p).
  pose proof (cnt_fuel 1 st ltac:(by left) Hw Hc) as Hcf.
  destruct (up_spec 1 (length (heap st)) st p ltac:(by left) Hw Hc Hri Hp ltac:(lia)) as (st1 & top & E & Hm & _). rewrite E. run. run.
  destruct top; [|done]. assert ((cnt (Z.opp 1) st1 =? 0) = false) as ->.
  { apply Z.eqb_neq. pose proof (fr_max _ _ (mv_frame _ _ Hm)). change (cnt (Z.opp 1) st1) with (maxCt st1). lia. }
  cbn [andb negb]. unfold push. change (cmp_exch (Z.opp 1) st1 1 0) with (mmCmpExch st1 0 (-1)).
  destruct (mmCmpExch st1 0 (-1)) as [[st2 []]| | | |]; reflexivity.
Qed.

Lemma raise_max_lift (st : rolling_median_t) (p : Z) : raise_max st (- p) = lift (-1) st p.
Proof.
  unfold raise_max, lift. change (maxSortUp st (- p)) with (up (-1) (length (heap st)) st p).
  destruct (up (-1) (length (heap st)) st p) as [[st1 top]| | | |]; try done.
Qed.

Lemma settle_push (s : Z) (st : rolling_median_t) :
  side s -> wf st ->
  ('(st1, top) ← up s (length (heap st)) st 1;
   match top : bool with true => down s (length (heap st1)) st1 2 | false => Val st1 end) = push (- s) st.
Proof.
  intros Hs Hw. assert (exists n, length (heap st) = S n) as [n En].
  { pose proof (wf_heap st Hw). pose proof (wf_N st Hw). exists (pred (length (heap st))). lia. }
  rewrite En, up_round by (done || lia). unfold push. rewrite Z.opp_involutive. change (1 / 2) with 0.
  destruct (cmp_exch s st 1 0) as [[st1 []]| | | |]; try done. run. run. by rewrite up_zero.
Qed.

Lemma settle_max_push (st : rolling_median_t) : wf st -> maxCt st <> 0 -> settle_max st = push 1 st.
Proof.
  intros Hw Hn. unfold settle_max. rewrite (proj2 (Z.eqb_neq _ _)) by done. rewrite <- (settle_push (-1)) by (done || by right).
  change (maxSortUp st (-1)) with (up (-1) (length (heap st)) st 1).
  destruct (up (-1) (length (heap st)) st 1) as [[st1 []]| | | |]; try done.
Qed.

Lemma settle_min_push (st : rolling_median_t) : wf st -> minCt st <> 0 -> settle_min st = push (-1) st.
Proof.
  intros Hw Hn. unfold settle_min. rewrite (proj2 (Z.eqb_neq _ _)) by done. rewrite <- (settle_push 1) by (done || by left).
  change (minSortUp st 1) with (up 1 (length (heap st)) st 1).
  destruct (up 1 (length (heap st)) st 1) as [[st1 []]| | | |]; try done.
Qed.

(** ** The invariant *)

(** Where [clear] puts an index. *)
Definition pattern (a : Z) : Z := (a + 1) / 2 * (if Z.land a 1 =? 0 then 1 else -1).

Lemma pattern_even (k : Z) : pattern (2 * k) = k.
Proof.
  unfold pattern. replace (Z.land (2 * k) 1) with 0; [rewrite Z.eqb_refl; lia|].
  change 1 with (2 ^ 1 - 1). rewrite land_ones_mod by lia. symmetry. rewrite Z.mul_comm. by apply Z.mod_mul.
Qed.

Lemma pattern_odd (k : Z) : pattern (2 * k + 1) = - (k + 1).
Proof.
  unfold pattern. replace (Z.land (2 * k + 1) 1) with 1; [change (1 =? 0) with false; cbv iota; lia|].
  change 1 with (2 ^ 1 - 1) at 3. rewrite land_ones_mod by lia. change (2 ^ 1) with 2. lia.
Qed.

(** The values that are kept, the oldest first. *)
Definition window (st : rolling_median_t) : list Z :=
  if sz st <? N st then take (Z.to_nat (sz st)) (data st)
  else drop (Z.to_nat (idx st)) (data st) ++ take (Z.to_nat (idx st)) (data st).

(** All but the order of the heap. *)
Record placed (st : rolling_median_t) : Prop := {
  pl_wf : wf st;
  pl_sz : 0 <= sz st <= N st;
  pl_idx : 0 <= idx st < N st;
  pl_next : sz st < N st -> idx st = sz st;
  pl_max : maxCt st = sz st / 2;
  pl_min : minCt st = Z.max 0 ((sz st - 1) / 2);
  pl_act : 1 <= sz st -> forall i, active st i -> hp st i < sz st;
  pl_fresh : forall a, sz st <= a < N st -> ps st a = pattern a;
}.

Definition inv (st : rolling_median_t) : Prop := placed st /\ sorted_around st.

Lemma placed_counts (st : rolling_median_t) : placed st -> counts_ok st.
Proof. intros []. unfold counts_ok. lia. Qed.

Lemma placed_moved (st st' : rolling_median_t) : 1 <= sz st -> placed st -> moved st st' -> placed st' /\ window st' = window st.
Proof.
  intros H1 Hp [Hw' Hf Ha Hr]. pose proof (placed_counts st Hp) as Hc. destruct Hp, Hf. split; [|unfold window; by rewrite fr_sz0, fr_N0, fr_idx0, fr_data0].
  split; rewrite ?fr_sz0, ?fr_N0, ?fr_idx0, ?fr_min0, ?fr_max0; try done.
  - intros _ i Hi. assert (active st i) as Hi' by (by apply (frame_active st st')).
    destruct (Ha i Hi') as (j & Hj & ->). by apply pl_act0.
  - intros a Haa. destruct (wf_ps st pl_wf0 a ltac:(lia)) as [Rp Ep].
    rewrite <- (pl_fresh0 a Haa). assert (hp st' (ps st a) = a) as E.
    { rewrite <- Ep at 2. apply Hr; [done|]. intros Hi. specialize (pl_act0 H1 _ Hi). lia. }
    rewrite <- E at 1. apply Hw'. unfold in_range in *. by rewrite fr_N0.
Qed.

(** ** Writing a value *)

Definition written (st : rolling_median_t) (v : Z) : rolling_median_t :=
  set_queue (set_data st (<[Z.to_nat (idx st) := v]> (data st))) ((idx st + 1) mod N st) (Z.min (sz st + 1) (N st)).

Lemma written_wf (st : rolling_median_t) (v : Z) : wf st -> wf (written st v).
Proof. intros []. split; try done. cbn. by rewrite length_insert. Qed.

Lemma written_val (st : rolling_median_t) (v i : Z) :
  wf st -> 0 <= idx st < N st -> in_range st i -> val (written st v) i = if i =? ps st (idx st) then v else val st i.
Proof.
  intros Hw Hi Hr. unfold val. change (hp (written st v) i) with (hp st i). cbn [data written set_queue set_data].
  destruct (wf_hp st Hw i Hr) as [Rh Eh], (wf_ps st Hw _ Hi) as [_ Ep]. rewrite insert_total by (pose proof (wf_data st Hw); lia).
  case_decide as Ed; destruct (Z.eqb_spec i (ps st (idx st))) as [E|E]; try done.
  - exfalso. apply E. rewrite <- Eh. f_equal. lia.
  - exfalso. apply Ed. rewrite E, Ep. done.
Qed.

Definition next_window (n : Z) (W : list Z) (v : Z) : list Z :=
  if Z.of_nat (length W) <? n then W ++ [v] else tail W ++ [v].

Lemma take_written (d : list Z) (n : nat) (v : Z) : (n < length d)%nat -> take (S n) (<[n := v]> d) = take n d ++ [v].
Proof.
  intros Hn. rewrite (take_S_r _ n v) by (by rewrite list_lookup_insert_eq). by rewrite take_insert_ge.
Qed.

Lemma written_window (st : rolling_median_t) (v : Z) : placed st -> window (written st v) = next_window (N st) (window st) v.
Proof.
  intros [Hw Hs Hi Hn _ _ _ _]. pose proof (wf_data st Hw) as Hd. unfold window, next_window. cbn [sz N idx data written set_queue set_data].
  set (d := <[Z.to_nat (idx st) := v]> (data st)). assert (length d = length (data st)) as Hld by apply length_insert.
  destruct (Z.ltb_spec (sz st) (N st)) as [Hlt|Hge].
  - specialize (Hn Hlt). rewrite length_take, Nat.min_l, Z2Nat.id, (proj2 (Z.ltb_lt (sz st) (N st))) by lia.
    assert (take (Z.to_nat (sz st + 1)) d = take (Z.to_nat (sz st)) (data st) ++ [v]) as Et.
    { unfold d. rewrite Hn, Z2Nat.inj_add, Nat.add_comm by lia. apply take_written. lia. }
    destruct (Z.ltb_spec (Z.min (sz st + 1) (N st)) (N st)); [by rewrite Z.min_l by lia|].
    rewrite Hn. assert (sz st + 1 = N st) as E by lia. rewrite E, Z.mod_same by lia.
    change (Z.to_nat 0) with 0%nat. rewrite drop_0, take_0, app_nil_r. rewrite <- Et, take_ge by lia. done.
  - rewrite (proj2 (Z.ltb_ge (Z.min _ _) _)) by lia. rewrite length_app, length_drop, length_take, (proj2 (Z.ltb_ge (Z.of_nat _) _)) by lia.
    set (k := Z.to_nat (idx st)) in *. destruct (lookup_lt_is_Some_2 (data st) k ltac:(lia)) as [x Hx].
    rewrite (drop_S (data st) x k Hx). cbn [app tail]. rewrite <- app_assoc, <- take_written by lia. fold d.
    destruct (Z.eq_dec (idx st + 1) (N st)) as [E|Hne].
    + rewrite E, Z.mod_same by lia. change (Z.to_nat 0) with 0%nat. rewrite drop_0, take_0, app_nil_r.
      rewrite (drop_ge (data st)) by lia. cbn [app]. by rewrite take_ge by lia.
    + rewrite Z.mod_small by lia. replace (Z.to_nat (idx st + 1)) with (S k) by lia. f_equal. unfold d. by rewrite drop_insert_lt by lia.
Qed.

(** ** Insertion *)

(** The counts with one more on a side. *)
Definition grown (s : Z) (st : rolling_median_t) : rolling_median_t :=
  if s =? 1 then set_counts st (maxCt st) (minCt st + 1) else set_counts st (maxCt st + 1) (minCt st).

Lemma grown_cnt (s : Z) (st : rolling_median_t) : side s -> cnt s (grown s st) = cnt s st + 1 /\ cnt (- s) (grown s st) = cnt (- s) st.
Proof. intros Hs. unfold grown, cnt. by sides Hs. Qed.

(** How many places a side has. *)
Definition room (s : Z) (st : rolling_median_t) : Z := if s =? 1 then (N st - 1) / 2 else N st / 2.

Lemma cnt_room (s : Z) (st : rolling_median_t) : counts_ok st -> 0 <= cnt s st <= room s st.
Proof. unfold counts_ok, cnt, room. destruct (s =? 1); lia. Qed.

(** The side the next value goes to while there is room: it gets the next place of that side. *)
Lemma next_place (st : rolling_median_t) (v : Z) :
  placed st -> 1 <= sz st < N st ->
  exists s, side s /\ s * ps st (idx st) = cnt s st + 1 /\ cnt s st < room s st /\
    placed (grown s (written st v)).
Proof.
  intros Hp Hsz. pose proof (written_wf st v (pl_wf st Hp)) as Hw. destruct Hp. rewrite pl_next0 by lia.
  assert (ps st (sz st) = pattern (sz st)) as Epat by (apply pl_fresh0; lia). destruct (wf_ps st pl_wf0 (sz st) ltac:(lia)) as [_ Eh].
  assert (exists s, side s /\ s * ps st (sz st) = cnt s st + 1 /\ sz st mod 2 = if s =? 1 then 0 else 1) as (s & Hs & Hps & Hpar).
  { destruct (Z.eq_dec (sz st mod 2) 0) as [E|E].
    - exists 1. split; [by left|]. rewrite Epat. replace (sz st) with (2 * (sz st / 2)) at 1 by lia. rewrite pattern_even. cbn. lia.
    - exists (-1). split; [by right|]. rewrite Epat. replace (sz st) with (2 * (sz st / 2) + 1) at 1 by lia. rewrite pattern_odd. cbn. lia. }
  exists s. split_and!; [done|done|unfold cnt, room; sides Hs; lia|].
  assert (forall i, active (grown s (written st v)) i -> active st i \/ i = ps st (sz st)) as Hact.
  { intros i. unfold grown, active, cnt in *. sides Hs; cbn; lia. }
  assert (wf (grown s (written st v))) as Hwg by (unfold grown; destruct (s =? 1); destruct Hw; by split).
  assert (sz (grown s (written st v)) = sz st + 1 /\ N (grown s (written st v)) = N st /\ idx (grown s (written st v)) = (sz st + 1) mod N st
          /\ hp (grown s (written st v)) = hp st /\ ps (grown s (written st v)) = ps st) as (Esz & EN & Ei & Ehp & Eps).
  { unfold grown. destruct (s =? 1); cbn [sz N idx written set_queue set_counts set_data]; (split_and!; [lia|done|by rewrite pl_next0 by lia|done|done]). }
  split; rewrite ?Esz, ?EN, ?Ei, ?Ehp, ?Eps; [done|lia| | | | | |].
  - apply Z.mod_pos_bound. lia.
  - intros ?. apply Z.mod_small. lia.
  - unfold grown. sides Hs; cbn; lia.
  - unfold grown. sides Hs; cbn; lia.
  - intros _ i [Hi | ->]%Hact; [specialize (pl_act0 ltac:(lia) i Hi); lia|lia].
  - intros a Ha. apply pl_fresh0. lia.
Qed.

Lemma grown_window (s : Z) (st : rolling_median_t) : window (grown s st) = window st.
Proof. unfold grown. by destruct (s =? 1). Qed.

Lemma grown_w (s s' : Z) (st : rolling_median_t) : w s' (grown s st) = w s' st.
Proof. unfold grown. by destruct (s =? 1). Qed.

(** The new value seen from a side. *)
Lemma written_w (s : Z) (st : rolling_median_t) (v k : Z) :
  side s -> placed st -> 0 <= k <= room s st ->
  w s (written st v) k = if k =? s * ps st (idx st) then s * v else w s st k.
Proof.
  intros Hs Hp Hk. pose proof (wf_N st (pl_wf st Hp)). unfold w. rewrite written_val; [|apply Hp|apply Hp|unfold in_range, room in *; sides Hs; lia].
  destruct (Z.eqb_spec (s * k) (ps st (idx st))), (Z.eqb_spec k (s * ps st (idx st))); try done; sides Hs; lia.
Qed.

(** A full window: every place is used. *)
Lemma placed_full (st : rolling_median_t) (v : Z) : placed st -> sz st = N st -> placed (written st v).
Proof.
  intros Hp Hf. pose proof (written_wf st v (pl_wf st Hp)) as Hw. destruct Hp.
  assert (sz (written st v) = N st) as Esz by (cbn; lia).
  split; rewrite ?Esz; change (N (written st v)) with (N st); [done|lia| |lia| | | |lia].
  - apply Z.mod_pos_bound. lia.
  - cbn. lia.
  - cbn. lia.
  - intros _ i Hi. change (hp (written st v) i) with (hp st i). rewrite <- Hf. apply pl_act0; [lia|done].
Qed.

Lemma settled (st st' : rolling_median_t) :
  1 <= sz st -> placed st -> moved st st' -> sorted_around st' -> inv st' /\ window st' = window st /\ N st' = N st.
Proof. intros H1 Hp Hm Hs. destruct (placed_moved st st' H1 Hp Hm). split_and!; [by split|done|apply Hm]. Qed.

(** What an insertion leaves. *)
Definition inserted (st : rolling_median_t) (v : Z) (st' : rolling_median_t) : Prop :=
  inv st' /\ window st' = next_window (N st) (window st) v /\ N st' = N st.

Lemma settled_written (st : rolling_median_t) (v : Z) (st' : rolling_median_t) :
  placed st -> placed (written st v) -> moved (written st v) st' -> sorted_around st' -> inserted st v st'.
Proof.
  intros Hp Hpw Hm Hso. pose proof (wf_N st (pl_wf st Hp)). pose proof (pl_sz st Hp). destruct (settled (written st v) st') as (? & Ew & EN); [cbn; lia|done..|].
  unfold inserted. by rewrite Ew, EN, written_window.
Qed.

Definition insert_side (s : Z) (st : rolling_median_t) (p v old : Z) : outcome rolling_median_t :=
  if s =? 1 then insert_min st p v old else insert_max st p v old.

Lemma insert_side_room (s : Z) (st : rolling_median_t) (p v old : Z) :
  side s -> cnt s st < room s st ->
  insert_side s st p v old = if s =? 1 then lower_min (grown s st) p else raise_max (grown s st) p.
Proof.
  intros Hs Hc. unfold insert_side, grown, room, cnt, insert_min, insert_max in *. sides Hs; by rewrite (proj2 (Z.ltb_lt _ _)) by done.
Qed.

Lemma insert_side_full (s : Z) (st : rolling_median_t) (p v old : Z) :
  side s -> cnt s st = room s st ->
  insert_side s st (s * p) v old
  = if s * old <? s * v then down s (length (heap st)) st (2 * p)
    else if s =? 1 then lower_min st p else raise_max st (- p).
Proof.
  intros Hs Hc. unfold insert_side, room, cnt, insert_min, insert_max in *. sides Hs.
  - rewrite Hc, Z.ltb_irrefl, minSortDown_down. rewrite !Z.mul_1_l. done.
  - rewrite Hc, Z.ltb_irrefl. replace (-1 * p) with (- p) by lia. rewrite maxSortDown_down.
    destruct (Z.ltb_spec v old), (Z.ltb_spec (-1 * old) (-1 * v)); lia || done.
Qed.

Lemma lower_lift (s : Z) (st : rolling_median_t) (p : Z) :
  side s -> wf st -> counts_ok st -> rising (w s st) (cnt s st) p -> 1 <= p <= cnt s st -> 1 <= maxCt st ->
  (if s =? 1 then lower_min st p else raise_max st (- p)) = lift s st p.
Proof. intros Hs Hw Hc Hr Hp Hm. sides Hs; [by apply lower_min_lift|apply raise_max_lift]. Qed.

(** A value written while there is room comes into the last place of its side. *)
Lemma rising_new (s : Z) (st : rolling_median_t) (v p : Z) :
  side s -> inv st -> s * ps st (idx st) = p -> p = cnt s st + 1 -> p <= room s st -> 1 <= p ->
  rising (w s (grown s (written st v))) p p /\ ord (w (- s) (grown s (written st v))) (cnt (- s) st).
Proof.
  intros Hs [Hp Ho] Ep Ec Hr H1. rewrite !grown_w. pose proof (placed_counts st Hp) as Hc. pose proof (side_opp s Hs) as Hs'.
  assert (ord (w s st) (cnt s st) /\ ord (w (- s) st) (cnt (- s) st)) as [O1 O2] by (destruct Ho; by sides Hs).
  split; [split; [lia| |]|].
  - intros j Hj Hn. rewrite !written_w by (done || lia). rewrite Ep, !(proj2 (Z.eqb_neq _ _)) by lia. apply O1. lia.
  - intros. lia.
  - intros j Hj. pose proof (cnt_room (- s) st Hc). rewrite !written_w by (done || lia).
    rewrite !(proj2 (Z.eqb_neq _ _)) by lia. apply O2. lia.
Qed.

Lemma insert_room (s : Z) (st : rolling_median_t) (v old : Z) :
  side s -> inv st -> 1 <= sz st < N st -> s * ps st (idx st) = cnt s st + 1 -> cnt s st < room s st ->
  placed (grown s (written st v)) ->
  exists st', insert_side s (written st v) (ps st (idx st)) v old = Val st' /\ inserted st v st'.
Proof.
  intros Hs Hi Hsz Hps Hr Hpg. pose proof (placed_counts st (proj1 Hi)) as Hc. assert (0 <= cnt s st) as H0 by (unfold cnt, counts_ok in *; sides Hs; lia).
  rewrite insert_side_room by (done || unfold cnt, room in *; by sides Hs).
  destruct (rising_new s st v (cnt s st + 1) Hs Hi Hps eq_refl ltac:(lia) ltac:(lia)) as [Hri Ho].
  destruct (grown_cnt s (written st v) Hs) as [Eg Eg']. change (cnt s (written st v)) with (cnt s st) in Eg.
  change (cnt (- s) (written st v)) with (cnt (- s) st) in Eg'. rewrite <- Eg in Hri at 1. rewrite <- Eg' in Ho.
  replace (if s =? 1 then lower_min _ _ else raise_max _ _) with (lift s (grown s (written st v)) (cnt s st + 1)).
  - destruct (lift_spec s (grown s (written st v)) (cnt s st + 1)) as (st' & E & Hm & Hso); [done|apply Hpg|by apply placed_counts|done|lia|done|].
    exists st'. split; [done|]. destruct (settled (grown s (written st v)) st') as (? & Ew & EN); [|done..|].
    { unfold grown. destruct (s =? 1); cbn; lia. }
    unfold inserted. rewrite Ew, EN, grown_window, written_window by apply Hi. split_and!; [done..|]. unfold grown. by destruct (s =? 1).
  - rewrite <- lower_lift; [|done|apply Hpg|by apply placed_counts|done|lia|].
    + sides Hs; f_equal; lia.
    + rewrite (pl_max _ Hpg). unfold grown. destruct (s =? 1); cbn; lia.
Qed.

(** A value written over an old one, on a side. *)
Lemma written_full (s : Z) (st : rolling_median_t) (v p : Z) :
  side s -> inv st -> sz st = N st -> s * ps st (idx st) = p -> 1 <= p ->
  (s * data st !!! Z.to_nat (idx st) < s * v -> sinking (w s (written st v)) (cnt s st) p) /\
  (s * v <= s * data st !!! Z.to_nat (idx st) -> rising (w s (written st v)) (cnt s st) p) /\
  ord (w (- s) (written st v)) (cnt (- s) st) /\ p <= cnt s st /\ cnt s st = room s st.
Proof.
  intros Hs [Hp Ho] Hf Ep H1. pose proof (placed_counts st Hp) as Hc. pose proof (side_opp s Hs) as Hs'.
  assert (ord (w s st) (cnt s st) /\ ord (w (- s) st) (cnt (- s) st)) as [O1 O2] by (destruct Ho; by sides Hs).
  destruct (wf_ps st (pl_wf st Hp) _ (pl_idx st Hp)) as [Rp Eh].
  assert (w s st p = s * data st !!! Z.to_nat (idx st)) as Eo.
  { unfold w, val. do 2 f_equal. f_equal. rewrite <- Eh. f_equal. destruct Hs as [-> | ->]; lia. }
  assert (cnt s st = room s st) as Ecr by (destruct Hp; unfold cnt, room; sides Hs; lia).
  assert (p <= cnt s st) as Hpc by (rewrite Ecr; unfold in_range, room in *; sides Hs; lia).
  assert (forall k, 0 <= k <= cnt s st -> w s (written st v) k = if k =? p then s * v else w s st k) as Hww.
  { intros k Hk. rewrite <- Ep. apply written_w; [done|done|]. lia. }
  split_and!; [| | |done|done].
  - intros Hlt. split; [done| |].
    + intros j Hj Hn. rewrite !Hww by lia. specialize (O1 j Hj). destruct (Z.eqb_spec (j / 2) p) as [Ej|], (Z.eqb_spec j p) as [Ej'|]; rewrite ?Ej, ?Ej' in O1; rewrite ?Ej, ?Ej'; lia.
    + intros c Hcr Ec. rewrite !Hww by lia. pose proof (O1 c Hcr). pose proof (O1 p ltac:(lia)). rewrite Ec in *. repeat zcase; subst; lia.
  - intros Hle. split; [lia| |].
    + intros j Hj Hn. rewrite !Hww by lia. specialize (O1 j Hj). destruct (Z.eqb_spec (j / 2) p) as [Ej|], (Z.eqb_spec j p) as [Ej'|]; rewrite ?Ej, ?Ej' in O1; rewrite ?Ej, ?Ej'; lia.
    + intros _ c Hcr Ec. rewrite !Hww by lia. pose proof (O1 c Hcr). pose proof (O1 p ltac:(lia)). rewrite Ec in *. repeat zcase; subst; lia.
  - intros j Hj. pose proof (cnt_room (- s) st Hc). rewrite !written_w by (done || lia).
    rewrite !(proj2 (Z.eqb_neq _ _)) by lia. apply O2. lia.
Qed.

Lemma insert_full (s : Z) (st : rolling_median_t) (v : Z) :
  side s -> inv st -> sz st = N st -> 1 <= s * ps st (idx st) ->
  exists st', insert_side s (written st v) (ps st (idx st)) v (data st !!! Z.to_nat (idx st)) = Val st' /\ inserted st v st'.
Proof.
  intros Hs Hi Hf H1. set (p := s * ps st (idx st)) in *. pose proof (placed_full st v (proj1 Hi) Hf) as Hpw.
  pose proof (placed_counts _ Hpw) as Hcw. pose proof (wf_N st (pl_wf _ (proj1 Hi))) as HN.
  destruct (written_full s st v p Hs Hi Hf eq_refl H1) as (Hsk & Hri & Ho & Hpc & Ecr).
  replace (ps st (idx st)) with (s * p) by (unfold p; destruct Hs as [-> | ->]; lia). rewrite insert_side_full by done.
  assert (exists st', (if s * data st !!! Z.to_nat (idx st) <? s * v then down s (length (heap (written st v))) (written st v) (2 * p)
    else if s =? 1 then lower_min (written st v) p else raise_max (written st v) (- p)) = Val st' /\ moved (written st v) st' /\ sorted_around st')
    as (st' & E & Hm & Hso).
  - destruct (Z.ltb_spec (s * data st !!! Z.to_nat (idx st)) (s * v)) as [Hlt|Hge].
    + pose proof (cnt_fuel s _ Hs (pl_wf _ Hpw) Hcw) as Hcf. change (cnt s (written st v)) with (cnt s st) in Hcf.
      destruct (down_spec s (length (heap (written st v))) (written st v) p Hs (pl_wf _ Hpw) Hcw (Hsk Hlt) Hpc) as (st' & E & Hm & Ho1 & Hb);
        [change (cnt s (written st v)) with (cnt s st); lia|].
      exists st'. split_and!; [done|done|]. pose proof (mv_frame _ _ Hm) as Hfr. apply (sorted_sides s); [done|by rewrite (frame_cnt s (written st v) st')|].
      apply (ord_same (- s) (written st v)); [by apply side_opp|done|done|done|]. intros k Hk. by apply beyond_w.
    + rewrite lower_lift; [|done|apply Hpw|done|by apply Hri|by split|].
      * apply lift_spec; [done|apply Hpw|done|by apply Hri|by split|done].
      * rewrite (pl_max _ Hpw). change (sz (written st v)) with (Z.min (sz st + 1) (N st)). unfold room in Ecr. sides Hs; lia.
  - exists st'. split; [done|]. apply settled_written; (done || apply Hi).
Qed.

(** In order but for the median. *)
Definition unsettled (st : rolling_median_t) : Prop :=
  (forall s j, side s -> 2 <= j <= cnt s st -> w s st (j / 2) <= w s st j) /\
  (1 <= cnt 1 st -> 1 <= cnt (-1) st -> - w (-1) st 1 <= w 1 st 1).

Lemma sorted_same (st st' : rolling_median_t) :
  counts_ok st -> moved st st' -> (forall k, in_range st k -> val st' k = val st k) ->
  forall s, side s -> ord (w s st) (cnt s st) -> ord (w s st') (cnt s st').
Proof.
  intros Hc Hm Hv s Hs Ho. apply (ord_same s st); [done..|]. intros k Hk. unfold w. f_equal. by apply Hv, active_range, side_active.
Qed.

Lemma unsettled_ord (s : Z) (st : rolling_median_t) :
  side s -> unsettled st -> (1 <= cnt s st -> w s st 0 <= w s st 1) -> ord (w s st) (cnt s st).
Proof.
  intros Hs [Hu _] H1 j Hj. destruct (Z.eq_dec j 1) as [->|]; [change (1 / 2) with 0; apply H1; lia|apply Hu; [done|lia]].
Qed.

Lemma settle_min_sorted (st : rolling_median_t) :
  wf st -> counts_ok st -> sorted_around st -> exists st', settle_min st = Val st' /\ moved st st' /\ sorted_around st'.
Proof.
  intros Hw Hc Hso. destruct (Z.eq_dec (minCt st) 0) as [E|E].
  - exists st. unfold settle_min. rewrite E. split_and!; [done|by apply moved_refl|done].
  - rewrite settle_min_push by done. destruct (push_none (-1) st) as (st' & Ep & Hm & Hv);
      [by right|done|done|change (cnt (- -1) st) with (minCt st); unfold counts_ok in Hc; lia| |].
    + change (- -1) with 1. destruct Hso as [O1 _]. apply (O1 1). change (cnt 1 st) with (minCt st). unfold counts_ok in Hc. lia.
    + exists st'. destruct Hso as [O1 O2]. split_and!; [done|done|]. pose proof (sorted_same st st' Hc Hm Hv) as Hss.
      split; [apply (Hss 1); [by left|done]|apply (Hss (-1)); [by right|done]].
Qed.

Lemma insert_median_spec (st : rolling_median_t) :
  wf st -> counts_ok st -> minCt st <= maxCt st -> unsettled st ->
  exists st', insert_median st = Val st' /\ moved st st' /\ sorted_around st'.
Proof.
  intros Hw Hc Hmm Hu. unfold insert_median. destruct (Z.eq_dec (maxCt st) 0) as [E|E].
  { exists st. unfold settle_max. rewrite E. change (0 =? 0) with true. cbv iota. run. unfold settle_min. rewrite (proj2 (Z.eqb_eq (minCt st) 0)) by (unfold counts_ok in Hc; lia).
    split_and!; [done|by apply moved_refl|]. split; intros j Hj; unfold cnt, counts_ok in *; cbn in Hj; lia. }
  rewrite settle_max_push by done. assert (1 <= cnt (-1) st) as H1 by (change (cnt (-1) st) with (maxCt st); unfold counts_ok in Hc; lia).
  destruct (Z.le_gt_cases (w (-1) st 0) (w (-1) st 1)) as [Hle|Hgt].
  - destruct (push_none 1 st ltac:(by left) Hw Hc H1 Hle) as (st1 & Ep & Hm & Hv). rewrite Ep. run.
    pose proof (mv_frame _ _ Hm) as Hfr. pose proof (frame_counts _ _ Hfr Hc) as Hc1.
    assert (ord (w (-1) st1) (cnt (-1) st1)) as O1.
    { apply (sorted_same st); [done..|by right|]. apply unsettled_ord; (done || by right). }
    assert (forall s k, side s -> 0 <= k <= cnt s st -> w s st1 k = w s st k) as Hww.
    { intros s k Hs Hk. unfold w. f_equal. by apply Hv, active_range, side_active. }
    destruct (Z.eq_dec (minCt st1) 0) as [E1|E1].
    + exists st1. unfold settle_min. rewrite E1. split_and!; [done|done|]. split; [|done]. intros j Hj. change (cnt 1 st1) with (minCt st1) in Hj. lia.
    + rewrite settle_min_push by (done || apply Hm). destruct Hu as [Hu Hsep]. assert (1 <= cnt 1 st) as H11.
      { rewrite <- (frame_cnt 1 st st1) by done. change (cnt 1 st1) with (minCt st1). unfold counts_ok in Hc1. lia. }
      destruct (push_spec (-1) st1) as (st2 & Ep2 & Hm2 & Hso); [by right|apply Hm|done|by rewrite (frame_cnt _ st st1)|done| | |].
      * intros j Hj. change (- -1) with 1 in *. rewrite (frame_cnt _ st st1) in Hj by done. rewrite !Hww by (by left || lia). apply Hu; [by left|done].
      * intros _. change (- -1) with 1. rewrite (Hww 1), (Hww (-1)) by ((by left) || (by right) || lia). specialize (Hsep H11 H1). lia.
      * exists st2. split_and!; [done|by eapply moved_trans|done].
  - destruct (push_spec 1 st) as (st1 & Ep & Hm & Hso); [by left|done|done|done| | | |].
    + apply unsettled_ord; [by left|done|]. intros H11. destruct Hu as [_ Hsep]. specialize (Hsep H11 H1). pose proof (w_opp_zero 1 st). change (Z.opp 1) with (-1) in *. lia.
    + intros j Hj. apply Hu; [by right|done].
    + intros H11. apply Hu; done.
    + rewrite Ep. run. destruct (settle_min_sorted st1) as (st2 & E2 & Hm2 & Hso2); [apply Hm|by apply (frame_counts st); [apply Hm|]|done|].
      exists st2. split_and!; [done|by eapply moved_trans|done].
Qed.

(** The first value. *)
Lemma placed_first (st : rolling_median_t) (v : Z) : placed st -> sz st = 0 -> placed (written st v) /\ ps st (idx st) = 0.
Proof.
  intros Hp Hz. pose proof (written_wf st v (pl_wf st Hp)) as Hw. pose proof (wf_N st (pl_wf st Hp)) as HN. destruct Hp.
  rewrite pl_next0, Hz in * by lia. assert (ps st 0 = 0) as E0 by (apply pl_fresh0; lia). split; [|done].
  destruct (wf_ps st pl_wf0 0 ltac:(lia)) as [_ Eh]. rewrite E0 in Eh.
  assert (sz (written st v) = 1) as Esz by (cbn; lia). assert (idx (written st v) = 1 mod N st) as Ei by (cbn; by rewrite pl_next0 by lia).
  split; rewrite ?Esz, ?Ei; change (N (written st v)) with (N st); [done|lia| | | | | |].
  - apply Z.mod_pos_bound. lia.
  - intros ?. apply Z.mod_small. lia.
  - cbn. lia.
  - cbn. lia.
  - intros _ i Hi. assert (i = 0) as -> by (unfold active in Hi; cbn in Hi; lia). change (hp (written st v) 0) with (hp st 0). lia.
  - intros a Ha. apply pl_fresh0. lia.
Qed.

Lemma unsettled_written (st : rolling_median_t) (v : Z) : inv st -> ps st (idx st) = 0 -> unsettled (written st v).
Proof.
  intros [Hp [O1 O2]] E0. pose proof (placed_counts st Hp) as Hc.
  assert (forall s k, side s -> 1 <= k <= cnt s st -> w s (written st v) k = w s st k) as Hww.
  { intros s k Hs Hk. pose proof (cnt_room s st Hc). rewrite written_w, E0, (proj2 (Z.eqb_neq _ _)) by (done || lia). done. }
  split.
  - intros s j Hs Hj. change (cnt s (written st v)) with (cnt s st) in Hj. rewrite !Hww by (done || lia).
    destruct Hs as [-> | ->]; [apply O1|apply O2]; lia.
  - change (cnt 1 (written st v)) with (cnt 1 st). change (cnt (-1) (written st v)) with (cnt (-1) st). intros H1 H2.
    rewrite (Hww 1), (Hww (-1)) by ((by left) || (by right) || lia). pose proof (O1 1 ltac:(lia)) as R1. pose proof (O2 1 ltac:(lia)) as R2.
    change (1 / 2) with 0 in *. pose proof (w_opp_zero 1 st). change (Z.opp 1) with (-1) in *. lia.
Qed.

Lemma inserted_median (st : rolling_median_t) (v : Z) :
  inv st -> placed (written st v) -> ps st (idx st) = 0 -> exists st', insert_median (written st v) = Val st' /\ inserted st v st'.
Proof.
  intros Hi Hpw E0. destruct (insert_median_spec (written st v)) as (st' & E & Hm & Hso).
  - apply Hpw.
  - by apply placed_counts.
  - rewrite (pl_max _ Hpw), (pl_min _ Hpw). pose proof (pl_sz _ Hpw). lia.
  - by apply unsettled_written.
  - exists st'. split; [done|]. apply settled_written; (done || apply Hi).
Qed.

Lemma insert_unfold (st : rolling_median_t) (v : Z) :
  placed st ->
  insert st v
  = if 0 <? ps st (idx st) then insert_side 1 (written st v) (ps st (idx st)) v (data st !!! Z.to_nat (idx st))
    else if ps st (idx st) <? 0 then insert_side (-1) (written st v) (ps st (idx st)) v (data st !!! Z.to_nat (idx st))
    else insert_median (written st v).
Proof.
  intros Hp. pose proof (pl_idx st Hp) as Hi. destruct (pl_wf st Hp) as [_ Hd Hps _ _ _]. unfold insert.
  rewrite (c_index_total (pos st)) by lia. run. rewrite (c_index_total (data st)) by lia. run. rewrite c_update_in by lia. run. done.
Qed.

Theorem insert_inv (st : rolling_median_t) (v : Z) : inv st -> exists st', insert st v = Val st' /\ inserted st v st'.
Proof.
  intros Hi. pose proof (proj1 Hi) as Hp. rewrite insert_unfold by done. pose proof (pl_sz st Hp) as Hsz.
  destruct (Z.eq_dec (sz st) 0) as [Hz|Hz].
  - destruct (placed_first st v Hp Hz) as [Hpw E0]. rewrite !E0. change (0 <? 0) with false. cbv iota. by apply inserted_median.
  - destruct (Z.eq_dec (sz st) (N st)) as [Hf|Hf].
    + destruct (Z.ltb_spec 0 (ps st (idx st))); [apply insert_full; [by left|done|done|lia]|].
      destruct (Z.ltb_spec (ps st (idx st)) 0); [apply insert_full; [by right|done|done|lia]|].
      apply inserted_median; [done|by apply placed_full|lia].
    + destruct (next_place st v Hp ltac:(lia)) as (s & Hs & Eps & Hr & Hpg). pose proof (cnt_room s st (placed_counts st Hp)).
      destruct (Z.ltb_spec 0 (ps st (idx st))), (Z.ltb_spec (ps st (idx st)) 0), Hs as [-> | ->];
        try (apply insert_room; ((by left) || (by right) || done || lia)); lia.
Qed.

(** ** [clear] *)

Lemma pattern_cases (a : Z) : exists k, (a = 2 * k /\ pattern a = k) \/ (a = 2 * k + 1 /\ pattern a = - (k + 1)).
Proof.
  exists (a / 2). destruct (Z.eq_dec (a mod 2) 0).
  - left. split; [lia|]. rewrite <- (pattern_even (a / 2)). f_equal. lia.
  - right. split; [lia|]. rewrite <- (pattern_odd (a / 2)). f_equal. lia.
Qed.

Lemma pattern_inj (a b : Z) : 0 <= a -> 0 <= b -> pattern a = pattern b -> a = b.
Proof. intros Ha Hb He. destruct (pattern_cases a) as [k Hk], (pattern_cases b) as [j Hj]. lia. Qed.

Lemma pattern_range (a n : Z) : 0 <= a < n -> - (n / 2) <= pattern a <= (n - 1) / 2.
Proof. intros Ha. destruct (pattern_cases a) as [k Hk]. lia. Qed.

Lemma pattern_onto (i n : Z) : - (n / 2) <= i <= (n - 1) / 2 -> exists a, 0 <= a < n /\ pattern a = i.
Proof.
  intros Hi. destruct (Z.le_gt_cases 0 i).
  - exists (2 * i). rewrite pattern_even. lia.
  - exists (2 * (- i - 1) + 1). rewrite pattern_odd. lia.
Qed.

Lemma clear_loop_spec (n : nat) (off : Z) (h p : list Z) :
  (n <= length p)%nat -> (forall a, 0 <= a < Z.of_nat n -> 0 <= pattern a + off < Z.of_nat (length h)) ->
  exists h' p', clear_loop n off h p = Val (h', p') /\ length h' = length h /\ length p' = length p /\
    (forall a, 0 <= a < Z.of_nat n -> p' !!! Z.to_nat a = pattern a /\ h' !!! Z.to_nat (pattern a + off) = a) /\
    (forall k : nat, (n <= k)%nat -> p' !!! k = p !!! k) /\
    (forall k : nat, (forall a, 0 <= a < Z.of_nat n -> Z.of_nat k <> pattern a + off) -> h' !!! k = h !!! k).
Proof.
  revert h p. induction n as [|n IH]; intros h p Hp Hh; [by exists h, p; split_and!; [..|lia|done|done]|].
  cbn [clear_loop]. cbv zeta. change ((Z.of_nat n + 1) / 2 * _) with (pattern (Z.of_nat n)). pose proof (Hh (Z.of_nat n) ltac:(lia)) as Hn.
  rewrite (c_update_in p) by lia. run. rewrite (c_update_in h) by lia. run.
  set (h1 := <[_ := _]> h). set (p1 := <[_ := _]> p). assert (length h1 = length h /\ length p1 = length p) as [L1 L2] by (unfold h1, p1; by rewrite !length_insert).
  destruct (IH h1 p1) as (h' & p' & E & Lh & Lp & Ha & Hp' & Hh'); [lia|intros a Ha; rewrite L1; apply Hh; lia|].
  exists h', p'. split_and!; [done|congruence|congruence| | |].
  - intros a Har. destruct (Z.eq_dec a (Z.of_nat n)) as [->|]; [|apply Ha; lia]. split.
    + rewrite Hp' by lia. unfold p1. rewrite Nat2Z.id. apply list_lookup_total_insert_eq. lia.
    + rewrite Hh'; [unfold h1; apply list_lookup_total_insert_eq; lia|]. intros a Hax He.
      assert (a = Z.of_nat n); [apply pattern_inj; lia|lia].
  - intros k Hk. rewrite Hp' by lia. unfold p1. apply list_lookup_total_insert_ne. lia.
  - intros k Hk. rewrite Hh' by (intros a Hax; apply Hk; lia). unfold h1. apply list_lookup_total_insert_ne.
    specialize (Hk (Z.of_nat n) ltac:(lia)). lia.
Qed.

(** Whatever is in the memory. *)
Theorem clear_inv (st : rolling_median_t) :
  1 <= N st -> Z.of_nat (length (data st)) = N st -> Z.of_nat (length (pos st)) = N st -> Z.of_nat (length (heap st)) = N st ->
  exists st', clear st = Val st' /\ inv st' /\ window st' = [] /\ N st' = N st.
Proof.
  intros HN Hd Hp Hh. unfold clear.
  destruct (clear_loop_spec (Z.to_nat (N st)) (N st / 2) (heap st) (pos st)) as (h & p & E & Lh & Lp & Ha & _ & _).
  - lia.
  - intros a Ha. pose proof (pattern_range a (N st) ltac:(lia)). lia.
  - rewrite E. run. eexists. split; [reflexivity|]. rewrite Z2Nat.id in Ha by lia.
    split_and!; [|unfold window; cbn; by rewrite (proj2 (Z.ltb_lt _ _)) by lia|done].
    split; [|split; intros j Hj; unfold cnt in Hj; cbn in Hj; lia].
    split; cbn; try lia; [split; cbn; try lia|intros a Hax; apply Ha; lia].
    + intros i Hi. destruct (pattern_onto i (N st) Hi) as (a & Hax & <-). destruct (Ha a Hax) as [E1 E2].
      unfold hp, ps. cbn. rewrite E2. done.
    + intros a Hax. destruct (Ha a Hax) as [E1 E2]. unfold hp, ps, in_range. cbn. rewrite E1. split; [by apply pattern_range|done].
Qed.

(** ** The median *)

Lemma sort_Z_around (lo hi l : list Z) (m : Z) :
  l ≡ₚ lo ++ m :: hi -> Forall (fun x => x <= m) lo -> Forall (fun x => m <= x) hi -> sort_Z l = sort_Z lo ++ m :: sort_Z hi.
Proof.
  intros Hl Hlo Hhi. apply (StronglySorted_unique Z.le).
  - apply sort_Z_strongly.
  - apply StronglySorted_app. split_and!.
    + intros x y Hx Hy. rewrite sort_Z_Permutation in Hx. rewrite Forall_forall in Hlo. specialize (Hlo x Hx). rewrite Forall_forall in Hhi.
      apply elem_of_cons in Hy as [->|Hy]; [done|]. rewrite sort_Z_Permutation in Hy. specialize (Hhi y Hy). lia.
    + apply sort_Z_strongly.
    + constructor; [apply sort_Z_strongly|]. by apply sort_Z_Forall.
  - by rewrite !sort_Z_Permutation.
Qed.

Lemma median_around (lo hi l : list Z) (m : Z) :
  l ≡ₚ lo ++ m :: hi -> Forall (fun x => x <= m) lo -> Forall (fun x => m <= x) hi -> length lo = length hi -> Coinbase.median l = Val m.
Proof.
  intros Hl Hlo Hhi Hlen. pose proof (Permutation_length Hl) as Ll. rewrite length_app in Ll. cbn in Ll.
  destruct l as [|x [|y l]]; [cbn in Ll; lia| |].
  - destruct lo; [|cbn in Ll; lia]. destruct hi; [|cbn in Ll; lia]. cbn in Hl. apply Permutation_singleton_inj in Hl as ->. done.
  - unfold Coinbase.median. rewrite sort_Z_length. cbv zeta. rewrite (sort_Z_around lo hi _ m) by done.
    rewrite (proj2 (Z.eqb_neq _ _)) by lia. apply c_index_lookup; [lia|]. rewrite lookup_app_r by (rewrite sort_Z_length; lia).
    rewrite sort_Z_length. replace (_ - _)%nat with 0%nat by lia. done.
Qed.

Lemma median_between (lo hi l : list Z) (x m : Z) :
  l ≡ₚ lo ++ x :: m :: hi -> Forall (fun y => y <= x) lo -> x <= m -> Forall (fun y => m <= y) hi -> length lo = length hi ->
  Coinbase.median l = Val (get_mid x m).
Proof.
  intros Hl Hlo Hxm Hhi Hlen. pose proof (Permutation_length Hl) as Ll. rewrite length_app in Ll. cbn in Ll.
  destruct l as [|y [|z l]]; [cbn in Ll; lia|cbn in Ll; lia|]. unfold Coinbase.median. rewrite sort_Z_length. cbv zeta.
  assert (sort_Z (y :: z :: l) = sort_Z lo ++ x :: m :: sort_Z hi) as ->.
  { rewrite (sort_Z_around lo (m :: hi) _ x); [|done|done|].
    - do 2 f_equal. apply (sort_Z_around [] hi _ m); done.
    - constructor; [done|]. apply (Forall_impl _ _ _ Hhi). lia. }
  rewrite (proj2 (Z.eqb_eq _ _)) by lia.
  rewrite (c_index_lookup _ (_ - 1) x); [run|lia|].
  - rewrite (c_index_lookup _ _ m); [by run|lia|]. rewrite lookup_app_r by (rewrite sort_Z_length; lia).
    rewrite sort_Z_length. replace (_ - _)%nat with 1%nat by lia. done.
  - rewrite lookup_app_r by (rewrite sort_Z_length; lia). rewrite sort_Z_length. replace (_ - _)%nat with 0%nat by lia. done.
Qed.

Lemma window_take (st : rolling_median_t) : placed st -> window st ≡ₚ take (Z.to_nat (sz st)) (data st).
Proof.
  intros Hp. unfold window. destruct (Z.ltb_spec (sz st) (N st)); [done|]. pose proof (pl_sz st Hp). pose proof (wf_data st (pl_wf st Hp)).
  rewrite (take_ge (data st) (Z.to_nat (sz st))) by lia. rewrite Permutation_app_comm. by rewrite take_drop.
Qed.

Lemma kept_length (st : rolling_median_t) : placed st -> Z.of_nat (length (window st)) = sz st.
Proof.
  intros Hp. rewrite (window_take st Hp). pose proof (pl_sz st Hp). pose proof (wf_data st (pl_wf st Hp)). rewrite length_take. lia.
Qed.

(** The values kept are those at the places in use. *)
Lemma window_places (st : rolling_median_t) :
  placed st -> 1 <= sz st -> window st ≡ₚ val st <$> seqZ (- maxCt st) (sz st).
Proof.
  intros Hp H1. rewrite (window_take st Hp). pose proof (placed_counts st Hp) as Hc. pose proof (pl_wf st Hp) as Hw.
  pose proof (wf_data st Hw) as Hd. pose proof (pl_sz st Hp) as Hsz.
  assert (forall i, i ∈ seqZ (- maxCt st) (sz st) -> active st i) as Hact.
  { intros i Hi. apply elem_of_seqZ in Hi. destruct Hp. unfold active. lia. }
  assert (hp st <$> seqZ (- maxCt st) (sz st) ≡ₚ seqZ 0 (sz st)) as Hperm.
  { apply submseteq_length_Permutation; [|by rewrite length_fmap, !length_seqZ].
    apply NoDup_submseteq.
    - apply (NoDup_fmap_2_strong (hp st)); [|apply NoDup_seqZ]. intros i j Hi%Hact Hj%Hact He.
      destruct (wf_hp st Hw i (active_range st i Hc Hi)) as [_ <-], (wf_hp st Hw j (active_range st j Hc Hj)) as [_ <-]. by rewrite He.
    - intros a (i & -> & Hi%Hact)%list_elem_of_fmap. apply elem_of_seqZ. destruct (wf_hp st Hw i (active_range st i Hc Hi)).
      pose proof (pl_act st Hp H1 i Hi). lia. }
  assert (take (Z.to_nat (sz st)) (data st) = (fun a => data st !!! Z.to_nat a) <$> seqZ 0 (sz st)) as ->.
  { apply list_eq. intros k. destruct (decide (k < Z.to_nat (sz st))%nat) as [Hk|Hk].
    - rewrite lookup_take_lt by done. rewrite list_lookup_fmap, lookup_seqZ_lt by lia. cbn [fmap option_fmap option_map]. rewrite Z.add_0_l, Nat2Z.id.
      apply list_lookup_lookup_total_lt. lia.
    - rewrite !lookup_ge_None_2; [done|rewrite length_fmap, length_seqZ; lia|rewrite length_take; lia]. }
  rewrite <- Hperm. by rewrite <- list_fmap_compose.
Qed.

Lemma sides_bounds (st : rolling_median_t) :
  sorted_around st ->
  (forall i, 1 <= i <= minCt st -> val st 0 <= val st i) /\ (forall i, - maxCt st <= i <= -1 -> val st i <= val st (-1) /\ val st (-1) <= val st 0).
Proof.
  intros [O1 O2]. split.
  - intros i Hi. pose proof (ord_root _ _ i O1 ltac:(change (cnt 1 st) with (minCt st); lia)) as Hr. unfold w in Hr. rewrite !Z.mul_1_l in Hr. done.
  - intros i Hi. assert (1 <= - i <= cnt (-1) st) as Hr by (change (cnt (-1) st) with (maxCt st); lia).
    pose proof (ord_first _ _ (- i) O2 Hr) as R1. pose proof (O2 1 ltac:(lia)) as R2. unfold w in R1, R2.
    change (1 / 2) with 0 in R2. change (-1 * 1) with (-1) in *. change (-1 * 0) with 0 in R2. replace (-1 * - i) with i in R1 by lia. lia.
Qed.

Lemma get_mid_comm (a b : Z) : in_u64 a -> in_u64 b -> get_mid a b = get_mid b a.
Proof. intros Ha Hb. rewrite !get_mid_spec by done. by rewrite Z.add_comm. Qed.

Lemma median_of_spec (st : rolling_median_t) :
  inv st -> 1 <= sz st -> Forall in_u64 (window st) -> median_of st = Coinbase.median (window st).
Proof.
  intros [Hp Ho] H1 Hu. pose proof (window_places st Hp H1) as Hwin. pose proof (placed_counts st Hp) as Hc. pose proof (pl_wf st Hp) as Hw.
  destruct (sides_bounds st Ho) as [Bhi Blo]. pose proof (pl_max st Hp) as Emax. pose proof (pl_min st Hp) as Emin.
  assert (Forall (fun x => val st 0 <= x) (val st <$> seqZ 1 (minCt st))) as Fhi.
  { apply Forall_fmap, Forall_forall. intros i Hi%elem_of_seqZ. apply Bhi. lia. }
  assert (in_range st 0) as R0 by (apply active_range; [done|unfold active; lia]). unfold median_of. rewrite (item_at_spec st 0) by done. run.
  destruct (Z.ltb_spec (minCt st) (maxCt st)) as [Hlt|Hge].
  - assert (in_range st (-1)) as R1 by (apply active_range; [done|unfold active; lia]). rewrite item_at_spec by done. run.
    assert (seqZ (- maxCt st) (sz st) = seqZ (- maxCt st) (maxCt st - 1) ++ (-1) :: 0 :: seqZ 1 (minCt st)) as Es.
    { replace (sz st) with ((maxCt st - 1) + (minCt st + 2)) by lia. rewrite seqZ_app by lia. f_equal.
      replace (- maxCt st + (maxCt st - 1)) with (-1) by lia. rewrite !seqZ_cons by lia. do 2 f_equal. f_equal; lia. }
    rewrite Es, fmap_app, !fmap_cons in Hwin. rewrite Hwin in Hu. apply Forall_app in Hu as [_ [U1 [U0 _]%Forall_cons]%Forall_cons].
    rewrite (median_between _ _ _ _ _ Hwin); [by rewrite get_mid_comm| |apply (Blo (-1)); lia|done|rewrite !length_fmap, !length_seqZ; lia].
    apply Forall_fmap, Forall_forall. intros i Hi%elem_of_seqZ. apply Blo. lia.
  - assert (seqZ (- maxCt st) (sz st) = seqZ (- maxCt st) (maxCt st) ++ 0 :: seqZ 1 (minCt st)) as Es.
    { replace (sz st) with (maxCt st + (minCt st + 1)) at 1 by lia. rewrite seqZ_app by lia. f_equal.
      replace (- maxCt st + maxCt st) with 0 by lia. rewrite seqZ_cons by lia. f_equal. f_equal; lia. }
    rewrite Es, fmap_app, fmap_cons in Hwin. symmetry. apply (median_around _ _ _ _ Hwin); [|done|rewrite !length_fmap, !length_seqZ; lia].
    apply Forall_fmap, Forall_forall. intros i Hi%elem_of_seqZ. cbn. destruct (Blo i ltac:(lia)). lia.
Qed.

(** ** Every sequence of insertions *)

Fixpoint inserts (st : rolling_median_t) (vs : list Z) : outcome rolling_median_t :=
  match vs with
  | [] => Val st
  | v :: vs => st ← insert st v; inserts st vs
  end.

Definition last_values (n : Z) (vs : list Z) : list Z := drop (length vs - Z.to_nat n) vs.

Lemma next_window_last (n : Z) (vs : list Z) (v : Z) : 1 <= n -> next_window n (last_values n vs) v = last_values n (vs ++ [v]).
Proof.
  intros Hn. unfold next_window, last_values. rewrite length_drop, length_app. cbn [length]. rewrite drop_app_le by lia.
  destruct (Z.ltb_spec (Z.of_nat (length vs - (length vs - Z.to_nat n))) n) as [Hlt|Hge].
  - replace (length vs + 1 - Z.to_nat n)%nat with 0%nat by lia. by replace (length vs - Z.to_nat n)%nat with 0%nat by lia.
  - f_equal. replace (tail _) with (drop 1 (drop (length vs - Z.to_nat n) vs)) by (by destruct (drop _ vs)).
    rewrite drop_drop. f_equal. lia.
Qed.

Lemma inserts_inv (st : rolling_median_t) (ws vs : list Z) :
  inv st -> window st = last_values (N st) ws ->
  exists st', inserts st vs = Val st' /\ inv st' /\ window st' = last_values (N st) (ws ++ vs) /\ N st' = N st.
Proof.
  revert st ws. induction vs as [|v vs IH]; intros st ws Hi Hw.
  - exists st. by rewrite app_nil_r.
  - destruct (insert_inv st v Hi) as (st1 & E & Hi1 & Hw1 & HN). cbn [inserts]. rewrite E. run.
    rewrite Hw, next_window_last in Hw1 by apply Hi. destruct (IH st1 (ws ++ [v]) Hi1) as (st2 & E2 & Hi2 & Hw2 & HN2); [by rewrite HN|].
    exists st2. rewrite HN in *. rewrite <- app_assoc in Hw2. done.
Qed.

(** C21. The rolling median of any number of values, at any capacity from 1 to 2^27 - 1, for which the constructor's
    count of bytes fits its [int], and from any contents of the memory it gets, makes no access outside its arrays, holds as many values as have been inserted up to its capacity, and
    returns the median that sorting the last values inserted gives. *)
Theorem rolling_median_correct (junk_data junk_pos junk_heap vs : list Z) :
  length junk_pos = length junk_data -> length junk_heap = length junk_data -> junk_data <> [] ->
  Z.of_nat (length junk_data) < 2 ^ 27 -> vs <> [] -> Forall in_u64 vs ->
  exists st, (st ← new_rolling_median junk_data junk_pos junk_heap; inserts st vs) = Val st /\
    size st = Z.min (Z.of_nat (length vs)) (Z.of_nat (length junk_data)) /\
    median_of st = Coinbase.median (last_values (Z.of_nat (length junk_data)) vs).
Proof.
  intros Lp Lh Hd Hcap Hv Hu. rewrite new_rolling_median_eq by lia. rewrite (proj2 (Z.ltb_lt _ _) Hcap). set (n := Z.of_nat (length junk_data)). assert (1 <= n) as Hn by (unfold n; destruct junk_data; [done|cbn; lia]).
  fold n. set (raw := {| data := junk_data |}).
  destruct (clear_inv raw) as (st0 & E0 & Hi0 & Hw0 & HN0); [cbn; lia..|]. rewrite E0. run. change (N raw) with n in HN0. destruct (inserts_inv st0 [] vs Hi0) as (st & E & Hi & Hw & HN); [by rewrite Hw0|].
  exists st. split; [done|]. rewrite HN0 in *. cbn [app] in Hw. pose proof (kept_length st (proj1 Hi)) as Hl.
  rewrite Hw in Hl. unfold last_values in Hl. rewrite length_drop in Hl.
  assert (1 <= Z.of_nat (length vs)) by (destruct vs; [done|cbn; lia]).
  split; [unfold size; lia|]. rewrite median_of_spec, Hw; [done|done|lia|]. rewrite Hw. by apply Forall_drop.
Qed.

Lemma rolling_median_correct_witness :
  exists st, (st ← new_rolling_median [0; 0; 0; 0] [7; 7; 7; 7] [9; 9; 9; 9]; inserts st [5; 1; 8; 3; 9; 2]) = Val st /\
    size st = 4 /\ median_of st = Coinbase.median [8; 3; 9; 2].
Proof.
  apply (rolling_median_correct [0; 0; 0; 0] [7; 7; 7; 7] [9; 9; 9; 9] [5; 1; 8; 3; 9; 2]); [done..|].
  unfold in_u64. repeat constructor; lia.
Defined.
