(* ===== verification/Medians.v ===== *)
(** * The median as a number

    misc_utils::median (modelled in Coinbase) through the numbers of values up to a bound: what a
    median above a bound says of the list, and what one more value does to it.  The weights of
    blocks and the fees rest on it. *)

From Stdlib Require Import ZifyNat.
From S2P Require Import Prelude Coinbase.

#[local] Ltac Zify.zify_post_hook ::= Z.to_euclidean_division_equations.

(** ** Ranks *)

Definition count_le (x : Z) (l : list Z) : nat := length (filter (fun y => y <= x) l).

Lemma count_le_cons (x a : Z) (l : list Z) : count_le x (a :: l) = ((if decide (a <= x)%Z then 1 else 0) + count_le x l)%nat.
Proof. unfold count_le. rewrite filter_cons. by case_decide. Qed.

Lemma count_le_app (x : Z) (l l' : list Z) : count_le x (l ++ l') = (count_le x l + count_le x l')%nat.
Proof. unfold count_le. by rewrite filter_app, length_app. Qed.

Lemma count_le_Permutation (x : Z) (l l' : list Z) : l ≡ₚ l' -> count_le x l = count_le x l'.
Proof. unfold count_le. intros Hl. by rewrite Hl. Qed.

Lemma count_le_length (x : Z) (l : list Z) : (count_le x l <= length l)%nat.
Proof. apply length_filter. Qed.

Lemma count_le_zero (x : Z) (l : list Z) : Forall (fun y => x < y) l -> count_le x l = 0%nat.
Proof. intros Hl. induction Hl as [|a l Ha _ IH]; [done|]. rewrite count_le_cons, IH, decide_False by lia. done. Qed.

Lemma count_le_all (x : Z) (l : list Z) : Forall (fun y => y <= x) l -> count_le x l = length l.
Proof. intros Hl. induction Hl as [|a l Ha _ IH]; [done|]. rewrite count_le_cons, IH, decide_True by lia. done. Qed.

Lemma sorted_rank (l : list Z) (k : nat) (v x : Z) :
  StronglySorted Z.le l -> l !! k = Some v -> v <= x <-> (k < count_le x l)%nat.
Proof.
  intros Hs. revert k. induction Hs as [|a l Hs IH Ha]; intros k Hk; [done|]. rewrite count_le_cons.
  destruct (decide (a <= x)) as [Hax|Hax].
  - destruct k as [|k]; cbn in Hk; [injection Hk as <-; lia|]. rewrite (IH k Hk). lia.
  - rewrite count_le_zero by (apply (Forall_impl _ _ _ Ha); lia). split; [|lia]. intros Hv. exfalso. destruct k as [|k]; cbn in Hk.
    + injection Hk as <-. lia.
    + apply (Forall_lookup_1 _ _ _ _ Ha) in Hk. lia.
Qed.

(** ** The two middle values *)

Definition lower (l : list Z) : Z := sort_Z l !!! ((length l - 1) / 2)%nat.
Definition upper (l : list Z) : Z := sort_Z l !!! (length l / 2)%nat.

Lemma rank_total (l : list Z) (k : nat) (x : Z) : (k < length l)%nat -> sort_Z l !!! k <= x <-> (k < count_le x l)%nat.
Proof.
  intros Hk. rewrite <- (count_le_Permutation x (sort_Z l)) by apply sort_Z_Permutation. apply sorted_rank; [apply sort_Z_strongly|].
  apply list_lookup_lookup_total_lt. by rewrite sort_Z_length.
Qed.

Lemma lower_le (l : list Z) (x : Z) : l <> [] -> lower l <= x <-> ((length l - 1) / 2 < count_le x l)%nat.
Proof. intros Hl. apply rank_total. destruct l; [done|]. cbn [length]. apply Nat.Div0.div_lt_upper_bound. lia. Qed.

Lemma upper_le (l : list Z) (x : Z) : l <> [] -> upper l <= x <-> (length l / 2 < count_le x l)%nat.
Proof. intros Hl. apply rank_total. destruct l; [done|]. cbn [length]. apply Nat.div_lt; lia. Qed.

Lemma lower_upper (l : list Z) : l <> [] -> lower l <= upper l.
Proof.
  intros Hl. apply lower_le; [done|]. apply (Nat.le_lt_trans _ (length l / 2)); [apply Nat.Div0.div_le_mono; lia|]. by apply upper_le.
Qed.

Lemma middle_Forall (P : Z -> Prop) (l : list Z) : l <> [] -> Forall P l -> P (lower l) /\ P (upper l).
Proof.
  intros Hl Hp. assert (forall k, (k < length l)%nat -> P (sort_Z l !!! k)) as Hk.
  { intros k Hk. apply (Forall_lookup_1 P (sort_Z l) k); [by apply sort_Z_Forall|]. apply list_lookup_lookup_total_lt. by rewrite sort_Z_length. }
  split; apply Hk; destruct l; try done; cbn [length]; [apply Nat.Div0.div_lt_upper_bound|apply Nat.div_lt]; lia.
Qed.

(** The median is between the two. *)
Lemma median_middle (l : list Z) : l <> [] -> Forall in_u64 l -> median l = Val ((lower l + upper l) / 2).
Proof.
  intros Hl Hu. destruct (middle_Forall in_u64 l Hl Hu) as [Hlo Hup]. pose proof (lower_upper l Hl) as Hle.
  assert (forall k, (k < length l)%nat -> c_index (sort_Z l) (Z.of_nat k) = Val (sort_Z l !!! k)) as Hi.
  { intros k Hk. apply c_index_nat, list_lookup_lookup_total_lt. by rewrite sort_Z_length. }
  assert (1 <= length l)%nat as H1 by (destruct l; [done|cbn; lia]).
  assert (Z.of_nat (length l) / 2 = Z.of_nat (length l / 2)) as Ed by (by rewrite Nat2Z.inj_div).
  pose proof (Nat.div_mod_eq (length l) 2) as Em. pose proof (Nat.mod_upper_bound (length l) 2 ltac:(lia)) as Em2.
  destruct l as [|x [|y l0]]; [done| |].
  - unfold lower, upper. cbn. f_equal. lia.
  - set (l := x :: y :: l0) in *. change (median l) with (let n := Z.of_nat (length l) / 2 in let v := sort_Z l in
      if Z.of_nat (length v) mod 2 =? 0 then a ← c_index v (n - 1); b ← c_index v n; mret (get_mid a b) else c_index v n).
    cbv zeta. rewrite sort_Z_length, Ed, Hi by lia. destruct (Z.eqb_spec (Z.of_nat (length l) mod 2) 0) as [E|E].
    + replace (Z.of_nat (length l / 2) - 1) with (Z.of_nat ((length l - 1) / 2)) by lia.
      rewrite Hi by lia. run. run. rewrite get_mid_spec by done. done.
    + assert (lower l = upper l) as -> by (unfold lower, upper; f_equal; lia). change (sort_Z l !!! _) with (upper l). f_equal. lia.
Qed.

(** The value of the median, for lists of weights. *)
Definition median_value (l : list Z) : Z := (lower l + upper l) / 2.

Lemma median_value_Forall (m : Z) (l : list Z) : l <> [] -> Forall (fun x => 0 <= x <= m) l -> 0 <= median_value l <= m.
Proof. intros Hl Hp. destruct (middle_Forall _ l Hl Hp). unfold median_value. lia. Qed.

(** A median above a bound has at least half of the values above it. *)
Lemma median_above (l : list Z) (x : Z) : l <> [] -> x < median_value l -> (2 * count_le x l <= length l)%nat.
Proof.
  intros Hl Hx. pose proof (lower_upper l Hl). assert (~ upper l <= x) as Hu by (unfold median_value in Hx; lia).
  rewrite upper_le in Hu by done. lia.
Qed.

(** If each bound has its share of values in [l'], the median is not more than that of [l]. *)
Lemma median_value_le (l l' : list Z) :
  l <> [] -> l' <> [] ->
  (forall x, ((length l - 1) / 2 < count_le x l)%nat -> ((length l' - 1) / 2 < count_le x l')%nat) ->
  (forall x, (length l / 2 < count_le x l)%nat -> (length l' / 2 < count_le x l')%nat) -> median_value l' <= median_value l.
Proof.
  intros Hl Hl' Hlo Hup. assert (lower l' <= lower l) by (apply lower_le, Hlo, lower_le; done).
  assert (upper l' <= upper l) by (apply upper_le, Hup, upper_le; done). unfold median_value. lia.
Qed.

(** One more value, or one in the place of another, that is not above any: the median does not grow. *)
Lemma median_value_low (l : list Z) (z : Z) : l <> [] -> Forall (fun x => z <= x) l -> median_value (l ++ [z]) <= median_value l.
Proof.
  intros Hl Hz. destruct (middle_Forall _ l Hl Hz) as [Z1 Z2]. assert (forall x, z <= x -> count_le x (l ++ [z]) = S (count_le x l)) as Hc.
  { intros x Hx. rewrite count_le_app, count_le_cons, decide_True by done. cbn. lia. }
  assert (forall x, (0 < count_le x l)%nat -> z <= x) as Hpos.
  { intros x Hx. destruct (decide (z <= x)); [done|]. rewrite count_le_zero in Hx; [lia|]. apply (Forall_impl _ _ _ Hz). lia. }
  apply median_value_le; [done|by destruct l|..]; intros x Hx; rewrite Hc, length_app by (apply Hpos; lia); cbn [length]; lia.
Qed.

Lemma median_value_low_tail (a : Z) (l : list Z) (z : Z) :
  Forall (fun x => z <= x) (a :: l) -> median_value (l ++ [z]) <= median_value (a :: l).
Proof.
  intros Hz. assert (forall x, (0 < count_le x (a :: l))%nat -> (count_le x (a :: l) <= count_le x (l ++ [z]))%nat) as Hc.
  { intros x Hx. assert (z <= x) as Hzx.
    { destruct (decide (z <= x)); [done|]. rewrite count_le_zero in Hx; [lia|]. apply (Forall_impl _ _ _ Hz). lia. }
    rewrite count_le_app, !count_le_cons, (decide_True (P := z <= x)) by done. case_decide; cbn; lia. }
  apply median_value_le; [done|by destruct l|..]; intros x Hx; specialize (Hc x ltac:(lia));
    rewrite length_app in *; cbn [length] in *; lia.
Qed.
