(* ===== verification/Weights.v ===== *)
(** * Block weights

    How much a block may weigh: the long term weights, their median with its cache and the
    limit for the next block, of src/src/cryptonote_core/blockchain.cpp over the block_info table of
    src/src/blockchain_db/lmdb/db_lmdb.cpp.  The cache always answers with the median of the
    blocks asked for, through any additions, removals and changes of the chain; what the limit is
    as a function of the chain; and how fast long term weights can grow. *)

From S2P Require Import Prelude Emission Coinbase RollingMedian Medians.

#[local] Open Scope word_scope.

#[local] Ltac Zify.zify_post_hook ::= Z.to_euclidean_division_equations.

(** ** Data *)

Definition CRYPTONOTE_REWARD_BLOCKS_WINDOW : Z := 100.
Definition CRYPTONOTE_LONG_TERM_BLOCK_WEIGHT_WINDOW_SIZE : Z := 100000.
Definition CRYPTONOTE_SHORT_TERM_BLOCK_WEIGHT_SURGE_FACTOR : Z := 50.
Definition HF_VERSION_LONG_TERM_BLOCK_WEIGHT : Z := 10.
Definition HF_VERSION_2021_SCALING : Z := 15.

(** What the database keeps of a block, without the fields that are not used here. *)
Record mdb_block_info {hash : Type} := {
  bi_hash : hash;
  bi_weight : Z;
  bi_long_term_block_weight : Z;
  bi_coins : Z;
}.
Arguments mdb_block_info : clear implicits.

Record Blockchain {hash : Type} := {
  m_db : list (mdb_block_info hash);
  max_block_size : option Z;
  m_current_block_cumul_weight_limit : Z;
  m_current_block_cumul_weight_median : Z;
  m_long_term_block_weights_window : Z;
  m_long_term_effective_median_block_weight : Z;
  m_long_term_block_weights_cache_tip_hash : hash;
  m_long_term_block_weights_cache_rolling_median : rolling_median_t;
}.
Arguments Blockchain : clear implicits.

Section weights.
Context {hash : Type} `{EqDecision hash} (null_hash : hash).

(** ** The database *)

Definition chain_height (db : list (mdb_block_info hash)) : Z := Z.of_nat (length db).

Definition get_block_info_64bit_fields (db : list (mdb_block_info hash)) (start_height count : Z) (field : mdb_block_info hash -> Z) :
    outcome (list Z) :=
  if chain_height db <=? start_height then Throw
  else Val (field <$> take (Z.to_nat count) (drop (Z.to_nat start_height) db)).

Definition get_block_weights (db : list (mdb_block_info hash)) (start_height count : Z) : outcome (list Z) :=
  get_block_info_64bit_fields db start_height count bi_weight.

Definition get_long_term_block_weights (db : list (mdb_block_info hash)) (start_height count : Z) : outcome (list Z) :=
  get_block_info_64bit_fields db start_height count bi_long_term_block_weight.

(** A row of the table, for the functions that read one. *)
Definition block_info_at (db : list (mdb_block_info hash)) (height : Z) : outcome (mdb_block_info hash) :=
  match db !! Z.to_nat height with Some bi => Val bi | None => Throw end.

Definition get_block_long_term_weight (db : list (mdb_block_info hash)) (height : Z) : outcome Z :=
  bi ← block_info_at db height;
  Val (bi_long_term_block_weight bi).

Definition block_hash_at (db : list (mdb_block_info hash)) (height : Z) : outcome hash :=
  bi ← block_info_at db height;
  Val (bi_hash bi).

Definition add_max_block_size (stored : option Z) (sz : Z) : option Z :=
  let max_block_size := default 0 stored in
  Some (if max_block_size <? sz then sz else max_block_size).

(** ** The block chain *)

Definition set_cache (st : Blockchain hash) (tip : hash) (rm : rolling_median_t) : Blockchain hash :=
  {| m_db := m_db st; max_block_size := max_block_size st; m_current_block_cumul_weight_limit := m_current_block_cumul_weight_limit st;
     m_current_block_cumul_weight_median := m_current_block_cumul_weight_median st;
     m_long_term_block_weights_window := m_long_term_block_weights_window st;
     m_long_term_effective_median_block_weight := m_long_term_effective_median_block_weight st;
     m_long_term_block_weights_cache_tip_hash := tip; m_long_term_block_weights_cache_rolling_median := rm |}.

Definition set_limits (st : Blockchain hash) (stored : option Z) (limit median effective : Z) : Blockchain hash :=
  {| m_db := m_db st; max_block_size := stored; m_current_block_cumul_weight_limit := limit; m_current_block_cumul_weight_median := median;
     m_long_term_block_weights_window := m_long_term_block_weights_window st; m_long_term_effective_median_block_weight := effective;
     m_long_term_block_weights_cache_tip_hash := m_long_term_block_weights_cache_tip_hash st;
     m_long_term_block_weights_cache_rolling_median := m_long_term_block_weights_cache_rolling_median st |}.

Definition set_db (st : Blockchain hash) (db : list (mdb_block_info hash)) : Blockchain hash :=
  {| m_db := db; max_block_size := max_block_size st; m_current_block_cumul_weight_limit := m_current_block_cumul_weight_limit st;
     m_current_block_cumul_weight_median := m_current_block_cumul_weight_median st;
     m_long_term_block_weights_window := m_long_term_block_weights_window st;
     m_long_term_effective_median_block_weight := m_long_term_effective_median_block_weight st;
     m_long_term_block_weights_cache_tip_hash := m_long_term_block_weights_cache_tip_hash st;
     m_long_term_block_weights_cache_rolling_median := m_long_term_block_weights_cache_rolling_median st |}.

Definition get_last_n_blocks_weights (st : Blockchain hash) (count : Z) : outcome (list Z) :=
  let h := chain_height (m_db st) in
  if h =? 0 then Val []
  else
    let start_offset := h - Z.min h count in
    get_block_weights (m_db st) start_offset count.

(** The part for a range that is not in the cache. *)
Definition median_uncached (st : Blockchain hash) (start_height count : Z) (tip_hash : hash) : outcome (Blockchain hash * Z) :=
  weights ← get_long_term_block_weights (m_db st) start_height count;
  rm ← clear (m_long_term_block_weights_cache_rolling_median st);
  rm ← inserts rm weights;
  m ← median_of rm;
  Val (set_cache st tip_hash rm, m).

(** The part for a range that is one block above the cached one. *)
Definition median_incremental (st : Blockchain hash) (tip_height : Z) (tip_hash : hash) : outcome (Blockchain hash * Z) :=
  w ← get_block_long_term_weight (m_db st) tip_height;
  rm ← insert (m_long_term_block_weights_cache_rolling_median st) w;
  m ← median_of rm;
  Val (set_cache st tip_hash rm, m).

Definition get_long_term_block_weight_median (st : Blockchain hash) (start_height count : Z) : outcome (Blockchain hash * Z) :=
  _ ← throw_unless (0 <? count);
  let blockchain_height := chain_height (m_db st) in
  let tip_height := start_height ⊞ count ⊟ 1 in
  let rm := m_long_term_block_weights_cache_rolling_median st in
  let usable := (tip_height <? blockchain_height) && (count =? size rm) in
  tip_hash ← match usable with true => block_hash_at (m_db st) tip_height | false => Val null_hash end;
  let cached := usable && bool_decide (tip_hash = m_long_term_block_weights_cache_tip_hash st) in
  match cached with
  | true => m ← median_of rm; Val (st, m)
  | false =>
      match (0 <? tip_height) && (count =? size rm) && (tip_height <? blockchain_height) with
      | true =>
          old_tip_hash ← block_hash_at (m_db st) (tip_height - 1);
          match bool_decide (old_tip_hash = m_long_term_block_weights_cache_tip_hash st) with
          | true => median_incremental st tip_height tip_hash
          | false => median_uncached st start_height count tip_hash
          end
      | false => median_uncached st start_height count tip_hash
      end
  end.

Definition get_next_long_term_block_weight (st : Blockchain hash) (hf_version block_weight : Z) : outcome (Blockchain hash * Z) :=
  let h := chain_height (m_db st) in
  let nblocks := Z.min (m_long_term_block_weights_window st) h in
  if hf_version <? HF_VERSION_LONG_TERM_BLOCK_WEIGHT then Val (st, block_weight)
  else
    '(st, long_term_median) ← get_long_term_block_weight_median st (h - nblocks) nblocks;
    let effective := Z.max CRYPTONOTE_BLOCK_GRANTED_FULL_REWARD_ZONE_V5 long_term_median in
    let '(block_weight, short_term_constraint) :=
      if HF_VERSION_2021_SCALING <=? hf_version
      then (Z.max block_weight (effective ⊠ 10 / 17), effective ⊞ effective ⊠ 7 / 10)
      else (block_weight, effective ⊞ effective ⊠ 2 / 5) in
    Val (st, Z.min block_weight short_term_constraint).

(** The branch of [update_next_cumulative_weight_limit] with long term weights: the two medians. *)
Definition long_term_limits (st : Blockchain hash) (hf_version : Z) : outcome (Blockchain hash * Z * Z) :=
  let h := chain_height (m_db st) in
  let nblocks := Z.min (m_long_term_block_weights_window st) h in
  '(st, long_term_median) ← get_long_term_block_weight_median st (h - nblocks) nblocks;
  let effective := Z.max CRYPTONOTE_BLOCK_GRANTED_FULL_REWARD_ZONE_V5 long_term_median in
  weights ← get_last_n_blocks_weights st CRYPTONOTE_REWARD_BLOCKS_WINDOW;
  short_term_median ← median weights;
  let low := if HF_VERSION_2021_SCALING <=? hf_version then effective else CRYPTONOTE_BLOCK_GRANTED_FULL_REWARD_ZONE_V5 in
  Val (st, Z.min (Z.max low short_term_median) (CRYPTONOTE_SHORT_TERM_BLOCK_WEIGHT_SURGE_FACTOR ⊠ effective), effective).

Definition update_next_cumulative_weight_limit (st : Blockchain hash) (hf_version : Z) (read_only : bool) : outcome (Blockchain hash) :=
  let full_reward_zone := get_min_block_weight hf_version in
  '(st, cumul_median, effective) ←
    (if hf_version <? HF_VERSION_LONG_TERM_BLOCK_WEIGHT then
       weights ← get_last_n_blocks_weights st CRYPTONOTE_REWARD_BLOCKS_WINDOW;
       m ← median weights;
       Val (st, m, m_long_term_effective_median_block_weight st)
     else long_term_limits st hf_version);
  let cumul_median := if cumul_median <=? full_reward_zone then full_reward_zone else cumul_median in
  let limit := cumul_median ⊠ 2 in
  let stored := if read_only then max_block_size st else add_max_block_size (max_block_size st) limit in
  Val (set_limits st stored limit cumul_median effective).

(** What adding a block does here: its long term weight is computed, it is stored, and the limit for the
    next one is updated, for the version that then holds. *)
Definition add_block (st : Blockchain hash) (hf_version next_version : Z) (id : hash) (block_weight coins : Z) : outcome (Blockchain hash) :=
  '(st, long_term_block_weight) ← get_next_long_term_block_weight st hf_version block_weight;
  let bi := {| bi_hash := id; bi_weight := block_weight; bi_long_term_block_weight := long_term_block_weight; bi_coins := coins |} in
  update_next_cumulative_weight_limit (set_db st (m_db st ++ [bi])) next_version false.

(** Removing blocks down to a height, as popping and switching do, with the update after it. *)
Definition pop_to (st : Blockchain hash) (height hf_version : Z) : outcome (Blockchain hash) :=
  update_next_cumulative_weight_limit (set_db st (take (Z.to_nat height) (m_db st))) hf_version false.

(** A new object over a database, with what is in the memory that the rolling median gets. *)
Definition new_Blockchain (window : Z) (junk : list Z) (db : list (mdb_block_info hash)) (stored : option Z) : outcome (Blockchain hash) :=
  rm ← new_rolling_median junk junk junk;
  Val {| m_db := db; max_block_size := stored; m_current_block_cumul_weight_limit := 0; m_current_block_cumul_weight_median := 0;
         m_long_term_block_weights_window := window; m_long_term_effective_median_block_weight := 0;
         m_long_term_block_weights_cache_tip_hash := null_hash; m_long_term_block_weights_cache_rolling_median := rm |}.

(** ** What a hash says of a chain

    The chains that a node comes to hold.  The hash of a block covers the hash of the one before it, and the
    weights of a block follow from the blocks up to it: one hash, one chain up to it. *)
Class BlockIds (known : list (mdb_block_info hash) -> Prop) : Prop := {
  ids_prefix (c1 c2 : list (mdb_block_info hash)) (h1 h2 : nat) (b1 b2 : mdb_block_info hash) :
    known c1 -> known c2 -> c1 !! h1 = Some b1 -> c2 !! h2 = Some b2 -> bi_hash b1 = bi_hash b2 ->
    h1 = h2 /\ take (S h1) c1 = take (S h1) c2;
  ids_not_null (c : list (mdb_block_info hash)) (h : nat) (b : mdb_block_info hash) : known c -> c !! h = Some b -> bi_hash b <> null_hash;
}.

Context (known : list (mdb_block_info hash) -> Prop) `{!BlockIds known}.

(** The long term weights of a range of blocks. *)
Definition long_term_weights (db : list (mdb_block_info hash)) (start count : nat) : list Z :=
  bi_long_term_block_weight <$> take count (drop start db).

Lemma long_term_weights_length (db : list (mdb_block_info hash)) (start count : nat) :
  (start + count <= length db)%nat -> length (long_term_weights db start count) = count.
Proof. intros H. unfold long_term_weights. rewrite length_fmap, length_take, length_drop. lia. Qed.

Lemma long_term_weights_prefix (c1 c2 : list (mdb_block_info hash)) (n start count : nat) :
  take n c1 = take n c2 -> (start + count <= n)%nat -> long_term_weights c1 start count = long_term_weights c2 start count.
Proof.
  intros Ht Hn. unfold long_term_weights. f_equal.
  assert (forall c : list (mdb_block_info hash), take count (drop start c) = take count (drop start (take n c))) as Hc.
  { intros c. rewrite !take_drop_commute, take_take. do 2 f_equal. lia. }
  by rewrite (Hc c1), (Hc c2), Ht.
Qed.

Lemma long_term_weights_next (db : list (mdb_block_info hash)) (start count : nat) (bi : mdb_block_info hash) :
  db !! (start + count)%nat = Some bi -> (1 <= count)%nat ->
  tail (long_term_weights db start count) ++ [bi_long_term_block_weight bi] = long_term_weights db (S start) count.
Proof.
  intros Hbi Hc. unfold long_term_weights. pose proof (lookup_lt_Some _ _ _ Hbi) as Hlt.
  destruct (drop start db) as [|x l] eqn:E; [apply (f_equal length) in E; rewrite length_drop in E; cbn in E; lia|].
  assert (drop (S start) db = l) as El by (replace (S start) with (start + 1)%nat by lia; rewrite <- drop_drop, E; done). rewrite El.
  destruct count as [|k]; [lia|]. cbn [take fmap list_fmap tail]. rewrite (take_S_r l k bi); [by rewrite fmap_app|].
  rewrite <- El, lookup_drop. rewrite <- Hbi. f_equal. lia.
Qed.

(** ** The cache *)

Definition cache_size (st : Blockchain hash) : nat := Z.to_nat (sz (m_long_term_block_weights_cache_rolling_median st)).

(** The cache holds the long term weights up to the block with its hash, wherever that block is known. *)
Record cache_ok (st : Blockchain hash) : Prop := {
  co_inv : inv (m_long_term_block_weights_cache_rolling_median st);
  co_N : N (m_long_term_block_weights_cache_rolling_median st) = m_long_term_block_weights_window st;
  co_tip : m_long_term_block_weights_cache_tip_hash st = null_hash \/
    forall c (h : nat) bi, known c -> c !! h = Some bi -> bi_hash bi = m_long_term_block_weights_cache_tip_hash st ->
      (cache_size st <= S h)%nat /\
      RollingMedian.window (m_long_term_block_weights_cache_rolling_median st) = long_term_weights c (S h - cache_size st) (cache_size st);
}.

(** A cache filled for the range that ends at a block of a known chain. *)
Lemma cache_filled (st : Blockchain hash) (rm : rolling_median_t) (db : list (mdb_block_info hash)) (start count tip : nat) (bi : mdb_block_info hash) :
  inv rm -> N rm = m_long_term_block_weights_window st -> known db -> db !! tip = Some bi -> (start + count = S tip)%nat ->
  RollingMedian.window rm = long_term_weights db start count ->
  cache_ok (set_cache st (bi_hash bi) rm).
Proof.
  intros Hi HN Hk Hbi Ht Hw. split; [done|done|right]. intros c h b Hc Hb Eid. cbn in *.
  destruct (ids_prefix c db h tip b bi Hc Hk Hb Hbi Eid) as [-> Ep]. pose proof (lookup_lt_Some _ _ _ Hbi) as Hlt.
  assert (cache_size (set_cache st (bi_hash bi) rm) = count) as Es.
  { unfold cache_size. cbn. rewrite <- (kept_length rm) by apply Hi. rewrite Hw, long_term_weights_length by lia. lia. }
  rewrite Es. split; [lia|]. rewrite Hw. replace (S tip - count)%nat with start by lia. symmetry. apply (long_term_weights_prefix _ _ (S tip)); [done|lia].
Qed.

(** Nothing but the cache is changed. *)
Definition same_chain (st st' : Blockchain hash) : Prop :=
  exists tip rm, st' = set_cache st tip rm.

Lemma weights_u64 (db : list (mdb_block_info hash)) (start count : nat) :
  Forall (fun b => in_u64 (bi_long_term_block_weight b)) db -> Forall in_u64 (long_term_weights db start count).
Proof. intros Hu. unfold long_term_weights. apply Forall_fmap. by apply Forall_take, Forall_drop. Qed.

(** The median of a cache that holds a range. *)
Lemma cached_median (rm : rolling_median_t) (db : list (mdb_block_info hash)) (start count : nat) :
  inv rm -> Forall (fun b => in_u64 (bi_long_term_block_weight b)) db -> (1 <= count)%nat -> (start + count <= length db)%nat ->
  RollingMedian.window rm = long_term_weights db start count -> median_of rm = Val (median_value (long_term_weights db start count)).
Proof.
  intros Hi Hu Hc Hl Hw. pose proof (weights_u64 db start count Hu) as Hf. pose proof (long_term_weights_length db start count Hl) as Hlen.
  rewrite median_of_spec; [|done|pose proof (kept_length rm (proj1 Hi)) as Hk; rewrite Hw, Hlen in Hk; lia|by rewrite Hw].
  rewrite Hw. apply median_middle; [|done]. intros E. rewrite E in Hlen. cbn in Hlen. lia.
Qed.

Definition weights_ok (db : list (mdb_block_info hash)) : Prop := Forall (fun b => in_u64 (bi_long_term_block_weight b)) db.

Lemma median_uncached_spec (st : Blockchain hash) (start count : nat) (tip_hash : hash) :
  cache_ok st -> weights_ok (m_db st) -> (1 <= count)%nat -> Z.of_nat count <= m_long_term_block_weights_window st ->
  (start + count <= length (m_db st))%nat ->
  exists rm, median_uncached st (Z.of_nat start) (Z.of_nat count) tip_hash
    = Val (set_cache st tip_hash rm, median_value (long_term_weights (m_db st) start count)) /\
    inv rm /\ N rm = m_long_term_block_weights_window st /\ RollingMedian.window rm = long_term_weights (m_db st) start count.
Proof.
  intros [Hi HN _] Hu H1 Hcw Hl. unfold median_uncached, get_long_term_block_weights, get_block_info_64bit_fields, chain_height.
  rewrite (proj2 (Z.leb_gt _ _)), !Nat2Z.id by lia. run. fold (long_term_weights (m_db st) start count).
  set (rm := m_long_term_block_weights_cache_rolling_median st) in *. destruct (pl_wf rm (proj1 Hi)) as [HN1 Hd Hp Hh _ _].
  destruct (clear_inv rm HN1 Hd Hp Hh) as (rm0 & E0 & Hi0 & Hw0 & HN0). rewrite E0. run.
  destruct (inserts_inv rm0 [] (long_term_weights (m_db st) start count) Hi0) as (rm1 & E1 & Hi1 & Hw1 & HN2); [by rewrite Hw0|].
  rewrite E1. run. cbn [app] in Hw1. unfold last_values in Hw1. rewrite long_term_weights_length in Hw1 by done.
  replace (count - Z.to_nat (N rm0))%nat with 0%nat in Hw1 by lia. rewrite drop_0 in Hw1.
  rewrite (cached_median rm1 (m_db st) start count) by done. run. exists rm1. split_and!; [done|done|congruence|done].
Qed.

Lemma block_info_at_spec (db : list (mdb_block_info hash)) (h : nat) (bi : mdb_block_info hash) :
  db !! h = Some bi -> block_info_at db (Z.of_nat h) = Val bi.
Proof. intros Hb. unfold block_info_at. by rewrite Nat2Z.id, Hb. Qed.

(** One block up from a full cache. *)
Lemma median_incremental_spec (st : Blockchain hash) (start tip : nat) (bi old : mdb_block_info hash) :
  cache_ok st -> known (m_db st) -> weights_ok (m_db st) -> m_db st !! tip = Some old -> m_db st !! S tip = Some bi ->
  bi_hash old = m_long_term_block_weights_cache_tip_hash st ->
  Z.of_nat (cache_size st) = m_long_term_block_weights_window st -> (S start + cache_size st = S (S tip))%nat ->
  exists rm, median_incremental st (Z.of_nat (S tip)) (bi_hash bi)
    = Val (set_cache st (bi_hash bi) rm, median_value (long_term_weights (m_db st) (S start) (cache_size st))) /\
    cache_ok (set_cache st (bi_hash bi) rm) /\ RollingMedian.window rm = long_term_weights (m_db st) (S start) (cache_size st).
Proof.
  intros [Hi HN Htip] Hk Hu Hold Hbi Eold Hfull Hst. unfold median_incremental, get_block_long_term_weight.
  rewrite (block_info_at_spec _ _ _ Hbi). run. run. set (rm := m_long_term_block_weights_cache_rolling_median st) in *.
  destruct (insert_inv rm (bi_long_term_block_weight bi) Hi) as (rm1 & E1 & Hi1 & Hw1 & HN1). rewrite E1. run.
  destruct Htip as [Hn|Htip]; [destruct (ids_not_null (m_db st) tip old Hk Hold); congruence|].
  destruct (Htip (m_db st) tip old Hk Hold Eold) as [Hle Hw]. fold rm in Hw. pose proof (lookup_lt_Some _ _ _ Hbi) as Hlt.
  pose proof (wf_N rm (pl_wf rm (proj1 Hi))) as HNp.
  assert (RollingMedian.window rm1 = long_term_weights (m_db st) (S start) (cache_size st)) as Hw2.
  { rewrite Hw1, Hw. unfold next_window. rewrite long_term_weights_length by lia. rewrite (proj2 (Z.ltb_ge _ _)) by lia.
    replace (S tip - cache_size st)%nat with start by lia. apply long_term_weights_next; [|lia]. rewrite <- Hbi. f_equal. lia. }
  rewrite (cached_median rm1 (m_db st) (S start) (cache_size st)) by (done || lia). run. exists rm1. split_and!; [done| |done].
  apply (cache_filled st rm1 (m_db st) (S start) (cache_size st) (S tip)); (done || congruence || lia).
Qed.

(** With the hash of the range's last block, or with no hash. *)
Lemma uncached_ok (st : Blockchain hash) (start count tip : nat) (bi : mdb_block_info hash) (b : bool) :
  cache_ok st -> known (m_db st) -> weights_ok (m_db st) -> (1 <= count)%nat -> Z.of_nat count <= m_long_term_block_weights_window st ->
  m_db st !! tip = Some bi -> (start + count = S tip)%nat ->
  exists rm, median_uncached st (Z.of_nat start) (Z.of_nat count) (if b then bi_hash bi else null_hash)
    = Val (set_cache st (if b then bi_hash bi else null_hash) rm, median_value (long_term_weights (m_db st) start count)) /\
    cache_ok (set_cache st (if b then bi_hash bi else null_hash) rm) /\ RollingMedian.window rm = long_term_weights (m_db st) start count.
Proof.
  intros Hok Hk Hu H1 Hc Hbi Ht. pose proof (lookup_lt_Some _ _ _ Hbi) as Hlt.
  destruct (median_uncached_spec st start count (if b then bi_hash bi else null_hash) Hok Hu H1 Hc ltac:(lia)) as (rm & E & Hi & HN & Hw).
  exists rm. split_and!; [done| |done]. destruct b; [|split; [done|done|by left]]. by apply (cache_filled st rm (m_db st) start count tip).
Qed.

Lemma cached_hit (st : Blockchain hash) (start count tip : nat) (bi : mdb_block_info hash) :
  cache_ok st -> known (m_db st) -> weights_ok (m_db st) -> (1 <= count)%nat -> m_db st !! tip = Some bi -> (start + count = S tip)%nat ->
  cache_size st = count -> bi_hash bi = m_long_term_block_weights_cache_tip_hash st ->
  median_of (m_long_term_block_weights_cache_rolling_median st) = Val (median_value (long_term_weights (m_db st) start count)) /\
  RollingMedian.window (m_long_term_block_weights_cache_rolling_median st) = long_term_weights (m_db st) start count.
Proof.
  intros [Hi HN Htip] Hk Hu H1 Hbi Ht Ecs Et. pose proof (lookup_lt_Some _ _ _ Hbi) as Hlt.
  destruct Htip as [Hn|Htip]; [destruct (ids_not_null (m_db st) tip bi Hk Hbi); congruence|].
  destruct (Htip (m_db st) tip bi Hk Hbi Et) as [_ Hw]. rewrite Ecs in Hw. replace (S tip - count)%nat with start in Hw by lia.
  split; [|done]. apply cached_median; (done || lia).
Qed.

(** The cache never shows: for the ranges that the two callers ask for, the whole window or all blocks, the
    median of the blocks in the range is returned, and the cache stays right for every chain. *)
Lemma long_term_median_spec (st : Blockchain hash) (start count : nat) :
  cache_ok st -> known (m_db st) -> weights_ok (m_db st) -> Z.of_nat (length (m_db st)) < 2 ^ 64 ->
  (1 <= count)%nat -> (start + count <= length (m_db st))%nat ->
  Z.of_nat count = m_long_term_block_weights_window st \/ start = 0%nat /\ Z.of_nat count <= m_long_term_block_weights_window st ->
  exists tip rm, get_long_term_block_weight_median st (Z.of_nat start) (Z.of_nat count)
    = Val (set_cache st tip rm, median_value (long_term_weights (m_db st) start count)) /\ cache_ok (set_cache st tip rm) /\
    RollingMedian.window rm = long_term_weights (m_db st) start count.
Proof.
  intros Hok Hk Hu Hh H1 Hl Hcase. unfold get_long_term_block_weight_median, chain_height.
  rewrite (proj2 (Z.ltb_lt 0 (Z.of_nat count))) by lia. cbn [throw_unless]. run.
  set (tip := (start + count - 1)%nat). assert (Z.of_nat start ⊞ Z.of_nat count ⊟ 1 = Z.of_nat tip) as ->.
  { rewrite u64_small by (unfold_words; lia). rewrite u64_small by (unfold_words; lia). lia. }
  rewrite (proj2 (Z.ltb_lt (Z.of_nat tip) _)) by lia. cbn [andb]. rewrite andb_true_r.
  destruct (lookup_lt_is_Some_2 (m_db st) tip ltac:(lia)) as [bi Hbi].
  pose proof (fun b => uncached_ok st start count tip bi b Hok Hk Hu H1 ltac:(lia) Hbi ltac:(lia)) as Hun.
  destruct (Z.eqb_spec (Z.of_nat count) (size (m_long_term_block_weights_cache_rolling_median st))) as [Es|Es].
  2:{ cbn [andb]. run. rewrite andb_false_r. cbn [andb]. destruct (Hun false) as (rm & E & Hok'). by exists null_hash, rm. }
  assert (cache_size st = count) as Ecs by (unfold cache_size, size in *; lia).
  unfold block_hash_at. rewrite (block_info_at_spec _ _ _ Hbi). run. run. rewrite andb_true_r. cbn [andb].
  destruct (Hun true) as (rmu & Eu & Hoku).
  case_bool_decide as Et.
  { (* cached *)
    destruct (cached_hit st start count tip bi) as [-> Hw]; [done..|lia|done|done|]. run.
    exists (m_long_term_block_weights_cache_tip_hash st), (m_long_term_block_weights_cache_rolling_median st).
    assert (set_cache st (m_long_term_block_weights_cache_tip_hash st) (m_long_term_block_weights_cache_rolling_median st) = st) as -> by (by destruct st).
    done. }
  destruct (Z.ltb_spec 0 (Z.of_nat tip)) as [Hpos|Hz]; [|by exists (bi_hash bi), rmu].
  destruct (lookup_lt_is_Some_2 (m_db st) (pred tip) ltac:(lia)) as [old Hold].
  replace (Z.of_nat tip - 1) with (Z.of_nat (pred tip)) by lia. rewrite (block_info_at_spec _ _ _ Hold). run. run.
  case_bool_decide as Eold; [|by exists (bi_hash bi), rmu].
  (* incremental *)
  assert (cache_size st <= tip)%nat as Hle.
  { destruct (co_tip st Hok) as [Hn|Htip]; [destruct (ids_not_null (m_db st) (pred tip) old Hk Hold); congruence|].
    destruct (Htip (m_db st) (pred tip) old Hk Hold Eold) as [Hle _]. lia. }
  destruct start as [|start]; [lia|]. destruct Hcase as [Hfull|[? _]]; [|done].
  replace tip with (S (pred tip)) by lia. destruct (median_incremental_spec st start (pred tip) bi old Hok Hk Hu Hold) as (rm & E & Hok' & Hw).
  - rewrite <- Hbi. f_equal. lia.
  - done.
  - lia.
  - lia.
  - rewrite Ecs in E, Hw. by exists (bi_hash bi), rm.
Qed.

(** ** The limits as functions of the chain *)

Definition long_term_median (W : Z) (db : list (mdb_block_info hash)) : Z :=
  median_value (last_values W (bi_long_term_block_weight <$> db)).

Definition effective_median (W : Z) (db : list (mdb_block_info hash)) : Z :=
  Z.max CRYPTONOTE_BLOCK_GRANTED_FULL_REWARD_ZONE_V5 (long_term_median W db).

Definition next_long_term_weight (W version : Z) (db : list (mdb_block_info hash)) (block_weight : Z) : Z :=
  let e := effective_median W db in
  if version <? 10 then block_weight
  else if version <? 15 then Z.min block_weight (e + e * 2 / 5)
  else Z.min (Z.max block_weight (e * 10 / 17)) (e + e * 7 / 10).

Definition weight_median (W version : Z) (db : list (mdb_block_info hash)) : Z :=
  let e := effective_median W db in
  let short := median_value (last_values 100 (bi_weight <$> db)) in
  Z.max (get_min_block_weight version)
    (if version <? 10 then short
     else Z.min (Z.max (if version <? 15 then CRYPTONOTE_BLOCK_GRANTED_FULL_REWARD_ZONE_V5 else e) short) (50 * e)).

(** Weights below 2^56 bytes. *)
Definition light (w : Z) : Prop := 0 <= w < 2 ^ 56.

Record good (st : Blockchain hash) : Prop := {
  gd_cache : cache_ok st;
  gd_known : known (m_db st);
  gd_blocks : m_db st <> [];
  gd_height : Z.of_nat (length (m_db st)) < 2 ^ 64;
  gd_light : Forall (fun b => light (bi_weight b) /\ light (bi_long_term_block_weight b)) (m_db st);
}.

Lemma good_weights (st : Blockchain hash) : good st -> weights_ok (m_db st).
Proof. intros Hg. apply (Forall_impl _ _ _ (gd_light st Hg)). unfold light, in_u64. lia. Qed.

Lemma good_window (st : Blockchain hash) : good st -> 1 <= m_long_term_block_weights_window st.
Proof. intros Hg. destruct (gd_cache st Hg) as [Hi <- _]. apply (wf_N _ (pl_wf _ (proj1 Hi))). Qed.

Lemma last_range (W : Z) (db : list (mdb_block_info hash)) :
  0 <= W -> long_term_weights db (length db - Z.to_nat (Z.min W (Z.of_nat (length db)))) (Z.to_nat (Z.min W (Z.of_nat (length db))))
  = last_values W (bi_long_term_block_weight <$> db).
Proof.
  intros HW. unfold long_term_weights, last_values. rewrite length_fmap, <- fmap_drop. f_equal.
  rewrite take_ge by (rewrite length_drop; lia). f_equal. lia.
Qed.

(** The median as the callers ask for it. *)
Lemma caller_median (st : Blockchain hash) :
  good st -> let h := chain_height (m_db st) in let n := Z.min (m_long_term_block_weights_window st) h in
  exists tip rm, get_long_term_block_weight_median st (h - n) n
    = Val (set_cache st tip rm, long_term_median (m_long_term_block_weights_window st) (m_db st)) /\ cache_ok (set_cache st tip rm) /\
    RollingMedian.window rm = last_values (m_long_term_block_weights_window st) (bi_long_term_block_weight <$> m_db st).
Proof.
  intros Hg h n. pose proof (good_window st Hg) as HW. pose proof (good_weights st Hg) as Hu. destruct Hg as [Hok Hk Hb Hh _].
  assert (1 <= length (m_db st))%nat as H1 by (destruct (m_db st); [done|cbn; lia]). unfold n, h, chain_height.
  set (k := Z.to_nat (Z.min (m_long_term_block_weights_window st) (Z.of_nat (length (m_db st))))).
  assert (Z.of_nat k = Z.min (m_long_term_block_weights_window st) (Z.of_nat (length (m_db st)))) as Ek by (unfold k; lia).
  destruct (long_term_median_spec st (length (m_db st) - k) k) as (tip & rm & E & Hok' & Hw); [done..|lia|lia|lia|].
  exists tip, rm. split_and!; [|done|rewrite Hw; unfold k; apply last_range; lia]. unfold long_term_median. rewrite <- last_range by lia. fold k. rewrite <- E. f_equal; lia.
Qed.

Lemma last_values_nonempty (W : Z) (l : list Z) : 1 <= W -> l <> [] -> last_values W l <> [].
Proof.
  intros HW Hl E. apply (f_equal length) in E. unfold last_values in E. rewrite length_drop in E. cbn in E.
  destruct l; [done|]. cbn in E. lia.
Qed.

Lemma last_median_light (W : Z) (l : list Z) : 1 <= W -> l <> [] -> Forall light l -> light (median_value (last_values W l)).
Proof.
  intros HW Hl Hf. pose proof (median_value_Forall (2 ^ 56 - 1) (last_values W l)) as Hm. unfold light in *.
  destruct Hm as [? ?]; [by apply last_values_nonempty| |lia]. apply Forall_drop, (Forall_impl _ _ _ Hf). lia.
Qed.

Lemma good_medians (st : Blockchain hash) :
  good st -> 300000 <= effective_median (m_long_term_block_weights_window st) (m_db st) < 2 ^ 56 /\
    light (median_value (last_values 100 (bi_weight <$> m_db st))).
Proof.
  intros Hg. pose proof (good_window st Hg) as HW. pose proof (gd_light st Hg) as Hl.
  assert (forall f : mdb_block_info hash -> Z, f <$> m_db st <> []) as Hne.
  { intros f E. apply (gd_blocks st Hg). by destruct (m_db st). }
  unfold effective_median, long_term_median, CRYPTONOTE_BLOCK_GRANTED_FULL_REWARD_ZONE_V5.
  assert (light (median_value (last_values (m_long_term_block_weights_window st) (bi_long_term_block_weight <$> m_db st)))) as H1.
  { apply last_median_light; [done|done|]. apply Forall_fmap, (Forall_impl _ _ _ Hl). by intros ? []. }
  assert (light (median_value (last_values 100 (bi_weight <$> m_db st)))) as H2.
  { apply last_median_light; [done|done|]. apply Forall_fmap, (Forall_impl _ _ _ Hl). by intros ? []. }
  unfold light in *. lia.
Qed.

Lemma set_cache_same (st : Blockchain hash) :
  set_cache st (m_long_term_block_weights_cache_tip_hash st) (m_long_term_block_weights_cache_rolling_median st) = st.
Proof. by destruct st. Qed.

Lemma next_long_term_weight_light (W version bw : Z) (db : list (mdb_block_info hash)) :
  300000 <= effective_median W db < 2 ^ 56 -> light bw -> light (next_long_term_weight W version db bw).
Proof. unfold next_long_term_weight, light. intros He Hb. repeat zcase; lia. Qed.

Lemma get_next_spec (st : Blockchain hash) (version bw : Z) :
  good st -> light bw ->
  exists tip rm, get_next_long_term_block_weight st version bw
    = Val (set_cache st tip rm, next_long_term_weight (m_long_term_block_weights_window st) version (m_db st) bw) /\
    cache_ok (set_cache st tip rm).
Proof.
  intros Hg Hb. destruct (good_medians st Hg) as [He _]. unfold get_next_long_term_block_weight, next_long_term_weight, HF_VERSION_LONG_TERM_BLOCK_WEIGHT, HF_VERSION_2021_SCALING.
  destruct (Z.ltb_spec version 10) as [Hv|Hv].
  { eexists _, _. rewrite set_cache_same. split; [done|apply Hg]. }
  destruct (caller_median st Hg) as (tip & rm & E & Hok & _). rewrite E. run. exists tip, rm. split; [|done]. fold (effective_median (m_long_term_block_weights_window st) (m_db st)).
  set (e := effective_median _ _) in *. rewrite (u64_small (e * 10)), (u64_small (e * 7)), (u64_small (e * 2)) by (unfold_words; lia).
  rewrite (u64_small (e + e * 7 / 10)), (u64_small (e + e * 2 / 5)) by (unfold_words; lia).
  destruct (Z.leb_spec 15 version), (Z.ltb_spec version 15); (lia || done).
Qed.

Lemma last_n_weights (st : Blockchain hash) (n : Z) :
  m_db st <> [] -> 1 <= n -> get_last_n_blocks_weights st n = Val (last_values n (bi_weight <$> m_db st)).
Proof.
  intros Hb Hn. assert (1 <= length (m_db st))%nat as H1 by (destruct (m_db st); [done|cbn; lia]).
  unfold get_last_n_blocks_weights, get_block_weights, get_block_info_64bit_fields, chain_height.
  rewrite (proj2 (Z.eqb_neq _ _)), (proj2 (Z.leb_gt _ _)) by lia. unfold last_values. rewrite <- fmap_drop, length_fmap. do 2 f_equal.
  rewrite take_ge by (rewrite length_drop; lia). f_equal. lia.
Qed.

Lemma last_weights_spec (st : Blockchain hash) :
  good st -> get_last_n_blocks_weights st CRYPTONOTE_REWARD_BLOCKS_WINDOW = Val (last_values 100 (bi_weight <$> m_db st)) /\
    median (last_values 100 (bi_weight <$> m_db st)) = Val (median_value (last_values 100 (bi_weight <$> m_db st))).
Proof.
  intros Hg. split; [by apply last_n_weights; [apply Hg|]|apply median_middle].
  - apply last_values_nonempty; [lia|]. intros E. apply (gd_blocks st Hg). by destruct (m_db st).
  - apply Forall_drop, Forall_fmap, (Forall_impl _ _ _ (gd_light st Hg)). unfold light, in_u64. cbn. lia.
Qed.

Lemma update_spec (st : Blockchain hash) (version : Z) (read_only : bool) :
  let W := m_long_term_block_weights_window st in
  good st ->
  exists st', update_next_cumulative_weight_limit st version read_only = Val st' /\ good st' /\
    m_db st' = m_db st /\ m_long_term_block_weights_window st' = W /\
    m_current_block_cumul_weight_median st' = weight_median W version (m_db st) /\
    m_current_block_cumul_weight_limit st' = 2 * weight_median W version (m_db st) /\
    m_long_term_effective_median_block_weight st'
    = (if version <? 10 then m_long_term_effective_median_block_weight st else effective_median W (m_db st)) /\
    (10 <= version -> RollingMedian.window (m_long_term_block_weights_cache_rolling_median st') = last_values W (bi_long_term_block_weight <$> m_db st)).
Proof.
  intros W Hg. destruct (good_medians st Hg) as [He Hs]. fold W in He. pose proof (get_min_block_weight_range version) as Hz.
  destruct (last_weights_spec st Hg) as [El Em]. unfold update_next_cumulative_weight_limit, HF_VERSION_LONG_TERM_BLOCK_WEIGHT.
  assert (exists tip rm m, (if version <? 10 then weights ← get_last_n_blocks_weights st CRYPTONOTE_REWARD_BLOCKS_WINDOW; m ← median weights;
      Val (st, m, m_long_term_effective_median_block_weight st) else long_term_limits st version)
    = Val (set_cache st tip rm, m, if version <? 10 then m_long_term_effective_median_block_weight st else effective_median W (m_db st)) /\
    cache_ok (set_cache st tip rm) /\ 0 <= m < 2 ^ 62 /\ weight_median W version (m_db st) = Z.max (get_min_block_weight version) m /\
    (10 <= version -> RollingMedian.window rm = last_values W (bi_long_term_block_weight <$> m_db st))) as (tip & rm & m & E & Hok & Hm & Ew & Hwin).
  - unfold weight_median. destruct (Z.ltb_spec version 10) as [Hv|Hv].
    + rewrite El. run. rewrite Em. run. eexists _, _, _. rewrite set_cache_same. split_and!; [done|apply Hg|unfold light in Hs; lia..|done|lia].
    + unfold long_term_limits. destruct (caller_median st Hg) as (tip & rm & E & Hok & Hw). rewrite E. run.
      change (get_last_n_blocks_weights (set_cache st tip rm)) with (get_last_n_blocks_weights st). rewrite El. run. rewrite Em. run.
      fold W (effective_median W (m_db st)). eexists tip, rm, _. split_and!; [done|done|..|done].
      all: unfold CRYPTONOTE_SHORT_TERM_BLOCK_WEIGHT_SURGE_FACTOR, HF_VERSION_2021_SCALING, CRYPTONOTE_BLOCK_GRANTED_FULL_REWARD_ZONE_V5, light in *.
      all: rewrite (u64_small (50 * _)) by (unfold_words; lia).
      all: destruct (Z.leb_spec 15 version), (Z.ltb_spec version 15); lia.
  - rewrite E. run. set (cm := if m <=? _ then _ else _). assert (cm = weight_median W version (m_db st)) as Ecm by (rewrite Ew; unfold cm; zcase; lia).
    rewrite (u64_small (cm * 2)) by (unfold_words; unfold cm; zcase; lia). eexists. split; [reflexivity|].
    destruct Hg as [_ Hk Hb Hh Hl]. split_and!; [by destruct Hok as [? ? ?]; split; [split|..]|done|done|done|cbn; lia|done|done].
Qed.

Lemma new_good (W : Z) (junk : list Z) (db : list (mdb_block_info hash)) (stored : option Z) :
  1 <= W < 2 ^ 27 -> Z.of_nat (length junk) = W -> known db -> db <> [] -> Z.of_nat (length db) < 2 ^ 64 ->
  Forall (fun b => light (bi_weight b) /\ light (bi_long_term_block_weight b)) db ->
  exists st, new_Blockchain W junk db stored = Val st /\ good st /\ m_db st = db /\ m_long_term_block_weights_window st = W.
Proof.
  intros HW Hj Hk Hb Hh Hl. unfold new_Blockchain. rewrite new_rolling_median_eq, (proj2 (Z.ltb_lt _ _)) by lia. set (raw := {| data := junk |}).
  destruct (clear_inv raw) as (rm & E & Hi & _ & HN); [cbn; lia..|]. rewrite E. run. eexists. split; [reflexivity|].
  split_and!; [|done|done]. split; [|done..]. split; [done|by rewrite <- Hj|by left].
Qed.

(** ** Histories *)

Inductive change :=
  | Add (hf_version next_version : Z) (id : hash) (block_weight coins : Z)
  | Pop (height hf_version : Z).

Definition apply_change (st : Blockchain hash) (c : change) : outcome (Blockchain hash) :=
  match c with
  | Add hf_version next_version id block_weight coins => add_block st hf_version next_version id block_weight coins
  | Pop height hf_version => pop_to st height hf_version
  end.

Fixpoint apply_changes (st : Blockchain hash) (cs : list change) : outcome (Blockchain hash) :=
  match cs with
  | [] => Val st
  | c :: cs => st ← apply_change st c; apply_changes st cs
  end.

(** The same on chains, in exact arithmetic and without a cache. *)
Definition change_chain (W : Z) (db : list (mdb_block_info hash)) (c : change) : list (mdb_block_info hash) :=
  match c with
  | Add hf_version _ id block_weight coins =>
      db ++ [{| bi_hash := id; bi_weight := block_weight; bi_long_term_block_weight := next_long_term_weight W hf_version db block_weight; bi_coins := coins |}]
  | Pop height _ => take (Z.to_nat height) db
  end.

Definition version_after (c : change) : Z := match c with Add _ next_version _ _ _ => next_version | Pop _ hf_version => hf_version end.

(** The chain stays among the known ones, with blocks below 2^56 bytes and its first block in place. *)
Definition change_ok (W : Z) (db : list (mdb_block_info hash)) (c : change) : Prop :=
  known (change_chain W db c) /\ Z.of_nat (length (change_chain W db c)) < 2 ^ 64 /\
  match c with Add _ _ _ block_weight _ => light block_weight | Pop height _ => 1 <= height end.

Fixpoint changes_ok (W : Z) (db : list (mdb_block_info hash)) (cs : list change) : Prop :=
  match cs with
  | [] => True
  | c :: cs => change_ok W db c /\ changes_ok W (change_chain W db c) cs
  end.

(** The limits that a chain and a version give. *)
Definition limits_of (W version : Z) (st : Blockchain hash) : Prop :=
  m_current_block_cumul_weight_median st = weight_median W version (m_db st) /\
  m_current_block_cumul_weight_limit st = 2 * weight_median W version (m_db st) /\
  (10 <= version -> m_long_term_effective_median_block_weight st = effective_median W (m_db st) /\
    RollingMedian.window (m_long_term_block_weights_cache_rolling_median st) = last_values W (bi_long_term_block_weight <$> m_db st)).

Lemma good_moved (st : Blockchain hash) (db : list (mdb_block_info hash)) (tip : hash) (rm : rolling_median_t) :
  good st -> cache_ok (set_cache st tip rm) -> known db -> db <> [] -> Z.of_nat (length db) < 2 ^ 64 ->
  Forall (fun b => light (bi_weight b) /\ light (bi_long_term_block_weight b)) db -> good (set_db (set_cache st tip rm) db).
Proof. intros Hg [? ? ?] Hk Hb Hh Hl. split; [by split|done..]. Qed.

Lemma apply_change_spec (st : Blockchain hash) (c : change) :
  let W := m_long_term_block_weights_window st in
  good st -> change_ok W (m_db st) c ->
  exists st', apply_change st c = Val st' /\ good st' /\ m_db st' = change_chain W (m_db st) c /\
    m_long_term_block_weights_window st' = W /\ limits_of W (version_after c) st'.
Proof.
  intros W Hg (Hk & Hh & Hc). pose proof (gd_light st Hg) as Hl. destruct (good_medians st Hg) as [He _].
  assert (exists st1, apply_change st c = update_next_cumulative_weight_limit st1 (version_after c) false /\ good st1 /\
    m_db st1 = change_chain W (m_db st) c /\ m_long_term_block_weights_window st1 = W) as (st1 & -> & Hg1 & Ed & EW).
  - destruct c as [v v' id bw coins|h v]; cbn [apply_change version_after].
    + unfold add_block. destruct (get_next_spec st v bw Hg Hc) as (tip & rm & E & Hok). rewrite E. run.
      eexists. split; [reflexivity|]. split_and!; [|done|done]. apply good_moved; [done|done|done|by intros [_ ?]%app_nil|done|].
      apply Forall_app; split; [done|]. constructor; [|done]. split; [done|]. by apply next_long_term_weight_light.
    + unfold pop_to. eexists. split; [reflexivity|]. split_and!; [|done|done]. rewrite <- (set_cache_same st) at 1.
      apply good_moved; [done|rewrite set_cache_same; apply Hg|done| |done|by apply Forall_take].
      pose proof (gd_blocks st Hg). destruct (m_db st); [done|]. by replace (Z.to_nat h) with (S (pred (Z.to_nat h))) by lia.
  - destruct (update_spec st1 (version_after c) false Hg1) as (st' & E & Hg' & Ed' & EW' & Em & El & Ee & Hw). exists st'.
    unfold limits_of. rewrite Ed', <- Ed, <- EW. split_and!; [done..|]. intros Hv. rewrite Ee, (proj2 (Z.ltb_ge _ _)) by done. by rewrite Hw.
Qed.

Lemma apply_changes_spec (st : Blockchain hash) (cs : list change) :
  let W := m_long_term_block_weights_window st in
  good st -> changes_ok W (m_db st) cs ->
  exists st', apply_changes st cs = Val st' /\ good st' /\ m_db st' = foldl (change_chain W) (m_db st) cs /\
    m_long_term_block_weights_window st' = W /\ forall c, last cs = Some c -> limits_of W (version_after c) st'.
Proof.
  intros W. unfold W. clear W. revert st. induction cs as [|c cs IH]; intros st Hg Hcs; [by exists st|]. destruct Hcs as [Hc Hcs].
  destruct (apply_change_spec st c Hg Hc) as (st1 & E1 & Hg1 & Ed & EW & Hlim). cbn [apply_changes foldl]. rewrite E1. run.
  destruct (IH st1 Hg1) as (st2 & E2 & Hg2 & Ed2 & EW2 & Hlast); [by rewrite EW, Ed|]. exists st2. rewrite Ed, EW in Ed2. split_and!; [done|done|done|congruence|].
  intros c' Hl. destruct cs as [|c2 cs]; [|rewrite EW in Hlast; by apply Hlast].
  cbn in E2, Hl. injection E2 as <-. by injection Hl as <-.
Qed.

(** C18. Through any additions and removals of blocks, with any versions, the weights are those of a description without cache and
    without overflow: no call fails, each block is stored with the long term weight that the
    chain before it gives, and the medians and the limit for the next block are those of the chain. *)
Theorem weights_refine (st : Blockchain hash) (cs : list change) :
  let W := m_long_term_block_weights_window st in
  good st -> changes_ok W (m_db st) cs ->
  exists st', apply_changes st cs = Val st' /\ good st' /\ m_db st' = foldl (change_chain W) (m_db st) cs /\
    m_long_term_block_weights_window st' = W /\ forall c, last cs = Some c -> limits_of W (version_after c) st'.
Proof. apply apply_changes_spec. Qed.

(** ** Growth *)

(** Long term weights go up in levels of 1.7. *)
Fixpoint level (j : nat) : Z :=
  match j with
  | O => CRYPTONOTE_BLOCK_GRANTED_FULL_REWARD_ZONE_V5
  | S j => level j + level j * 7 / 10
  end.

(** The first height that can be above a level: twice that of the level before, until half the window is less. *)
Fixpoint reach (W : Z) (j : nat) : Z :=
  match j with
  | O => 1
  | S j => reach W j + Z.min (reach W j) (W / 2)
  end.

Definition slow (W : Z) (db : list (mdb_block_info hash)) : Prop :=
  forall (j h : nat) bi, db !! h = Some bi -> level j < bi_long_term_block_weight bi -> reach W j <= Z.of_nat h.

Lemma level_low (j : nat) : 300000 <= level j.
Proof. induction j as [|j IH]; [done|]. cbn [level]. lia. Qed.

Lemma next_weight_level (W version bw : Z) (db : list (mdb_block_info hash)) (j : nat) :
  10 <= version -> level (S j) < next_long_term_weight W version db bw -> level j < effective_median W db.
Proof.
  intros Hv Hl. apply Z.lt_nge. intros He. assert (0 <= effective_median W db) as H0.
  { unfold effective_median, CRYPTONOTE_BLOCK_GRANTED_FULL_REWARD_ZONE_V5. lia. }
  cbn [level] in Hl. unfold next_long_term_weight in Hl. rewrite (proj2 (Z.ltb_ge _ _)) in Hl by done. destruct (Z.ltb_spec version 15); lia.
Qed.

(** The blocks before [n] are not above a bound: so many of a range are not. *)
Lemma count_le_range (x : Z) (l : list Z) (n k : nat) :
  (forall (i : nat) v, l !! i = Some v -> (i < n)%nat -> v <= x) -> (n - k <= count_le x (drop k l) + (n - length l))%nat.
Proof.
  intros Hx. rewrite <- (take_drop (n - k) (drop k l)), count_le_app, count_le_all; [rewrite length_take, length_drop; lia|].
  apply Forall_lookup_2. intros i v Hi. apply lookup_take_Some in Hi as [Hi Hlt]. rewrite lookup_drop in Hi. apply (Hx (k + i)%nat); [done|lia].
Qed.

Lemma slow_add (W version bw : Z) (db : list (mdb_block_info hash)) (bi : mdb_block_info hash) :
  1 <= W -> db <> [] -> 10 <= version -> slow W db -> bi_long_term_block_weight bi = next_long_term_weight W version db bw -> slow W (db ++ [bi]).
Proof.
  intros HW Hdb Hv Hs Eb j h b Hb Hl. apply lookup_app_Some in Hb as [Hb|[Hge Hb]]; [by apply (Hs j h b)|].
  assert (b = bi /\ h = length db) as [-> ->].
  { destruct (h - length db)%nat eqn:E; [|done]. injection Hb as ->. split; [done|lia]. }
  assert (1 <= length db)%nat as H1 by (destruct db; [done|cbn; lia]). destruct j as [|j]; [cbn; lia|].
  rewrite Eb in Hl. apply next_weight_level in Hl; [|done]. pose proof (level_low j) as Hlow.
  set (l := bi_long_term_block_weight <$> db). assert (length l = length db) as Ll by apply length_fmap.
  assert (level j < median_value (last_values W l)) as Hm.
  { unfold effective_median, long_term_median, CRYPTONOTE_BLOCK_GRANTED_FULL_REWARD_ZONE_V5 in Hl. fold l in Hl. lia. }
  apply median_above in Hm; [|apply last_values_nonempty; [done|]; by destruct db]. unfold last_values in Hm.
  pose proof (count_le_range (level j) l (Z.to_nat (reach W j)) (length l - Z.to_nat W)) as Hc. rewrite length_drop in Hm.
  assert (1 <= reach W j) as Hr by (clear -HW; induction j as [|j IH]; cbn [reach]; lia). cbn [reach].
  assert (Z.to_nat (reach W j) - (length l - Z.to_nat W) <= count_le (level j) (drop (length l - Z.to_nat W) l) + (Z.to_nat (reach W j) - length l))%nat; [|lia].
  apply Hc. intros i v Hi Hlt. apply list_lookup_fmap_Some in Hi as (b & -> & Hi). apply Z.le_ngt. intros Hgt. specialize (Hs j i b Hi Hgt). lia.
Qed.

Definition long_term_change (c : change) : Prop := match c with Add hf_version _ _ _ _ => 10 <= hf_version | Pop _ _ => True end.

Lemma slow_change (W : Z) (db : list (mdb_block_info hash)) (c : change) :
  1 <= W -> db <> [] -> change_ok W db c -> long_term_change c -> slow W db -> slow W (change_chain W db c) /\ change_chain W db c <> [].
Proof.
  intros HW Hdb (_ & _ & Hc) Hlt Hs. destruct c as [v v' id bw coins|h v]; cbn in *.
  - split; [by eapply slow_add|by intros [_ ?]%app_nil].
  - split; [|destruct db; [done|]; by replace (Z.to_nat h) with (S (pred (Z.to_nat h))) by lia].
    intros j i b Hi. apply lookup_take_Some in Hi as [Hi _]. by apply Hs.
Qed.

Lemma slow_changes (W : Z) (db : list (mdb_block_info hash)) (cs : list change) :
  1 <= W -> db <> [] -> changes_ok W db cs -> Forall long_term_change cs -> slow W db -> slow W (foldl (change_chain W) db cs).
Proof.
  intros HW. revert db. induction cs as [|c cs IH]; intros db Hdb Hok Hlt Hs; [done|]. destruct Hok as [Hc Hok]. apply Forall_cons in Hlt as [Hlc Hlt].
  destruct (slow_change W db c HW Hdb Hc Hlc Hs) as [Hs' Hne]. cbn [foldl]. by apply IH.
Qed.

(** C19. Long term weights grow slowly: on a chain that starts with long term weights of at most 300,000, whatever blocks are
    added and removed, a block above 300,000 times 1.7 to the j is at no lower height than [reach j]: each
    factor of 1.7 doubles the height until it takes half the window, 50,000 blocks, each time. *)
Theorem long_term_growth (st st' : Blockchain hash) (cs : list change) (j h : nat) (bi : mdb_block_info hash) :
  let W := m_long_term_block_weights_window st in
  good st -> Forall (fun b => bi_long_term_block_weight b <= CRYPTONOTE_BLOCK_GRANTED_FULL_REWARD_ZONE_V5) (m_db st) ->
  changes_ok W (m_db st) cs -> Forall long_term_change cs -> apply_changes st cs = Val st' ->
  m_db st' !! h = Some bi -> level j < bi_long_term_block_weight bi -> reach W j <= Z.of_nat h.
Proof.
  intros W Hg Hlow Hcs Hlt Hrun Hbi Hl. destruct (apply_changes_spec st cs Hg Hcs) as (st1 & E & _ & Ed & _ & _). rewrite Hrun in E.
  injection E as <-. rewrite Ed in Hbi. apply (slow_changes W (m_db st) cs) with (bi := bi); try done; [by apply good_window|apply Hg|].
  intros i k b Hb Hgt. pose proof (level_low i). apply (Forall_lookup_1 _ _ _ _ Hlow) in Hb.
  unfold CRYPTONOTE_BLOCK_GRANTED_FULL_REWARD_ZONE_V5 in Hb. lia.
Qed.

End weights.

(** ** An example

    A chain of three blocks whose last is replaced by another one, with a window of two. *)

#[export] Instance mdb_block_info_eq_dec : EqDecision (mdb_block_info Z).
Proof. solve_decision. Defined.

Definition example_genesis : mdb_block_info Z := {| bi_hash := 1; bi_weight := 80; bi_long_term_block_weight := 80; bi_coins := 0 |}.

Definition example_changes : list change :=
  [Add 16 16 2 700000 10; Add 16 16 3 400000 20; Pop 2 16; Add 16 16 4 1000000 20; Add 16 16 5 1000000 30].

(** The chains on the way. *)
Fixpoint chains_of (W : Z) (db : list (mdb_block_info Z)) (cs : list (change (hash := Z))) : list (list (mdb_block_info Z)) :=
  db :: match cs with [] => [] | c :: cs => chains_of W (change_chain W db c) cs end.

Definition example_known (c : list (mdb_block_info Z)) : Prop := In c (chains_of 2 [example_genesis] example_changes).

Definition ids_check (chains : list (list (mdb_block_info Z))) : bool :=
  forallb (fun c1 => forallb (fun c2 => forallb (fun h1 => forallb (fun h2 =>
    match c1 !! h1, c2 !! h2 with
    | Some b1, Some b2 => negb (bi_hash b1 =? 0) && (negb (bi_hash b1 =? bi_hash b2) || (h1 =? h2)%nat && bool_decide (take (S h1) c1 = take (S h1) c2))
    | _, _ => true
    end) (seq 0 (length c2))) (seq 0 (length c1))) chains) chains.

Lemma ids_check_sound (chains : list (list (mdb_block_info Z))) : ids_check chains = true -> BlockIds 0 (fun c => In c chains).
Proof.
  intros H. assert (forall c1 c2 h1 h2 b1 b2, In c1 chains -> In c2 chains -> c1 !! h1 = Some b1 -> c2 !! h2 = Some b2 ->
    bi_hash b1 <> 0 /\ (bi_hash b1 = bi_hash b2 -> h1 = h2 /\ take (S h1) c1 = take (S h1) c2)) as Hall.
  { intros c1 c2 h1 h2 b1 b2 H1 H2 L1 L2. unfold ids_check in H. rewrite forallb_forall in H. specialize (H c1 H1). rewrite forallb_forall in H.
    specialize (H c2 H2). rewrite forallb_forall in H. specialize (H h1 ltac:(apply in_seq; apply lookup_lt_Some in L1; lia)). rewrite forallb_forall in H.
    specialize (H h2 ltac:(apply in_seq; apply lookup_lt_Some in L2; lia)). rewrite L1, L2 in H. apply andb_prop in H as [Hn H].
    split; [destruct (Z.eqb_spec (bi_hash b1) 0); [done|lia]|]. intros E. rewrite E, Z.eqb_refl in H. cbn in H. apply andb_prop in H as [Hh Ht].
    apply Nat.eqb_eq in Hh. by apply bool_decide_eq_true in Ht. }
  split; [intros c1 c2 h1 h2 b1 b2 H1 H2 L1 L2; by apply Hall|]. intros c h b Hc L. by apply (Hall c c h h b b).
Qed.

#[export] Instance example_ids : BlockIds 0 example_known.
Proof. apply ids_check_sound. by vm_compute. Qed.

Lemma example_changes_ok : changes_ok example_known 2 [example_genesis] example_changes.
Proof. repeat split; try lia; try (vm_compute; tauto). Qed.

Lemma example_start :
  exists st, new_Blockchain 0 2 [7; 7] [example_genesis] None = Val st /\ good 0 example_known st /\
    m_db st = [example_genesis] /\ m_long_term_block_weights_window st = 2.
Proof. apply new_good; try done; [vm_compute; tauto|]. constructor; [|done]. unfold light. cbn. lia. Qed.

Lemma weights_refine_witness :
  exists st st', new_Blockchain 0 2 [7; 7] [example_genesis] None = Val st /\ apply_changes 0 st example_changes = Val st' /\
    m_db st' = foldl (change_chain 2) [example_genesis] example_changes /\ m_current_block_cumul_weight_limit st' = 1700000.
Proof.
  destruct example_start as (st & E & Hg & Ed & EW). exists st.
  destruct (weights_refine 0 example_known st example_changes) as (st' & E' & _ & Ed' & _ & Hl).
  - done.
  - rewrite EW, Ed. apply example_changes_ok.
  - exists st'. rewrite EW, Ed in Ed'. split_and!; [done|done|done|]. destruct (Hl _ eq_refl) as (_ & Hlim & _). rewrite Hlim, EW, Ed'. by vm_compute.
Defined.

Lemma long_term_growth_witness :
  exists st st', new_Blockchain 0 2 [7; 7] [example_genesis] None = Val st /\ apply_changes 0 st example_changes = Val st' /\
    (bi_long_term_block_weight <$> m_db st') !! 3%nat = Some 867000 /\ reach 2 1 <= 3.
Proof.
  destruct example_start as (st & E & Hg & Ed & EW). exists st.
  destruct (apply_changes_spec 0 example_known st example_changes Hg) as (st' & E' & _ & Ed' & _ & _); [rewrite EW, Ed; apply example_changes_ok|].
  exists st'. rewrite EW, Ed in Ed'. split_and!; [done|done|rewrite Ed'; by vm_compute|].
  change 3 with (Z.of_nat 3). rewrite <- EW. apply (long_term_growth 0 example_known st st' example_changes 1 3
    {| bi_hash := 5; bi_weight := 1000000; bi_long_term_block_weight := 867000; bi_coins := 30 |}).
  - done.
  - rewrite Ed. by repeat constructor.
  - rewrite EW, Ed. apply example_changes_ok.
  - by repeat constructor; cbn; lia.
  - done.
  - rewrite Ed'. by vm_compute.
  - by vm_compute.
Defined.
