(* ===== verification/Fees.v ===== *)
(** * Fees

    The fee that a node asks for and the one it recommends: get_dynamic_base_fee, check_fee and the
    estimates of src/src/cryptonote_core/blockchain.cpp, round_money_up of
    src/src/cryptonote_basic/cryptonote_format_utils.cpp, and how a wallet makes a fee of an estimate
    (src/src/wallet/wallet2.cpp).  The fee per byte in closed form, and when a transaction that pays the
    recommended fee is accepted. *)

From S2P Require Import Prelude IntUtil Emission Coinbase RollingMedian Medians Weights.

Local Open Scope word_scope.

#[local] Ltac Zify.zify_post_hook ::= Z.to_euclidean_division_equations.

Definition HF_VERSION_DYNAMIC_FEE : Z := 4.
Definition HF_VERSION_PER_BYTE_FEE : Z := 8.
Definition FEE_PER_KB : Z := 2000000000.
Definition DYNAMIC_FEE_PER_KB_BASE_FEE : Z := 2000000000.
Definition DYNAMIC_FEE_PER_KB_BASE_BLOCK_REWARD : Z := 10000000000000.
Definition DYNAMIC_FEE_PER_KB_BASE_FEE_V5 : Z :=
  2000000000 ⊠ CRYPTONOTE_BLOCK_GRANTED_FULL_REWARD_ZONE_V2 / CRYPTONOTE_BLOCK_GRANTED_FULL_REWARD_ZONE_V5.
Definition DYNAMIC_FEE_REFERENCE_TRANSACTION_WEIGHT : Z := 3000.
Definition CRYPTONOTE_SCALING_2021_FEE_ROUNDING_PLACES : nat := 2.
Definition CRYPTONOTE_DISPLAY_DECIMAL_POINT : Z := 8.
Definition PER_KB_FEE_QUANTIZATION_DECIMALS : Z := 8.
Definition BLOCK_REWARD_OVERESTIMATE : Z := 10 * 1000000000000.

Definition get_fee_quantization_mask : Z := 10 ^ (CRYPTONOTE_DISPLAY_DECIMAL_POINT - PER_KB_FEE_QUANTIZATION_DECIMALS).

(** ** Rounding up *)

(** [%llu]: the decimal digits of a 64-bit number, each by its value. *)
Fixpoint decimal_loop (fuel : nat) (n : Z) (buf : list Z) : list Z :=
  match fuel with
  | O => buf
  | S fuel => if n <? 10 then n :: buf else decimal_loop fuel (n / 10) (n mod 10 :: buf)
  end.

Definition decimal_digits (amount : Z) : list Z := decimal_loop 20 amount [].

(** The loop that writes zeros, and whether there was another digit. *)
Fixpoint clear_digits (buf : list Z) : list Z * bool :=
  match buf with
  | [] => ([], false)
  | d :: buf => let '(buf, bump) := clear_digits buf in (0 :: buf, negb (d =? 0) || bump)
  end.

(** The loop that adds one, on the digits from the last one on. *)
Fixpoint bump_digits (rev_buf : list Z) : list Z * bool :=
  match rev_buf with
  | [] => ([], true)
  | d :: buf => if d =? 9 then let '(buf, bump) := bump_digits buf in (0 :: buf, bump) else (d + 1 :: buf, false)
  end.

Definition round_money_up (amount : Z) (significant_digits : nat) : outcome Z :=
  _ ← throw_unless (negb (significant_digits =? 0)%nat);
  let buf := decimal_digits amount in
  let buf :=
    if (significant_digits <? length buf)%nat then
      let '(tail, bump) := clear_digits (drop significant_digits buf) in
      let '(rev_head, bump) := if bump then bump_digits (reverse (take significant_digits buf)) else (reverse (take significant_digits buf), false) in
      let buf := reverse rev_head ++ tail in
      if bump then 1 :: buf else buf
    else buf in
  let ull := of_digits 10 buf in
  _ ← throw_unless (ull <? 2 ^ 64);
  _ ← throw_unless (negb (ull =? 0) || (amount =? 0));
  Val ull.

(** ** What the node asks for *)

Definition get_dynamic_base_fee (ndebug : bool) (block_reward median_block_weight version : Z) : outcome Z :=
  let min_block_weight := get_min_block_weight version in
  let median_block_weight := if median_block_weight <? min_block_weight then min_block_weight else median_block_weight in
  if HF_VERSION_PER_BYTE_FEE <=? version then
    '(lo, hi) ← mul128 ndebug block_reward DYNAMIC_FEE_REFERENCE_TRANSACTION_WEIGHT;
    let '(hi, lo, _, _) := div128_64 hi lo median_block_weight in
    if HF_VERSION_2021_SCALING <=? version then
      let '(hi, lo, _, _) := div128_64 hi lo median_block_weight in
      _ ← c_assert ndebug (hi =? 0);
      let lo := lo ⊟ lo / 20 in
      Val (if lo =? 0 then 1 else lo)
    else
      let '(hi, lo, _, _) := div128_64 hi lo min_block_weight in
      _ ← c_assert ndebug (hi =? 0);
      Val (lo / 5)
  else
    let fee_base := if 5 <=? version then DYNAMIC_FEE_PER_KB_BASE_FEE_V5 else DYNAMIC_FEE_PER_KB_BASE_FEE in
    let unscaled_fee_base := fee_base ⊠ min_block_weight / median_block_weight in
    '(lo, hi) ← mul128 ndebug unscaled_fee_base block_reward;
    let '(hi, lo, _, _) := div128_64 hi lo DYNAMIC_FEE_PER_KB_BASE_BLOCK_REWARD in
    _ ← c_assert ndebug (hi =? 0);
    let mask := get_fee_quantization_mask in
    Val ((lo ⊞ mask ⊟ 1) / mask ⊠ mask).

(** Division of unsigned numbers. *)
Definition c_div (a b : Z) : outcome Z := if b =? 0 then Undef else Val (a / b).

Section fees.
Context {hash : Type} `{EqDecision hash}.

Definition get_block_already_generated_coins (db : list (mdb_block_info hash)) (height : Z) : outcome Z :=
  bi ← block_info_at db height;
  Val (bi_coins bi).

(** The coins of the chain, as all the callers ask for them. *)
Definition generated_coins (st : Blockchain hash) : outcome Z :=
  let h := chain_height (m_db st) in
  if h =? 0 then Val 0 else get_block_already_generated_coins (m_db st) (h - 1).

(** [needed_fee] from version 8 on and before it. *)
Definition needed_fee_per_byte (ndebug : bool) (st : Blockchain hash) (version base_reward median tx_weight : Z) : outcome Z :=
  let m := if HF_VERSION_LONG_TERM_BLOCK_WEIGHT <=? version then Z.min median (m_long_term_effective_median_block_weight st) else median in
  fee_per_byte ← get_dynamic_base_fee ndebug base_reward m version;
  let needed_fee := tx_weight ⊠ fee_per_byte in
  let mask := get_fee_quantization_mask in
  Val ((needed_fee ⊞ mask ⊟ 1) / mask ⊠ mask).

Definition needed_fee_per_kb (ndebug : bool) (version base_reward median tx_weight : Z) : outcome Z :=
  fee_per_kb ← (if version <? HF_VERSION_DYNAMIC_FEE then Val FEE_PER_KB else get_dynamic_base_fee ndebug base_reward median version);
  Val ((tx_weight / 1024 ⊞ (if tx_weight mod 1024 =? 0 then 0 else 1)) ⊠ fee_per_kb).

Definition check_fee (ndebug : bool) (st : Blockchain hash) (version tx_weight fee : Z) : outcome bool :=
  let median := if HF_VERSION_DYNAMIC_FEE <=? version then m_current_block_cumul_weight_limit st / 2 else 0 in
  base_reward ← (if HF_VERSION_DYNAMIC_FEE <=? version then
      coins ← generated_coins st;
      get_block_reward ndebug median 1 coins version (chain_height (m_db st))
    else Val (Some 0));
  match base_reward with
  | None => Val false
  | Some base_reward =>
      needed_fee ← (if HF_VERSION_PER_BYTE_FEE <=? version then needed_fee_per_byte ndebug st version base_reward median tx_weight
                    else needed_fee_per_kb ndebug version base_reward median tx_weight);
      Val (negb (fee <? needed_fee ⊟ needed_fee / 50))
  end.

(** ** What the node recommends *)

Definition estimate_fees (base_reward Mnw Mlw : Z) : outcome (list Z) :=
  let Mfw := Z.min Mnw Mlw in
  Fl ← c_div (base_reward ⊠ DYNAMIC_FEE_REFERENCE_TRANSACTION_WEIGHT) (Mfw ⊠ Mfw);
  Fn ← c_div (4 ⊠ base_reward ⊠ DYNAMIC_FEE_REFERENCE_TRANSACTION_WEIGHT) (Mfw ⊠ Mfw);
  Fm ← c_div (16 ⊠ base_reward ⊠ DYNAMIC_FEE_REFERENCE_TRANSACTION_WEIGHT) (CRYPTONOTE_BLOCK_GRANTED_FULL_REWARD_ZONE_V5 ⊠ Mfw);
  q ← c_div (4 ⊠ Fm ⊠ Mfw) (32 ⊠ DYNAMIC_FEE_REFERENCE_TRANSACTION_WEIGHT ⊠ Mnw / CRYPTONOTE_BLOCK_GRANTED_FULL_REWARD_ZONE_V5);
  let Fh := Z.max (4 ⊠ Fm) q in
  f0 ← round_money_up Fl CRYPTONOTE_SCALING_2021_FEE_ROUNDING_PLACES;
  f1 ← round_money_up Fn CRYPTONOTE_SCALING_2021_FEE_ROUNDING_PLACES;
  f2 ← round_money_up Fm CRYPTONOTE_SCALING_2021_FEE_ROUNDING_PLACES;
  f3 ← round_money_up Fh CRYPTONOTE_SCALING_2021_FEE_ROUNDING_PLACES;
  Val [f0; f1; f2; f3].

(** The subsidy of the next block, or the high bound when there is none. *)
Definition estimated_reward (ndebug : bool) (st : Blockchain hash) (version : Z) : outcome Z :=
  coins ← generated_coins st;
  r ← get_block_reward ndebug (m_current_block_cumul_weight_limit st / 2) 1 coins version (chain_height (m_db st));
  Val (match r with Some base_reward => base_reward | None => BLOCK_REWARD_OVERESTIMATE end).

Definition get_dynamic_base_fee_estimate_2021_scaling (ndebug : bool) (st : Blockchain hash) (version grace_blocks : Z) : outcome (list Z) :=
  _ ← throw_unless (grace_blocks <=? CRYPTONOTE_REWARD_BLOCKS_WINDOW);
  rm ← inserts (m_long_term_block_weights_cache_rolling_median st) (replicate (Z.to_nat grace_blocks) 0);
  m ← median_of rm;
  let Mlw := Z.max m CRYPTONOTE_BLOCK_GRANTED_FULL_REWARD_ZONE_V5 in
  weights ← get_last_n_blocks_weights st (100 - grace_blocks);
  short ← median (weights ++ replicate (Z.to_nat grace_blocks) 0);
  let Msw := Z.max short Mlw in
  let Mnw := Z.min Msw (50 ⊠ Mlw) in
  base_reward ← estimated_reward ndebug st version;
  estimate_fees base_reward Mnw Mlw.

Definition get_dynamic_base_fee_estimate (ndebug : bool) (st : Blockchain hash) (version grace_blocks : Z) : outcome Z :=
  if version <? HF_VERSION_DYNAMIC_FEE then Val FEE_PER_KB
  else
    let grace_blocks := if CRYPTONOTE_REWARD_BLOCKS_WINDOW <=? grace_blocks then CRYPTONOTE_REWARD_BLOCKS_WINDOW - 1 else grace_blocks in
    if HF_VERSION_2021_SCALING <=? version then
      fees ← get_dynamic_base_fee_estimate_2021_scaling ndebug st version grace_blocks;
      c_index fees 0
    else
      let min_block_weight := get_min_block_weight version in
      weights ← get_last_n_blocks_weights st (CRYPTONOTE_REWARD_BLOCKS_WINDOW - grace_blocks);
      m ← median (weights ++ replicate (Z.to_nat grace_blocks) min_block_weight);
      let m := if m <=? min_block_weight then min_block_weight else m in
      base_reward ← estimated_reward ndebug st version;
      let use_median_value :=
        if HF_VERSION_LONG_TERM_BLOCK_WEIGHT <=? version then Z.min m (m_long_term_effective_median_block_weight st) else m in
      get_dynamic_base_fee ndebug base_reward use_median_value version.

End fees.

(** The fee that a wallet puts on a transaction. *)
Definition calculate_fee_from_weight (base_fee weight fee_quantization_mask : Z) : Z :=
  let fee := weight ⊠ base_fee in
  (fee ⊞ fee_quantization_mask ⊟ 1) / fee_quantization_mask ⊠ fee_quantization_mask.

(** ** Rounding is to the next number with so many digits *)

Lemma decimal_loop_spec (fuel : nat) (n : Z) (buf : list Z) :
  0 <= n < 10 ^ Z.of_nat fuel -> Forall (is_digit 10) buf ->
  Forall (is_digit 10) (decimal_loop fuel n buf) /\
  of_digits 10 (decimal_loop fuel n buf) = n * 10 ^ Z.of_nat (length buf) + of_digits 10 buf.
Proof.
  revert n buf. induction fuel as [|fuel IH]; intros n buf Hn Hb; [cbn in Hn; split; [done|]; replace n with 0 by lia; done|].
  cbn [decimal_loop]. rewrite Nat2Z.inj_succ, Z.pow_succ_r in Hn by lia. destruct (Z.ltb_spec n 10) as [Hlt|Hge].
  - split; [constructor; [split; lia|done]|]. apply of_digits_cons.
  - destruct (IH (n / 10) (n mod 10 :: buf)) as [Hd Ho]; [lia|constructor; [split; lia|done]|]. split; [done|]. rewrite Ho, of_digits_cons.
    cbn [length]. rewrite Nat2Z.inj_succ, Z.pow_succ_r by lia. nia.
Qed.

Lemma decimal_digits_spec (n : Z) : in_u64 n -> Forall (is_digit 10) (decimal_digits n) /\ of_digits 10 (decimal_digits n) = n.
Proof.
  intros Hn. destruct (decimal_loop_spec 20 n []) as [Hd Ho]; [unfold in_u64 in Hn; lia|done|]. split; [done|].
  unfold decimal_digits. rewrite Ho. cbn. lia.
Qed.

Lemma clear_digits_spec (buf : list Z) :
  Forall (is_digit 10) buf -> clear_digits buf = (replicate (length buf) 0, negb (of_digits 10 buf =? 0)).
Proof.
  intros Hb. induction Hb as [|d buf Hd Hb IH]; [done|]. cbn [clear_digits length replicate]. rewrite IH, of_digits_cons.
  pose proof (of_digits_range 10 buf ltac:(lia) Hb) as Hr. unfold is_digit in Hd. set (p := 10 ^ Z.of_nat (length buf)) in *. assert (0 < p) by lia.
  f_equal. destruct (Z.eqb_spec d 0), (Z.eqb_spec (of_digits 10 buf) 0), (Z.eqb_spec (d * p + of_digits 10 buf) 0); cbn; nia || done.
Qed.

Lemma of_digits_zeros (k : nat) : of_digits 10 (replicate k 0) = 0.
Proof. induction k as [|k IH]; [done|]. cbn [replicate]. rewrite of_digits_cons, IH. lia. Qed.

Lemma bump_digits_spec (l : list Z) :
  Forall (is_digit 10) l -> let '(l', bump) := bump_digits l in
  length l' = length l /\ of_digits 10 (reverse l') + (if bump : bool then 10 ^ Z.of_nat (length l) else 0) = of_digits 10 (reverse l) + 1.
Proof.
  intros Hl. induction Hl as [|d l Hd Hl IH]; [done|]. cbn [bump_digits]. destruct (Z.eqb_spec d 9) as [->|Hn].
  - destruct (bump_digits l) as [l' bump]. destruct IH as [Ll IH]. cbn [length]. split; [lia|]. rewrite !reverse_cons, !of_digits_snoc.
    destruct bump; [rewrite Nat2Z.inj_succ, Z.pow_succ_r by lia|]; lia.
  - split; [done|]. rewrite !reverse_cons, !of_digits_snoc. lia.
Qed.

(** The digits after rounding. *)
Lemma rounded_digits (head tail : list Z) :
  Forall (is_digit 10) head -> Forall (is_digit 10) tail ->
  let p := 10 ^ Z.of_nat (length tail) in
  of_digits 10 (let '(tail', bump) := clear_digits tail in
    let '(rev_head, bump) := if bump then bump_digits (reverse head) else (reverse head, false) in
    let buf := reverse rev_head ++ tail' in if bump then 1 :: buf else buf)
  = (of_digits 10 (head ++ tail) + p - 1) / p * p.
Proof.
  intros Hh Ht p. rewrite clear_digits_spec, of_digits_app by done. fold p. pose proof (of_digits_range 10 tail ltac:(lia) Ht) as Hr. fold p in Hr.
  set (hi := of_digits 10 head). set (lo := of_digits 10 tail) in *. destruct (Z.eqb_spec lo 0) as [E|E]; cbn [negb].
  - rewrite reverse_involutive, of_digits_app, of_digits_zeros, length_replicate. fold p hi. rewrite E.
    replace (hi * p + 0 + p - 1) with (p - 1 + hi * p) by lia. rewrite Z.div_add, Z.div_small by lia. lia.
  - pose proof (bump_digits_spec (reverse head)) as Hb. destruct (bump_digits (reverse head)) as [l' bump]. rewrite reverse_involutive, length_reverse in Hb.
    destruct Hb as [Ll Hb]; [by apply Forall_reverse|]. fold hi in Hb.
    replace ((hi * p + lo + p - 1) / p) with (hi + 1) by (apply (Z.div_unique_pos _ _ _ (lo - 1)); lia).
    assert (of_digits 10 (reverse l' ++ replicate (length tail) 0) = of_digits 10 (reverse l') * p) as Ez.
    { rewrite of_digits_app, of_digits_zeros, length_replicate. fold p. lia. }
    destruct bump; [|rewrite Ez; nia]. rewrite of_digits_cons, Ez, length_app, length_reverse, length_replicate, Nat2Z.inj_add, Z.pow_add_r, Ll by lia. fold p. nia.
Qed.

Lemma round_money_up_spec (amount : Z) (sd : nat) :
  in_u64 amount -> (1 <= sd)%nat ->
  let p := 10 ^ Z.of_nat (length (decimal_digits amount) - sd) in
  let r := (amount + p - 1) / p * p in
  round_money_up amount sd = if r <? 2 ^ 64 then Val r else Throw.
Proof.
  intros Ha Hs p r. destruct (decimal_digits_spec amount Ha) as [Hd Ho]. unfold round_money_up.
  rewrite (proj2 (Nat.eqb_neq sd 0)) by lia. cbn [negb throw_unless]. run. set (buf := decimal_digits amount) in *.
  match goal with |- context [of_digits 10 ?b] => set (buf' := b) end. assert (of_digits 10 buf' = r) as Er.
  { unfold buf'. destruct (Nat.ltb_spec sd (length buf)) as [Hlt|Hge].
    - rewrite rounded_digits by (by apply Forall_take || by apply Forall_drop). rewrite take_drop, Ho, length_drop. done.
    - unfold r, p. replace (length buf - sd)%nat with 0%nat by lia. rewrite Ho. change (10 ^ Z.of_nat 0) with 1. rewrite Z.div_1_r. lia. }
  rewrite Er. assert (0 < p) by (unfold p; lia). assert (amount <= r < amount + p) as Hr by (unfold r; nia).
  destruct (Z.ltb_spec r (2 ^ 64)); [|done]. cbn [throw_unless]. run.
  destruct (Z.eqb_spec r 0), (Z.eqb_spec amount 0); cbn [negb orb throw_unless]; try run; (done || unfold in_u64 in Ha; lia).
Qed.

Lemma decimal_loop_length (fuel : nat) (n : Z) (buf : list Z) :
  (1 <= fuel)%nat -> 0 <= n ->
  exists k, length (decimal_loop fuel n buf) = (length buf + S k)%nat /\ (k = 0%nat \/ 10 ^ Z.of_nat k <= n).
Proof.
  intros Hf. revert n buf. induction fuel as [|fuel IH]; intros n buf Hn; [lia|]. cbn [decimal_loop].
  destruct (Z.ltb_spec n 10) as [Hlt|Hge]; [exists 0%nat; cbn; lia|]. destruct fuel as [|fuel]; [exists 0%nat; cbn; lia|].
  destruct (IH ltac:(lia) (n / 10) (n mod 10 :: buf) ltac:(lia)) as (k & El & Hk). exists (S k). rewrite El. cbn [length]. split; [lia|right].
  rewrite Nat2Z.inj_succ, Z.pow_succ_r by lia. destruct Hk as [->|Hk]; [cbn; lia|lia].
Qed.

(** The result is at least the amount and less than twice it. *)
Lemma round_money_up_bounds (amount : Z) (sd : nat) :
  0 <= amount < 2 ^ 62 -> (1 <= sd)%nat -> exists r, round_money_up amount sd = Val r /\ amount <= r <= 2 * amount.
Proof.
  intros Ha Hs. rewrite round_money_up_spec by (done || unfold in_u64; lia). cbv zeta.
  set (p := 10 ^ _). assert (0 < p) as Hp by (unfold p; lia). assert (p = 1 \/ p <= amount) as Hpa.
  { unfold p, decimal_digits. destruct (decimal_loop_length 20 amount [] ltac:(lia) ltac:(lia)) as (k & -> & Hk). cbn [length Nat.add].
    destruct Hk as [->|Hk]; [left; by replace (1 - sd)%nat with 0%nat by lia|]. destruct (Nat.le_gt_cases (S k) sd) as [Hle|Hgt].
    - left. by replace (S k - sd)%nat with 0%nat by lia.
    - right. apply (Z.le_trans _ (10 ^ Z.of_nat k)); [|done]. apply Z.pow_le_mono_r; lia. }
  assert (amount <= (amount + p - 1) / p * p <= amount + p - 1) as Hr by nia. clearbody p.
  exists ((amount + p - 1) / p * p). rewrite (proj2 (Z.ltb_lt _ _)) by lia. split; [done|]. nia.
Qed.

(** ** The fee per byte *)

Definition fee_median (m : Z) : Z := Z.max CRYPTONOTE_BLOCK_GRANTED_FULL_REWARD_ZONE_V5 m.

Definition base_fee (reward m : Z) : Z :=
  let b := reward * 3000 / (fee_median m * fee_median m) in Z.max 1 (b - b / 20).

Lemma base_fee_spec (ndebug : bool) (reward m version : Z) :
  in_u64 reward -> in_u64 m -> 15 <= version <= 255 -> get_dynamic_base_fee ndebug reward m version = Val (base_fee reward m).
Proof.
  intros Hr Hm Hv. unfold get_dynamic_base_fee, HF_VERSION_PER_BYTE_FEE, HF_VERSION_2021_SCALING, get_min_block_weight.
  rewrite (proj2 (Z.ltb_ge version 2)), (proj2 (Z.ltb_ge version 5)), (proj2 (Z.leb_le 8 version)), (proj2 (Z.leb_le 15 version)) by lia.
  replace (if m <? _ then _ else _) with (fee_median m) by (unfold fee_median; zcase; lia). unfold base_fee. set (M := fee_median m).
  assert (300000 <= M < 2 ^ 64) as HM by (unfold M, fee_median, CRYPTONOTE_BLOCK_GRANTED_FULL_REWARD_ZONE_V5, in_u64 in *; lia).
  unfold DYNAMIC_FEE_REFERENCE_TRANSACTION_WEIGHT. rewrite mul128_spec by (done || unfold in_u64; lia). run. set (n := reward * 3000).
  assert (0 <= n < 2 ^ 64 * 3000) as Hn by (unfold n, in_u64 in *; lia).
  rewrite div128_64_spec by (unfold in_u64; lia). cbv zeta. replace (n / 2 ^ 64 * 2 ^ 64 + n mod 2 ^ 64) with n by lia.
  set (q := n / M). assert (0 <= q < 2 ^ 64) as Hq by (unfold q; split; [apply Z.div_pos|apply Z.div_lt_upper_bound]; nia).
  rewrite (Z.div_small q), (Z.mod_small q) by lia. rewrite div128_64_spec by (unfold in_u64; lia). cbv zeta. rewrite Z.mul_0_l, Z.add_0_l.
  assert (q / M = n / (M * M)) as -> by (unfold q; apply Z.div_div; lia). set (b := n / (M * M)).
  assert (0 <= b <= q) as Hb by (unfold b; rewrite <- Z.div_div by lia; fold q; split; [apply Z.div_pos|apply Z.div_le_upper_bound]; nia).
  rewrite (Z.div_small b), (Z.mod_small b) by lia. cbn [c_assert]. change (0 =? 0) with true. rewrite c_assert_true by done. run.
  rewrite u64_small by (unfold_words; lia). f_equal. destruct (Z.eqb_spec (b - b / 20) 0); lia.
Qed.

Lemma base_fee_range (reward m : Z) : 0 <= reward <= INITIAL_REWARD -> 300000 <= m -> 1 <= base_fee reward m <= 333.
Proof.
  intros Hr Hm. unfold base_fee, INITIAL_REWARD in *. replace (fee_median m) with m by (unfold fee_median, CRYPTONOTE_BLOCK_GRANTED_FULL_REWARD_ZONE_V5; lia).
  set (b := _ / _). assert (0 <= b <= 333); [|lia]. assert (300000 * 300000 <= m * m) by nia.
  unfold b. split; [apply Z.div_pos; lia|]. apply Z.lt_succ_r, Z.div_lt_upper_bound; lia.
Qed.

(** The recommended fee against the one asked for, with medians [m] and [e]. *)
Lemma fee_quotients (r m e : Z) :
  0 <= r <= INITIAL_REWARD -> 300000 <= m <= e ->
  let Fl := r * 3000 / (m * m) in
  0 <= r * 3000 / (e * e) <= Fl /\ Fl <= 333 /\ (m * m <= 3000 * r <-> 1 <= Fl).
Proof.
  intros Hr Hm Fl. unfold INITIAL_REWARD in Hr. assert (300000 * 300000 <= m * m) as Hq by (apply Z.mul_le_mono_nonneg; lia).
  assert (m * m <= e * e) as Hqe by (apply Z.mul_le_mono_nonneg; lia). unfold Fl. clear Fl. set (q := m * m) in *. set (p := e * e) in *. clearbody q p.
  split_and!; [apply Z.div_pos; lia|apply Z.div_le_compat_l; lia|apply Z.lt_succ_r, Z.div_lt_upper_bound; lia|split].
  - intros H. apply Z.div_le_lower_bound; lia.
  - intros H. apply Z.le_ngt. intros Hlt. rewrite Z.div_small in H by lia. lia.
Qed.

Lemma mask_one (x : Z) : in_u64 x -> (x ⊞ get_fee_quantization_mask ⊟ 1) / get_fee_quantization_mask ⊠ get_fee_quantization_mask = x.
Proof.
  intros Hx. change get_fee_quantization_mask with 1. rewrite Z.div_1_r, Z.mul_1_r. unfold u64, in_u64 in *.
  rewrite Z.mod_mod by lia. rewrite Zminus_mod_idemp_l. rewrite Z.mod_small; lia.
Qed.

Lemma fee_decision (r m e w f0 : Z) :
  0 <= r <= INITIAL_REWARD -> 300000 <= m <= e -> 1 <= w < 2 ^ 32 ->
  (let Fl := r * 3000 / (m * m) in Fl <= f0 <= 2 * Fl) ->
  (w * base_fee r e - w * base_fee r e / 50 <=? calculate_fee_from_weight f0 w get_fee_quantization_mask) = (m * m <=? 3000 * r).
Proof.
  intros Hr Hm Hw Hf. destruct (fee_quotients r m e Hr Hm) as (Hb & Hl & Hiff). cbv zeta in Hf. unfold base_fee.
  replace (fee_median e) with e by (unfold fee_median, CRYPTONOTE_BLOCK_GRANTED_FULL_REWARD_ZONE_V5; lia). cbv zeta.
  set (b := r * 3000 / (e * e)) in *. set (Fl := r * 3000 / (m * m)) in *. clearbody b Fl.
  assert (0 <= w * f0 <= 2 ^ 32 * 666) as Hwf by (split; [apply Z.mul_nonneg_nonneg|apply Z.mul_le_mono_nonneg]; lia).
  unfold calculate_fee_from_weight. rewrite (u64_small (w * f0)) by (unfold_words; lia). rewrite mask_one by (unfold in_u64; lia).
  destruct (Z.leb_spec (m * m) (3000 * r)) as [H|H].
  - apply Z.leb_le. apply Hiff in H. set (k := Z.max 1 (b - b / 20)). assert (1 <= k <= f0) as Hk by lia. clearbody k.
    assert (0 <= w * k <= w * f0) by (split; [apply Z.mul_nonneg_nonneg|apply Z.mul_le_mono_nonneg_l]; lia). lia.
  - assert (Fl = 0) as E0 by lia. assert (f0 = 0) as -> by lia. assert (b = 0) as -> by lia. apply Z.leb_gt. change (Z.max 1 (0 - 0 / 20)) with 1. lia.
Qed.

(** ** Fee and estimate on a chain *)

(** One more block without weight in the window. *)
Lemma next_window_low (n : Z) (l : list Z) :
  l <> [] -> Forall (fun x => 0 <= x) l -> median_value (next_window n l 0) <= median_value l.
Proof.
  intros Hl Hf. unfold next_window. destruct (_ <? n); [by apply median_value_low|]. destruct l as [|a l]; [done|]. by apply median_value_low_tail.
Qed.

Lemma grace_low (n : Z) (l : list Z) (g : nat) :
  1 <= n -> l <> [] -> Forall (fun x => 0 <= x) l ->
  median_value (last_values n (l ++ replicate g 0)) <= median_value (last_values n l).
Proof.
  intros Hn Hl Hf. induction g as [|g IH]; [by rewrite app_nil_r|]. rewrite replicate_S_end, app_assoc, <- next_window_last by done.
  etransitivity; [|done]. apply next_window_low.
  - apply last_values_nonempty; [done|]. by destruct l.
  - apply Forall_drop, Forall_app. split; [done|]. by apply Forall_replicate.
Qed.

Lemma last_values_idem (n : Z) (l : list Z) : last_values n (last_values n l) = last_values n l.
Proof.
  unfold last_values at 1. set (k := length (last_values n l)). assert (k - Z.to_nat n = 0)%nat as ->; [|done].
  unfold k, last_values. rewrite length_drop. lia.
Qed.

Section chain.
Context {hash : Type} `{EqDecision hash} (null_hash : hash) (known : list (mdb_block_info hash) -> Prop).
Implicit Types (st : Blockchain hash).

(** The subsidy of the next block. *)
Definition last_coins st : Z := default 0 (bi_coins <$> last (m_db st)).
Definition next_subsidy st : Z := base_block_reward (last_coins st) (chain_height (m_db st)).

Lemma generated_coins_spec st : m_db st <> [] -> generated_coins st = Val (last_coins st).
Proof.
  intros Hb. destruct (m_db st) as [|b l] eqn:E using rev_ind; [done|]. unfold generated_coins, last_coins, chain_height, get_block_already_generated_coins, block_info_at.
  rewrite E, length_app. cbn [length]. rewrite (proj2 (Z.eqb_neq _ _)) by lia. replace (Z.to_nat (_ - 1)) with (length l) by lia.
  rewrite lookup_app_r, Nat.sub_diag by lia. cbn. by rewrite last_snoc.
Qed.

(** The chain that a fee is checked against: its limits are up to date. *)
Record ready (version : Z) st : Prop := {
  rd_good : good null_hash known st;
  rd_limits : limits_of (m_long_term_block_weights_window st) version st;
  rd_version : 15 <= version <= 255;
  rd_small : effective_median (m_long_term_block_weights_window st) (m_db st) < 2 ^ 31;
  rd_coins : 0 <= last_coins st <= MONEY_SUPPLY;
}.

Lemma subsidy_range (version : Z) st : ready version st -> 0 <= next_subsidy st <= INITIAL_REWARD.
Proof.
  intros Hr. unfold next_subsidy. pose proof (base_block_reward_range (last_coins st) (chain_height (m_db st)) (rd_coins _ _ Hr)) as H.
  unfold chain_height in *. lia.
Qed.

Lemma next_reward_spec (ndebug : bool) (version : Z) st :
  ready version st ->
  get_block_reward ndebug (m_current_block_cumul_weight_limit st / 2) 1 (last_coins st) version (chain_height (m_db st)) = Val (Some (next_subsidy st)).
Proof.
  intros Hr. unfold get_block_reward. pose proof (get_min_block_weight_range version) as Hz. rewrite (proj2 (Z.leb_le 1 _)) by (zcase; lia). done.
Qed.

(** From version 15 on the fee follows the long term median. *)
Lemma fee_median_used (version : Z) st :
  ready version st ->
  let e := effective_median (m_long_term_block_weights_window st) (m_db st) in
  Z.min (m_current_block_cumul_weight_limit st / 2) (m_long_term_effective_median_block_weight st) = e /\ 300000 <= e.
Proof.
  intros [Hg [_ [El Hw]] Hv _ _] e. destruct (good_medians null_hash known st Hg) as [He Hs]. fold e in He. destruct (Hw ltac:(lia)) as [Ee _]. fold e in Ee.
  rewrite El, Ee. split; [|lia]. unfold weight_median. fold e. rewrite (proj2 (Z.ltb_ge version 10)), (proj2 (Z.ltb_ge version 15)) by lia. lia.
Qed.

Lemma check_fee_spec (ndebug : bool) (version w fee : Z) st :
  ready version st -> 0 <= w < 2 ^ 32 ->
  let needed := w * base_fee (next_subsidy st) (effective_median (m_long_term_block_weights_window st) (m_db st)) in
  check_fee ndebug st version w fee = Val (needed - needed / 50 <=? fee).
Proof.
  intros Hr Hw needed. destruct (fee_median_used version st Hr) as [Em He]. pose proof (subsidy_range version st Hr) as Hs. pose proof (rd_version _ _ Hr) as Hv.
  unfold check_fee, HF_VERSION_DYNAMIC_FEE, HF_VERSION_PER_BYTE_FEE. rewrite (proj2 (Z.leb_le 4 version)), (proj2 (Z.leb_le 8 version)) by lia.
  rewrite generated_coins_spec by apply Hr. run. rewrite next_reward_spec by done. run.
  unfold needed_fee_per_byte, HF_VERSION_LONG_TERM_BLOCK_WEIGHT. rewrite (proj2 (Z.leb_le 10 version)) by lia. rewrite Em.
  set (e := effective_median _ _) in *. pose proof (rd_small _ _ Hr) as Hsm. fold e in Hsm. unfold INITIAL_REWARD in Hs.
  rewrite base_fee_spec by (done || unfold in_u64; lia). run. run.
  pose proof (base_fee_range (next_subsidy st) e ltac:(done) ltac:(lia)) as Hb. fold needed. assert (0 <= needed < 2 ^ 64) as Hn by (unfold needed; nia).
  rewrite (u64_small needed) by done. rewrite mask_one by done. rewrite u64_small by (unfold_words; lia).
  f_equal. rewrite <- Z.leb_antisym. done.
Qed.

(** The long term median that an estimate assumes: the window after so many blocks without weight. *)
Definition estimate_median st (g : Z) : Z :=
  let W := m_long_term_block_weights_window st in
  fee_median (median_value (last_values W (last_values W (bi_long_term_block_weight <$> m_db st) ++ replicate (Z.to_nat g) 0))).

Lemma blocks_weights (f : mdb_block_info hash -> Z) st :
  good null_hash known st -> (forall b, light (bi_weight b) /\ light (bi_long_term_block_weight b) -> light (f b)) ->
  f <$> m_db st <> [] /\ Forall light (f <$> m_db st).
Proof.
  intros Hg Hf. split; [intros E; apply (gd_blocks _ _ _ Hg); by destruct (m_db st)|]. apply Forall_fmap, (Forall_impl _ _ _ (gd_light _ _ _ Hg)). done.
Qed.

Lemma light_median (l : list Z) : l <> [] -> Forall light l -> median l = Val (median_value l) /\ light (median_value l).
Proof.
  intros Hl Hf. split; [apply median_middle; [done|]; apply (Forall_impl _ _ _ Hf); unfold light, in_u64; lia|].
  destruct (median_value_Forall (2 ^ 56 - 1) l Hl); [|unfold light; lia]. apply (Forall_impl _ _ _ Hf). unfold light. lia.
Qed.

Lemma light_zeros (l : list Z) (g : nat) : Forall light l -> Forall light (l ++ replicate g 0).
Proof. intros Hl. apply Forall_app. split; [done|]. by apply Forall_replicate. Qed.

(** The copy of the cache with the blocks to come. *)
Lemma grace_median_spec (version g : Z) st :
  ready version st ->
  exists rm, inserts (m_long_term_block_weights_cache_rolling_median st) (replicate (Z.to_nat g) 0) = Val rm /\
    exists m, median_of rm = Val m /\ Z.max m CRYPTONOTE_BLOCK_GRANTED_FULL_REWARD_ZONE_V5 = estimate_median st g.
Proof.
  intros Hr. pose proof (rd_good _ _ Hr) as Hg. destruct (rd_limits _ _ Hr) as (_ & _ & Hw). destruct (Hw ltac:(pose proof (rd_version _ _ Hr); lia)) as [_ Ewin].
  pose proof (good_window null_hash known st Hg) as HW. destruct (gd_cache _ _ _ Hg) as [Hi HN _]. set (rm := m_long_term_block_weights_cache_rolling_median st) in *.
  set (W := m_long_term_block_weights_window st) in *. set (l := last_values W (bi_long_term_block_weight <$> m_db st)) in *.
  destruct (blocks_weights bi_long_term_block_weight st Hg) as [Hne Hlt]; [by intros ? []|]. assert (l <> []) as Hl by (by apply last_values_nonempty).
  assert (Forall light l) as Hfl by (by apply Forall_drop).
  destruct (inserts_inv rm l (replicate (Z.to_nat g) 0) Hi) as (rm' & E & Hi' & Hw' & HN'); [by rewrite HN, Ewin; unfold l; rewrite last_values_idem|].
  exists rm'. split; [done|]. rewrite HN in Hw'. fold W in Hw'. set (l' := last_values W (l ++ replicate (Z.to_nat g) 0)) in *.
  assert (l' <> [] /\ Forall light l') as [Hne' Hf'].
  { split; [apply last_values_nonempty; [done|]; by destruct l|]. by apply Forall_drop, light_zeros. }
  destruct (light_median l' Hne' Hf') as [Em _]. exists (median_value l'). rewrite median_of_spec, Hw'; [|done| |].
  - split; [done|]. unfold estimate_median, fee_median. fold W l l'. lia.
  - rewrite <- (kept_length rm') by apply Hi'. rewrite Hw'. destruct l'; [done|cbn; lia].
  - rewrite Hw'. apply (Forall_impl _ _ _ Hf'). unfold light, in_u64. lia.
Qed.

Lemma estimate_median_range (version g : Z) st :
  ready version st ->
  300000 <= estimate_median st g <= effective_median (m_long_term_block_weights_window st) (m_db st).
Proof.
  intros Hr. pose proof (rd_good _ _ Hr) as Hg. pose proof (good_window null_hash known st Hg) as HW.
  destruct (blocks_weights bi_long_term_block_weight st Hg) as [Hne Hlt]; [by intros ? []|].
  unfold estimate_median, effective_median, long_term_median, fee_median. set (W := m_long_term_block_weights_window st) in *.
  set (l := last_values W (bi_long_term_block_weight <$> m_db st)) in *. pose proof (grace_low W l (Z.to_nat g) HW) as Hlow.
  assert (last_values W l = l) as El by apply last_values_idem. rewrite El in Hlow.
  unfold CRYPTONOTE_BLOCK_GRANTED_FULL_REWARD_ZONE_V5.
  assert (median_value (last_values W (l ++ replicate (Z.to_nat g) 0)) <= median_value l); [|lia]. apply Hlow; [by apply last_values_nonempty|].
  apply Forall_drop, (Forall_impl _ _ _ Hlt). unfold light. lia.
Qed.

(** Quotients of numbers of 62 bits. *)
Lemma c_div_small (a b : Z) : 0 <= a < 2 ^ 62 -> 0 < b -> c_div a b = Val (a / b) /\ 0 <= a / b < 2 ^ 62.
Proof.
  intros Ha Hb. unfold c_div. rewrite (proj2 (Z.eqb_neq _ _)) by lia. split; [done|]. split; [apply Z.div_pos; lia|].
  apply Z.div_lt_upper_bound; [done|]. apply (Z.lt_le_trans _ (1 * 2 ^ 62)); [lia|]. apply Z.mul_le_mono_nonneg_r; lia.
Qed.

(** Four fees without overflow; the first is the fee at the minimum. *)
Lemma estimate_fees_spec (r Mnw Mlw : Z) :
  0 <= r <= INITIAL_REWARD -> 300000 <= Mlw <= Mnw -> Mnw < 2 ^ 37 -> Mlw < 2 ^ 31 ->
  exists f0 f1 f2 f3, estimate_fees r Mnw Mlw = Val [f0; f1; f2; f3] /\
    let Fl := r * 3000 / (Mlw * Mlw) in Fl <= f0 <= 2 * Fl.
Proof.
  intros Hr Hl Hn Hs. unfold INITIAL_REWARD in Hr. unfold estimate_fees, DYNAMIC_FEE_REFERENCE_TRANSACTION_WEIGHT, CRYPTONOTE_BLOCK_GRANTED_FULL_REWARD_ZONE_V5, CRYPTONOTE_SCALING_2021_FEE_ROUNDING_PLACES.
  rewrite Z.min_r by lia. assert (300000 * 300000 <= Mlw * Mlw) as Hq1 by (apply Z.mul_le_mono_nonneg; lia).
  assert (Mlw * Mlw <= 2 ^ 31 * 2 ^ 31) as Hq2 by (apply Z.mul_le_mono_nonneg; lia). set (q := Mlw * Mlw) in *.
  rewrite (u64_small (r * 3000)), (u64_small q), (u64_small (4 * r)), (u64_small (16 * r)), (u64_small (300000 * Mlw)) by (unfold_words; lia).
  rewrite (u64_small (4 * r * 3000)), (u64_small (16 * r * 3000)) by (unfold_words; lia).
  destruct (c_div_small (r * 3000) q) as [-> Bl]; [lia..|]. run. destruct (c_div_small (4 * r * 3000) q) as [-> Bn]; [lia..|]. run.
  destruct (c_div_small (16 * r * 3000) (300000 * Mlw)) as [-> _]; [lia..|]. run. set (Fm := 16 * r * 3000 / (300000 * Mlw)).
  assert (0 <= Fm <= 6000) as HFm by (unfold Fm; split; [apply Z.div_pos|apply Z.lt_succ_r, Z.div_lt_upper_bound]; lia). clearbody Fm.
  assert (0 <= 4 * Fm * Mlw <= 24000 * 2 ^ 31) as Hp by (split; [apply Z.mul_nonneg_nonneg|apply Z.mul_le_mono_nonneg]; lia).
  rewrite (u64_small (4 * Fm)), (u64_small (32 * 3000)) by (unfold_words; lia).
  rewrite (u64_small (4 * Fm * Mlw)), (u64_small (32 * 3000 * Mnw)) by (unfold_words; lia).
  assert (0 < 32 * 3000 * Mnw / 300000) as Hd by (apply Z.div_str_pos; lia). set (D := 32 * 3000 * Mnw / 300000) in *. clearbody D.
  destruct (c_div_small (4 * Fm * Mlw) D) as [-> Bh]; [lia..|]. run. set (x := 4 * Fm * Mlw / D) in *. clearbody x.
  assert (forall a, 0 <= a < 2 ^ 62 -> exists f, round_money_up a 2 = Val f /\ a <= f <= 2 * a) as Hround by (intros a Ha; apply round_money_up_bounds; [done|lia]).
  destruct (Hround _ Bl) as (f0 & -> & B0). run. destruct (Hround _ Bn) as (f1 & -> & _). run.
  destruct (Hround Fm ltac:(lia)) as (f2 & -> & _). run. destruct (Hround (Z.max (4 * Fm) x) ltac:(lia)) as (f3 & -> & _). run.
  by exists f0, f1, f2, f3.
Qed.

Lemma estimate_spec (ndebug : bool) (version g : Z) st :
  ready version st -> 0 <= g <= 99 ->
  exists f0 f1 f2 f3, get_dynamic_base_fee_estimate_2021_scaling ndebug st version g = Val [f0; f1; f2; f3] /\
    let Fl := next_subsidy st * 3000 / (estimate_median st g * estimate_median st g) in Fl <= f0 <= 2 * Fl.
Proof.
  intros Hr Hg. pose proof (rd_good _ _ Hr) as Hgd. unfold get_dynamic_base_fee_estimate_2021_scaling, CRYPTONOTE_REWARD_BLOCKS_WINDOW.
  rewrite (proj2 (Z.leb_le g 100)) by lia. cbn [throw_unless]. run. destruct (grace_median_spec version g st Hr) as (rm & -> & m & Em & EM). run. rewrite Em. run.
  rewrite EM. pose proof (estimate_median_range version g st Hr) as HM. pose proof (rd_small _ _ Hr) as Hsm. pose proof (subsidy_range version st Hr) as Hs.
  set (M := estimate_median st g) in *. rewrite last_n_weights by (apply Hgd || lia). run.
  destruct (blocks_weights bi_weight st Hgd) as [Hne Hlt]; [by intros ? []|].
  destruct (light_median (last_values (100 - g) (bi_weight <$> m_db st) ++ replicate (Z.to_nat g) 0)) as [-> Hshort].
  { pose proof (last_values_nonempty (100 - g) _ ltac:(lia) Hne) as Hl. by destruct (last_values (100 - g) (bi_weight <$> m_db st)). }
  { by apply light_zeros, Forall_drop. }
  run. unfold estimated_reward. rewrite generated_coins_spec by apply Hgd. run. rewrite next_reward_spec by done. run. run.
  rewrite (u64_small (50 * M)) by (unfold_words; lia). apply estimate_fees_spec; lia.
Qed.

(** The fee that a wallet pays on the first estimate, of the lowest priority. *)
Lemma estimate_checked (ndebug : bool) (version g w : Z) st :
  ready version st -> 0 <= g <= 99 -> 1 <= w < 2 ^ 32 ->
  let m := estimate_median st g in
  exists f0 f1 f2 f3, get_dynamic_base_fee_estimate_2021_scaling ndebug st version g = Val [f0; f1; f2; f3] /\
    check_fee ndebug st version w (calculate_fee_from_weight f0 w get_fee_quantization_mask) = Val (m * m <=? 3000 * next_subsidy st).
Proof.
  intros Hr Hg Hw m. destruct (estimate_spec ndebug version g st Hr Hg) as (f0 & f1 & f2 & f3 & E & Hf). exists f0, f1, f2, f3. split; [done|].
  rewrite check_fee_spec by (done || lia). f_equal. pose proof (estimate_median_range version g st Hr) as HM. pose proof (subsidy_range version st Hr) as Hs.
  by apply fee_decision.
Qed.

(** C20. The fee that the node recommends, against the fee that it asks for: from version 15 on, with up to 99 blocks of grace, all four
    estimates are made without an error, and a transaction that pays the first of them, as a wallet computes it, is accepted exactly
    when 3000 times the next subsidy is at least the square of the median that the estimate assumes. *)
Theorem estimate_accepted_iff (ndebug : bool) (version g w : Z) st :
  ready version st -> 0 <= g <= 99 -> 1 <= w < 2 ^ 32 ->
  exists f0 f1 f2 f3, get_dynamic_base_fee_estimate_2021_scaling ndebug st version g = Val [f0; f1; f2; f3] /\
    check_fee ndebug st version w (calculate_fee_from_weight f0 w get_fee_quantization_mask)
    = Val (estimate_median st g * estimate_median st g <=? 3000 * next_subsidy st).
Proof. apply estimate_checked. Qed.

Lemma late_subsidy (version : Z) st : ready version st -> 4500000 <= chain_height (m_db st) -> next_subsidy st < 30000000.
Proof.
  intros Hr Hh. unfold next_subsidy. rewrite base_block_reward_spec by (apply Hr || lia). rewrite (proj2 (Z.eqb_neq _ _)) by lia.
  apply (Z.le_lt_trans _ (era_reward 9)); [|done]. etransitivity; [apply Z.le_min_l|]. unfold era_reward, HALVING_INTERVAL.
  apply Z.div_le_compat_l; [done|]. split; [done|]. apply Z.pow_le_mono_r; [done|]. apply Z.div_le_lower_bound; lia.
Qed.

(** Once the subsidy is less than 0.3 coins, as it is from height 4,500,000 on at the latest, a transaction that pays the fee that the
    node recommends for the lowest priority is refused by the node, whatever the weights of blocks and of the transaction. *)
Theorem late_estimate_refused (ndebug : bool) (version g w : Z) st :
  ready version st -> 0 <= g <= 99 -> 1 <= w < 2 ^ 32 ->
  (4500000 <= chain_height (m_db st) -> next_subsidy st < 30000000) /\
  (next_subsidy st < 30000000 ->
   exists f0 f1 f2 f3, get_dynamic_base_fee_estimate_2021_scaling ndebug st version g = Val [f0; f1; f2; f3] /\
     check_fee ndebug st version w (calculate_fee_from_weight f0 w get_fee_quantization_mask) = Val false).
Proof.
  intros Hr Hg Hw. split; [by apply (late_subsidy version)|]. intros Hs. destruct (estimate_checked ndebug version g w st Hr Hg Hw) as (f0 & f1 & f2 & f3 & E & Hc).
  exists f0, f1, f2, f3. split; [done|]. rewrite Hc. f_equal. apply Z.leb_gt. pose proof (estimate_median_range version g st Hr) as HM.
  assert (300000 * 300000 <= estimate_median st g * estimate_median st g) by (apply Z.mul_le_mono_nonneg; lia). lia.
Qed.

End chain.

(** From version 15 on the fee per byte is 95% of 3000 times the reward over the square of the median, the quotient rounded down
    and then the product rounded up, and at least 1; no assertion fails. *)
Theorem base_fee_correct (ndebug : bool) (reward m version : Z) :
  in_u64 reward -> in_u64 m -> 15 <= version <= 255 ->
  let M := Z.max 300000 m in
  let b := reward * 3000 / (M * M) in
  get_dynamic_base_fee ndebug reward m version = Val (Z.max 1 ((b * 19 + 19) / 20)).
Proof.
  intros Hr Hm Hv M b. rewrite base_fee_spec by done. unfold base_fee, fee_median, CRYPTONOTE_BLOCK_GRANTED_FULL_REWARD_ZONE_V5. fold M b.
  f_equal. cbv zeta. clearbody b. lia.
Qed.

Lemma base_fee_correct_witness : get_dynamic_base_fee false 10000000000 300000 16 = Val 317.
Proof. apply (base_fee_correct false 10000000000 300000 16); unfold in_u64; lia. Defined.

(** ** Examples *)

Lemma ready_after (changes : list change) (c : change) (st0 : Blockchain Z) (known : list (mdb_block_info Z) -> Prop) `{!BlockIds 0 known} :
  let W := m_long_term_block_weights_window st0 in
  let db := foldl (change_chain W) (m_db st0) changes in
  good 0 known st0 -> changes_ok known W (m_db st0) changes -> last changes = Some c -> 15 <= version_after c <= 255 ->
  effective_median W db < 2 ^ 31 -> 0 <= default 0 (bi_coins <$> last db) <= MONEY_SUPPLY ->
  exists st, apply_changes 0 st0 changes = Val st /\ m_db st = db /\ m_long_term_block_weights_window st = W /\ ready 0 known (version_after c) st.
Proof.
  intros W db Hg Hok Hl Hv He Hc. destruct (apply_changes_spec 0 known st0 changes Hg Hok) as (st & E & Hg' & Ed & EW & Hlim). fold W db in Ed, EW.
  exists st. split_and!; [done..|]. split; [done|rewrite EW; by apply Hlim|done|by rewrite EW, Ed|unfold last_coins; by rewrite Ed].
Qed.

Lemma estimate_accepted_iff_witness :
  exists (st : Blockchain Z) (f0 f1 f2 f3 : Z), get_dynamic_base_fee_estimate_2021_scaling false st 16 1 = Val [f0; f1; f2; f3] /\
    check_fee false st 16 2000 (calculate_fee_from_weight f0 2000 get_fee_quantization_mask) = Val true.
Proof.
  destruct example_start as (st0 & _ & Hg & Ed & EW).
  destruct (ready_after example_changes (Add 16 16 5 1000000 30) st0 example_known) as (st & _ & Edb & EWst & Hr); rewrite ?EW, ?Ed in *;
    [done|apply example_changes_ok|done|done|by vm_compute|by vm_compute|].
  exists st. destruct (estimate_accepted_iff 0 example_known false 16 1 2000 st Hr) as (f0 & f1 & f2 & f3 & E & Hc); [lia|lia|].
  exists f0, f1, f2, f3. split; [done|]. rewrite Hc. unfold estimate_median, next_subsidy, last_coins. rewrite Edb, EWst. by vm_compute.
Defined.

(** A chain that has emitted all but 1000 units. *)
Definition spent_changes : list change := [Add 16 16 2 100000 (MONEY_SUPPLY - 1000)].

Definition spent_known (c : list (mdb_block_info Z)) : Prop := In c (chains_of 2 [example_genesis] spent_changes).

#[local] Instance spent_ids : BlockIds 0 spent_known.
Proof. apply ids_check_sound. by vm_compute. Qed.

Lemma late_estimate_refused_witness :
  exists (st : Blockchain Z) (f0 f1 f2 f3 : Z), next_subsidy st = 1000 /\ get_dynamic_base_fee_estimate_2021_scaling false st 16 10 = Val [f0; f1; f2; f3] /\
    check_fee false st 16 2000 (calculate_fee_from_weight f0 2000 get_fee_quantization_mask) = Val false.
Proof.
  destruct (new_good 0 spent_known 2 [7; 7] [example_genesis] None) as (st0 & _ & Hg & Ed & EW); [done..|vm_compute; tauto|done|done| |].
  { constructor; [|done]. unfold light. cbn. lia. }
  destruct (ready_after spent_changes (Add 16 16 2 100000 (MONEY_SUPPLY - 1000)) st0 spent_known) as (st & _ & Edb & EWst & Hr); rewrite ?EW, ?Ed in *;
    [done|repeat split; try lia; try (vm_compute; tauto)|done|done|by vm_compute|by vm_compute|].
  exists st. assert (next_subsidy st = 1000) as Es by (unfold next_subsidy, last_coins; rewrite Edb; by vm_compute).
  destruct (late_estimate_refused 0 spent_known false 16 10 2000 st Hr) as [_ Hl]; [lia|lia|].
  destruct (Hl ltac:(rewrite Es; lia)) as (f0 & f1 & f2 & f3 & E & Hc). by exists f0, f1, f2, f3.
Defined.
