(* ===== verification/Money.v ===== *)
(** * Amounts as text

    Amounts are printed and read with a decimal point: print_money, parse_amount and the units of
    src/src/cryptonote_basic/cryptonote_format_utils.cpp, get_xtype_from_string of
    src/contrib/epee/include/string_tools_lexical.h, and set_unit of
    src/src/simplewallet/simplewallet.cpp.  Text is a list of character codes. *)

From Stdlib Require Import String.
From S2P Require Import Prelude Fees.

(** ** Characters *)

Definition digit_char (d : Z) : Z := 48 + d.
Definition digit_text (ds : list Z) : list Z := digit_char <$> ds.
Definition point : Z := 46.

(** [epee::misc_utils::parse::isdigit]. *)
Definition digit_code (c : Z) : bool := (48 <=? c) && (c <=? 57).

(** What [std::isspace] accepts. *)
Definition white_space (c : Z) : bool := (c =? 32) || ((9 <=? c) && (c <=? 13)).

(** The functions of Boost: [boost::algorithm::trim] drops the white space at both ends, and
    [boost::lexical_cast<uint64_t>] of digits is their value when it fits. *)
Class Boost : Type := {
  boost_trim : list Z -> list Z;
  lexical_cast : list Z -> option Z;
  trim_spaces (l s r : list Z) : Forall (fun c => white_space c = true) l -> Forall (fun c => white_space c = false) s ->
    Forall (fun c => white_space c = true) r -> boost_trim (l ++ s ++ r) = s;
  lexical_cast_digits (ds : list Z) : ds <> [] -> Forall (is_digit 10) ds ->
    lexical_cast (digit_text ds) = if of_digits 10 ds <? 2 ^ 64 then Some (of_digits 10 ds) else None
}.

(** ** Printing *)

(** [std::to_string]. *)
Definition std_to_string (amount : Z) : list Z := digit_text (decimal_digits amount).

Definition insert_point (s : list Z) (decimal_point : nat) : list Z :=
  let s := if (length s <? decimal_point + 1)%nat then replicate (decimal_point + 1 - length s) 48 ++ s else s in
  if (0 <? decimal_point)%nat then take (length s - decimal_point) s ++ [point] ++ drop (length s - decimal_point) s else s.

(** [(unsigned int)-1], the default argument, stands for [default_decimal_point]. *)
Definition insert_money_decimal_point (default_decimal_point : Z) (s : list Z) (decimal_point : Z) : list Z :=
  insert_point s (Z.to_nat (if decimal_point =? u32 (-1) then default_decimal_point else decimal_point)).

Definition print_money (default_decimal_point amount decimal_point : Z) : list Z :=
  insert_money_decimal_point default_decimal_point (std_to_string amount) decimal_point.

(** ** Reading *)

Fixpoint find_first_of (c : Z) (s : list Z) : option nat :=
  match s with
  | [] => None
  | x :: s' => if x =? c then Some 0%nat else S <$> find_first_of c s'
  end.

(** The loop that drops zeros from the end as long as there are too many decimals, on the
    reversed text; what is left of [excess] is the number of decimals that are too many. *)
Fixpoint drop_zeros (excess : nat) (rev_s : list Z) : nat * list Z :=
  match excess, rev_s with
  | S e, c :: s' => if c =? 48 then drop_zeros e s' else (excess, rev_s)
  | _, _ => (excess, rev_s)
  end.

Definition get_xtype_from_string `{Boost} (str_id : list Z) : option Z :=
  if forallb digit_code str_id then lexical_cast str_id else None.

Definition parse_amount `{Boost} (default_decimal_point : nat) (str_amount : list Z) : option Z :=
  let str_amount := boost_trim str_amount in
  match
    match find_first_of point str_amount with
    | Some point_index =>
      let fraction_size := (length str_amount - point_index - 1)%nat in
      let '(excess, rev_s) := drop_zeros (fraction_size - default_decimal_point) (reverse str_amount) in
      let str_amount := reverse rev_s in
      if (0 <? excess)%nat then None
      else Some (take point_index str_amount ++ drop (S point_index) str_amount, (length str_amount - point_index - 1)%nat)
    | None => Some (str_amount, 0%nat)
    end
  with
  | None => None
  | Some ([], _) => None
  | Some (str_amount, fraction_size) => get_xtype_from_string (str_amount ++ replicate (default_decimal_point - fraction_size) 48)
  end.

(** ** Units *)

Definition valid_decimal_point (decimal_point : Z) : bool :=
  (decimal_point =? 12) || (decimal_point =? 9) || (decimal_point =? 8) || (decimal_point =? 6) || (decimal_point =? 3) || (decimal_point =? 0).

(** The new value of [default_decimal_point]. *)
Definition set_default_decimal_point (decimal_point : Z) : outcome Z :=
  _ ← throw_unless (valid_decimal_point decimal_point); Val decimal_point.

Definition get_unit (default_decimal_point decimal_point : Z) : outcome string :=
  let decimal_point := if decimal_point =? u32 (-1) then default_decimal_point else decimal_point in
  if decimal_point =? 12 then Val "monero"%string
  else if decimal_point =? 9 then Val "millinero"%string
  else if decimal_point =? 8 then Val "lode"%string
  else if decimal_point =? 6 then Val "micronero"%string
  else if decimal_point =? 3 then Val "nanonero"%string
  else if decimal_point =? 0 then Val "piconero"%string
  else Throw.

Definition unit_decimal_point (unit : string) : option Z :=
  if String.eqb unit "monero" then Some CRYPTONOTE_DISPLAY_DECIMAL_POINT
  else if String.eqb unit "millinero" then Some (u32 (CRYPTONOTE_DISPLAY_DECIMAL_POINT - 3))
  else if String.eqb unit "micronero" then Some (u32 (CRYPTONOTE_DISPLAY_DECIMAL_POINT - 6))
  else if String.eqb unit "nanonero" then Some (u32 (CRYPTONOTE_DISPLAY_DECIMAL_POINT - 9))
  else if String.eqb unit "piconero" then Some 0
  else None.

(** [verified] is whether the password was given; the wallet file is rewritten after that. *)
Definition set_unit (verified : bool) (default_decimal_point : Z) (unit : string) : outcome Z :=
  match unit_decimal_point unit with
  | None => Val default_decimal_point
  | Some decimal_point => if verified then set_default_decimal_point decimal_point else Val default_decimal_point
  end.

(** ** Lemmas *)

Lemma text_digit (ds : list Z) : Forall (is_digit 10) ds -> forallb digit_code (digit_text ds) = true.
Proof. induction 1 as [|d ds Hd _ IH]; [done|]. simpl. rewrite IH, andb_true_r. unfold digit_code, digit_char. unfold is_digit in Hd. lia. Qed.

Lemma text_space (ds : list Z) : Forall (is_digit 10) ds -> Forall (fun c => white_space c = false) (digit_text ds).
Proof. intros Hd. apply Forall_fmap. eapply Forall_impl; [exact Hd|]. unfold is_digit, white_space, digit_char. simpl. lia. Qed.

Lemma digit_not_point (d : Z) : is_digit 10 d -> (digit_char d =? point) = false.
Proof. unfold is_digit, digit_char, point. lia. Qed.

Lemma find_text (ds : list Z) : Forall (is_digit 10) ds -> find_first_of point (digit_text ds) = None.
Proof. induction 1 as [|d ds Hd _ IH]; [done|]. simpl. fold (digit_text ds). by rewrite digit_not_point, IH. Qed.

Lemma find_point (ds s : list Z) : Forall (is_digit 10) ds -> find_first_of point (digit_text ds ++ point :: s) = Some (length ds).
Proof. induction 1 as [|d ds Hd _ IH]; [done|]. simpl. fold (digit_text ds). by rewrite digit_not_point, IH. Qed.

Lemma text_zeros (k : nat) : replicate k 48 = digit_text (replicate k 0).
Proof. unfold digit_text. by rewrite fmap_replicate. Qed.

Lemma text_app (a b : list Z) : digit_text (a ++ b) = digit_text a ++ digit_text b.
Proof. apply fmap_app. Qed.

Lemma drop_zeros_zeros (e k : nat) (s : list Z) : (e <= k)%nat -> drop_zeros e (replicate k 48 ++ s) = (0%nat, replicate (k - e) 48 ++ s).
Proof.
  revert k. induction e as [|e IH]; intros k Hk; [by rewrite Nat.sub_0_r; destruct (replicate k 48 ++ s)|].
  destruct k as [|k]; [lia|]. cbn. apply IH. lia.
Qed.

Lemma digits_zeros (k : nat) : Forall (is_digit 10) (replicate k 0).
Proof. apply Forall_replicate. unfold is_digit. lia. Qed.

Section Parse.
Context `{Boost}.

Lemma get_xtype_digits (ds : list Z) :
  ds <> [] -> Forall (is_digit 10) ds ->
  get_xtype_from_string (digit_text ds) = if of_digits 10 ds <? 2 ^ 64 then Some (of_digits 10 ds) else None.
Proof. intros Hne Hd. unfold get_xtype_from_string. rewrite text_digit by done. by apply lexical_cast_digits. Qed.

(** ** Theorems *)

(** A number with decimals and white space around is read as its value in the smallest
    unit: zeros at the end do not matter, and the result is refused exactly when it does not
    fit into 64 bits. *)
Theorem parse_amount_correct (decimals : nat) (l r ds fs : list Z) (k : nat) :
  Forall (fun c => white_space c = true) l -> Forall (fun c => white_space c = true) r ->
  Forall (is_digit 10) ds -> Forall (is_digit 10) fs -> ds <> [] -> (length fs <= decimals)%nat ->
  let v := of_digits 10 (ds ++ fs) * 10 ^ Z.of_nat (decimals - length fs) in
  parse_amount decimals (l ++ (digit_text ds ++ point :: digit_text (fs ++ replicate k 0)) ++ r) = if v <? 2 ^ 64 then Some v else None.
Proof.
  intros Hl Hr Hd Hf Hne Hlen v. unfold parse_amount. rewrite trim_spaces; [|done| |done].
  2:{ apply Forall_app. split; [by apply text_space|]. constructor; [done|]. apply text_space, Forall_app. split; [done|apply digits_zeros]. }
  rewrite find_point by done. set (n := length ds). set (m := length fs).
  assert (length (digit_text ds) = n) as En by (unfold digit_text; by rewrite length_fmap).
  assert (length (digit_text fs) = m) as Em by (unfold digit_text; by rewrite length_fmap).
  assert (digit_text (fs ++ replicate k 0) = digit_text fs ++ replicate k 48) as -> by (by rewrite text_zeros, text_app).
  assert (length (digit_text ds ++ point :: digit_text fs ++ replicate k 48%Z) - n - 1 = m + k)%nat as ->.
  { rewrite length_app. cbn [length]. rewrite length_app, length_replicate. lia. }
  rewrite app_comm_cons, app_assoc, reverse_app, reverse_replicate, drop_zeros_zeros by lia. cbn [Nat.ltb Nat.leb].
  set (j := (k - (m + k - decimals))%nat). rewrite reverse_app, reverse_involutive, reverse_replicate.
  rewrite <- app_assoc, <- app_comm_cons. set (rest := digit_text fs ++ replicate j 48).
  assert (length (digit_text ds ++ point :: rest) - n - 1 = m + j)%nat as ->.
  { unfold rest. rewrite length_app. cbn [length]. rewrite length_app, length_replicate. lia. }
  rewrite take_app_length' by done. change (point :: rest) with ([point] ++ rest). rewrite app_assoc, drop_app_length' by (rewrite length_app; simpl; lia).
  unfold rest. rewrite text_zeros, <- !text_app. destruct (digit_text (ds ++ fs ++ replicate j 0)) as [|c s] eqn:E; [by destruct ds|].
  rewrite <- E, text_zeros, <- text_app, get_xtype_digits.
  - replace (of_digits 10 ((ds ++ fs ++ replicate j 0) ++ replicate (decimals - (m + j)) 0)) with v; [done|].
    rewrite <- !app_assoc, <- replicate_add, app_assoc, (of_digits_app _ (ds ++ fs)), of_digits_zeros, length_replicate. unfold v, j. f_equal.
    rewrite Z.add_0_r. f_equal. f_equal. lia.
  - by destruct ds.
  - repeat (apply Forall_app; split); try done; apply digits_zeros.
Qed.

(** A decimal beyond the last one that counts, other than zero, is refused. *)
Theorem parse_amount_too_precise (decimals : nat) (ds fs : list Z) (d : Z) :
  Forall (is_digit 10) ds -> Forall (is_digit 10) fs -> is_digit 10 d -> d <> 0 -> (decimals <= length fs)%nat ->
  parse_amount decimals (digit_text ds ++ point :: digit_text (fs ++ [d])) = None.
Proof.
  intros Hd Hf Hdd Hd0 Hlen. unfold parse_amount. rewrite <- (app_nil_r (digit_text ds ++ _)), <- (app_nil_l (_ ++ [])), trim_spaces; [|done| |done].
  2:{ apply Forall_app. split; [by apply text_space|]. constructor; [done|]. apply text_space, Forall_app. split; [done|by constructor]. }
  rewrite find_point by done. rewrite text_app, app_comm_cons, app_assoc, reverse_app, length_app, length_app. cbn [digit_text fmap list_fmap length reverse].
  assert (length (digit_text ds) = length ds) as -> by apply length_fmap. assert (length (digit_text fs) = length fs) as -> by apply length_fmap.
  destruct (length ds + S (length fs) + 1 - length ds - 1 - decimals)%nat as [|e] eqn:Ee; [lia|]. cbn.
  unfold digit_char. rewrite (proj2 (Z.eqb_neq _ _)) by lia. done.
Qed.

(** Whatever the number of decimals, an amount that is printed with it is read back. *)
Theorem money_roundtrip (default_decimal_point amount : Z) :
  in_u64 amount ->
  parse_amount (Z.to_nat default_decimal_point) (print_money default_decimal_point amount (u32 (-1))) = Some amount.
Proof.
  intros Ha. destruct (decimal_digits_spec amount Ha) as [Hd Ho]. unfold print_money, insert_money_decimal_point. rewrite Z.eqb_refl.
  generalize (Z.to_nat default_decimal_point). intros decimals. unfold insert_point, std_to_string.
  set (ds := decimal_digits amount) in *. set (pad := (decimals + 1 - length ds)%nat).
  assert ((if (length (digit_text ds) <? decimals + 1)%nat then replicate (decimals + 1 - length (digit_text ds)) 48 ++ digit_text ds else digit_text ds)
          = digit_text (replicate pad 0 ++ ds)) as ->.
  { rewrite text_app, <- text_zeros. unfold digit_text at 1 2. rewrite length_fmap. fold (digit_text ds). destruct (Nat.ltb_spec (length ds) (decimals + 1)); [done|].
    unfold pad. replace (decimals + 1 - length ds)%nat with 0%nat by lia. done. }
  set (full := replicate pad 0 ++ ds). assert (decimals < length full)%nat as Hlen by (unfold full, pad; rewrite length_app, length_replicate; lia).
  assert (Forall (is_digit 10) full) as Hf by (apply Forall_app; split; [apply digits_zeros|done]).
  assert (of_digits 10 full = amount) as Ev by (unfold full; rewrite of_digits_app, of_digits_zeros; lia).
  assert (length (digit_text full) = length full) as -> by apply length_fmap. unfold in_u64 in Ha. destruct (Nat.ltb_spec 0 decimals).
  - set (i := (length full - decimals)%nat). pose proof (parse_amount_correct decimals [] [] (take i full) (drop i full) 0) as E. cbv zeta in E.
    rewrite take_drop, Ev, length_drop in E. replace (decimals - (length full - i))%nat with 0%nat in E by lia. rewrite Z.mul_1_r in E.
    rewrite (proj2 (Z.ltb_lt amount (2 ^ 64))) in E by lia. rewrite <- E; [|done|done|by apply Forall_take|by apply Forall_drop| |lia].
    + f_equal. cbn [replicate]. rewrite app_nil_l, !app_nil_r. unfold digit_text. by rewrite fmap_take, fmap_drop.
    + intros Ht. apply (f_equal length) in Ht. rewrite length_take in Ht. cbn in Ht. lia.
  - unfold parse_amount. rewrite <- (app_nil_r (digit_text full)), <- (app_nil_l (_ ++ [])), trim_spaces; [|done|by apply text_space|done].
    rewrite find_text by done. destruct (digit_text full) as [|c s] eqn:E; [destruct full; [simpl in Hlen; lia|done]|]. rewrite <- E.
    replace (decimals - 0)%nat with 0%nat by lia. cbn [replicate]. rewrite app_nil_r, get_xtype_digits, Ev by (done || by destruct full).
    by rewrite (proj2 (Z.ltb_lt _ _)) by lia.
Qed.
End Parse.

(** With 8 decimals [set_unit] changes the unit for two names only: the name for the whole
    coin is that of Monero, and not the one that is then shown; three of the other names end in
    an exception, and the name that is shown is refused. *)
Theorem set_unit_units (default_decimal_point : Z) :
  (set_unit true default_decimal_point "monero" = Val 8 /\ get_unit 8 (u32 (-1)) = Val "lode"%string) /\
  set_unit true default_decimal_point "piconero" = Val 0 /\
  (forall unit, In unit ["millinero"; "micronero"; "nanonero"]%string <-> set_unit true default_decimal_point unit = Throw) /\
  set_unit true default_decimal_point "lode" = Val default_decimal_point.
Proof.
  split_and!; try reflexivity. intros unit. split; [by intros [<-|[<-|[<-|[]]]]|].
  unfold set_unit, unit_decimal_point.
  destruct (String.eqb_spec unit "monero") as [->|]; [done|]. destruct (String.eqb_spec unit "millinero") as [->|]; [by left|].
  destruct (String.eqb_spec unit "micronero") as [->|]; [by right; left|]. destruct (String.eqb_spec unit "nanonero") as [->|]; [by do 2 right; left|].
  by destruct (String.eqb unit "piconero").
Qed.

(** ** Examples *)

Fixpoint trim_left (s : list Z) : list Z :=
  match s with
  | c :: s' => if white_space c then trim_left s' else s
  | [] => []
  end.

Definition char_value (c : Z) : Z := c - 48.

Lemma trim_left_app (l s : list Z) : Forall (fun c => white_space c = true) l -> trim_left (l ++ s) = trim_left s.
Proof. induction 1 as [|c l Hc _ IH]; [done|]. simpl. by rewrite Hc. Qed.

Lemma trim_left_id (s : list Z) : Forall (fun c => white_space c = false) s -> trim_left s = s.
Proof. destruct 1 as [|c s Hc _]; [done|]. simpl. by rewrite Hc. Qed.

(** Functions that behave as described. *)
Program Instance boost_model : Boost := {|
  boost_trim s := reverse (trim_left (reverse (trim_left s)));
  lexical_cast s := let v := of_digits 10 (char_value <$> s) in if v <? 2 ^ 64 then Some v else None
|}.
Next Obligation.
  intros l s r Hl Hs Hr. simpl. rewrite trim_left_app by done. destruct (decide (s = [])) as [->|Hne].
  - rewrite app_nil_l. rewrite <- (app_nil_r r), trim_left_app by done. done.
  - assert (trim_left (s ++ r) = s ++ r) as ->.
    { destruct s as [|c s]; [done|]. simpl. apply Forall_cons in Hs as [-> _]. done. }
    rewrite reverse_app, trim_left_app, trim_left_id, reverse_involutive; [done|by apply Forall_reverse|by apply Forall_reverse].
Qed.
Next Obligation.
  intros ds _ _. simpl. unfold digit_text. rewrite <- list_fmap_compose.
  assert (char_value ∘ digit_char <$> ds = ds) as ->; [|done].
  rewrite <- (list_fmap_id ds) at 2. apply list_fmap_ext. intros i d _. unfold compose, char_value, digit_char, id. lia.
Qed.

Lemma money_roundtrip_witness : parse_amount 8 (print_money 8 1050000000 (u32 (-1))) = Some 1050000000.
Proof. apply (money_roundtrip 8). unfold in_u64. lia. Defined.

(** The text of a string. *)
Definition chars (s : string) : list Z := (fun c => Z.of_nat (Ascii.nat_of_ascii c)) <$> list_ascii_of_string s.

(** What parse_amount.cpp and test_tx_utils.cpp under src/tests/unit_tests expect holds with 12
    decimals and not with the 8 of [CRYPTONOTE_DISPLAY_DECIMAL_POINT]. *)
Example unit_tests_decimals :
  (parse_amount 12 <$> [chars "1"; chars "0.0001"; chars "   100.0001    "; chars "0.000000000001"; chars "100. 0000"])
  = [Some 1000000000000; Some 100000000; Some 100000100000000; Some 1; None] /\
  (parse_amount (Z.to_nat CRYPTONOTE_DISPLAY_DECIMAL_POINT) <$> [chars "1"; chars "0.0001"; chars "   100.0001    "; chars "0.000000000001"; chars "100. 0000"])
  = [Some 100000000; Some 10000; Some 10000010000; None; None].
Proof. split; vm_compute; reflexivity. Qed.
